(** * MojoLib containers: MojoSet, MojoMultiMap, MojoRelation

    A shallow embedding of the open-addressed hash containers of MojoLib
    (MojoSet.h, MojoMultiMap.h, MojoRelation.h) and of the properties their
    specification states about them.

    Conventions of the embedding.
    - A C++ [int] is a [Z].  Counters are assumed to stay far below 2^31, so
      signed overflow (undefined in C++) is not modelled.
    - A buffer pointer is an [option (list slot)]: [None] is the null pointer,
      [Some l] a live array of [length l] constructed slots.
    - A function returns [option]: [None] means that the C++ call has no
      defined result (a null or out-of-range access, a division by zero, or a
      loop or recursion that never comes back).
    - Placement-new on a null table constructs nothing (the compilers of the
      time test the pointer), so [Construct] after a failed [Allocate] is a
      no-op, as [Create] expects when it tests the buffer afterwards. *)

From Stdlib Require Import ZArith List Bool Lia.
Import ListNotations.
Local Open Scope Z_scope.

(* ------------------------------------------------------------------------- *)
(** ** External collaborators: status codes, configuration, allocator, keys *)

(** Modelled from the spec: the status codes of MojoStatus.h, which is not
    among the sources, under the names the containers use.
    [kMojoStatus_Ok] is zero, so [!status] reads "is ok". *)
Inductive MojoStatus : Type :=
| kMojoStatus_Ok
| kMojoStatus_NotInitialized
| kMojoStatus_DoubleInitialized
| kMojoStatus_InvalidArguments
| kMojoStatus_CouldNotAlloc
| kMojoStatus_NotFound.

Definition is_ok (st : MojoStatus) : bool :=
  match st with kMojoStatus_Ok => true | _ => false end.

Definition MojoStatus_eqb (a b : MojoStatus) : bool :=
  match a, b with
  | kMojoStatus_Ok, kMojoStatus_Ok
  | kMojoStatus_NotInitialized, kMojoStatus_NotInitialized
  | kMojoStatus_DoubleInitialized, kMojoStatus_DoubleInitialized
  | kMojoStatus_InvalidArguments, kMojoStatus_InvalidArguments
  | kMojoStatus_CouldNotAlloc, kMojoStatus_CouldNotAlloc
  | kMojoStatus_NotFound, kMojoStatus_NotFound => true
  | _, _ => false
  end.

(** Modelled from the spec: the configuration of MojoConfig.h, which is not
    among the sources; the fields are those [Create] reads. *)
Record MojoConfig : Type := mkConfig {
  cfg_AllocCountMin : Z;
  cfg_TableCountMin : Z;
  cfg_GrowThreshold : Z;
  cfg_ShrinkThreshold : Z;
  cfg_AutoGrow : bool;
  cfg_AutoShrink : bool;
  cfg_DynamicAlloc : bool
}.

(** Modelled from the spec: the allocator of MojoAlloc.h, which is not among
    the sources.  The only thing a container observes of its allocator is
    whether [Allocate] hands back a buffer or null.  The allocator bound to a
    container is therefore the script of the replies its coming calls will
    get: [true] is a buffer, [false] is null, and an exhausted script always
    succeeds.  [Free] has no observable effect. *)
Definition MojoAlloc : Type := list bool.

(** Modelled from the spec: [Allocate] of MojoAlloc.h takes the next reply
    of the script. *)
Definition Allocate (a : MojoAlloc) : bool * MojoAlloc :=
  match a with
  | [] => (true, [])
  | reply :: rest => (reply, rest)
  end.

(** The key contract: a hash, equality, the null predicate and the default
    constructed key, which is the one hash-null value. *)
Class MojoKey (key : Type) : Type := {
  GetHash : key -> Z;
  IsHashNull : key -> bool;
  key_eqb : key -> key -> bool;
  key_default : key;
  GetHash_range : forall k, 0 <= GetHash k < 2 ^ 64;
  key_eqb_eq : forall a b, key_eqb a b = true <-> a = b;
  IsHashNull_default : forall k, IsHashNull k = true <-> k = key_default
}.

(** What a multimap asks of its values: equality, a null predicate (used by
    the removal of one pair) and a default constructor. *)
Class MojoValue (value : Type) : Type := {
  value_IsHashNull : value -> bool;
  value_eqb : value -> value -> bool;
  value_default : value;
  value_eqb_eq : forall a b, value_eqb a b = true <-> a = b
}.

#[export] Instance MojoKey_as_value {key} `{MojoKey key} : MojoValue key := {
  value_IsHashNull := IsHashNull;
  value_eqb := key_eqb;
  value_default := key_default;
  value_eqb_eq := key_eqb_eq
}.

(** Modelled from the spec: the maximum of MojoUtil.h, which is not among
    the sources. *)
Definition MojoMax (a b : Z) : Z := if a <? b then b else a.

(** Modelled from the spec: the minimum of MojoUtil.h. *)
Definition MojoMin (a b : Z) : Z := if a <? b then a else b.

(* ------------------------------------------------------------------------- *)
(** ** Undefined results, arrays and loops *)

Notation "x <- e ;; k" :=
  (match e with Some x => k | None => None end)
  (at level 61, e at next level, right associativity).
Notation "' p <- e ;; k" :=
  (match e with Some p => k | None => None end)
  (at level 61, p pattern, e at next level, right associativity).

(** [table[i]] on an array of [length l] slots. *)
Definition zget {A} (l : list A) (i : Z) : option A :=
  if i <? 0 then None else nth_error l (Z.to_nat i).

Fixpoint list_set {A} (l : list A) (n : nat) (v : A) : list A :=
  match l, n with
  | [], _ => []
  | _ :: l', O => v :: l'
  | x :: l', S n' => x :: list_set l' n' v
  end.

(** [table[i] = v]. *)
Definition zset {A} (l : list A) (i : Z) (v : A) : option (list A) :=
  if (0 <=? i) && (i <? Z.of_nat (length l))
  then Some (list_set l (Z.to_nat i) v)
  else None.

(** One turn of a loop body either falls through to the next turn or leaves
    the loop ([return] or [break]) with a result. *)
Inductive step (S R : Type) : Type :=
| Next (s : S)
| Leave (r : R).
Arguments Next {S R} s.
Arguments Leave {S R} r.

(** The state a state-passing loop ends in, however it ended. *)
Definition loop_end {S} (r : step S S) : S :=
  match r with Next s => s | Leave s => s end.

(** [for (i = lo; ...; ++i)] over [n] turns. *)
Fixpoint for_up {S R} (n : nat) (i : Z)
    (body : Z -> S -> option (step S R)) (s : S) : option (step S R) :=
  match n with
  | O => Some (Next s)
  | Datatypes.S n' =>
      match body i s with
      | None => None
      | Some (Leave r) => Some (Leave r)
      | Some (Next s') => for_up n' (i + 1) body s'
      end
  end.

(** [for (i = lo; i < hi; ++i)] *)
Definition for_range {S R} (lo hi : Z)
    (body : Z -> S -> option (step S R)) (s : S) : option (step S R) :=
  for_up (Z.to_nat (hi - lo)) lo body s.

(** [for (i = hi; ...; --i)] over [n] turns. *)
Fixpoint for_down {S R} (n : nat) (i : Z)
    (body : Z -> S -> option (step S R)) (s : S) : option (step S R) :=
  match n with
  | O => Some (Next s)
  | Datatypes.S n' =>
      match body i s with
      | None => None
      | Some (Leave r) => Some (Leave r)
      | Some (Next s') => for_down n' (i - 1) body s'
      end
  end.

(** The two probing loops shared by every [FindEmptyOrMatching]: forward
    from [start_index] to the end of the table, then from 0 up to
    [start_index]; the first slot that satisfies [hit] is returned, and 0 when
    there is none.  [GetHash() % m_TableCount] divides by zero on an empty
    table (the count is never negative). *)
Definition probe_loop {A} (hit : A -> bool) (table : list A) (lo hi : Z)
  : option (step unit Z) :=
  for_range lo hi
    (fun i _ => x <- zget table i ;;
                Some (if hit x then Leave i else Next tt)) tt.

Definition probe {A} (hit : A -> bool) (table : option (list A))
    (hash table_count : Z) : option Z :=
  l <- table ;;
  if table_count <=? 0 then None else
  let start_index := hash mod table_count in
  r1 <- probe_loop hit l start_index table_count ;;
  match r1 with
  | Leave i => Some i
  | Next _ =>
      r2 <- probe_loop hit l 0 start_index ;;
      match r2 with
      | Leave i => Some i
      | Next _ => Some 0
      end
  end.

(* ------------------------------------------------------------------------- *)
(** ** MojoSet (MojoSet.h) *)

Module MojoSet.
Section WithKey.
Context {key : Type} `{MojoKey key}.

Record t : Type := mk {
  m_Alloc : option MojoAlloc;
  m_Keys : option (list key);
  m_ActiveCount : Z;
  m_AllocCount : Z;
  m_TableCount : Z;
  m_ChangeCount : Z;
  m_Status : MojoStatus;
  m_AllocCountMin : Z;
  m_TableCountMin : Z;
  m_GrowThreshold : Z;
  m_ShrinkThreshold : Z;
  m_AutoGrow : bool;
  m_AutoShrink : bool;
  m_DynamicAlloc : bool
}.

Definition set_Keys (s : t) (ks : option (list key)) : t :=
  mk (m_Alloc s) ks (m_ActiveCount s) (m_AllocCount s) (m_TableCount s)
     (m_ChangeCount s) (m_Status s) (m_AllocCountMin s) (m_TableCountMin s)
     (m_GrowThreshold s) (m_ShrinkThreshold s) (m_AutoGrow s) (m_AutoShrink s)
     (m_DynamicAlloc s).

Definition set_ActiveCount (s : t) (n : Z) : t :=
  mk (m_Alloc s) (m_Keys s) n (m_AllocCount s) (m_TableCount s)
     (m_ChangeCount s) (m_Status s) (m_AllocCountMin s) (m_TableCountMin s)
     (m_GrowThreshold s) (m_ShrinkThreshold s) (m_AutoGrow s) (m_AutoShrink s)
     (m_DynamicAlloc s).

Definition set_TableCount (s : t) (n : Z) : t :=
  mk (m_Alloc s) (m_Keys s) (m_ActiveCount s) (m_AllocCount s) n
     (m_ChangeCount s) (m_Status s) (m_AllocCountMin s) (m_TableCountMin s)
     (m_GrowThreshold s) (m_ShrinkThreshold s) (m_AutoGrow s) (m_AutoShrink s)
     (m_DynamicAlloc s).

Definition set_ChangeCount (s : t) (n : Z) : t :=
  mk (m_Alloc s) (m_Keys s) (m_ActiveCount s) (m_AllocCount s) (m_TableCount s)
     n (m_Status s) (m_AllocCountMin s) (m_TableCountMin s)
     (m_GrowThreshold s) (m_ShrinkThreshold s) (m_AutoGrow s) (m_AutoShrink s)
     (m_DynamicAlloc s).

Definition set_Status (s : t) (st : MojoStatus) : t :=
  mk (m_Alloc s) (m_Keys s) (m_ActiveCount s) (m_AllocCount s) (m_TableCount s)
     (m_ChangeCount s) st (m_AllocCountMin s) (m_TableCountMin s)
     (m_GrowThreshold s) (m_ShrinkThreshold s) (m_AutoGrow s) (m_AutoShrink s)
     (m_DynamicAlloc s).

(** [Init]: the configuration members are left indeterminate by the C++
    constructor; they are zero here and never read before [Create]. *)
Definition Init : t :=
  mk None None 0 0 0 0 kMojoStatus_NotInitialized 0 0 0 0 false false false.

Definition GetStatus (s : t) : MojoStatus := m_Status s.

(** [m_Keys[i]] and [m_Keys[i] = k]. *)
Definition key_at (s : t) (i : Z) : option key :=
  l <- m_Keys s ;; zget l i.

Definition store (s : t) (i : Z) (k : key) : option t :=
  l <- m_Keys s ;; l' <- zset l i k ;; Some (set_Keys s (Some l')).

Definition hit (k : key) (slot : key) : bool :=
  IsHashNull slot || key_eqb slot k.

Definition FindEmptyOrMatching (s : t) (k : key) : option Z :=
  probe (hit k) (m_Keys s) (GetHash k) (m_TableCount s).

Definition FindEmpty (s : t) (k : key) : option Z :=
  probe IsHashNull (m_Keys s) (GetHash k) (m_TableCount s).

Definition Reinsert (s : t) (index : Z) : option t :=
  k <- key_at s index ;;
  new_index <- FindEmptyOrMatching s k ;;
  if negb (new_index =? index) then
    s1 <- store s new_index k ;;
    store s1 index key_default
  else Some s.

(** The body shared by the two fix-up loops of [RemoveOne]; leaving the
    loop is its [return true]. *)
Definition RemoveOne_fix (i : Z) (s : t) : option (step t t) :=
  k <- key_at s i ;;
  if IsHashNull k then Some (Leave s)
  else s' <- Reinsert s i ;; Some (Next s').

Definition RemoveOne (s : t) (k : key) : option (t * bool) :=
  if IsHashNull k then Some (s, false) else
  index <- FindEmptyOrMatching s k ;;
  slot <- key_at s index ;;
  if IsHashNull slot then Some (s, false) else
  (* Clear the slot *)
  s1 <- store s index key_default ;;
  let s2 := set_ActiveCount s1 (m_ActiveCount s1 - 1) in
  (* Now fix up entries after this *)
  r1 <- for_range (index + 1) (m_TableCount s2) RemoveOne_fix s2 ;;
  match r1 with
  | Leave s3 => Some (s3, true)
  | Next s3 =>
      r2 <- for_range 0 index RemoveOne_fix s3 ;;
      Some (loop_end r2, true)
  end.

(** The loops of the in-place branches of [Resize]. *)
Definition reinsert_occupied (i : Z) (s : t) : option (step t t) :=
  k <- key_at s i ;;
  if negb (IsHashNull k) then s' <- Reinsert s i ;; Some (Next s')
  else Some (Next s).

Definition reinsert_until_empty (i : Z) (s : t) : option (step t t) :=
  k <- key_at s i ;;
  if IsHashNull k then Some (Leave s)   (* break *)
  else s' <- Reinsert s i ;; Some (Next s').

Definition Resize_in_place (s : t) (new_table_count : Z) : option t :=
  if new_table_count <? m_TableCount s then
    (* Shrink table in place *)
    let old_table_count := m_TableCount s in
    let s1 := set_TableCount s new_table_count in
    r <- for_range 0 old_table_count reinsert_occupied s1 ;;
    Some (loop_end r)
  else if m_TableCount s <? new_table_count then
    (* Grow table in place *)
    let old_table_count := m_TableCount s in
    let s1 := set_TableCount s new_table_count in
    r1 <- for_range 0 old_table_count reinsert_occupied s1 ;;
    r2 <- for_range old_table_count new_table_count
            reinsert_until_empty (loop_end r1) ;;
    Some (loop_end r2)
  else Some s.

(** [Resize] re-enters [Insert] when it moves the keys to a fresh buffer, and
    [Insert] re-enters [Resize] through [AutoGrow].  The functions of this
    section take the nested [Insert] as a parameter; [Insert] ties the knot,
    its first argument bounding the depth of the nesting. *)
Section Nested.
Variable insert : t -> key -> option t.

Definition Resize_with (s : t) (new_table_count new_capacity : Z)
  : option t :=
  match m_Alloc s with
  | Some alloc =>
      if negb (m_AllocCount s =? new_capacity) then
        let old_keys := m_Keys s in
        let old_table_count := m_TableCount s in
        (* Allocate some new memory *)
        let '(new_keys, alloc') :=
          if negb (new_capacity =? 0) then
            let '(reply, rest) := Allocate alloc in
            (if reply
             then Some (repeat key_default (Z.to_nat new_capacity))
             else None, rest)
          else (None, alloc) in
        let s1 :=
          mk (Some alloc') new_keys 0 new_capacity new_table_count
             (m_ChangeCount s) (m_Status s) (m_AllocCountMin s)
             (m_TableCountMin s) (m_GrowThreshold s) (m_ShrinkThreshold s)
             (m_AutoGrow s) (m_AutoShrink s) (m_DynamicAlloc s) in
        match old_keys, new_keys with
        | Some old, Some _ =>
            r <- for_range 0 old_table_count
                   (fun i s' =>
                      k <- zget old i ;;
                      if negb (IsHashNull k)
                      then s'' <- insert s' k ;; Some (Next s'')
                      else Some (@Next t t s')) s1 ;;
            Some (loop_end r)
        | _, _ => Some s1
        end
      else Resize_in_place s new_table_count
  | None => Resize_in_place s new_table_count
  end.

Definition grow_due (s : t) : bool :=
  m_TableCount s * m_GrowThreshold s <=? m_ActiveCount s * 100.

Definition Grow_with (s : t) : option t :=
  (* Make more room if table is getting crowded *)
  if grow_due s then
    let new_table_count := m_TableCount s * 2 in
    let new_capacity := MojoMax (m_AllocCount s) new_table_count in
    if negb (m_DynamicAlloc s) then
      let new_capacity := m_AllocCount s in
      let new_table_count := MojoMin new_table_count new_capacity in
      Resize_with s new_table_count new_capacity
    else Resize_with s new_table_count new_capacity
  else Some s.

Definition shrink_due (s : t) : bool :=
  (m_TableCountMin s <? m_TableCount s)
  && (m_ActiveCount s * 100 <? m_TableCount s * m_ShrinkThreshold s).

Definition Shrink_with (s : t) : option t :=
  (* Shrink if it's getting too empty *)
  if shrink_due s then
    let new_table_count := MojoMax (m_TableCount s / 2) (m_TableCountMin s) in
    let new_capacity := MojoMax new_table_count (m_AllocCountMin s) in
    if negb (m_DynamicAlloc s) then
      Resize_with s new_table_count (m_AllocCount s)
    else Resize_with s new_table_count new_capacity
  else Some s.

Definition AutoGrow_with (s : t) : option t :=
  if m_AutoGrow s then Grow_with s else Some s.

Definition AutoShrink_with (s : t) : option t :=
  if m_AutoShrink s then Shrink_with s else Some s.

Definition Insert_with (s : t) (k : key) : option (t * MojoStatus) :=
  let status := m_Status s in
  if is_ok status then
    if IsHashNull k then Some (s, kMojoStatus_InvalidArguments)
    else
      s1 <- AutoGrow_with s ;;
      if m_ActiveCount s1 <? m_TableCount s1 then
        index <- FindEmptyOrMatching s1 k ;;
        slot <- key_at s1 index ;;
        if IsHashNull slot then
          s2 <- store s1 index k ;;
          let s3 := set_ActiveCount s2 (m_ActiveCount s2 + 1) in
          Some (set_ChangeCount s3 (m_ChangeCount s3 + 1), status)
        else Some (s1, status)
      else Some (s1, kMojoStatus_CouldNotAlloc)
  else Some (s, status).

End Nested.

Fixpoint Insert (depth : nat) (s : t) (k : key) : option (t * MojoStatus) :=
  match depth with
  | O => None
  | S depth' =>
      Insert_with (fun s' k' => option_map fst (Insert depth' s' k')) s k
  end.

Definition nested_insert (depth : nat) (s : t) (k : key) : option t :=
  option_map fst (Insert depth s k).

Definition Resize (depth : nat) := Resize_with (nested_insert depth).
Definition Grow (depth : nat) := Grow_with (nested_insert depth).
Definition Shrink (depth : nat) := Shrink_with (nested_insert depth).
Definition AutoGrow (depth : nat) := AutoGrow_with (nested_insert depth).
Definition AutoShrink (depth : nat) := AutoShrink_with (nested_insert depth).

Definition Create (depth : nat) (s : t) (config : MojoConfig)
    (alloc : MojoAlloc) (fixed_array : option (list key))
    (fixed_array_count : Z) : option (t * MojoStatus) :=
  if negb (MojoStatus_eqb (m_Status s) kMojoStatus_NotInitialized) then
    Some (set_Status s kMojoStatus_DoubleInitialized,
          kMojoStatus_DoubleInitialized)
  else if (cfg_AllocCountMin config <=? 1)
          || (cfg_TableCountMin config <=? 1)
          || (cfg_GrowThreshold config <=? cfg_ShrinkThreshold config * 2) then
    Some (set_Status s kMojoStatus_InvalidArguments,
          kMojoStatus_InvalidArguments)
  else
    let m_alloc :=
      match fixed_array with Some _ => None | None => Some alloc end in
    let s1 :=
      mk m_alloc fixed_array 0 fixed_array_count (m_TableCount s)
         (m_ChangeCount s) kMojoStatus_Ok
         (cfg_AllocCountMin config) (cfg_TableCountMin config)
         (cfg_GrowThreshold config) (cfg_ShrinkThreshold config)
         (cfg_AutoGrow config) (cfg_AutoShrink config)
         (cfg_DynamicAlloc config
          && match m_alloc with Some _ => true | None => false end) in
    s2 <- match m_Keys s1 with
          | None => Resize depth s1 (m_TableCountMin s1)
                      (MojoMax (m_AllocCountMin s1) (m_TableCountMin s1))
          | Some _ => Some s1
          end ;;
    match m_Keys s2 with
    | None => Some (set_Status s2 kMojoStatus_CouldNotAlloc,
                    kMojoStatus_CouldNotAlloc)
    | Some _ => Some (s2, m_Status s2)
    end.

Definition Destroy (s : t) : option t :=
  _ <- Resize 0 s 0 0 ;; Some Init.

Definition Reset (depth : nat) (s : t) : option t :=
  r <- for_range 0 (m_TableCount s)
         (fun i s' => s'' <- store s' i key_default ;;
                      Some (@Next t t s'')) s ;;
  let s1 := set_ActiveCount (loop_end r) 0 in
  let s2 := set_ChangeCount s1 (m_ChangeCount s1 + 1) in
  Resize depth s2 (m_TableCountMin s2)
    (MojoMax (m_AllocCountMin s2) (m_TableCountMin s2)).

Definition Remove (depth : nat) (s : t) (k : key)
  : option (t * MojoStatus) :=
  if negb (is_ok (m_Status s)) then Some (s, m_Status s)
  else if negb (IsHashNull k) then
    '(s1, removed) <- RemoveOne s k ;;
    if removed then
      let s2 := set_ChangeCount s1 (m_ChangeCount s1 + 1) in
      s3 <- AutoShrink depth s2 ;;
      Some (s3, kMojoStatus_Ok)
    else Some (s1, kMojoStatus_NotFound)
  else Some (s, kMojoStatus_NotFound).

Definition Update (depth : nat) (s : t) : option (t * MojoStatus) :=
  let status := m_Status s in
  if is_ok (m_Status s) then
    s1 <- Grow depth s ;;
    s2 <- Shrink depth s1 ;;
    Some (s2, status)
  else Some (s, status).

Definition Contains (s : t) (k : key) : option bool :=
  if is_ok (m_Status s) && negb (IsHashNull k) then
    index <- FindEmptyOrMatching s k ;;
    slot <- key_at s index ;;
    Some (negb (IsHashNull slot))
  else Some false.

Definition GetCount (s : t) : Z := m_ActiveCount s.

Definition _GetNextIndex (s : t) (index : Z) : option Z :=
  r <- for_range (index + 1) (m_TableCount s)
         (fun i _ => k <- key_at s i ;;
                     Some (if negb (IsHashNull k) then Leave i else Next tt))
         tt ;;
  Some (match r with Leave i => i | Next _ => m_TableCount s end).

Definition _GetFirstIndex (s : t) : option Z := _GetNextIndex s (-1).

Definition _IsIndexValid (s : t) (index : Z) : bool :=
  is_ok (m_Status s) && (index <? m_TableCount s).

Definition _GetKeyAt (s : t) (index : Z) : option key := key_at s index.

(** [for (i = _GetFirstIndex(); _IsIndexValid(i); i = _GetNextIndex(i))],
    collecting what the body pushes.  Every turn moves the index forward, so
    [m_TableCount + 1] turns are enough. *)
Fixpoint cursor_loop (turns : nat) (s : t) (limit : option (key -> bool))
    (i : Z) (pushed : list key) : option (list key) :=
  if _IsIndexValid s i then
    match turns with
    | O => None
    | S turns' =>
        k <- _GetKeyAt s i ;;
        let pushed' :=
          match limit with
          | Some contains => if contains k then pushed ++ [k] else pushed
          | None => pushed ++ [k]
          end in
        j <- _GetNextIndex s i ;;
        cursor_loop turns' s limit j pushed'
    end
  else Some pushed.

(** [Enumerate]: the keys pushed to the collector, in order; [limit] is the
    [Contains] of the limiting set, when there is one. *)
Definition Enumerate (s : t) (limit : option (key -> bool))
  : option (list key) :=
  i <- _GetFirstIndex s ;;
  cursor_loop (Z.to_nat (m_TableCount s) + 1) s limit i [].

Definition _GetEnumerationCost (s : t) : Z := GetCount s.
Definition _GetChangeCount (s : t) : Z := m_ChangeCount s.

End WithKey.
Arguments t key : clear implicits.
End MojoSet.

(* ------------------------------------------------------------------------- *)
(** ** MojoKeyValue (MojoKeyValue.h) *)

(** Modelled from the spec: the slot of MojoKeyValue.h, which is not among
    the sources: a key with its value, under the member names the containers
    use. *)
Record MojoKeyValue (key value : Type) : Type := mkKeyValue {
  kv_key : key;
  kv_value : value
}.
Arguments mkKeyValue {key value} _ _.
Arguments kv_key {key value} _.
Arguments kv_value {key value} _.

(** Modelled from the spec: [KeyValue()], the default constructed slot, whose
    key is hash-null. *)
Definition KeyValue_default {key value} `{MojoKey key} `{MojoValue value}
  : MojoKeyValue key value :=
  mkKeyValue key_default value_default.

(* ------------------------------------------------------------------------- *)
(** ** MojoMultiMap (MojoMultiMap.h) *)

Module MojoMultiMap.
Section WithKeyValue.
Context {key value : Type} `{MojoKey key} `{MojoValue value}.

Record t : Type := mk {
  m_Alloc : option MojoAlloc;
  m_KeyValues : option (list (MojoKeyValue key value));
  m_NotFoundValue : value;
  m_ActiveCount : Z;
  m_AllocCount : Z;
  m_TableCount : Z;
  m_ChangeCount : Z;
  m_Status : MojoStatus;
  m_AllocCountMin : Z;
  m_TableCountMin : Z;
  m_GrowThreshold : Z;
  m_ShrinkThreshold : Z;
  m_AutoGrow : bool;
  m_AutoShrink : bool;
  m_DynamicAlloc : bool
}.

Definition set_KeyValues (s : t)
    (kvs : option (list (MojoKeyValue key value))) : t :=
  mk (m_Alloc s) kvs (m_NotFoundValue s) (m_ActiveCount s) (m_AllocCount s)
     (m_TableCount s) (m_ChangeCount s) (m_Status s) (m_AllocCountMin s)
     (m_TableCountMin s) (m_GrowThreshold s) (m_ShrinkThreshold s)
     (m_AutoGrow s) (m_AutoShrink s) (m_DynamicAlloc s).

Definition set_ActiveCount (s : t) (n : Z) : t :=
  mk (m_Alloc s) (m_KeyValues s) (m_NotFoundValue s) n (m_AllocCount s)
     (m_TableCount s) (m_ChangeCount s) (m_Status s) (m_AllocCountMin s)
     (m_TableCountMin s) (m_GrowThreshold s) (m_ShrinkThreshold s)
     (m_AutoGrow s) (m_AutoShrink s) (m_DynamicAlloc s).

Definition set_TableCount (s : t) (n : Z) : t :=
  mk (m_Alloc s) (m_KeyValues s) (m_NotFoundValue s) (m_ActiveCount s)
     (m_AllocCount s) n (m_ChangeCount s) (m_Status s) (m_AllocCountMin s)
     (m_TableCountMin s) (m_GrowThreshold s) (m_ShrinkThreshold s)
     (m_AutoGrow s) (m_AutoShrink s) (m_DynamicAlloc s).

Definition set_ChangeCount (s : t) (n : Z) : t :=
  mk (m_Alloc s) (m_KeyValues s) (m_NotFoundValue s) (m_ActiveCount s)
     (m_AllocCount s) (m_TableCount s) n (m_Status s) (m_AllocCountMin s)
     (m_TableCountMin s) (m_GrowThreshold s) (m_ShrinkThreshold s)
     (m_AutoGrow s) (m_AutoShrink s) (m_DynamicAlloc s).

Definition set_Status (s : t) (st : MojoStatus) : t :=
  mk (m_Alloc s) (m_KeyValues s) (m_NotFoundValue s) (m_ActiveCount s)
     (m_AllocCount s) (m_TableCount s) (m_ChangeCount s) st
     (m_AllocCountMin s) (m_TableCountMin s) (m_GrowThreshold s)
     (m_ShrinkThreshold s) (m_AutoGrow s) (m_AutoShrink s) (m_DynamicAlloc s).

(** [Init]: as for the set, the members [Init] does not assign are given
    their default values. *)
Definition Init : t :=
  mk None None value_default 0 0 0 0 kMojoStatus_NotInitialized
     0 0 0 0 false false false.

Definition GetStatus (s : t) : MojoStatus := m_Status s.

(** [m_KeyValues[i]] and [m_KeyValues[i] = kv]. *)
Definition kv_at (s : t) (i : Z) : option (MojoKeyValue key value) :=
  l <- m_KeyValues s ;; zget l i.

Definition store (s : t) (i : Z) (kv : MojoKeyValue key value) : option t :=
  l <- m_KeyValues s ;; l' <- zset l i kv ;;
  Some (set_KeyValues s (Some l')).

Definition is_empty (slot : MojoKeyValue key value) : bool :=
  IsHashNull (kv_key slot).

Definition hit_key (k : key) (slot : MojoKeyValue key value) : bool :=
  IsHashNull (kv_key slot) || key_eqb (kv_key slot) k.

Definition hit_pair (k : key) (v : value) (slot : MojoKeyValue key value)
  : bool :=
  IsHashNull (kv_key slot)
  || (key_eqb (kv_key slot) k && value_eqb (kv_value slot) v).

(** [FindEmptyOrMatching( key )] *)
Definition FindEmptyOrMatching (s : t) (k : key) : option Z :=
  probe (hit_key k) (m_KeyValues s) (GetHash k) (m_TableCount s).

(** [FindEmptyOrMatching( key, value )] *)
Definition FindEmptyOrMatching2 (s : t) (k : key) (v : value) : option Z :=
  probe (hit_pair k v) (m_KeyValues s) (GetHash k) (m_TableCount s).

Definition Reinsert (s : t) (index : Z) : option t :=
  kv <- kv_at s index ;;
  new_index <- FindEmptyOrMatching2 s (kv_key kv) (kv_value kv) ;;
  if negb (new_index =? index) then
    (* Occupy new location, vacate old location *)
    s1 <- store s new_index kv ;;
    store s1 index KeyValue_default
  else Some s.

(** The body of the two loops of [FixUp]; the loop state carries [count],
    and [if( !count-- ) return;] leaves the loop. *)
Definition FixUp_body (i : Z) (sc : t * Z) : option (step (t * Z) (t * Z)) :=
  let '(s, count) := sc in
  if count =? 0 then Some (Leave (s, count - 1))
  else
    let count := count - 1 in
    kv <- kv_at s i ;;
    if negb (is_empty kv) then s' <- Reinsert s i ;; Some (Next (s', count))
    else Some (Next (s, count)).

Definition FixUp (s : t) (index count : Z) : option t :=
  r1 <- for_range (index + 1) (m_TableCount s) FixUp_body (s, count) ;;
  match r1 with
  | Leave sc => Some (fst sc)
  | Next sc =>
      r2 <- for_range 0 index FixUp_body sc ;;
      Some (fst (loop_end r2))
  end.

(** The [while] loop shared by [RemoveAll] and [RemoveOne]: from [i], clear
    the slots that [doomed] selects until an empty slot is met, counting the
    slots passed.  The loop comes back to its first slot after [m_TableCount]
    turns; when two rounds have met no empty slot nothing was cleared and it
    never ends. *)
Fixpoint clear_run (turns : nat) (doomed : MojoKeyValue key value -> bool)
    (s : t) (count i : Z) : option (t * Z) :=
  kv <- kv_at s i ;;
  if is_empty kv then Some (s, count)
  else
    match turns with
    | O => None
    | S turns' =>
        s1 <- (if doomed kv then
                 s' <- store s i KeyValue_default ;;
                 Some (set_ActiveCount s' (m_ActiveCount s' - 1))
               else Some s) ;;
        clear_run turns' doomed s1 (count + 1) ((i + 1) mod m_TableCount s1)
    end.

Definition run_turns (s : t) : nat := Z.to_nat (2 * m_TableCount s).

Definition RemoveAll (s : t) (k : key) : option (t * bool) :=
  let before_count := m_ActiveCount s in
  s' <- (if negb (IsHashNull k) then
           index <- FindEmptyOrMatching s k ;;
           kv <- kv_at s index ;;
           if negb (is_empty kv) then
             '(s1, count) <- clear_run (run_turns s)
                               (fun slot => key_eqb (kv_key slot) k)
                               s 0 index ;;
             FixUp s1 index count
           else Some s
         else Some s) ;;
  Some (s', m_ActiveCount s' <? before_count).

Definition RemoveOne (s : t) (k : key) (v : value) : option (t * bool) :=
  let before_count := m_ActiveCount s in
  s' <- (if negb (IsHashNull k) && negb (value_IsHashNull v) then
           index <- FindEmptyOrMatching s k ;;
           kv <- kv_at s index ;;
           if negb (is_empty kv) then
             '(s1, count) <- clear_run (run_turns s)
                               (fun slot => key_eqb (kv_key slot) k
                                            && value_eqb (kv_value slot) v)
                               s 0 index ;;
             FixUp s1 index count
           else Some s
         else Some s) ;;
  Some (s', m_ActiveCount s' <? before_count).

Definition reinsert_occupied (i : Z) (s : t) : option (step t t) :=
  kv <- kv_at s i ;;
  if negb (is_empty kv) then s' <- Reinsert s i ;; Some (Next s')
  else Some (Next s).

Definition reinsert_until_empty (i : Z) (s : t) : option (step t t) :=
  kv <- kv_at s i ;;
  if is_empty kv then Some (Leave s)   (* break *)
  else s' <- Reinsert s i ;; Some (Next s').

Definition Resize_in_place (s : t) (new_table_count : Z) : option t :=
  if new_table_count <? m_TableCount s then
    (* Shrink table in place *)
    let old_table_count := m_TableCount s in
    let s1 := set_TableCount s new_table_count in
    r <- for_range 0 old_table_count reinsert_occupied s1 ;;
    Some (loop_end r)
  else if m_TableCount s <? new_table_count then
    (* Grow table in place *)
    let old_table_count := m_TableCount s in
    let s1 := set_TableCount s new_table_count in
    r1 <- for_range 0 old_table_count reinsert_occupied s1 ;;
    r2 <- for_range old_table_count new_table_count
            reinsert_until_empty (loop_end r1) ;;
    Some (loop_end r2)
  else Some s.

Section Nested.
Variable insert : t -> key -> value -> option t.

Definition Resize_with (s : t) (new_table_count new_capacity : Z)
  : option t :=
  match m_Alloc s with
  | Some alloc =>
      if negb (m_AllocCount s =? new_capacity) then
        let old_key_values := m_KeyValues s in
        let old_table_count := m_TableCount s in
        (* Allocate some new memory *)
        let '(new_key_values, alloc') :=
          if negb (new_capacity =? 0) then
            let '(reply, rest) := Allocate alloc in
            (if reply
             then Some (repeat KeyValue_default (Z.to_nat new_capacity))
             else None, rest)
          else (None, alloc) in
        let s1 :=
          mk (Some alloc') new_key_values (m_NotFoundValue s) 0 new_capacity
             new_table_count (m_ChangeCount s) (m_Status s)
             (m_AllocCountMin s) (m_TableCountMin s) (m_GrowThreshold s)
             (m_ShrinkThreshold s) (m_AutoGrow s) (m_AutoShrink s)
             (m_DynamicAlloc s) in
        match old_key_values, new_key_values with
        | Some old, Some _ =>
            r <- for_range 0 old_table_count
                   (fun i s' =>
                      kv <- zget old i ;;
                      if negb (is_empty kv)
                      then s'' <- insert s' (kv_key kv) (kv_value kv) ;;
                           Some (Next s'')
                      else Some (@Next t t s')) s1 ;;
            Some (loop_end r)
        | _, _ => Some s1
        end
      else Resize_in_place s new_table_count
  | None => Resize_in_place s new_table_count
  end.

Definition grow_due (s : t) : bool :=
  m_TableCount s * m_GrowThreshold s <=? m_ActiveCount s * 100.

Definition Grow_with (s : t) : option t :=
  (* Make more room if table is getting crowded *)
  if grow_due s then
    let new_table_count := m_TableCount s * 2 in
    let new_capacity := MojoMax (m_AllocCount s) new_table_count in
    if negb (m_DynamicAlloc s) then
      let new_capacity := m_AllocCount s in
      let new_table_count := MojoMin new_table_count new_capacity in
      Resize_with s new_table_count new_capacity
    else Resize_with s new_table_count new_capacity
  else Some s.

Definition shrink_due (s : t) : bool :=
  (m_TableCountMin s <? m_TableCount s)
  && (m_ActiveCount s * 100 <? m_TableCount s * m_ShrinkThreshold s).

Definition Shrink_with (s : t) : option t :=
  (* Shrink if it's getting too empty *)
  if shrink_due s then
    let new_table_count := MojoMax (m_TableCount s / 2) (m_TableCountMin s) in
    let new_capacity := MojoMax new_table_count (m_AllocCountMin s) in
    if negb (m_DynamicAlloc s) then
      Resize_with s new_table_count (m_AllocCount s)
    else Resize_with s new_table_count new_capacity
  else Some s.

Definition AutoGrow_with (s : t) : option t :=
  if m_AutoGrow s then Grow_with s else Some s.

Definition AutoShrink_with (s : t) : option t :=
  if m_AutoShrink s then Shrink_with s else Some s.

Definition Insert_with (s : t) (k : key) (v : value)
  : option (t * MojoStatus) :=
  let status := m_Status s in
  if is_ok status then
    if IsHashNull k then Some (s, kMojoStatus_InvalidArguments)
    else
      s1 <- AutoGrow_with s ;;
      if m_ActiveCount s1 <? m_TableCount s1 then
        index <- FindEmptyOrMatching2 s1 k v ;;
        slot <- kv_at s1 index ;;
        if is_empty slot then
          s2 <- store s1 index (mkKeyValue k v) ;;
          let s3 := set_ActiveCount s2 (m_ActiveCount s2 + 1) in
          Some (set_ChangeCount s3 (m_ChangeCount s3 + 1), status)
        else Some (s1, status)
      else Some (s1, kMojoStatus_CouldNotAlloc)
  else Some (s, status).

End Nested.

Fixpoint Insert (depth : nat) (s : t) (k : key) (v : value)
  : option (t * MojoStatus) :=
  match depth with
  | O => None
  | S depth' =>
      Insert_with (fun s' k' v' => option_map fst (Insert depth' s' k' v'))
        s k v
  end.

Definition nested_insert (depth : nat) (s : t) (k : key) (v : value)
  : option t :=
  option_map fst (Insert depth s k v).

Definition Resize (depth : nat) := Resize_with (nested_insert depth).
Definition Grow (depth : nat) := Grow_with (nested_insert depth).
Definition Shrink (depth : nat) := Shrink_with (nested_insert depth).
Definition AutoGrow (depth : nat) := AutoGrow_with (nested_insert depth).
Definition AutoShrink (depth : nat) := AutoShrink_with (nested_insert depth).

Definition Create (depth : nat) (s : t) (not_found_value : value)
    (config : MojoConfig) (alloc : MojoAlloc)
    (fixed_array : option (list (MojoKeyValue key value)))
    (fixed_array_count : Z)
  : option (t * MojoStatus) :=
  if negb (MojoStatus_eqb (m_Status s) kMojoStatus_NotInitialized) then
    Some (set_Status s kMojoStatus_DoubleInitialized,
          kMojoStatus_DoubleInitialized)
  else if (cfg_AllocCountMin config <=? 1)
          || (cfg_TableCountMin config <=? 1)
          || (cfg_GrowThreshold config <=? cfg_ShrinkThreshold config * 2) then
    Some (set_Status s kMojoStatus_InvalidArguments,
          kMojoStatus_InvalidArguments)
  else
    let m_alloc :=
      match fixed_array with Some _ => None | None => Some alloc end in
    let s1 :=
      mk m_alloc fixed_array not_found_value 0 fixed_array_count
         (m_TableCount s) (m_ChangeCount s) kMojoStatus_Ok
         (cfg_AllocCountMin config) (cfg_TableCountMin config)
         (cfg_GrowThreshold config) (cfg_ShrinkThreshold config)
         (cfg_AutoGrow config) (cfg_AutoShrink config)
         (cfg_DynamicAlloc config
          && match m_alloc with Some _ => true | None => false end) in
    s2 <- match m_KeyValues s1 with
          | None => Resize depth s1 (m_TableCountMin s1)
                      (MojoMax (m_AllocCountMin s1) (m_TableCountMin s1))
          | Some _ => Some s1
          end ;;
    match m_KeyValues s2 with
    | None => Some (set_Status s2 kMojoStatus_CouldNotAlloc,
                    kMojoStatus_CouldNotAlloc)
    | Some _ => Some (s2, m_Status s2)
    end.

Definition Destroy (s : t) : option t :=
  _ <- Resize 0 s 0 0 ;; Some Init.

Definition Reset (depth : nat) (s : t) : option t :=
  r <- for_range 0 (m_TableCount s)
         (fun i s' => s'' <- store s' i KeyValue_default ;;
                      Some (@Next t t s'')) s ;;
  let s1 := set_ActiveCount (loop_end r) 0 in
  let s2 := set_ChangeCount s1 (m_ChangeCount s1 + 1) in
  Resize depth s2 (m_TableCountMin s2)
    (MojoMax (m_AllocCountMin s2) (m_TableCountMin s2)).

(** [Remove( key )] *)
Definition Remove (depth : nat) (s : t) (k : key)
  : option (t * MojoStatus) :=
  if negb (is_ok (m_Status s)) then Some (s, m_Status s)
  else if negb (IsHashNull k) then
    '(s1, removed) <- RemoveAll s k ;;
    if removed then
      let s2 := set_ChangeCount s1 (m_ChangeCount s1 + 1) in
      s3 <- AutoShrink depth s2 ;;
      Some (s3, kMojoStatus_Ok)
    else Some (s1, kMojoStatus_NotFound)
  else Some (s, kMojoStatus_NotFound).

(** [Remove( key, value )] *)
Definition Remove2 (depth : nat) (s : t) (k : key) (v : value)
  : option (t * MojoStatus) :=
  if negb (is_ok (m_Status s)) then Some (s, m_Status s)
  else if negb (IsHashNull k) then
    '(s1, removed) <- RemoveOne s k v ;;
    if removed then
      let s2 := set_ChangeCount s1 (m_ChangeCount s1 + 1) in
      s3 <- AutoShrink depth s2 ;;
      Some (s3, kMojoStatus_Ok)
    else Some (s1, kMojoStatus_NotFound)
  else Some (s, kMojoStatus_NotFound).

Definition Update (depth : nat) (s : t) : option (t * MojoStatus) :=
  let status := m_Status s in
  if is_ok (m_Status s) then
    s1 <- Grow depth s ;;
    s2 <- Shrink depth s1 ;;
    Some (s2, status)
  else Some (s, status).

Definition Find (s : t) (k : key) : option value :=
  if is_ok (m_Status s) && negb (IsHashNull k) then
    index <- FindEmptyOrMatching s k ;;
    slot <- kv_at s index ;;
    if negb (is_empty slot) then Some (kv_value slot)
    else Some (m_NotFoundValue s)
  else Some (m_NotFoundValue s).

Definition _GetFirstIndexOf (s : t) (k : key) : option Z :=
  if is_ok (m_Status s) && negb (IsHashNull k) then
    index <- FindEmptyOrMatching s k ;;
    slot <- kv_at s index ;;
    if negb (is_empty slot) then Some index else Some (m_TableCount s)
  else Some (m_TableCount s).

(** The body of the two loops of [_GetNextIndexOf]. *)
Definition next_of_body (s : t) (k : key) (i : Z) (_ : unit)
  : option (step unit Z) :=
  slot <- kv_at s i ;;
  if is_empty slot then Some (Leave (m_TableCount s))
  else if key_eqb (kv_key slot) k then Some (Leave i)
  else Some (Next tt).

Definition _GetNextIndexOf (s : t) (k : key) (index : Z) : option Z :=
  if is_ok (m_Status s) && negb (IsHashNull k) then
    r1 <- for_range (index + 1) (m_TableCount s) (next_of_body s k) tt ;;
    match r1 with
    | Leave i => Some i
    | Next _ =>
        r2 <- for_range 0 index (next_of_body s k) tt ;;
        match r2 with
        | Leave i => Some i
        | Next _ => Some (m_TableCount s)
        end
    end
  else Some (m_TableCount s).

(** [Contains( key )] *)
Definition Contains (s : t) (k : key) : option bool :=
  if is_ok (m_Status s) && negb (IsHashNull k) then
    index <- FindEmptyOrMatching s k ;;
    slot <- kv_at s index ;;
    Some (negb (is_empty slot))
  else Some false.

(** [Contains( key, value )] *)
Definition Contains2 (s : t) (k : key) (v : value) : option bool :=
  if is_ok (m_Status s) && negb (IsHashNull k) then
    index <- FindEmptyOrMatching2 s k v ;;
    slot <- kv_at s index ;;
    Some (negb (is_empty slot))
  else Some false.

Definition GetCount (s : t) : Z := m_ActiveCount s.

(** The body of the two backward loops of [IsFirstInRun]. *)
Definition first_in_run_body (s : t) (k : key) (i : Z) (_ : unit)
  : option (step unit bool) :=
  slot <- kv_at s i ;;
  if is_empty slot then Some (Leave true)
  else if key_eqb (kv_key slot) k then Some (Leave false)
  else Some (Next tt).

Definition IsFirstInRun (s : t) (index : Z) : option bool :=
  slot <- kv_at s index ;;
  let k := kv_key slot in
  r1 <- for_down (Z.to_nat index) (index - 1) (first_in_run_body s k) tt ;;
  match r1 with
  | Leave b => Some b
  | Next _ =>
      r2 <- for_down (Z.to_nat (m_TableCount s - 1 - index))
              (m_TableCount s - 1) (first_in_run_body s k) tt ;;
      match r2 with
      | Leave b => Some b
      | Next _ => Some true
      end
  end.

Definition _GetNextIndex (s : t) (index : Z) : option Z :=
  r <- for_range (index + 1) (m_TableCount s)
         (fun i _ =>
            slot <- kv_at s i ;;
            if negb (is_empty slot) then
              first <- IsFirstInRun s i ;;
              Some (if first then Leave i else Next tt)
            else Some (Next tt))
         tt ;;
  Some (match r with Leave i => i | Next _ => m_TableCount s end).

Definition _GetFirstIndex (s : t) : option Z := _GetNextIndex s (-1).

Definition _IsIndexValid (s : t) (index : Z) : bool :=
  is_ok (m_Status s) && (index <? m_TableCount s).

Definition _IsIndexValidOf (s : t) (k : key) (index : Z) : bool :=
  _IsIndexValid s index.

Definition _GetKeyAt (s : t) (index : Z) : option key :=
  option_map kv_key (kv_at s index).

Definition _GetValueAt (s : t) (index : Z) : option value :=
  option_map kv_value (kv_at s index).

(** The indices the cursor protocol of [Enumerate] stops at:
    [for (i = _GetFirstIndex(); _IsIndexValid(i); i = _GetNextIndex(i))].
    Every turn moves the index forward, so [m_TableCount + 1] turns are
    enough. *)
Fixpoint cursor_loop (turns : nat) (s : t) (i : Z) (visited : list Z)
  : option (list Z) :=
  if _IsIndexValid s i then
    match turns with
    | O => None
    | S turns' =>
        j <- _GetNextIndex s i ;;
        cursor_loop turns' s j (visited ++ [i])
    end
  else Some visited.

Definition visited_slots (s : t) : option (list Z) :=
  i <- _GetFirstIndex s ;;
  cursor_loop (Z.to_nat (m_TableCount s) + 1) s i [].

(** Read the key of every slot of [indices]. *)
Fixpoint keys_at (s : t) (indices : list Z) : option (list key) :=
  match indices with
  | [] => Some []
  | i :: rest =>
      k <- _GetKeyAt s i ;;
      ks <- keys_at s rest ;;
      Some (k :: ks)
  end.

(** [Enumerate]: the keys pushed to the collector, in order; [limit] is the
    [Contains] of the limiting set, when there is one. *)
Definition Enumerate (s : t) (limit : option (key -> bool))
  : option (list key) :=
  indices <- visited_slots s ;;
  ks <- keys_at s indices ;;
  Some (match limit with
        | Some contains => filter contains ks
        | None => ks
        end).

Definition _GetEnumerationCost (s : t) : Z := GetCount s.
Definition _GetChangeCount (s : t) : Z := m_ChangeCount s.

End WithKeyValue.
Arguments t key value : clear implicits.
End MojoMultiMap.

(* ------------------------------------------------------------------------- *)
(** ** MojoMap (MojoMap.h, which is not part of the sources at hand)

    MojoRelation keeps its child-to-parent edges in a [MojoMap].  The
    specification describes the map as the set engine with a value in every
    slot: [Contains], [Insert] and [Remove] key on the key alone, [Find]
    answers the not-found value for an absent key, [Insert] overwrites the
    value of a key that is present, and [Remove] hands back the value it
    removed.  The definitions of this module follow those words on top of the
    code of the set engine. *)

Module MojoMap.
Section WithKeyValue.
Context {key value : Type} `{MojoKey key} `{MojoValue value}.

(** Modelled from the spec: the members of MojoMap, those of the set engine
    with key-value slots and the not-found value. *)
Record t : Type := mk {
  m_Alloc : option MojoAlloc;
  m_KeyValues : option (list (MojoKeyValue key value));
  m_NotFoundValue : value;
  m_ActiveCount : Z;
  m_AllocCount : Z;
  m_TableCount : Z;
  m_ChangeCount : Z;
  m_Status : MojoStatus;
  m_AllocCountMin : Z;
  m_TableCountMin : Z;
  m_GrowThreshold : Z;
  m_ShrinkThreshold : Z;
  m_AutoGrow : bool;
  m_AutoShrink : bool;
  m_DynamicAlloc : bool
}.

(** Modelled from the spec: assignment to the table pointer. *)
Definition set_KeyValues (s : t)
    (kvs : option (list (MojoKeyValue key value))) : t :=
  mk (m_Alloc s) kvs (m_NotFoundValue s) (m_ActiveCount s) (m_AllocCount s)
     (m_TableCount s) (m_ChangeCount s) (m_Status s) (m_AllocCountMin s)
     (m_TableCountMin s) (m_GrowThreshold s) (m_ShrinkThreshold s)
     (m_AutoGrow s) (m_AutoShrink s) (m_DynamicAlloc s).

(** Modelled from the spec: assignment to the count of pairs. *)
Definition set_ActiveCount (s : t) (n : Z) : t :=
  mk (m_Alloc s) (m_KeyValues s) (m_NotFoundValue s) n (m_AllocCount s)
     (m_TableCount s) (m_ChangeCount s) (m_Status s) (m_AllocCountMin s)
     (m_TableCountMin s) (m_GrowThreshold s) (m_ShrinkThreshold s)
     (m_AutoGrow s) (m_AutoShrink s) (m_DynamicAlloc s).

(** Modelled from the spec: assignment to the table count. *)
Definition set_TableCount (s : t) (n : Z) : t :=
  mk (m_Alloc s) (m_KeyValues s) (m_NotFoundValue s) (m_ActiveCount s)
     (m_AllocCount s) n (m_ChangeCount s) (m_Status s) (m_AllocCountMin s)
     (m_TableCountMin s) (m_GrowThreshold s) (m_ShrinkThreshold s)
     (m_AutoGrow s) (m_AutoShrink s) (m_DynamicAlloc s).

(** Modelled from the spec: assignment to the change counter. *)
Definition set_ChangeCount (s : t) (n : Z) : t :=
  mk (m_Alloc s) (m_KeyValues s) (m_NotFoundValue s) (m_ActiveCount s)
     (m_AllocCount s) (m_TableCount s) n (m_Status s) (m_AllocCountMin s)
     (m_TableCountMin s) (m_GrowThreshold s) (m_ShrinkThreshold s)
     (m_AutoGrow s) (m_AutoShrink s) (m_DynamicAlloc s).

(** Modelled from the spec: assignment to the status. *)
Definition set_Status (s : t) (st : MojoStatus) : t :=
  mk (m_Alloc s) (m_KeyValues s) (m_NotFoundValue s) (m_ActiveCount s)
     (m_AllocCount s) (m_TableCount s) (m_ChangeCount s) st
     (m_AllocCountMin s) (m_TableCountMin s) (m_GrowThreshold s)
     (m_ShrinkThreshold s) (m_AutoGrow s) (m_AutoShrink s) (m_DynamicAlloc s).

(** Modelled from the spec: a container is constructed uninitialized. *)
Definition Init : t :=
  mk None None value_default 0 0 0 0 kMojoStatus_NotInitialized
     0 0 0 0 false false false.

(** Modelled from the spec: [get_status]. *)
Definition GetStatus (s : t) : MojoStatus := m_Status s.

(** Modelled from the spec: the read of one slot of the table. *)
Definition kv_at (s : t) (i : Z) : option (MojoKeyValue key value) :=
  l <- m_KeyValues s ;; zget l i.

(** Modelled from the spec: the write of one slot of the table. *)
Definition store (s : t) (i : Z) (kv : MojoKeyValue key value) : option t :=
  l <- m_KeyValues s ;; l' <- zset l i kv ;;
  Some (set_KeyValues s (Some l')).

(** Modelled from the spec: an empty slot holds the hash-null key. *)
Definition is_empty (slot : MojoKeyValue key value) : bool :=
  IsHashNull (kv_key slot).

(** Modelled from the spec: where the probe stops, at an empty slot or at
    the key. *)
Definition hit_key (k : key) (slot : MojoKeyValue key value) : bool :=
  IsHashNull (kv_key slot) || key_eqb (kv_key slot) k.

(** Modelled from the spec: the probe search of the set engine, on the key
    alone. *)
Definition FindEmptyOrMatching (s : t) (k : key) : option Z :=
  probe (hit_key k) (m_KeyValues s) (GetHash k) (m_TableCount s).

(** Modelled from the spec: [Reinsert] of the set engine. *)
Definition Reinsert (s : t) (index : Z) : option t :=
  kv <- kv_at s index ;;
  new_index <- FindEmptyOrMatching s (kv_key kv) ;;
  if negb (new_index =? index) then
    s1 <- store s new_index kv ;;
    store s1 index KeyValue_default
  else Some s.

(** Modelled from the spec: one step of the collision fix-up of the removal. *)
Definition RemoveOne_fix (i : Z) (s : t) : option (step t t) :=
  slot <- kv_at s i ;;
  if is_empty slot then Some (Leave s)
  else s' <- Reinsert s i ;; Some (Next s').

(** Modelled from the spec: the removal of the set engine with its collision
    fix-up, which also reports the value it removed. *)
Definition RemoveOne (s : t) (k : key) : option (t * option value) :=
  if IsHashNull k then Some (s, None) else
  index <- FindEmptyOrMatching s k ;;
  slot <- kv_at s index ;;
  if is_empty slot then Some (s, None) else
  s1 <- store s index KeyValue_default ;;
  let s2 := set_ActiveCount s1 (m_ActiveCount s1 - 1) in
  r1 <- for_range (index + 1) (m_TableCount s2) RemoveOne_fix s2 ;;
  match r1 with
  | Leave s3 => Some (s3, Some (kv_value slot))
  | Next s3 =>
      r2 <- for_range 0 index RemoveOne_fix s3 ;;
      Some (loop_end r2, Some (kv_value slot))
  end.

(** Modelled from the spec: one step of a resize in place, which reinserts
    every non-empty slot. *)
Definition reinsert_occupied (i : Z) (s : t) : option (step t t) :=
  kv <- kv_at s i ;;
  if negb (is_empty kv) then s' <- Reinsert s i ;; Some (Next s')
  else Some (Next s).

(** Modelled from the spec: one step of the walk of the new prefix after a
    grow in place, until the first empty slot is reached. *)
Definition reinsert_until_empty (i : Z) (s : t) : option (step t t) :=
  kv <- kv_at s i ;;
  if is_empty kv then Some (Leave s)
  else s' <- Reinsert s i ;; Some (Next s').

(** Modelled from the spec: the in-place shrink and grow of the set engine. *)
Definition Resize_in_place (s : t) (new_table_count : Z) : option t :=
  if new_table_count <? m_TableCount s then
    let old_table_count := m_TableCount s in
    let s1 := set_TableCount s new_table_count in
    r <- for_range 0 old_table_count reinsert_occupied s1 ;;
    Some (loop_end r)
  else if m_TableCount s <? new_table_count then
    let old_table_count := m_TableCount s in
    let s1 := set_TableCount s new_table_count in
    r1 <- for_range 0 old_table_count reinsert_occupied s1 ;;
    r2 <- for_range old_table_count new_table_count
            reinsert_until_empty (loop_end r1) ;;
    Some (loop_end r2)
  else Some s.

Section Nested.
Variable insert : t -> key -> value -> option t.

(** Modelled from the spec: [Resize] of the set engine. *)
Definition Resize_with (s : t) (new_table_count new_capacity : Z)
  : option t :=
  match m_Alloc s with
  | Some alloc =>
      if negb (m_AllocCount s =? new_capacity) then
        let old_key_values := m_KeyValues s in
        let old_table_count := m_TableCount s in
        let '(new_key_values, alloc') :=
          if negb (new_capacity =? 0) then
            let '(reply, rest) := Allocate alloc in
            (if reply
             then Some (repeat KeyValue_default (Z.to_nat new_capacity))
             else None, rest)
          else (None, alloc) in
        let s1 :=
          mk (Some alloc') new_key_values (m_NotFoundValue s) 0 new_capacity
             new_table_count (m_ChangeCount s) (m_Status s)
             (m_AllocCountMin s) (m_TableCountMin s) (m_GrowThreshold s)
             (m_ShrinkThreshold s) (m_AutoGrow s) (m_AutoShrink s)
             (m_DynamicAlloc s) in
        match old_key_values, new_key_values with
        | Some old, Some _ =>
            r <- for_range 0 old_table_count
                   (fun i s' =>
                      kv <- zget old i ;;
                      if negb (is_empty kv)
                      then s'' <- insert s' (kv_key kv) (kv_value kv) ;;
                           Some (Next s'')
                      else Some (@Next t t s')) s1 ;;
            Some (loop_end r)
        | _, _ => Some s1
        end
      else Resize_in_place s new_table_count
  | None => Resize_in_place s new_table_count
  end.

(** Modelled from the spec: the growth trigger. *)
Definition grow_due (s : t) : bool :=
  m_TableCount s * m_GrowThreshold s <=? m_ActiveCount s * 100.

(** Modelled from the spec: [Grow] of the set engine. *)
Definition Grow_with (s : t) : option t :=
  if grow_due s then
    let new_table_count := m_TableCount s * 2 in
    let new_capacity := MojoMax (m_AllocCount s) new_table_count in
    if negb (m_DynamicAlloc s) then
      let new_capacity := m_AllocCount s in
      let new_table_count := MojoMin new_table_count new_capacity in
      Resize_with s new_table_count new_capacity
    else Resize_with s new_table_count new_capacity
  else Some s.

(** Modelled from the spec: the shrink trigger. *)
Definition shrink_due (s : t) : bool :=
  (m_TableCountMin s <? m_TableCount s)
  && (m_ActiveCount s * 100 <? m_TableCount s * m_ShrinkThreshold s).

(** Modelled from the spec: [Shrink] of the set engine. *)
Definition Shrink_with (s : t) : option t :=
  if shrink_due s then
    let new_table_count := MojoMax (m_TableCount s / 2) (m_TableCountMin s) in
    let new_capacity := MojoMax new_table_count (m_AllocCountMin s) in
    if negb (m_DynamicAlloc s) then
      Resize_with s new_table_count (m_AllocCount s)
    else Resize_with s new_table_count new_capacity
  else Some s.

(** Modelled from the spec: the [auto_grow] flag performs the check inline. *)
Definition AutoGrow_with (s : t) : option t :=
  if m_AutoGrow s then Grow_with s else Some s.

(** Modelled from the spec: the [auto_shrink] flag performs the check inline. *)
Definition AutoShrink_with (s : t) : option t :=
  if m_AutoShrink s then Shrink_with s else Some s.

(** Modelled from the spec: [Insert] of the set engine, which writes the pair
    in an empty slot and overwrites the value of a key that is present; both
    are observable mutations and count as a change. *)
Definition Insert_with (s : t) (k : key) (v : value)
  : option (t * MojoStatus) :=
  let status := m_Status s in
  if is_ok status then
    if IsHashNull k then Some (s, kMojoStatus_InvalidArguments)
    else
      s1 <- AutoGrow_with s ;;
      if m_ActiveCount s1 <? m_TableCount s1 then
        index <- FindEmptyOrMatching s1 k ;;
        slot <- kv_at s1 index ;;
        if is_empty slot then
          s2 <- store s1 index (mkKeyValue k v) ;;
          let s3 := set_ActiveCount s2 (m_ActiveCount s2 + 1) in
          Some (set_ChangeCount s3 (m_ChangeCount s3 + 1), status)
        else
          s2 <- store s1 index (mkKeyValue (kv_key slot) v) ;;
          Some (set_ChangeCount s2 (m_ChangeCount s2 + 1), status)
      else Some (s1, kMojoStatus_CouldNotAlloc)
  else Some (s, status).

End Nested.

(** Modelled from the spec: [Insert], tying the knot with [Resize]. *)
Fixpoint Insert (depth : nat) (s : t) (k : key) (v : value)
  : option (t * MojoStatus) :=
  match depth with
  | O => None
  | S depth' =>
      Insert_with (fun s' k' v' => option_map fst (Insert depth' s' k' v'))
        s k v
  end.

(** Modelled from the spec: the insert that [Resize] calls for every pair of
    the old buffer. *)
Definition nested_insert (depth : nat) (s : t) (k : key) (v : value)
  : option t :=
  option_map fst (Insert depth s k v).

(** Modelled from the spec: [Resize] with that insert. *)
Definition Resize (depth : nat) := Resize_with (nested_insert depth).

(** Modelled from the spec: [Grow] with that insert. *)
Definition Grow (depth : nat) := Grow_with (nested_insert depth).

(** Modelled from the spec: [Shrink] with that insert. *)
Definition Shrink (depth : nat) := Shrink_with (nested_insert depth).

(** Modelled from the spec: the inline growth check of a mutation. *)
Definition AutoGrow (depth : nat) := AutoGrow_with (nested_insert depth).

(** Modelled from the spec: the inline shrink check of a mutation. *)
Definition AutoShrink (depth : nat) := AutoShrink_with (nested_insert depth).

(** Modelled from the spec: [Create], which validates the configuration and
    adopts the caller's buffer or allocates a fresh one. *)
Definition Create (depth : nat) (s : t) (not_found_value : value)
    (config : MojoConfig) (alloc : MojoAlloc)
    (fixed_array : option (list (MojoKeyValue key value)))
    (fixed_array_count : Z)
  : option (t * MojoStatus) :=
  if negb (MojoStatus_eqb (m_Status s) kMojoStatus_NotInitialized) then
    Some (set_Status s kMojoStatus_DoubleInitialized,
          kMojoStatus_DoubleInitialized)
  else if (cfg_AllocCountMin config <=? 1)
          || (cfg_TableCountMin config <=? 1)
          || (cfg_GrowThreshold config <=? cfg_ShrinkThreshold config * 2) then
    Some (set_Status s kMojoStatus_InvalidArguments,
          kMojoStatus_InvalidArguments)
  else
    let m_alloc :=
      match fixed_array with Some _ => None | None => Some alloc end in
    let s1 :=
      mk m_alloc fixed_array not_found_value 0 fixed_array_count
         (m_TableCount s) (m_ChangeCount s) kMojoStatus_Ok
         (cfg_AllocCountMin config) (cfg_TableCountMin config)
         (cfg_GrowThreshold config) (cfg_ShrinkThreshold config)
         (cfg_AutoGrow config) (cfg_AutoShrink config)
         (cfg_DynamicAlloc config
          && match m_alloc with Some _ => true | None => false end) in
    s2 <- match m_KeyValues s1 with
          | None => Resize depth s1 (m_TableCountMin s1)
                      (MojoMax (m_AllocCountMin s1) (m_TableCountMin s1))
          | Some _ => Some s1
          end ;;
    match m_KeyValues s2 with
    | None => Some (set_Status s2 kMojoStatus_CouldNotAlloc,
                    kMojoStatus_CouldNotAlloc)
    | Some _ => Some (s2, m_Status s2)
    end.

(** Modelled from the spec: [Destroy] frees the buffer and returns to the
    uninitialized state. *)
Definition Destroy (s : t) : option t :=
  _ <- Resize 0 s 0 0 ;; Some Init.

(** Modelled from the spec: [Reset] empties all slots and shrinks to the
    minimum capacity. *)
Definition Reset (depth : nat) (s : t) : option t :=
  r <- for_range 0 (m_TableCount s)
         (fun i s' => s'' <- store s' i KeyValue_default ;;
                      Some (@Next t t s'')) s ;;
  let s1 := set_ActiveCount (loop_end r) 0 in
  let s2 := set_ChangeCount s1 (m_ChangeCount s1 + 1) in
  Resize depth s2 (m_TableCountMin s2)
    (MojoMax (m_AllocCountMin s2) (m_TableCountMin s2)).

(** Modelled from the spec: [Remove] returns the previously associated value,
    or the not-found value. *)
Definition Remove (depth : nat) (s : t) (k : key) : option (t * value) :=
  if negb (is_ok (m_Status s)) then Some (s, m_NotFoundValue s)
  else if negb (IsHashNull k) then
    '(s1, removed) <- RemoveOne s k ;;
    match removed with
    | Some v =>
        let s2 := set_ChangeCount s1 (m_ChangeCount s1 + 1) in
        s3 <- AutoShrink depth s2 ;;
        Some (s3, v)
    | None => Some (s1, m_NotFoundValue s1)
    end
  else Some (s, m_NotFoundValue s).

(** Modelled from the spec: [Update] performs both resize checks. *)
Definition Update (depth : nat) (s : t) : option (t * MojoStatus) :=
  let status := m_Status s in
  if is_ok (m_Status s) then
    s1 <- Grow depth s ;;
    s2 <- Shrink depth s1 ;;
    Some (s2, status)
  else Some (s, status).

(** Modelled from the spec: [Find] returns the not-found value when the key
    is absent. *)
Definition Find (s : t) (k : key) : option value :=
  if is_ok (m_Status s) && negb (IsHashNull k) then
    index <- FindEmptyOrMatching s k ;;
    slot <- kv_at s index ;;
    if negb (is_empty slot) then Some (kv_value slot)
    else Some (m_NotFoundValue s)
  else Some (m_NotFoundValue s).

(** Modelled from the spec: [Contains] keys on the key alone. *)
Definition Contains (s : t) (k : key) : option bool :=
  if is_ok (m_Status s) && negb (IsHashNull k) then
    index <- FindEmptyOrMatching s k ;;
    slot <- kv_at s index ;;
    Some (negb (is_empty slot))
  else Some false.

(** Modelled from the spec: [get_count]. *)
Definition GetCount (s : t) : Z := m_ActiveCount s.

(** Modelled from the spec: the cursor of the set engine. *)
Definition _GetNextIndex (s : t) (index : Z) : option Z :=
  r <- for_range (index + 1) (m_TableCount s)
         (fun i _ => slot <- kv_at s i ;;
                     Some (if negb (is_empty slot) then Leave i else Next tt))
         tt ;;
  Some (match r with Leave i => i | Next _ => m_TableCount s end).

(** Modelled from the spec: [first_index] is [next_index( -1 )]. *)
Definition _GetFirstIndex (s : t) : option Z := _GetNextIndex s (-1).

(** Modelled from the spec: [index_valid]: the status is ok and the index is
    below the table count. *)
Definition _IsIndexValid (s : t) (index : Z) : bool :=
  is_ok (m_Status s) && (index <? m_TableCount s).

(** Modelled from the spec: [key_at]. *)
Definition _GetKeyAt (s : t) (index : Z) : option key :=
  option_map kv_key (kv_at s index).

(** Modelled from the spec: the change counter of a concrete container. *)
Definition _GetChangeCount (s : t) : Z := m_ChangeCount s.

End WithKeyValue.
Arguments t key value : clear implicits.
End MojoMap.

(* ------------------------------------------------------------------------- *)
(** ** MojoRelation (MojoRelation.h) *)

Module MojoRelation.
Section WithKey.
Context {key : Type} `{MojoKey key}.

Record t : Type := mk {
  (* A child may have only one parent *)
  m_ChildToParent : MojoMap.t key key;
  (* A parent may have multiple children *)
  m_ParentToChild : MojoMultiMap.t key key
}.

Definition Init : t := mk MojoMap.Init MojoMultiMap.Init.

Definition GetStatus (r : t) : MojoStatus :=
  let status := MojoMultiMap.GetStatus (m_ParentToChild r) in
  if is_ok status then MojoMap.GetStatus (m_ChildToParent r) else status.

(** [Create].  Both tables are created with the same allocator; [alloc_p2c]
    and [alloc_c2p] are the replies it will give to each of them.  A fixed
    array is split between the two tables. *)
Definition Create (depth : nat) (r : t) (not_found_value : key)
    (config : MojoConfig) (alloc_p2c alloc_c2p : MojoAlloc)
    (fixed_array : option (list (MojoKeyValue key key)))
    (fixed_array_count : Z) : option (t * MojoStatus) :=
  let count := fixed_array_count / 2 in
  '(p2c, _) <- MojoMultiMap.Create depth (m_ParentToChild r) not_found_value
                 config alloc_p2c fixed_array count ;;
  let '(fixed_array', count') :=
    if negb (count =? 0)
    then (option_map (skipn (Z.to_nat count)) fixed_array,
          fixed_array_count - count)
    else (fixed_array, count) in
  '(c2p, _) <- MojoMap.Create depth (m_ChildToParent r) not_found_value
                 config alloc_c2p fixed_array' count' ;;
  let r' := mk c2p p2c in
  Some (r', GetStatus r').

Definition Destroy (r : t) : option t :=
  p2c <- MojoMultiMap.Destroy (m_ParentToChild r) ;;
  c2p <- MojoMap.Destroy (m_ChildToParent r) ;;
  Some (mk c2p p2c).

Definition Reset (depth : nat) (r : t) : option t :=
  p2c <- MojoMultiMap.Reset depth (m_ParentToChild r) ;;
  c2p <- MojoMap.Reset depth (m_ChildToParent r) ;;
  Some (mk c2p p2c).

Definition RemoveChild (depth : nat) (r : t) (child : key)
  : option (t * MojoStatus) :=
  if negb (IsHashNull child) then
    '(c2p, old_parent) <- MojoMap.Remove depth (m_ChildToParent r) child ;;
    if negb (IsHashNull old_parent) then
      '(p2c, status) <- MojoMultiMap.Remove2 depth (m_ParentToChild r)
                          old_parent child ;;
      Some (mk c2p p2c, status)
    else Some (mk c2p (m_ParentToChild r), kMojoStatus_NotFound)
  else Some (r, kMojoStatus_NotFound).

Definition InsertChildParent (depth : nat) (r : t) (child parent : key)
  : option (t * MojoStatus) :=
  if IsHashNull parent then RemoveChild depth r child
  else if IsHashNull child then Some (r, kMojoStatus_InvalidArguments)
  else
    '(r1, _) <- RemoveChild depth r child ;;
    '(c2p, status) <- MojoMap.Insert depth (m_ChildToParent r1) child parent ;;
    if is_ok status then
      '(p2c, status') <- MojoMultiMap.Insert depth (m_ParentToChild r1)
                           parent child ;;
      Some (mk c2p p2c, status')
    else Some (mk c2p (m_ParentToChild r1), status).

(** The loop of [RemoveParent]:
    [MojoForEachMultiValue( m_ParentToChild, parent, child )]
    removing every [child] from the child-to-parent map.  The cursor only
    reads the multimap, which the loop does not touch; when it has not left
    the table after [m_TableCount + 1] turns it is going round. *)
Fixpoint remove_children (turns : nat) (depth : nat)
    (p2c : MojoMultiMap.t key key) (parent : key) (i : Z)
    (c2p : MojoMap.t key key) : option (MojoMap.t key key) :=
  if MojoMultiMap._IsIndexValidOf p2c parent i then
    match turns with
    | O => None
    | S turns' =>
        child <- MojoMultiMap._GetValueAt p2c i ;;
        '(c2p', _) <- MojoMap.Remove depth c2p child ;;
        j <- MojoMultiMap._GetNextIndexOf p2c parent i ;;
        remove_children turns' depth p2c parent j c2p'
    end
  else Some c2p.

Definition RemoveParent (depth : nat) (r : t) (parent : key)
  : option (t * MojoStatus) :=
  if negb (IsHashNull parent) then
    let p2c := m_ParentToChild r in
    first <- MojoMultiMap._GetFirstIndexOf p2c parent ;;
    c2p <- remove_children (Z.to_nat (MojoMultiMap.m_TableCount p2c) + 1)
             depth p2c parent first (m_ChildToParent r) ;;
    '(p2c', status) <- MojoMultiMap.Remove depth p2c parent ;;
    Some (mk c2p p2c', status)
  else Some (r, kMojoStatus_NotFound).

Definition Update (depth : nat) (r : t) : option (t * MojoStatus) :=
  '(c2p, status) <- MojoMap.Update depth (m_ChildToParent r) ;;
  if is_ok status then
    '(p2c, status') <- MojoMultiMap.Update depth (m_ParentToChild r) ;;
    Some (mk c2p p2c, status')
  else Some (mk c2p (m_ParentToChild r), status).

Definition ContainsParent (r : t) (parent : key) : option bool :=
  MojoMultiMap.Contains (m_ParentToChild r) parent.

Definition Contains (r : t) (child : key) : option bool :=
  MojoMap.Contains (m_ChildToParent r) child.

Definition GetCount (r : t) : Z := MojoMap.GetCount (m_ChildToParent r).

Definition FindParent (r : t) (child : key) : option key :=
  MojoMap.Find (m_ChildToParent r) child.

Definition _GetEnumerationCost (r : t) : Z := GetCount r.

Definition _GetChangeCount (r : t) : Z :=
  MojoMap._GetChangeCount (m_ChildToParent r).

End WithKey.
Arguments t key : clear implicits.
End MojoRelation.

(* ------------------------------------------------------------------------- *)
(** ** A concrete key type

    Numeric identifiers: the hash of an identifier is the identifier itself
    (as an unsigned 64-bit value) and 0 is the hash-null key. *)

#[export] Program Instance IdKey : MojoKey Z := {
  GetHash := fun k => k mod 2 ^ 64;
  IsHashNull := fun k => k =? 0;
  key_eqb := Z.eqb;
  key_default := 0
}.
Next Obligation. apply Z.mod_pos_bound. lia. Qed.
Next Obligation. apply Z.eqb_eq. Qed.
Next Obligation. apply Z.eqb_eq. Qed.

(* ------------------------------------------------------------------------- *)
(** ** Iteration macros (MojoMultiMap.h) *)

Section Macros.
Context {key value : Type} `{MojoKey key} `{MojoValue value}.

(** The loop of [MojoForEachMultiValue( container, key, value_variable )]:
    [for (_i = _GetFirstIndexOf(key); _IsIndexValidOf(key, _i) ?
          (value_variable = _GetValueAt(_i), true) : false;
          _i = _GetNextIndexOf(key, _i))].
    The result lists the index and the value of every turn.  The cursor
    only reads the container; when it has not left the table after
    [m_TableCount + 1] turns it is going round. *)
Fixpoint each_value_loop (turns : nat) (s : MojoMultiMap.t key value)
    (k : key) (i : Z) (visited : list (Z * value))
  : option (list (Z * value)) :=
  if MojoMultiMap._IsIndexValidOf s k i then
    match turns with
    | O => None
    | S turns' =>
        v <- MojoMultiMap._GetValueAt s i ;;
        j <- MojoMultiMap._GetNextIndexOf s k i ;;
        each_value_loop turns' s k j (visited ++ [(i, v)])
    end
  else Some visited.

Definition MojoForEachMultiValue (s : MojoMultiMap.t key value) (k : key)
  : option (list (Z * value)) :=
  first <- MojoMultiMap._GetFirstIndexOf s k ;;
  each_value_loop (Z.to_nat (MojoMultiMap.m_TableCount s) + 1) s k first [].

End Macros.

(* ========================================================================= *)
(** * Vocabulary of the properties *)

(** [hits] and [misses] say what a probe predicate answers on a slot of the
    array; [first_hit] describes the slot a probe stops at: the first one
    that hits, going from [start] up to the end of the table and on from 0. *)

Definition hits {A} (hit : A -> bool) (l : list A) (i : Z) : Prop :=
  exists x, zget l i = Some x /\ hit x = true.

Definition misses {A} (hit : A -> bool) (l : list A) (i : Z) : Prop :=
  exists x, zget l i = Some x /\ hit x = false.

Definition first_hit {A} (hit : A -> bool) (l : list A)
    (table_count start r : Z) : Prop :=
  exists d, 0 <= d < table_count /\ r = (start + d) mod table_count /\
            hits hit l r /\
            forall d', 0 <= d' < d ->
                       misses hit l ((start + d') mod table_count).

Definition no_hit {A} (hit : A -> bool) (l : list A) (table_count : Z) : Prop :=
  forall i, 0 <= i < table_count -> misses hit l i.


(** *** Sets *)

Section SetVocabulary.
Context {key : Type} `{MojoKey key}.

(** The number of occupied slots among the [m_TableCount] slots that take
    part in hashing. *)
Definition occupied_slots (s : MojoSet.t key) : Z :=
  match MojoSet.m_Keys s with
  | Some l =>
      Z.of_nat (length (filter (fun k => negb (IsHashNull k))
                          (firstn (Z.to_nat (MojoSet.m_TableCount s)) l)))
  | None => 0
  end.

(** Count parity: [m_ActiveCount] is the number of occupied slots. *)
Definition count_parity (s : MojoSet.t key) : Prop :=
  MojoSet.m_ActiveCount s = occupied_slots s.

(** The mutations of a set, and a run of them from a given state.  Next to
    the set the run keeps the keys that are live by the book: a key becomes
    live when [Insert] is called on it and stops being live when a [Remove]
    of it reports success. *)
Inductive SetOp : Type :=
| OpInsert (k : key)
| OpRemove (k : key)
| OpUpdate.

Definition drop_key (k : key) (live : list key) : list key :=
  filter (fun x => negb (key_eqb x k)) live.

Definition run_op (depth : nat) (sl : MojoSet.t key * list key) (op : SetOp)
  : option (MojoSet.t key * list key) :=
  let '(s, live) := sl in
  match op with
  | OpInsert k =>
      '(s', _) <- MojoSet.Insert depth s k ;; Some (s', k :: live)
  | OpRemove k =>
      '(s', status) <- MojoSet.Remove depth s k ;;
      Some (s', if is_ok status then drop_key k live else live)
  | OpUpdate =>
      '(s', _) <- MojoSet.Update depth s ;; Some (s', live)
  end.

Fixpoint run_ops (depth : nat) (sl : MojoSet.t key * list key)
    (ops : list SetOp) : option (MojoSet.t key * list key) :=
  match ops with
  | [] => Some sl
  | op :: rest => sl' <- run_op depth sl op ;; run_ops depth sl' rest
  end.

Definition is_live (k : key) (live : list key) : bool :=
  existsb (fun x => key_eqb x k) live.

(** A set freshly created with an allocator that follows [alloc]. *)
Definition new_set (depth : nat) (config : MojoConfig) (alloc : MojoAlloc)
  : option (MojoSet.t key) :=
  option_map fst (MojoSet.Create depth MojoSet.Init config alloc None 0).

(** The set of a run of mutations on a fresh set. *)
Definition set_after (depth : nat) (config : MojoConfig) (alloc : MojoAlloc)
    (ops : list SetOp) : option (MojoSet.t key * list key) :=
  s <- new_set depth config alloc ;; run_ops depth (s, []) ops.

End SetVocabulary.

(** The configuration of the specification's set scenario: capacity 8, table
    of 4, grow at 80%, shrink below 30%, automatic and dynamic. *)
Definition scenario_config : MojoConfig := mkConfig 8 4 80 30 true true true.

(** A small configuration that grows early: table of 2, grow at 50%. *)
Definition eager_config : MojoConfig := mkConfig 2 2 50 20 true true true.

(** A table of 4 that grows at 50%. *)
Definition eager4_config : MojoConfig := mkConfig 4 4 50 20 true true true.

(** The set of the scenario after its first three keys. *)
Definition three_keys : MojoSet.t Z :=
  MojoSet.mk (Some []) (Some [0; 1; 2; 3; 0; 0; 0; 0]) 3 8 4 3 kMojoStatus_Ok
    8 4 80 30 true true true.

(** The eager set after [Insert( 1 )], and after a second [Insert( 1 )]. *)
Definition one_key : MojoSet.t Z :=
  MojoSet.mk (Some []) (Some [0; 1]) 1 2 2 1 kMojoStatus_Ok
    2 2 50 20 true true true.

Definition one_key_again : MojoSet.t Z :=
  MojoSet.mk (Some []) (Some [0; 1; 0; 0]) 1 4 4 2 kMojoStatus_Ok
    2 2 50 20 true true true.

(** The set of the scenario once its table of 4 is full. *)
Definition full_set : MojoSet.t Z :=
  MojoSet.mk (Some []) (Some [4; 1; 2; 3; 0; 0; 0; 0]) 4 8 4 4 kMojoStatus_Ok
    8 4 80 30 true true true.

(** A set of two keys whose allocator will refuse the next request. *)
Definition two_keys_no_memory : MojoSet.t Z :=
  MojoSet.mk (Some [false]) (Some [0; 1; 2; 0]) 2 4 4 2 kMojoStatus_Ok
    4 4 50 20 true true true.

(** *** Multimaps *)

(** A table of 8 that never resizes on its own. *)
Definition table8_config : MojoConfig := mkConfig 8 8 80 30 true true true.

(** The multimap holding (1,11), (9,20) and (1,12), inserted in that order
    in a table of 8: keys 1 and 9 both start their probe at slot 1. *)
Definition interleaved : MojoMultiMap.t Z Z :=
  MojoMultiMap.mk (Some [])
    (Some [mkKeyValue 0 0; mkKeyValue 1 11; mkKeyValue 9 20; mkKeyValue 1 12;
           mkKeyValue 0 0; mkKeyValue 0 0; mkKeyValue 0 0; mkKeyValue 0 0])
    0 3 8 8 3 kMojoStatus_Ok 8 8 80 30 true true true.

(** What [Update] leaves of [two_keys_no_memory]. *)
Definition emptied_set : MojoSet.t Z :=
  MojoSet.mk (Some []) (Some [0; 0; 0; 0]) 0 4 4 2 kMojoStatus_Ok
    4 4 50 20 true true true.

(** What [Remove( 5 )] leaves of [full_set]. *)
Definition full_set_minus_4 : MojoSet.t Z :=
  MojoSet.mk (Some []) (Some [0; 1; 2; 3; 0; 0; 0; 0]) 3 8 4 5 kMojoStatus_Ok
    8 4 80 30 true true true.

Section MultiMapVocabulary.
Context {key value : Type} `{MojoKey key} `{MojoValue value}.

(** The slot [i] of a table; outside of the array it reads as the default,
    empty slot. *)
Definition slot_at (l : list (MojoKeyValue key value)) (i : Z)
  : MojoKeyValue key value :=
  nth (Z.to_nat i) l KeyValue_default.

Definition occupied (l : list (MojoKeyValue key value)) (i : Z) : Prop :=
  IsHashNull (kv_key (slot_at l i)) = false.

Definition vacant (l : list (MojoKeyValue key value)) (i : Z) : Prop :=
  IsHashNull (kv_key (slot_at l i)) = true.

(** The number of steps from slot [a] forward to slot [b], wrapping at the
    end of a table of [T] slots. *)
Definition dist (T a b : Z) : Z := (b - a) mod T.

(** The slot where the probe for the key of [kv] starts. *)
Definition home (T : Z) (kv : MojoKeyValue key value) : Z :=
  GetHash (kv_key kv) mod T.

(** Slot [j] is reachable when every slot the probe passes on its way from
    the home of its key to [j] is occupied. *)
Definition reachable (l : list (MojoKeyValue key value)) (T j : Z) : Prop :=
  forall y, 0 <= y < T ->
            dist T (home T (slot_at l j)) y < dist T (home T (slot_at l j)) j ->
            occupied l y.

(** The probing invariant of the table: every occupied slot is reachable. *)
Definition probe_invariant (l : list (MojoKeyValue key value)) (T : Z)
  : Prop :=
  forall j, 0 <= j < T -> occupied l j -> reachable l T j.

Definition has_empty (l : list (MojoKeyValue key value)) (T : Z) : Prop :=
  exists e, 0 <= e < T /\ vacant l e.

(** All the slots from [i] forward to [j], both included, are occupied. *)
Definition run_of_occupied (l : list (MojoKeyValue key value)) (T i j : Z)
  : Prop :=
  forall y, 0 <= y < T -> dist T i y <= dist T i j -> occupied l y.

(** The cluster invariant as the code keeps it: two slots that hold the same
    key lie in one wrap-around run of occupied slots. *)
Definition clustered (l : list (MojoKeyValue key value)) (T : Z) : Prop :=
  forall i j, 0 <= i < T -> 0 <= j < T -> occupied l i -> occupied l j ->
              kv_key (slot_at l i) = kv_key (slot_at l j) ->
              run_of_occupied l T i j \/ run_of_occupied l T j i.

(** All the slots from [i] forward to [j], both included, hold key [k]. *)
Definition run_of_key (l : list (MojoKeyValue key value)) (T : Z) (k : key)
    (i j : Z) : Prop :=
  forall y, 0 <= y < T -> dist T i y <= dist T i j ->
            kv_key (slot_at l y) = k.

(** The cluster invariant as the claim words it: the slots that hold a key
    form one contiguous wrap-around run, so between two of them every slot
    holds that key. *)
Definition contiguous (l : list (MojoKeyValue key value)) (T : Z) : Prop :=
  forall i j, 0 <= i < T -> 0 <= j < T -> occupied l i -> occupied l j ->
              kv_key (slot_at l i) = kv_key (slot_at l j) ->
              run_of_key l T (kv_key (slot_at l i)) i j
              \/ run_of_key l T (kv_key (slot_at l i)) j i.

(** The buffer of a multimap holds the slots of its table. *)
Definition table_ok (m : MojoMultiMap.t key value)
    (l : list (MojoKeyValue key value)) : Prop :=
  MojoMultiMap.m_KeyValues m = Some l /\
  0 < MojoMultiMap.m_TableCount m <= Z.of_nat (length l).

(** [m] with another table and another count of pairs. *)
Definition retable (m : MojoMultiMap.t key value)
    (l : list (MojoKeyValue key value)) (n : Z) : MojoMultiMap.t key value :=
  MojoMultiMap.set_ActiveCount (MojoMultiMap.set_KeyValues m (Some l)) n.

(** Key [k] is stored in the table. *)
Definition stored (l : list (MojoKeyValue key value)) (T : Z) (k : key)
  : Prop :=
  exists i, 0 <= i < T /\ occupied l i /\ kv_key (slot_at l i) = k.

(** [l1] is [l] with some of the slots of the run of [c] slots that starts
    at [a] cleared. *)
Definition cleared_in_run (l l1 : list (MojoKeyValue key value))
    (T a c : Z) : Prop :=
  length l1 = length l /\
  forall j, 0 <= j < T ->
            slot_at l1 j = slot_at l j
            \/ (dist T a j < c /\ slot_at l1 j = KeyValue_default).

(** The state of the table while [FixUp] walks the run of [c] slots that
    starts at [a] and ends before the empty slot [e], once the slots up to
    [m] steps from [a] are done: [e] is still empty, no probe path crosses
    [e], and the occupied slots that are done or outside of the run are
    reachable. *)
Definition fixing (l : list (MojoKeyValue key value)) (T a e c m : Z)
  : Prop :=
  vacant l e /\
  (forall x, 0 <= x < T -> occupied l x ->
             dist T (home T (slot_at l x)) x
             < dist T (home T (slot_at l x)) e) /\
  (forall x, 0 <= x < T -> occupied l x ->
             ~ (m < dist T a x < c) -> reachable l T x).

End MultiMapVocabulary.

Section MultiMapChecks.
Context {key value : Type} `{MojoKey key} `{MojoValue value}.

(** The operation that took [m] to [m'] kept the table in place and left it
    with the probing invariant and the cluster invariant. *)
Definition invariants_kept (m m' : MojoMultiMap.t key value) : Prop :=
  exists l', table_ok m' l' /\
             MojoMultiMap.m_TableCount m' = MojoMultiMap.m_TableCount m /\
             probe_invariant l' (MojoMultiMap.m_TableCount m') /\
             clustered l' (MojoMultiMap.m_TableCount m').

(** The indices of a table of [T] slots. *)
Definition zrange (T : Z) : list Z := map Z.of_nat (seq 0 (Z.to_nat T)).

Definition occupiedb (l : list (MojoKeyValue key value)) (i : Z) : bool :=
  negb (IsHashNull (kv_key (slot_at l i))).

(** The probing invariant, as a test. *)
Definition reachableb (l : list (MojoKeyValue key value)) (T j : Z) : bool :=
  forallb (fun y => implb (dist T (home T (slot_at l j)) y
                           <? dist T (home T (slot_at l j)) j)
                          (occupiedb l y))
          (zrange T).

Definition probe_invariantb (l : list (MojoKeyValue key value)) (T : Z)
  : bool :=
  forallb (fun j => implb (occupiedb l j) (reachableb l T j)) (zrange T).

(** A multimap freshly created with an allocator that follows [alloc], and
    the multimap after a list of pairs was inserted in it. *)
Definition new_multimap (depth : nat) (config : MojoConfig)
    (alloc : MojoAlloc) : option (MojoMultiMap.t key value) :=
  option_map fst
    (MojoMultiMap.Create depth MojoMultiMap.Init value_default config alloc
       None 0).

Fixpoint insert_pairs (depth : nat) (m : MojoMultiMap.t key value)
    (pairs : list (key * value)) : option (MojoMultiMap.t key value) :=
  match pairs with
  | [] => Some m
  | (k, v) :: rest =>
      '(m', _) <- MojoMultiMap.Insert depth m k v ;;
      insert_pairs depth m' rest
  end.

Definition multimap_after (depth : nat) (config : MojoConfig)
    (alloc : MojoAlloc) (pairs : list (key * value))
  : option (MojoMultiMap.t key value) :=
  m <- new_multimap depth config alloc ;; insert_pairs depth m pairs.

End MultiMapChecks.

(** The table of [interleaved]. *)
Definition interleaved_table : list (MojoKeyValue Z Z) :=
  [mkKeyValue 0 0; mkKeyValue 1 11; mkKeyValue 9 20; mkKeyValue 1 12;
   mkKeyValue 0 0; mkKeyValue 0 0; mkKeyValue 0 0; mkKeyValue 0 0].

(** *** Enumeration of a multimap *)

Section EnumerationVocabulary.
Context {key value : Type} `{MojoKey key} `{MojoValue value}.

(** Slot [i] is the first slot of its key in its run: walking back from [i],
    an empty slot comes before any other slot that holds the key of [i]. *)
Definition is_first (l : list (MojoKeyValue key value)) (T i : Z) : Prop :=
  forall y, 0 <= y < T -> y <> i ->
            kv_key (slot_at l y) = kv_key (slot_at l i) ->
            exists z, 0 <= z < T /\ vacant l z /\ dist T z i < dist T y i.

(** The slots the enumeration of all keys stops at. *)
Definition selected (l : list (MojoKeyValue key value)) (T i : Z) : Prop :=
  occupied l i /\ is_first l T i.

(** The walk back from a slot passes the slots that are neither empty nor
    hold key [k]. *)
Definition passes (l : list (MojoKeyValue key value)) (k : key) (j : Z)
  : Prop :=
  occupied l j /\ kv_key (slot_at l j) <> k.

End EnumerationVocabulary.

(** *** Maps *)

(** A table of two slots that grows at 80% of load. *)
Definition tight_config : MojoConfig := mkConfig 2 2 80 30 true true true.

Section MapVocabulary.
Context {key value : Type} `{MojoKey key} `{MojoValue value}.

(** What every operation of a created map keeps: the status stays and the
    change counter does not go back. *)
Definition map_frame (s s' : MojoMap.t key value) : Prop :=
  MojoMap.m_Status s' = MojoMap.m_Status s /\
  MojoMap.m_ChangeCount s <= MojoMap.m_ChangeCount s'.

End MapVocabulary.

(** *** Relations *)

Section RelationVocabulary.
Context {key : Type} `{MojoKey key}.

(** One call of a mutating operation takes the relation [r] to [r']. *)
Inductive mutates (depth : nat) (r r' : MojoRelation.t key) : Prop :=
| by_InsertChildParent (child parent : key) (status : MojoStatus) :
    MojoRelation.InsertChildParent depth r child parent = Some (r', status) ->
    mutates depth r r'
| by_RemoveChild (child : key) (status : MojoStatus) :
    MojoRelation.RemoveChild depth r child = Some (r', status) ->
    mutates depth r r'
| by_RemoveParent (parent : key) (status : MojoStatus) :
    MojoRelation.RemoveParent depth r parent = Some (r', status) ->
    mutates depth r r'
| by_Update (status : MojoStatus) :
    MojoRelation.Update depth r = Some (r', status) -> mutates depth r r'
| by_Reset :
    MojoRelation.Reset depth r = Some r' -> mutates depth r r'.

(** The sum of the change counters of the two tables of a relation. *)
Definition change_count_sum (r : MojoRelation.t key) : Z :=
  MojoMap._GetChangeCount (MojoRelation.m_ChildToParent r)
  + MojoMultiMap._GetChangeCount (MojoRelation.m_ParentToChild r).

End RelationVocabulary.

Inductive RelationOp : Type :=
| OpInsertChildParent (child parent : Z)
| OpRemoveChild (child : Z)
| OpRemoveParent (parent : Z)
| OpUpdateRelation.

Definition run_relation_op (depth : nat) (r : MojoRelation.t Z)
    (op : RelationOp) : option (MojoRelation.t Z * MojoStatus) :=
  match op with
  | OpInsertChildParent c p => MojoRelation.InsertChildParent depth r c p
  | OpRemoveChild c => MojoRelation.RemoveChild depth r c
  | OpRemoveParent p => MojoRelation.RemoveParent depth r p
  | OpUpdateRelation => MojoRelation.Update depth r
  end.

(** A sequence of calls, with the statuses they return. *)
Fixpoint run_relation_ops (depth : nat) (r : MojoRelation.t Z)
    (ops : list RelationOp) : option (MojoRelation.t Z * list MojoStatus) :=
  match ops with
  | [] => Some (r, [])
  | op :: rest =>
      '(r1, status) <- run_relation_op depth r op ;;
      '(r2, statuses) <- run_relation_ops depth r1 rest ;;
      Some (r2, status :: statuses)
  end.

(** A relation of identifiers created with its defaults but [config], where
    the allocator answers the parent-to-child table with [alloc_p2c] and the
    child-to-parent table with [alloc_c2p]. *)
Definition new_relation (depth : nat) (config : MojoConfig)
    (alloc_p2c alloc_c2p : MojoAlloc)
  : option (MojoRelation.t Z * MojoStatus) :=
  MojoRelation.Create depth MojoRelation.Init 0 config alloc_p2c alloc_c2p
    None 0.

Definition relation_after (depth : nat) (config : MojoConfig)
    (alloc_p2c alloc_c2p : MojoAlloc) (ops : list RelationOp)
  : option (MojoRelation.t Z * list MojoStatus) :=
  '(r, status) <- new_relation depth config alloc_p2c alloc_c2p ;;
  '(r', statuses) <- run_relation_ops depth r ops ;;
  Some (r', status :: statuses).

(** The tables of a relation created with [tight_config]. *)
Definition empty_map : MojoMap.t Z Z :=
  MojoMap.mk (Some []) (Some [mkKeyValue 0 0; mkKeyValue 0 0])
    0 0 2 2 0 kMojoStatus_Ok 2 2 80 30 true true true.

Definition empty_multimap : MojoMultiMap.t Z Z :=
  MojoMultiMap.mk (Some []) (Some [mkKeyValue 0 0; mkKeyValue 0 0])
    0 0 2 2 0 kMojoStatus_Ok 2 2 80 30 true true true.

Definition fresh_relation : MojoRelation.t Z :=
  MojoRelation.mk empty_map empty_multimap.

(** The parent-to-child table when its first allocation has failed. *)
Definition unbacked_multimap : MojoMultiMap.t Z Z :=
  MojoMultiMap.mk (Some []) None
    0 0 2 2 0 kMojoStatus_CouldNotAlloc 2 2 80 30 true true true.

Definition unbacked_relation : MojoRelation.t Z :=
  MojoRelation.mk empty_map unbacked_multimap.

(** The tables once child 1 has parent 9. *)
Definition one_child_map : MojoMap.t Z Z :=
  MojoMap.mk (Some []) (Some [mkKeyValue 0 0; mkKeyValue 1 9])
    0 1 2 2 1 kMojoStatus_Ok 2 2 80 30 true true true.

Definition one_child_multimap : MojoMultiMap.t Z Z :=
  MojoMultiMap.mk (Some []) (Some [mkKeyValue 0 0; mkKeyValue 9 1])
    0 1 2 2 1 kMojoStatus_Ok 2 2 80 30 true true true.

Definition one_edge_relation : MojoRelation.t Z :=
  MojoRelation.mk one_child_map one_child_multimap.

(** Child 1 with parent 9 in the map, and no table behind the multimap. *)
Definition orphan_relation : MojoRelation.t Z :=
  MojoRelation.mk one_child_map unbacked_multimap.

(** Children 2 and 3 of parent 9, in tables of 8 that child 1 has left; the
    allocator will refuse the next buffer of the parent-to-child table. *)
Definition crowded_relation : MojoRelation.t Z :=
  MojoRelation.mk
    (MojoMap.mk (Some [])
       (Some [mkKeyValue 0 0; mkKeyValue 0 0; mkKeyValue 2 9; mkKeyValue 3 9;
              mkKeyValue 0 0; mkKeyValue 0 0; mkKeyValue 0 0; mkKeyValue 0 0])
       0 2 8 8 7 kMojoStatus_Ok 2 2 50 20 true true true)
    (MojoMultiMap.mk (Some [false])
       (Some [mkKeyValue 0 0; mkKeyValue 9 2; mkKeyValue 9 3; mkKeyValue 0 0;
              mkKeyValue 0 0; mkKeyValue 0 0; mkKeyValue 0 0; mkKeyValue 0 0])
       0 2 8 8 7 kMojoStatus_Ok 2 2 50 20 true true true).

(** Children 1 and 2 of parent 9 in a full map of two slots, beside a
    multimap of four. *)
Definition full_map_relation : MojoRelation.t Z :=
  MojoRelation.mk
    (MojoMap.mk (Some []) (Some [mkKeyValue 2 9; mkKeyValue 1 9])
       0 2 2 2 21 kMojoStatus_Ok 2 2 80 30 true true true)
    (MojoMultiMap.mk (Some [])
       (Some [mkKeyValue 0 0; mkKeyValue 9 1; mkKeyValue 9 2; mkKeyValue 0 0])
       0 2 4 4 14 kMojoStatus_Ok 2 2 80 30 true true true).

(** *** Contents of a multimap *)

Section ContentsVocabulary.
Context {key value : Type} `{MojoKey key} `{MojoValue value}.

(** The pair [kv] is in the table. *)
Definition holds (l : list (MojoKeyValue key value)) (T : Z)
    (kv : MojoKeyValue key value) : Prop :=
  exists i, 0 <= i < T /\ occupied l i /\ slot_at l i = kv.

(** Two tables hold the same pairs. *)
Definition same_pairs (l l' : list (MojoKeyValue key value)) (T : Z) : Prop :=
  forall kv, holds l' T kv <-> holds l T kv.

End ContentsVocabulary.

Section RemovalVocabulary.
Context {key value : Type} `{MojoKey key} `{MojoValue value}.

(** What the loops of [FixUp] keep of the table [l0] they start from: its
    pairs, and an empty slot. *)
Definition FixUp_keeps (m0 : MojoMultiMap.t key value) (n1 : Z)
    (l0 : list (MojoKeyValue key value))
    (sc : MojoMultiMap.t key value * Z) : Prop :=
  exists l', fst sc = retable m0 l' n1 /\ length l' = length l0 /\
             same_pairs l0 l' (MojoMultiMap.m_TableCount m0) /\
             has_empty l' (MojoMultiMap.m_TableCount m0).

(** The table [l'] and the count [n] once the clearing loop, started at slot
    [a] of the table [l] with the count [n0], has passed [cnt] slots. *)
Definition cleared_upto (doomed : MojoKeyValue key value -> bool)
    (l : list (MojoKeyValue key value)) (T a n0 : Z)
    (l' : list (MojoKeyValue key value)) (n cnt : Z) : Prop :=
  length l' = length l /\
  (forall j, 0 <= j < T ->
             slot_at l' j = if (dist T a j <? cnt) && doomed (slot_at l j)
                            then KeyValue_default else slot_at l j) /\
  n <= n0 /\
  (n < n0 <->
   exists j, 0 <= j < T /\ dist T a j < cnt /\ doomed (slot_at l j) = true).

End RemovalVocabulary.

(** The multimap holding (1,11), (9,20) and (1,12) in a table of 8 that
    neither grows nor shrinks by itself. *)
Definition steady_multimap : MojoMultiMap.t Z Z :=
  MojoMultiMap.mk (Some []) (Some interleaved_table)
    0 3 8 8 3 kMojoStatus_Ok 8 8 80 30 false false true.

(** *** Tables of a set *)

Section SetTableVocabulary.
Context {key : Type} `{MojoKey key}.

(** The key in slot [i] of the table. *)
Definition key_slot (l : list key) (i : Z) : key :=
  nth (Z.to_nat i) l key_default.

(** Key [k] is in one of the [T] slots of the table. *)
Definition member (l : list key) (T : Z) (k : key) : Prop :=
  exists i, 0 <= i < T /\ IsHashNull (key_slot l i) = false /\
            key_slot l i = k.

(** Every slot the probe passes on its way from the home of the key of slot
    [j] to [j] is occupied. *)
Definition set_reachable (l : list key) (T j : Z) : Prop :=
  forall y, 0 <= y < T ->
            dist T (GetHash (key_slot l j) mod T) y
            < dist T (GetHash (key_slot l j) mod T) j ->
            IsHashNull (key_slot l y) = false.

(** The probing invariant of the table of a set. *)
Definition set_probe_invariant (l : list key) (T : Z) : Prop :=
  forall j, 0 <= j < T -> IsHashNull (key_slot l j) = false ->
            set_reachable l T j.

Definition set_has_empty (l : list key) (T : Z) : Prop :=
  exists e, 0 <= e < T /\ IsHashNull (key_slot l e) = true.

(** No key is in two slots. *)
Definition no_duplicates (l : list key) (T : Z) : Prop :=
  forall i j, 0 <= i < T -> 0 <= j < T ->
              IsHashNull (key_slot l i) = false ->
              key_slot l i = key_slot l j -> i = j.

(** The table of [s] is [l], and its [m_TableCount] slots lie in the
    buffer. *)
Definition set_ok (s : MojoSet.t key) (l : list key) : Prop :=
  MojoSet.m_Keys s = Some l /\
  0 < MojoSet.m_TableCount s <= Z.of_nat (length l).

(** The keys of the occupied slots, in the order of the slots. *)
Definition table_keys (l : list key) (T : Z) : list key :=
  filter (fun k => negb (IsHashNull k)) (firstn (Z.to_nat T) l).

(** What [Enumerate] lets through: everything, or the keys the limiting set
    contains. *)
Definition limited (limit : option (key -> bool)) (ks : list key)
  : list key :=
  match limit with
  | Some contains => filter contains ks
  | None => ks
  end.

End SetTableVocabulary.

Section SetStateVocabulary.
Context {key : Type} `{MojoKey key}.

(** [s] with another table and another count of keys. *)
Definition set_table (s : MojoSet.t key) (l : list key) (n : Z)
  : MojoSet.t key :=
  MojoSet.set_ActiveCount (MojoSet.set_Keys s (Some l)) n.

(** The table of a set read as a table of pairs, each key paired with
    itself: the facts about probing tables of pairs apply to it. *)
Definition as_pairs (l : list key) : list (MojoKeyValue key key) :=
  map (fun k => mkKeyValue k k) l.

(** The state a set is in between two calls: its status is ok, its table
    satisfies the probing invariant, no key is in two slots and
    [m_ActiveCount] counts the occupied slots. *)
Definition set_invariant (s : MojoSet.t key) (l : list key) : Prop :=
  set_ok s l /\
  MojoSet.m_Status s = kMojoStatus_Ok /\
  set_probe_invariant l (MojoSet.m_TableCount s) /\
  no_duplicates l (MojoSet.m_TableCount s) /\
  count_parity s.

(** The invariant, as a test. *)
Definition no_duplicatesb (l : list key) (T : Z) : bool :=
  forallb (fun i =>
             forallb (fun j =>
                        implb (negb (IsHashNull (key_slot l i))
                               && key_eqb (key_slot l i) (key_slot l j))
                              (i =? j))
                     (zrange T))
          (zrange T).

Definition set_invariantb (s : MojoSet.t key) (l : list key) : bool :=
  (0 <? MojoSet.m_TableCount s)
  && (MojoSet.m_TableCount s <=? Z.of_nat (length l))
  && is_ok (MojoSet.m_Status s)
  && probe_invariantb (as_pairs l) (MojoSet.m_TableCount s)
  && no_duplicatesb l (MojoSet.m_TableCount s)
  && (MojoSet.m_ActiveCount s =? occupied_slots s).

End SetStateVocabulary.

(** The scenario's set with automatic resizing switched off. *)
Definition steady_set : MojoSet.t Z :=
  MojoSet.mk (Some []) (Some [0; 1; 2; 3; 0; 0; 0; 0]) 3 8 8 3 kMojoStatus_Ok
    8 4 80 30 false false true.

Section SetRemovalVocabulary.
Context {key : Type} `{MojoKey key}.

(** What two tables of a set have in common while keys move inside one of
    them: the size, the keys, their number, and no key twice. *)
Definition same_keys (l0 l : list key) (T : Z) : Prop :=
  length l = length l0 /\
  (forall k, member l T k <-> member l0 T k) /\
  no_duplicates l T /\
  Z.of_nat (length (table_keys l T)) = Z.of_nat (length (table_keys l0 T)).

(** The state of the table while the loops of [RemoveOne] walk from the
    cleared slot [a] to the empty slot [e], once the slots up to [m] steps
    from [a] are done: the slots still to come are occupied, and the table
    holds the keys of [l0]. *)
Definition set_fixing (l0 l : list key) (T a e m : Z) : Prop :=
  fixing (as_pairs l) T a e (dist T a e) m /\
  (forall y, 0 <= y < T -> m < dist T a y < dist T a e ->
             IsHashNull (key_slot l y) = false) /\
  same_keys l0 l T.

End SetRemovalVocabulary.

(** A set of the eager configuration whose next [Insert] grows the table:
    two keys in a table of 4, in a buffer of 4. *)
Definition crowded_set : MojoSet.t Z :=
  MojoSet.mk (Some []) (Some [0; 1; 2; 0]) 2 4 4 2 kMojoStatus_Ok
    4 4 50 20 true true true.

Section SetBookVocabulary.
Context {key : Type} `{MojoKey key}.

(** The table holds the keys that are live by the book, the null key
    apart. *)
Definition holds_live (l : list key) (T : Z) (live : list key) : Prop :=
  forall k, member l T k <-> (IsHashNull k = false /\ is_live k live = true).

End SetBookVocabulary.

Section SetGrowVocabulary.
Context {key : Type} `{MojoKey key}.

(** The slots from [a] to [b] are occupied. *)
Definition all_occupied (l : list key) (a b : Z) : Prop :=
  forall y, a <= y <= b -> IsHashNull (key_slot l y) = false.

(** The slots from [T] on are empty. *)
Definition clean_tail (l : list key) (T : Z) : Prop :=
  forall y, T <= y -> IsHashNull (key_slot l y) = true.

(** In a table of [2 * T] slots, no key of the upper half sits below the
    slot where its probe starts. *)
Definition upper_no_wrap (l : list key) (T : Z) : Prop :=
  forall j, T <= j < 2 * T -> IsHashNull (key_slot l j) = false ->
            GetHash (key_slot l j) mod (2 * T) <= j.

(** The table while the first loop of an in-place growth from [T] to
    [2 * T] slots has dealt with the slots below [i]: the slots from [i] to
    [T] are as they were, and a key elsewhere is reachable or part of the
    run of occupied slots that starts the upper half. *)
Definition growing (l0 l : list key) (T i : Z) : Prop :=
  same_keys l0 l (2 * T) /\
  (forall j, i <= j < T -> key_slot l j = key_slot l0 j) /\
  (forall j, 0 <= j < 2 * T -> IsHashNull (key_slot l j) = false ->
             ~ (i <= j < T) ->
             set_reachable l (2 * T) j \/ (T <= j /\ all_occupied l T j)) /\
  upper_no_wrap l T.

(** The table while the second loop goes through the run that starts the
    upper half and has dealt with its slots below [i]. *)
Definition settling (l1 l : list key) (T i : Z) : Prop :=
  same_keys l1 l (2 * T) /\
  (forall y, i <= y < 2 * T -> key_slot l y = key_slot l1 y) /\
  all_occupied l1 T (i - 1) /\
  (forall j, 0 <= j < 2 * T -> IsHashNull (key_slot l j) = false ->
             set_reachable l (2 * T) j \/ (i <= j /\ all_occupied l i j)) /\
  upper_no_wrap l T /\
  ((exists j, 0 <= j < T /\ IsHashNull (key_slot l1 j) = false)
   \/ (forall j, 0 <= j < T -> IsHashNull (key_slot l j) = false ->
                 GetHash (key_slot l j) mod (2 * T) <= j)).

End SetGrowVocabulary.

(** [clean_tail], as a test. *)
Definition clean_tailb {key : Type} `{MojoKey key} (l : list key) (T : Z)
  : bool :=
  forallb IsHashNull (skipn (Z.to_nat T) l).

Section SetLoadVocabulary.
Context {key : Type} `{MojoKey key}.

(** The growth threshold keeps a slot of the table free: with [T] slots and
    a threshold of [g] percent, [Insert] doubles the table before the count
    reaches [T], a doubled table is no longer due for growth, and the count
    is one that an [Insert] without growth due can have left. *)
Definition spare_slot (s : MojoSet.t key) : Prop :=
  let T := MojoSet.m_TableCount s in
  let g := MojoSet.m_GrowThreshold s in
  100 <= T * g /\ T * g <= 100 * (T - 1) /\
  (MojoSet.m_ActiveCount s - 1) * 100 < T * g.

(** A set that grows on its own and never shrinks, in its invariant: its
    allocator never refuses, its buffer of [m_AllocCount] slots is empty
    behind the table, and its threshold keeps a slot free. *)
Definition self_growing (s : MojoSet.t key) (l : list key) : Prop :=
  set_invariant s l /\
  clean_tail l (MojoSet.m_TableCount s) /\
  Z.of_nat (length l) = MojoSet.m_AllocCount s /\
  MojoSet.m_AutoGrow s = true /\ MojoSet.m_AutoShrink s = false /\
  MojoSet.m_DynamicAlloc s = true /\
  (exists alloc, MojoSet.m_Alloc s = Some alloc /\ ~ In false alloc) /\
  spare_slot s.

End SetLoadVocabulary.

(** A configuration that grows at 50% and never shrinks: a table of 2 in a
    buffer of 8. *)
Definition roomy_config : MojoConfig := mkConfig 8 2 50 20 true false true.

(** The set of that configuration after [Insert( 1 )]. *)
Definition roomy_set : MojoSet.t Z :=
  MojoSet.mk (Some []) (Some [0; 1; 0; 0; 0; 0; 0; 0]) 1 8 2 1 kMojoStatus_Ok
    8 2 50 20 true false true.

Section SetResizingVocabulary.
Context {key : Type} `{MojoKey key}.

(** A set that resizes on its own in buffers of the size of its table, in
    its invariant: the minimum capacity is no more than the minimum table
    count, so that every growth and every shrinking moves the keys to a
    fresh buffer; the allocator never refuses; the thresholds are those
    [Create] accepts, and the growth threshold keeps a slot of the smallest
    table free. *)
Definition self_resizing (s : MojoSet.t key) (l : list key) : Prop :=
  let T := MojoSet.m_TableCount s in
  let g := MojoSet.m_GrowThreshold s in
  set_invariant s l /\
  Z.of_nat (length l) = T /\ MojoSet.m_AllocCount s = T /\
  MojoSet.m_AllocCountMin s <= MojoSet.m_TableCountMin s /\
  1 < MojoSet.m_TableCountMin s <= T /\
  MojoSet.m_AutoGrow s = true /\ MojoSet.m_DynamicAlloc s = true /\
  (exists alloc, MojoSet.m_Alloc s = Some alloc /\ ~ In false alloc) /\
  MojoSet.m_ShrinkThreshold s * 2 < g /\
  100 <= MojoSet.m_TableCountMin s * g /\
  MojoSet.m_TableCountMin s * g <= 100 * (MojoSet.m_TableCountMin s - 1) /\
  (MojoSet.m_ActiveCount s - 1) * 100 < T * g.

End SetResizingVocabulary.

(** A set of the eager configuration holding 1 and 2 in a table of 8, in a
    buffer of 8. *)
Definition snug_set : MojoSet.t Z :=
  MojoSet.mk (Some []) (Some [0; 1; 2; 0; 0; 0; 0; 0]) 2 8 8 9 kMojoStatus_Ok
    2 2 50 20 true true true.

Section MultiMapBookVocabulary.
Context {key value : Type} `{MojoKey key} `{MojoValue value}.

(** The number of occupied slots among the [T] slots of a table. *)
Definition occupied_count (l : list (MojoKeyValue key value)) (T : Z) : Z :=
  Z.of_nat (length (filter (fun kv => negb (IsHashNull (kv_key kv)))
                      (firstn (Z.to_nat T) l))).

(** The mutations of a multimap. *)
Inductive MultiMapOp : Type :=
| MOpInsert (k : key) (v : value)
| MOpRemove (k : key)
| MOpRemove2 (k : key) (v : value).

Definition run_multimap_op (depth : nat) (m : MojoMultiMap.t key value)
    (op : MultiMapOp) : option (MojoMultiMap.t key value) :=
  match op with
  | MOpInsert k v => option_map fst (MojoMultiMap.Insert depth m k v)
  | MOpRemove k => option_map fst (MojoMultiMap.Remove depth m k)
  | MOpRemove2 k v => option_map fst (MojoMultiMap.Remove2 depth m k v)
  end.

Fixpoint run_multimap_ops (depth : nat) (m : MojoMultiMap.t key value)
    (ops : list MultiMapOp) : option (MojoMultiMap.t key value) :=
  match ops with
  | [] => Some m
  | op :: rest =>
      m' <- run_multimap_op depth m op ;; run_multimap_ops depth m' rest
  end.

Definition pair_eqb (a b : MojoKeyValue key value) : bool :=
  key_eqb (kv_key a) (kv_key b) && value_eqb (kv_value a) (kv_value b).

(** The pairs that are live by the book: [Insert] makes its pair live,
    [Remove( key )] ends every pair of the key, and [Remove( key, value )]
    ends that pair, unless the value is null. *)
Definition book_op (live : list (MojoKeyValue key value)) (op : MultiMapOp)
  : list (MojoKeyValue key value) :=
  match op with
  | MOpInsert k v => mkKeyValue k v :: live
  | MOpRemove k => filter (fun kv => negb (key_eqb (kv_key kv) k)) live
  | MOpRemove2 k v =>
      if value_IsHashNull v then live
      else filter (fun kv => negb (pair_eqb kv (mkKeyValue k v))) live
  end.

Definition book (live : list (MojoKeyValue key value))
    (ops : list MultiMapOp) : list (MojoKeyValue key value) :=
  fold_left book_op ops live.

(** The table holds the pairs that are live, those of the null key
    apart. *)
Definition holds_book (l : list (MojoKeyValue key value)) (T : Z)
    (live : list (MojoKeyValue key value)) : Prop :=
  forall kv, holds l T kv <-> (IsHashNull (kv_key kv) = false /\ In kv live).

End MultiMapBookVocabulary.

Section MultiMapSteadyVocabulary.
Context {key value : Type} `{MojoKey key} `{MojoValue value}.

(** A multimap between two calls, with automatic resizing off: its status
    is ok and its table satisfies the probing invariant. *)
Definition multimap_steady (m : MojoMultiMap.t key value)
    (l : list (MojoKeyValue key value)) : Prop :=
  table_ok m l /\ MojoMultiMap.m_Status m = kMojoStatus_Ok /\
  probe_invariant l (MojoMultiMap.m_TableCount m) /\
  MojoMultiMap.m_AutoGrow m = false /\ MojoMultiMap.m_AutoShrink m = false.

End MultiMapSteadyVocabulary.

Section SetShrinkVocabulary.
Context {key : Type} `{MojoKey key}.

(** The table while the loop of an in-place shrinking from [2 * T] to [T]
    slots has dealt with the slots below [i]; [e] is the first slot that
    was empty.  The upper half is as it was from [i] on and empty below;
    in the lower half the keys of the slots that are done, and of the
    slots behind [e], are reachable; the slots from [i] to [e] are as they
    were; and while the loop has not reached [e], that slot is empty, a
    key before it starts its probe at or before its slot or behind [e],
    and a key behind it starts its probe behind [e]. *)
Definition halving (l0 l : list key) (T e i : Z) : Prop :=
  same_keys l0 l (2 * T) /\
  (forall j, T <= j < 2 * T -> i <= j -> key_slot l j = key_slot l0 j) /\
  (forall j, T <= j < i -> IsHashNull (key_slot l j) = true) /\
  (forall j, 0 <= j < T -> IsHashNull (key_slot l j) = false ->
             j < i \/ e < j -> set_reachable l T j) /\
  (forall j, i <= j < e -> key_slot l j = key_slot l0 j) /\
  (i <= e ->
   IsHashNull (key_slot l e) = true /\
   forall j, 0 <= j < T -> IsHashNull (key_slot l j) = false ->
             (j < e -> GetHash (key_slot l j) mod T <= j
                       \/ e < GetHash (key_slot l j) mod T) /\
             (e < j -> e < GetHash (key_slot l j) mod T <= j)).

End SetShrinkVocabulary.

(** A set of a configuration with a minimum capacity of 16 and automatic
    shrinking on: four keys in a table of 16, in a buffer of 16. *)
Definition slack_set : MojoSet.t Z :=
  MojoSet.mk (Some [])
    (Some [0; 1; 17; 0; 0; 0; 0; 0; 0; 9; 25; 0; 0; 0; 0; 0])
    4 16 16 4 kMojoStatus_Ok 16 2 50 20 true true true.

(* ========================================================================= *)
(** * Properties *)

(* ------------------------------------------------------------------------- *)
(** ** Arrays *)

Lemma zget_Some_iff {A} (l : list A) (i : Z) :
  (exists x, zget l i = Some x) <-> 0 <= i < Z.of_nat (length l).
Proof.
  unfold zget. destruct (i <? 0) eqn:Hi.
  - apply Z.ltb_lt in Hi. split; [intros [x Hx]; discriminate | lia].
  - apply Z.ltb_ge in Hi. split.
    + intros [x Hx].
      assert (Hn : (Z.to_nat i < length l)%nat)
        by (apply nth_error_Some; congruence).
      lia.
    + intros Hr.
      destruct (nth_error l (Z.to_nat i)) eqn:E; [eauto|].
      apply nth_error_None in E. lia.
Qed.

Lemma zget_bounds {A} {l : list A} {i : Z} {x : A} :
  zget l i = Some x -> 0 <= i < Z.of_nat (length l).
Proof. intros Hx. apply zget_Some_iff. eauto. Qed.

Lemma list_set_length {A} (l : list A) (n : nat) (v : A) :
  length (list_set l n v) = length l.
Proof.
  revert n. induction l as [|x l IH]; intros [|n]; simpl; auto.
Qed.

Lemma nth_error_list_set_same {A} (l : list A) (n : nat) (v : A) :
  (n < length l)%nat -> nth_error (list_set l n v) n = Some v.
Proof.
  revert n. induction l as [|x l IH]; intros [|n] Hn; simpl in *;
    try lia; auto.
  apply IH. lia.
Qed.

Lemma nth_error_list_set_other {A} (l : list A) (n m : nat) (v : A) :
  n <> m -> nth_error (list_set l n v) m = nth_error l m.
Proof.
  revert n m. induction l as [|x l IH]; intros [|n] [|m] Hnm; simpl;
    try congruence; auto.
Qed.

Lemma zset_Some {A} (l : list A) (i : Z) (v : A) :
  0 <= i < Z.of_nat (length l) ->
  zset l i v = Some (list_set l (Z.to_nat i) v).
Proof.
  intros Hi. unfold zset.
  destruct (0 <=? i) eqn:E1; [|apply Z.leb_gt in E1; lia].
  destruct (i <? Z.of_nat (length l)) eqn:E2; [|apply Z.ltb_ge in E2; lia].
  reflexivity.
Qed.

Lemma zset_inv {A} {l l' : list A} {i : Z} {v : A} :
  zset l i v = Some l' ->
  0 <= i < Z.of_nat (length l) /\ l' = list_set l (Z.to_nat i) v.
Proof.
  unfold zset. intros Hs.
  destruct (0 <=? i) eqn:E1; simpl in Hs; [|discriminate].
  destruct (i <? Z.of_nat (length l)) eqn:E2; [|discriminate].
  apply Z.leb_le in E1. apply Z.ltb_lt in E2.
  split; [lia | congruence].
Qed.

Lemma zget_list_set_same {A} (l : list A) (i : Z) (v : A) :
  0 <= i < Z.of_nat (length l) ->
  zget (list_set l (Z.to_nat i) v) i = Some v.
Proof.
  intros Hi. unfold zget.
  destruct (i <? 0) eqn:E; [apply Z.ltb_lt in E; lia|].
  apply nth_error_list_set_same. lia.
Qed.

Lemma zget_list_set_other {A} (l : list A) (i j : Z) (v : A) :
  0 <= i -> i <> j ->
  zget (list_set l (Z.to_nat i) v) j = zget l j.
Proof.
  intros Hi Hij. unfold zget.
  destruct (j <? 0) eqn:E; [reflexivity|].
  apply Z.ltb_ge in E.
  apply nth_error_list_set_other. lia.
Qed.

(* ------------------------------------------------------------------------- *)
(** ** The probe *)

Lemma hits_misses {A} {hit : A -> bool} {l : list A} {i : Z} :
  hits hit l i -> misses hit l i -> False.
Proof. intros [x [Hx Hh]] [y [Hy Hm]]. congruence. Qed.

Lemma mod_wrap (x T : Z) : T <= x < 2 * T -> x mod T = x - T.
Proof.
  intros Hx. symmetry. apply (Z.mod_unique x T 1 (x - T)); lia.
Qed.

Lemma probe_loop_spec {A} (hit : A -> bool) (l : list A) (lo hi : Z) :
  0 <= lo -> hi <= Z.of_nat (length l) ->
  (exists i, probe_loop hit l lo hi = Some (Leave i) /\ lo <= i < hi /\
             hits hit l i /\ forall j, lo <= j < i -> misses hit l j)
  \/ (probe_loop hit l lo hi = Some (Next tt) /\
      forall j, lo <= j < hi -> misses hit l j).
Proof.
  unfold probe_loop, for_range. intros Hlo Hhi.
  remember (Z.to_nat (hi - lo)) as n eqn:Hn.
  revert lo Hlo Hn. induction n as [|n IH]; intros lo Hlo Hn.
  - right. split; [reflexivity|]. intros j Hj. lia.
  - simpl. assert (Hin : 0 <= lo < Z.of_nat (length l)) by lia.
    destruct (proj2 (zget_Some_iff l lo) Hin) as [x Hx]. rewrite Hx.
    destruct (hit x) eqn:Hh.
    + left. exists lo. split; [reflexivity|]. split; [lia|]. split.
      * exists x. auto.
      * intros j Hj. lia.
    + destruct (IH (lo + 1)) as [[i [Hr [Hi [Hhit Hmiss]]]] | [Hr Hmiss]];
        try lia.
      * left. exists i. split; [exact Hr|]. split; [lia|]. split; [exact Hhit|].
        intros j Hj. destruct (Z.eq_dec j lo) as [->|Hne].
        -- exists x. auto.
        -- apply Hmiss. lia.
      * right. split; auto.
        intros j Hj. destruct (Z.eq_dec j lo) as [->|Hne].
        -- exists x. auto.
        -- apply Hmiss. lia.
Qed.

(** What [probe] returns on a table of [table_count] slots: the first slot
    that hits in probing order, or the fallback 0 when no slot hits. *)
Lemma probe_spec {A} (hit : A -> bool) (l : list A) (hash table_count : Z) :
  0 < table_count <= Z.of_nat (length l) ->
  exists r, probe hit (Some l) hash table_count = Some r /\
            0 <= r < table_count /\
            (first_hit hit l table_count (hash mod table_count) r
             \/ (r = 0 /\ no_hit hit l table_count)).
Proof.
  intros HT. unfold probe.
  destruct (table_count <=? 0) eqn:E; [apply Z.leb_le in E; lia|].
  assert (Hs : 0 <= hash mod table_count < table_count)
    by (apply Z.mod_pos_bound; lia).
  set (start := hash mod table_count) in *.
  destruct (probe_loop_spec hit l start table_count)
    as [[i [Hr [Hi [Hhit Hmiss]]]] | [Hr Hmiss1]]; try lia.
  - rewrite Hr. exists i. split; [reflexivity|]. split; [lia|].
    left. exists (i - start). split; [lia|].
    replace (start + (i - start)) with i by lia.
    rewrite Z.mod_small by lia. split; [reflexivity|]. split; [exact Hhit|].
    intros d' Hd'. rewrite Z.mod_small by lia. apply Hmiss. lia.
  - rewrite Hr.
    destruct (probe_loop_spec hit l 0 start)
      as [[i [Hr2 [Hi [Hhit Hmiss]]]] | [Hr2 Hmiss2]]; try lia.
    + rewrite Hr2. exists i. split; [reflexivity|]. split; [lia|].
      left. exists (table_count - start + i). split; [lia|].
      replace (start + (table_count - start + i)) with (table_count + i) by lia.
      rewrite mod_wrap by lia.
      replace (table_count + i - table_count) with i by lia.
      split; [reflexivity|]. split; [exact Hhit|].
      intros d' Hd'.
      destruct (Z_lt_ge_dec (start + d') table_count) as [Hlt|Hge].
      * rewrite Z.mod_small by lia. apply Hmiss1. lia.
      * rewrite mod_wrap by lia. apply Hmiss. lia.
    + rewrite Hr2. exists 0. split; [reflexivity|]. split; [lia|].
      right. split; [reflexivity|].
      intros i Hi.
      destruct (Z_lt_ge_dec i start); [apply Hmiss2 | apply Hmiss1]; lia.
Qed.

(** Two tables that answer every probe predicate alike, slot by slot, send
    every probe to the same slot. *)
Lemma for_up_ext {St R} (body1 body2 : Z -> St -> option (step St R)) :
  (forall j s, body1 j s = body2 j s) ->
  forall n i s, for_up n i body1 s = for_up n i body2 s.
Proof.
  intros Hext. induction n as [|n IH]; intros i s; simpl; auto.
  rewrite Hext. destruct (body2 i s) as [[s'|r]|]; auto.
Qed.

Lemma probe_ext {A} (hit : A -> bool) (l l' : list A) (hash table_count : Z) :
  (forall j, option_map hit (zget l' j) = option_map hit (zget l j)) ->
  probe hit (Some l') hash table_count = probe hit (Some l) hash table_count.
Proof.
  intros Hsame. unfold probe, probe_loop, for_range.
  assert (Hbody : forall j (u : unit),
             (x <- zget l' j ;; Some (if hit x then Leave j else Next tt))
             = (x <- zget l j ;;
                Some (if hit x then @Leave unit Z j else Next tt))).
  { intros j _. specialize (Hsame j).
    destruct (zget l' j), (zget l j); simpl in Hsame; try discriminate; auto.
    injection Hsame as ->. reflexivity. }
  destruct (table_count <=? 0); auto.
  rewrite !(for_up_ext _ _ Hbody). reflexivity.
Qed.

(** Writing to the slot a probe found a value that the probe predicate
    answers alike leaves the probe where it was. *)
Lemma probe_after_store {A} (hit : A -> bool) (l : list A)
    (hash table_count i : Z) (x v : A) :
  zget l i = Some x -> hit v = hit x ->
  probe hit (Some (list_set l (Z.to_nat i) v)) hash table_count
  = probe hit (Some l) hash table_count.
Proof.
  intros Hx Hv. apply probe_ext. intros j.
  pose proof (zget_bounds Hx) as Hb.
  destruct (Z.eq_dec i j) as [<-|Hne].
  - rewrite zget_list_set_same by lia. rewrite Hx. simpl. congruence.
  - rewrite zget_list_set_other by lia. reflexivity.
Qed.

(* ------------------------------------------------------------------------- *)
(** ** MojoSet *)

Section SetProperties.
Context {key : Type} `{MojoKey key}.

Lemma key_eqb_refl (k : key) : key_eqb k k = true.
Proof. apply key_eqb_eq. reflexivity. Qed.

(** A list that has fewer elements passing a test than elements has one that
    fails it. *)
Lemma filter_short {A} (f : A -> bool) (l : list A) :
  (length (filter f l) < length l)%nat ->
  exists n x, nth_error l n = Some x /\ f x = false.
Proof.
  induction l as [|a l IH]; simpl; intros Hlen; [lia|].
  destruct (f a) eqn:Ha.
  - simpl in Hlen. destruct IH as [n [x [Hn Hx]]]; [lia|].
    exists (S n), x. auto.
  - exists O, a. auto.
Qed.

(** With count parity, a table that is not full has an empty slot. *)
Lemma empty_slot_exists (s : MojoSet.t key) (l : list key) :
  MojoSet.m_Keys s = Some l ->
  0 < MojoSet.m_TableCount s <= Z.of_nat (length l) ->
  count_parity s ->
  MojoSet.m_ActiveCount s < MojoSet.m_TableCount s ->
  exists i x, 0 <= i < MojoSet.m_TableCount s /\ zget l i = Some x /\
              IsHashNull x = true.
Proof.
  intros Hl HT Hpar Hlt. unfold count_parity, occupied_slots in Hpar.
  rewrite Hl in Hpar.
  set (T := MojoSet.m_TableCount s) in *.
  assert (Hfl : length (firstn (Z.to_nat T) l) = Z.to_nat T)
    by (apply firstn_length_le; lia).
  destruct (filter_short (fun k => negb (IsHashNull k))
              (firstn (Z.to_nat T) l)) as [n [x [Hn Hx]]]; [lia|].
  assert (Hnlt : (n < Z.to_nat T)%nat).
  { rewrite <- Hfl. apply nth_error_Some. congruence. }
  exists (Z.of_nat n), x. split; [lia|]. split.
  - unfold zget. destruct (Z.of_nat n <? 0) eqn:E; [apply Z.ltb_lt in E; lia|].
    rewrite Nat2Z.id. rewrite <- Hn. rewrite nth_error_firstn.
    destruct (n <? Z.to_nat T)%nat eqn:E2; [reflexivity|].
    apply Nat.ltb_ge in E2. lia.
  - apply negb_false_iff. exact Hx.
Qed.

(** C7.  On a set whose table holds [m_TableCount > 0] slots of its buffer,
    whose [m_ActiveCount] counts the occupied ones and is below
    [m_TableCount], [FindEmptyOrMatching( k )] returns an index of the table
    whose slot is empty or holds [k].  It is the first such slot met from
    [GetHash( k ) % m_TableCount] up to the end of the table and on from 0,
    so the result is a slot that was found and never the fallback 0 of a
    search that met nothing. *)
Theorem FindEmptyOrMatching_finds_slot (s : MojoSet.t key) (k : key)
    (l : list key) :
  MojoSet.m_Keys s = Some l ->
  0 < MojoSet.m_TableCount s <= Z.of_nat (length l) ->
  count_parity s ->
  MojoSet.m_ActiveCount s < MojoSet.m_TableCount s ->
  exists i slot,
    MojoSet.FindEmptyOrMatching s k = Some i /\
    0 <= i < MojoSet.m_TableCount s /\
    MojoSet.key_at s i = Some slot /\
    (IsHashNull slot = true \/ slot = k) /\
    first_hit (MojoSet.hit k) l (MojoSet.m_TableCount s)
      (GetHash k mod MojoSet.m_TableCount s) i.
Proof.
  intros Hl HT Hpar Hlt.
  destruct (empty_slot_exists s l Hl HT Hpar Hlt) as [e [x [He [Hx Hnull]]]].
  unfold MojoSet.FindEmptyOrMatching. rewrite Hl.
  destruct (probe_spec (MojoSet.hit k) l (GetHash k)
              (MojoSet.m_TableCount s) HT)
    as [r [Hr [Hrange [Hfirst | [_ Hnone]]]]].
  - destruct Hfirst as [d [Hd [Hrd [[slot [Hslot Hhit]] Hmiss]]]].
    exists r, slot. split; [exact Hr|]. split; [exact Hrange|].
    split; [unfold MojoSet.key_at; rewrite Hl; exact Hslot|]. split.
    + unfold MojoSet.hit in Hhit. apply orb_true_iff in Hhit.
      destruct Hhit as [Hn|He']; [left; exact Hn | right].
      apply key_eqb_eq. exact He'.
    + exists d. split; [exact Hd|]. split; [exact Hrd|].
      split; [exists slot; auto | exact Hmiss].
  - exfalso. destruct (Hnone e He) as [y [Hy Hmiss]].
    rewrite Hx in Hy. injection Hy as <-.
    unfold MojoSet.hit in Hmiss. rewrite Hnull in Hmiss. discriminate.
Qed.

End SetProperties.

(** The theorem at the scenario's set holding 1, 2 and 3, probed for 7:
    the probe starts at slot 3, wraps and stops at the empty slot 0. *)
Lemma FindEmptyOrMatching_finds_slot_witness :
  exists i slot,
    MojoSet.FindEmptyOrMatching three_keys 7 = Some i /\
    0 <= i < 4 /\
    MojoSet.key_at three_keys i = Some slot /\
    (IsHashNull slot = true \/ slot = 7) /\
    first_hit (MojoSet.hit 7) [0; 1; 2; 3; 0; 0; 0; 0] 4 (GetHash 7 mod 4) i.
Proof.
  apply (FindEmptyOrMatching_finds_slot three_keys 7 [0; 1; 2; 3; 0; 0; 0; 0]).
  - reflexivity.
  - simpl. lia.
  - reflexivity.
  - simpl. lia.
Defined.

Section SetInsertAgain.
Context {key : Type} `{MojoKey key}.

Lemma AutoGrow_idle (insert : MojoSet.t key -> key -> option (MojoSet.t key))
    (s : MojoSet.t key) :
  MojoSet.m_AutoGrow s && MojoSet.grow_due s = false ->
  MojoSet.AutoGrow_with insert s = Some s.
Proof.
  intros Hidle. unfold MojoSet.AutoGrow_with, MojoSet.Grow_with.
  destruct (MojoSet.m_AutoGrow s); [|reflexivity].
  simpl in Hidle. rewrite Hidle. reflexivity.
Qed.

(** Once [Insert( k )] has run, the probe for [k] is defined and stops at an
    occupied slot, unless the table was left full or the call was refused. *)
Lemma Insert_leaves_key_found
    (insert : MojoSet.t key -> key -> option (MojoSet.t key))
    (s s1 : MojoSet.t key) (k : key) (st : MojoStatus) :
  MojoSet.Insert_with insert s k = Some (s1, st) ->
  is_ok (MojoSet.m_Status s1) = true ->
  IsHashNull k = false ->
  MojoSet.m_ActiveCount s1 < MojoSet.m_TableCount s1 ->
  exists i slot, MojoSet.FindEmptyOrMatching s1 k = Some i /\
                 MojoSet.key_at s1 i = Some slot /\ IsHashNull slot = false.
Proof.
  unfold MojoSet.Insert_with. intros Hins Hok Hk Hroom.
  destruct (is_ok (MojoSet.m_Status s)) eqn:Hs.
  2:{ injection Hins as <- <-. congruence. }
  rewrite Hk in Hins.
  destruct (MojoSet.AutoGrow_with insert s) as [sg|] eqn:Hg; [|discriminate].
  destruct (MojoSet.m_ActiveCount sg <? MojoSet.m_TableCount sg) eqn:Hlt.
  2:{ injection Hins as <- <-. apply Z.ltb_ge in Hlt. lia. }
  destruct (MojoSet.FindEmptyOrMatching sg k) as [index|] eqn:Hf;
    [|discriminate].
  destruct (MojoSet.key_at sg index) as [slot|] eqn:Hslot; [|discriminate].
  destruct (IsHashNull slot) eqn:Hnull.
  - unfold MojoSet.store in Hins.
    unfold MojoSet.key_at in Hslot.
    destruct (MojoSet.m_Keys sg) as [l|] eqn:Hl; [|discriminate].
    destruct (zset l index k) as [l'|] eqn:Hset; [|discriminate].
    injection Hins as <- <-.
    destruct (zset_inv Hset) as [Hb ->].
    exists index, k. split; [|split].
    + unfold MojoSet.FindEmptyOrMatching in *. rewrite Hl in Hf.
      cbn [MojoSet.m_Keys MojoSet.m_TableCount MojoSet.set_ChangeCount
           MojoSet.set_ActiveCount MojoSet.set_Keys].
      rewrite (probe_after_store (MojoSet.hit k) l (GetHash k) _ index slot k
                 Hslot);
        [exact Hf|].
      unfold MojoSet.hit. rewrite Hnull, key_eqb_refl, Hk. reflexivity.
    + unfold MojoSet.key_at.
      cbn [MojoSet.m_Keys MojoSet.set_ChangeCount MojoSet.set_ActiveCount
           MojoSet.set_Keys].
      apply zget_list_set_same. exact Hb.
    + exact Hk.
  - injection Hins as <- <-. exists index, slot. auto.
Qed.


(** C10.  [Contains( k )] of a set and of a multimap answers false whenever
    [k] is the hash-null key or the status of the container is not ok.  The
    answer does not depend on the table: it is the same for a container
    without a buffer, which a probe could not read. *)
Theorem Contains_false_without_probing {value : Type} `{MojoValue value}
    (s : MojoSet.t key) (m : MojoMultiMap.t key value) (k : key) :
  (IsHashNull k = true \/ MojoSet.m_Status s <> kMojoStatus_Ok ->
   MojoSet.Contains s k = Some false) /\
  (IsHashNull k = true \/ MojoMultiMap.m_Status m <> kMojoStatus_Ok ->
   MojoMultiMap.Contains m k = Some false).
Proof.
  split; intros Hcase.
  - unfold MojoSet.Contains.
    destruct Hcase as [Hnull | Hstatus].
    + rewrite Hnull, andb_false_r. reflexivity.
    + destruct (MojoSet.m_Status s); try reflexivity. congruence.
  - unfold MojoMultiMap.Contains.
    destruct Hcase as [Hnull | Hstatus].
    + rewrite Hnull, andb_false_r. reflexivity.
    + destruct (MojoMultiMap.m_Status m); try reflexivity. congruence.
Qed.

End SetInsertAgain.



(** [Contains] on a container that was never created, and on a null key. *)
Lemma Contains_false_without_probing_witness :
  MojoSet.Contains (MojoSet.Init : MojoSet.t Z) 5 = Some false /\
  MojoMultiMap.Contains interleaved 0 = Some false.
Proof.
  split.
  - apply (proj1 (Contains_false_without_probing
                    MojoSet.Init (MojoMultiMap.Init : MojoMultiMap.t Z Z) 5)).
    right. simpl. discriminate.
  - apply (proj2 (Contains_false_without_probing
                    (MojoSet.Init : MojoSet.t Z) interleaved 0)).
    left. reflexivity.
Defined.

(** C1 on the set of the specification's scenario.  Four inserts fill the
    table of 4 (three keys in four slots are below the 80% threshold, so the
    fourth insert does not grow it).  On the full table the probe for a key
    that is not there meets nothing and falls back to slot 0, which is
    occupied: [Contains( 5 )] answers true although 5 was never inserted,
    and [Remove( 5 )] reports success and removes key 4, after which
    [Contains( 4 )] answers false although 4 was inserted and never
    removed. *)
Theorem Contains_wrong_on_full_table :
  set_after 2 scenario_config []
    [OpInsert 1; OpInsert 2; OpInsert 3; OpInsert 4]
  = Some (full_set, [4; 3; 2; 1]) /\
  MojoSet.Contains full_set 5 = Some true /\
  is_live 5 [4; 3; 2; 1] = false /\
  set_after 2 scenario_config []
    [OpInsert 1; OpInsert 2; OpInsert 3; OpInsert 4; OpRemove 5]
  = Some (full_set_minus_4, [4; 3; 2; 1]) /\
  MojoSet.Contains full_set_minus_4 4 = Some false /\
  is_live 4 [4; 3; 2; 1] = true.
Proof. repeat split; reflexivity. Qed.



(* ------------------------------------------------------------------------- *)
(** ** Distances round the table *)

Lemma dist_eq (T a b : Z) :
  0 <= a < T -> 0 <= b < T ->
  dist T a b = if a <=? b then b - a else b - a + T.
Proof.
  intros Ha Hb. unfold dist. destruct (Z.leb_spec a b).
  - apply Z.mod_small. lia.
  - symmetry. apply (Z.mod_unique (b - a) T (-1) (b - a + T)); lia.
Qed.

(** Rewrite every distance by cases and leave the rest to [lia]. *)
Ltac cyc :=
  repeat match goal with
         | |- context [dist ?T ?a ?b] => rewrite (dist_eq T a b) by lia
         | Hd : context [dist ?T ?a ?b] |- _ =>
             rewrite (dist_eq T a b) in Hd by lia
         end;
  repeat match goal with
         | |- context [?a <=? ?b] => destruct (Z.leb_spec a b)
         | Hd : context [?a <=? ?b] |- _ => destruct (Z.leb_spec a b)
         end;
  try lia.

Lemma dist_range (T a b : Z) : 0 <= a < T -> 0 <= b < T -> 0 <= dist T a b < T.
Proof. intros. cyc. Qed.

Lemma dist_self (T a : Z) : 0 <= a < T -> dist T a a = 0.
Proof. intros. cyc. Qed.

Lemma dist_inj (T a b c : Z) :
  0 <= a < T -> 0 <= b < T -> 0 <= c < T ->
  dist T a b = dist T a c -> b = c.
Proof. intros Ha Hb Hc Hd. cyc. Qed.

(** The slot [d] steps after [a]. *)
Lemma dist_step (T a d : Z) :
  0 <= a < T -> 0 <= d < T ->
  0 <= (a + d) mod T < T /\ dist T a ((a + d) mod T) = d.
Proof.
  intros Ha Hd.
  assert (Hm : 0 <= (a + d) mod T < T) by (apply Z.mod_pos_bound; lia).
  split; [exact Hm|].
  destruct (Z_lt_ge_dec (a + d) T).
  - rewrite Z.mod_small in * by lia. cyc.
  - rewrite mod_wrap in * by lia. cyc.
Qed.

Lemma step_dist (T a b : Z) :
  0 <= a < T -> 0 <= b < T -> (a + dist T a b) mod T = b.
Proof.
  intros Ha Hb. rewrite (dist_eq T a b) by lia.
  destruct (Z.leb_spec a b).
  - rewrite Z.mod_small by lia. lia.
  - rewrite mod_wrap by lia. lia.
Qed.

(** A probe path that holds [c] before [x] and does not reach [e] cannot
    have [c] inside the run from [a] to [e] and [x] outside of the part of
    the run after [c]. *)
Lemma path_stays_in_run (T a c e x h : Z) :
  0 <= a < T -> 0 <= c < T -> 0 <= e < T -> 0 <= x < T -> 0 <= h < T ->
  dist T a c < dist T a e ->
  dist T a x < dist T a c \/ dist T a e < dist T a x ->
  dist T h c < dist T h x ->
  dist T h x < dist T h e ->
  False.
Proof. intros Ha Hc He Hx Hh H1 H2 H3 H4. cyc. Qed.

(** A loop whose body is defined wherever the invariant holds has a result,
    and the result satisfies the invariant, or what the body promises when it
    leaves the loop. *)
Lemma for_up_total {St R} (P : Z -> St -> Prop) (Q : R -> Prop)
    (body : Z -> St -> option (step St R)) :
  forall (n : nat) (i : Z) (s : St),
    P i s ->
    (forall j s1, i <= j < i + Z.of_nat n -> P j s1 ->
                  exists r, body j s1 = Some r /\
                            match r with
                            | Next s2 => P (j + 1) s2
                            | Leave x => Q x
                            end) ->
    exists res, for_up n i body s = Some res /\
                match res with
                | Next s' => P (i + Z.of_nat n) s'
                | Leave x => Q x
                end.
Proof.
  induction n as [|n IH]; intros i s HP Hbody; cbn [for_up].
  - exists (Next s). split; [reflexivity|].
    replace (i + Z.of_nat 0) with i by lia. exact HP.
  - destruct (Hbody i s) as [r [Hr Hs]]; [lia | exact HP |].
    rewrite Hr. destruct r as [s'|x].
    + replace (i + Z.of_nat (S n)) with ((i + 1) + Z.of_nat n) by lia.
      apply IH; auto.
      intros j s1 Hj. apply Hbody. lia.
    + exists (Leave x). auto.
Qed.

(* ------------------------------------------------------------------------- *)
(** ** Tables of key-value slots *)

Section MultiMapTables.
Context {key value : Type} `{MojoKey key} `{MojoValue value}.


Lemma zget_slot_at (l : list (MojoKeyValue key value)) (i : Z) :
  0 <= i < Z.of_nat (length l) -> zget l i = Some (slot_at l i).
Proof.
  intros Hi. unfold zget, slot_at.
  destruct (i <? 0) eqn:E; [apply Z.ltb_lt in E; lia|].
  apply nth_error_nth'. lia.
Qed.

Lemma nth_list_set_same {A} (l : list A) (n : nat) (v d : A) :
  (n < length l)%nat -> nth n (list_set l n v) d = v.
Proof.
  revert n. induction l as [|x l IH]; intros [|n] Hn; simpl in *;
    try lia; auto.
  apply IH. lia.
Qed.

Lemma nth_list_set_other {A} (l : list A) (n m : nat) (v d : A) :
  n <> m -> nth m (list_set l n v) d = nth m l d.
Proof.
  revert n m. induction l as [|x l IH]; intros [|n] [|m] Hnm; simpl;
    try congruence; auto.
Qed.

Lemma slot_at_set_same (l : list (MojoKeyValue key value)) (i : Z)
    (v : MojoKeyValue key value) :
  0 <= i < Z.of_nat (length l) ->
  slot_at (list_set l (Z.to_nat i) v) i = v.
Proof. intros Hi. unfold slot_at. apply nth_list_set_same. lia. Qed.

Lemma slot_at_set_other (l : list (MojoKeyValue key value)) (i j : Z)
    (v : MojoKeyValue key value) :
  0 <= i -> 0 <= j -> i <> j ->
  slot_at (list_set l (Z.to_nat i) v) j = slot_at l j.
Proof. intros Hi Hj Hij. unfold slot_at. apply nth_list_set_other. lia. Qed.

Lemma default_is_vacant :
  IsHashNull (kv_key (KeyValue_default : MojoKeyValue key value)) = true.
Proof. apply IsHashNull_default. reflexivity. Qed.

Lemma occupied_not_vacant (l : list (MojoKeyValue key value)) (i : Z) :
  occupied l i -> vacant l i -> False.
Proof. unfold occupied, vacant. congruence. Qed.

Lemma occupied_or_vacant (l : list (MojoKeyValue key value)) (i : Z) :
  occupied l i \/ vacant l i.
Proof.
  unfold occupied, vacant. destruct (IsHashNull (kv_key (slot_at l i))); auto.
Qed.

(** A slot hits the probe for its own pair. *)
Lemma hit_own_pair (kv : MojoKeyValue key value) :
  MojoMultiMap.hit_pair (kv_key kv) (kv_value kv) kv = true.
Proof.
  unfold MojoMultiMap.hit_pair.
  rewrite (proj2 (key_eqb_eq _ _) eq_refl), (proj2 (value_eqb_eq _ _) eq_refl).
  apply orb_true_r.
Qed.

Lemma miss_is_occupied (hit : MojoKeyValue key value -> bool)
    (l : list (MojoKeyValue key value)) (i : Z) :
  (forall kv, IsHashNull (kv_key kv) = true -> hit kv = true) ->
  misses hit l i -> occupied l i.
Proof.
  intros Hempty [x [Hx Hmiss]].
  pose proof (zget_bounds Hx) as Hb.
  rewrite (zget_slot_at l i Hb) in Hx. injection Hx as <-.
  unfold occupied. destruct (IsHashNull (kv_key (slot_at l i))) eqn:E; auto.
  rewrite (Hempty _ E) in Hmiss. discriminate.
Qed.

(** The slot a probe stops at, told by distances from its start. *)
Lemma first_hit_by_dist (hit : MojoKeyValue key value -> bool)
    (l : list (MojoKeyValue key value)) (T start r : Z) :
  0 <= start < T ->
  first_hit hit l T start r ->
  0 <= r < T /\ hits hit l r /\
  forall y, 0 <= y < T -> dist T start y < dist T start r -> misses hit l y.
Proof.
  intros Hs [d [Hd [-> [Hhit Hmiss]]]].
  destruct (dist_step T start d Hs Hd) as [Hr Hdist].
  split; [exact Hr|]. split; [exact Hhit|].
  intros y Hy Hlt. rewrite Hdist in Hlt.
  rewrite <- (step_dist T start y Hs Hy).
  apply Hmiss. pose proof (dist_range T start y Hs Hy). lia.
Qed.

(** *** States that differ by their table and count *)

Lemma retable_id (m : MojoMultiMap.t key value)
    (l : list (MojoKeyValue key value)) :
  MojoMultiMap.m_KeyValues m = Some l ->
  retable m l (MojoMultiMap.m_ActiveCount m) = m.
Proof. destruct m. simpl. intros ->. reflexivity. Qed.

Lemma kv_at_retable (m : MojoMultiMap.t key value)
    (l : list (MojoKeyValue key value)) (n i : Z) :
  0 <= i < Z.of_nat (length l) ->
  MojoMultiMap.kv_at (retable m l n) i = Some (slot_at l i).
Proof. intros Hi. unfold MojoMultiMap.kv_at. simpl. apply zget_slot_at, Hi. Qed.

Lemma store_retable (m : MojoMultiMap.t key value)
    (l : list (MojoKeyValue key value)) (n i : Z)
    (kv : MojoKeyValue key value) :
  0 <= i < Z.of_nat (length l) ->
  MojoMultiMap.store (retable m l n) i kv
  = Some (retable m (list_set l (Z.to_nat i) kv) n).
Proof.
  intros Hi. unfold MojoMultiMap.store. simpl. rewrite zset_Some by exact Hi.
  reflexivity.
Qed.

(** What [Reinsert] does to the table: the pair of slot [j] moves to the
    first slot of its probe path that is empty, or stays. *)
Lemma Reinsert_retable (m : MojoMultiMap.t key value)
    (l : list (MojoKeyValue key value))
    (n j : Z) :
  let T := MojoMultiMap.m_TableCount m in
  let kv := slot_at l j in
  0 < T <= Z.of_nat (length l) -> 0 <= j < T ->
  exists p,
    0 <= p < T /\
    hits (MojoMultiMap.hit_pair (kv_key kv) (kv_value kv)) l p /\
    (forall y, 0 <= y < T -> dist T (home T kv) y < dist T (home T kv) p ->
               occupied l y) /\
    dist T (home T kv) p <= dist T (home T kv) j /\
    MojoMultiMap.Reinsert (retable m l n) j
    = Some (retable m (if p =? j then l
                       else list_set (list_set l (Z.to_nat p) kv)
                              (Z.to_nat j) KeyValue_default) n).
Proof.
  intros T kv HT Hj.
  set (hit := MojoMultiMap.hit_pair (kv_key kv) (kv_value kv)).
  assert (Hh : 0 <= home T kv < T) by (apply Z.mod_pos_bound; lia).
  assert (Hjhit : hits hit l j).
  { exists kv. split; [apply zget_slot_at; lia | apply hit_own_pair]. }
  destruct (probe_spec hit l (GetHash (kv_key kv)) T HT)
    as [p [Hp [Hrange [Hfirst | [_ Hnone]]]]].
  2:{ exfalso. exact (hits_misses Hjhit (Hnone j Hj)). }
  destruct (first_hit_by_dist hit l T _ p Hh Hfirst) as [_ [Hhit Hmiss]].
  assert (Hle : dist T (home T kv) p <= dist T (home T kv) j).
  { destruct (Z_le_gt_dec (dist T (home T kv) p) (dist T (home T kv) j));
      [assumption|].
    exfalso. apply (hits_misses Hjhit). apply Hmiss; [exact Hj | lia]. }
  exists p. split; [exact Hrange|]. split; [exact Hhit|]. split; [|split].
  - intros y Hy Hlt. apply (miss_is_occupied hit).
    + intros x Hx. unfold hit, MojoMultiMap.hit_pair. rewrite Hx. reflexivity.
    + apply Hmiss; assumption.
  - exact Hle.
  - unfold MojoMultiMap.Reinsert.
    rewrite kv_at_retable by lia. fold kv.
    unfold MojoMultiMap.FindEmptyOrMatching2.
    cbn [MojoMultiMap.m_KeyValues MojoMultiMap.m_TableCount retable
         MojoMultiMap.set_ActiveCount MojoMultiMap.set_KeyValues].
    fold T. fold hit. rewrite Hp.
    destruct (p =? j) eqn:Epj; simpl; [reflexivity|].
    rewrite store_retable by lia.
    rewrite store_retable by (rewrite list_set_length; lia).
    reflexivity.
Qed.

End MultiMapTables.

(* ------------------------------------------------------------------------- *)
(** ** The fix-up walk *)

Section FixUpWalk.
Context {key value : Type} `{MojoKey key} `{MojoValue value}.
Variables T a e c : Z.
Hypothesis HT : 0 < T.
Hypothesis Ha : 0 <= a < T.
Hypothesis He : 0 <= e < T.
Hypothesis Hc : c = dist T a e.

Lemma home_range (kv : MojoKeyValue key value) : 0 <= home T kv < T.
Proof. apply Z.mod_pos_bound. exact HT. Qed.

(** The table after the pair of slot [j] has moved to slot [p]. *)
Lemma slot_at_move (l : list (MojoKeyValue key value)) (p j x : Z)
    (kv : MojoKeyValue key value) :
  T <= Z.of_nat (length l) -> 0 <= p < T -> 0 <= j < T -> 0 <= x < T ->
  slot_at (list_set (list_set l (Z.to_nat p) kv) (Z.to_nat j)
             KeyValue_default) x
  = if x =? j then KeyValue_default
    else if x =? p then kv else slot_at l x.
Proof.
  intros Hlen Hp Hj Hx.
  destruct (Z.eqb_spec x j) as [->|Hxj].
  - apply slot_at_set_same. rewrite list_set_length. lia.
  - rewrite slot_at_set_other by lia.
    destruct (Z.eqb_spec x p) as [->|Hxp].
    + apply slot_at_set_same. lia.
    + apply slot_at_set_other; lia.
Qed.

Lemma fixing_skip (l : list (MojoKeyValue key value)) (m j : Z) :
  fixing l T a e c m -> 0 <= j < T -> dist T a j = m + 1 -> vacant l j ->
  fixing l T a e c (m + 1).
Proof.
  intros [K1 [K2 K3]] Hj Hd Hv. split; [exact K1|]. split; [exact K2|].
  intros x Hx Hocc Hnot. apply K3; auto.
  intros Hin. apply Hnot.
  destruct (Z.eq_dec (dist T a x) (m + 1)) as [Heq|Hne]; [|lia].
  exfalso. rewrite <- Hd in Heq.
  apply (dist_inj T a x j Ha Hx Hj) in Heq. subst x.
  exact (occupied_not_vacant l j Hocc Hv).
Qed.

Lemma fixing_stay (l : list (MojoKeyValue key value)) (m j : Z) :
  fixing l T a e c m -> 0 <= j < T -> dist T a j = m + 1 ->
  reachable l T j ->
  fixing l T a e c (m + 1).
Proof.
  intros [K1 [K2 K3]] Hj Hd Hreach. split; [exact K1|]. split; [exact K2|].
  intros x Hx Hocc Hnot.
  destruct (Z.eq_dec (dist T a x) (m + 1)) as [Heq|Hne].
  - rewrite <- Hd in Heq. apply (dist_inj T a x j Ha Hx Hj) in Heq.
    subst x. exact Hreach.
  - apply K3; auto. lia.
Qed.

Lemma fixing_move (l : list (MojoKeyValue key value)) (m j p : Z) :
  let kv := slot_at l j in
  fixing l T a e c m -> T <= Z.of_nat (length l) ->
  0 <= j < T -> 0 <= p < T -> p <> j ->
  dist T a j = m + 1 -> m + 1 < c -> occupied l j ->
  (forall y, 0 <= y < T -> dist T (home T kv) y < dist T (home T kv) p ->
             occupied l y) ->
  dist T (home T kv) p <= dist T (home T kv) j ->
  fixing (list_set (list_set l (Z.to_nat p) kv) (Z.to_nat j) KeyValue_default)
    T a e c (m + 1).
Proof.
  intros kv [K1 [K2 K3]] Hlen Hj Hp Hpj Hd Hm Hocc Hpath Hle.
  set (l' := list_set (list_set l (Z.to_nat p) kv) (Z.to_nat j)
               KeyValue_default).
  pose proof (home_range kv) as Hh.
  assert (Hlt : dist T (home T kv) p < dist T (home T kv) j).
  { destruct (Z.eq_dec (dist T (home T kv) p) (dist T (home T kv) j))
      as [Heq|Hne]; [|lia].
    apply (dist_inj T _ p j Hh Hp Hj) in Heq. contradiction. }
  pose proof (K2 j Hj Hocc) as Hje. fold kv in Hje.
  assert (Hslot : forall x, 0 <= x < T ->
            slot_at l' x = if x =? j then KeyValue_default
                           else if x =? p then kv else slot_at l x).
  { intros x Hx. apply slot_at_move; auto. }
  assert (Hocc' : forall x, 0 <= x < T -> occupied l' x ->
            x <> j /\ (x = p \/ (x <> p /\ slot_at l' x = slot_at l x
                                 /\ occupied l x))).
  { intros x Hx Ho. unfold occupied in Ho. rewrite (Hslot x Hx) in Ho.
    destruct (Z.eqb_spec x j) as [->|Hxj].
    - rewrite default_is_vacant in Ho. discriminate.
    - split; [exact Hxj|]. destruct (Z.eqb_spec x p) as [->|Hxp]; [left; auto|].
      right. split; [exact Hxp|]. rewrite (Hslot x Hx).
      destruct (Z.eqb_spec x j); [contradiction|].
      destruct (Z.eqb_spec x p); [contradiction|]. auto. }
  assert (Hkeep : forall y, 0 <= y < T -> y <> j -> occupied l y ->
            occupied l' y).
  { intros y Hy Hyj Ho. unfold occupied. rewrite (Hslot y Hy).
    destruct (Z.eqb_spec y j); [contradiction|].
    destruct (Z.eqb_spec y p); [exact Hocc | exact Ho]. }
  assert (Hpe : p <> e).
  { intros ->. lia. }
  assert (Hjne : j <> e).
  { intros ->. exact (occupied_not_vacant l e Hocc K1). }
  split; [|split].
  - unfold vacant. rewrite (Hslot e He).
    destruct (Z.eqb_spec e j); [congruence|].
    destruct (Z.eqb_spec e p); [congruence|]. exact K1.
  - intros x Hx Ho. destruct (Hocc' x Hx Ho) as [Hxj [-> | [Hxp [Hs Ho']]]].
    + rewrite (Hslot p Hp). destruct (Z.eqb_spec p j); [contradiction|].
      rewrite Z.eqb_refl. lia.
    + rewrite Hs. apply K2; auto.
  - intros x Hx Ho Hnot.
    destruct (Hocc' x Hx Ho) as [Hxj [-> | [Hxp [Hs Ho']]]].
    + unfold reachable. rewrite (Hslot p Hp).
      destruct (Z.eqb_spec p j); [contradiction|]. rewrite Z.eqb_refl.
      intros y Hy Hy'. apply Hkeep; [exact Hy | | apply Hpath; auto].
      intros ->. lia.
    + assert (Hdx : dist T a x <> m + 1).
      { intros Heq. rewrite <- Hd in Heq.
        apply (dist_inj T a x j Ha Hx Hj) in Heq. contradiction. }
      assert (Hxe : x <> e).
      { intros ->. exact (occupied_not_vacant l e Ho' K1). }
      assert (Hde : dist T a x <> c).
      { intros Heq. rewrite Hc in Heq.
        apply (dist_inj T a x e Ha Hx He) in Heq. contradiction. }
      assert (Hr : reachable l T x) by (apply K3; auto; lia).
      unfold reachable in *. rewrite Hs.
      intros y Hy Hy'. apply Hkeep; [exact Hy | | apply Hr; auto].
      intros ->.
      pose proof (home_range (slot_at l x)) as Hhx.
      pose proof (K2 x Hx Ho') as Hxe'.
      apply (path_stays_in_run T a j e x (home T (slot_at l x)));
        auto; lia.
Qed.

(** The table left by the clearing loop is ready for the walk. *)
Lemma fixing_start (l l1 : list (MojoKeyValue key value)) :
  probe_invariant l T -> vacant l e -> cleared_in_run l l1 T a c ->
  fixing l1 T a e c 0.
Proof.
  intros Hinv Hve [Hlen Hcl].
  assert (Hsame : forall x, 0 <= x < T -> occupied l1 x ->
            slot_at l1 x = slot_at l x /\ occupied l x).
  { intros x Hx Ho. destruct (Hcl x Hx) as [Hs | [_ Hs]].
    - split; [exact Hs|]. unfold occupied in *. rewrite <- Hs. exact Ho.
    - unfold occupied in Ho. rewrite Hs, default_is_vacant in Ho.
      discriminate. }
  assert (K2 : forall x, 0 <= x < T -> occupied l x ->
            dist T (home T (slot_at l x)) x < dist T (home T (slot_at l x)) e).
  { intros x Hx Ho.
    pose proof (home_range (slot_at l x)) as Hhx.
    destruct (Z_lt_ge_dec (dist T (home T (slot_at l x)) x)
                (dist T (home T (slot_at l x)) e)) as [Hlt|Hge]; [exact Hlt|].
    exfalso.
    assert (Hne : x <> e).
    { intros ->. exact (occupied_not_vacant l e Ho Hve). }
    assert (Hd : dist T (home T (slot_at l x)) e
                 <> dist T (home T (slot_at l x)) x).
    { intros Heq. apply (dist_inj T _ e x Hhx He Hx) in Heq. congruence. }
    apply (occupied_not_vacant l e); [|exact Hve].
    apply (Hinv x Hx Ho e He). lia. }
  split; [|split].
  - destruct (Hcl e He) as [Hs | [_ Hs]]; unfold vacant; rewrite Hs.
    + exact Hve.
    + apply default_is_vacant.
  - intros x Hx Ho. destruct (Hsame x Hx Ho) as [Hs Ho']. rewrite Hs.
    apply K2; auto.
  - intros x Hx Ho Hnot. destruct (Hsame x Hx Ho) as [Hs Ho'].
    unfold reachable. rewrite Hs. intros y Hy Hy'.
    pose proof (Hinv x Hx Ho' y Hy Hy') as Hoy.
    destruct (Hcl y Hy) as [Hsy | [Hdy _]].
    + unfold occupied in *. rewrite Hsy. exact Hoy.
    + exfalso.
      pose proof (home_range (slot_at l x)) as Hhx.
      pose proof (K2 x Hx Ho') as Hxe.
      assert (Hxe' : x <> e).
      { intros ->. exact (occupied_not_vacant l e Ho' Hve). }
      assert (Hde : dist T a x <> c).
      { intros Heq. rewrite Hc in Heq.
        apply (dist_inj T a x e Ha Hx He) in Heq. contradiction. }
      assert (Hyx : y <> x).
      { intros ->. lia. }
      assert (Hda : dist T a x = 0 -> dist T a y <> 0).
      { intros Hzx Hzy. rewrite <- Hzx in Hzy.
        apply (dist_inj T a y x Ha Hy Hx) in Hzy. contradiction. }
      pose proof (dist_range T a x Ha Hx).
      pose proof (dist_range T a y Ha Hy).
      apply (path_stays_in_run T a y e x (home T (slot_at l x)));
        auto; lia.
Qed.

(** Once the walk has passed the run, the probing invariant is back. *)
Lemma fixing_done (l : list (MojoKeyValue key value)) (m : Z) :
  fixing l T a e c m -> c - 1 <= m -> probe_invariant l T.
Proof.
  intros [K1 [K2 K3]] Hm x Hx Ho. apply K3; auto. lia.
Qed.

End FixUpWalk.

Section FixUpLoops.
Context {key value : Type} `{MojoKey key} `{MojoValue value}.
Variable m0 : MojoMultiMap.t key value.
Variables a e c n1 : Z.
Variable len : nat.
Let T := MojoMultiMap.m_TableCount m0.
Hypothesis HT : 0 < T <= Z.of_nat len.
Hypothesis Ha : 0 <= a < T.
Hypothesis He : 0 <= e < T.
Hypothesis Hc : c = dist T a e.

(** One turn of a loop of [FixUp], on the slot one step further from [a]. *)
Lemma FixUp_body_step (l : list (MojoKeyValue key value)) (m j cnt : Z) :
  length l = len -> fixing l T a e c m -> 0 <= j < T ->
  dist T a j = m + 1 -> cnt = c - m -> 0 <= cnt ->
  exists r,
    MojoMultiMap.FixUp_body j (retable m0 l n1, cnt) = Some r /\
    match r with
    | Next sc =>
        exists l', sc = (retable m0 l' n1, cnt - 1) /\ length l' = len /\
                   fixing l' T a e c (m + 1) /\ 0 <= cnt - 1
    | Leave sc =>
        exists l', fst sc = retable m0 l' n1 /\ length l' = len /\
                   probe_invariant l' T
    end.
Proof.
  intros Hlen Hfix Hj Hd Hcnt Hpos.
  assert (HT0 : 0 < T) by lia.
  unfold MojoMultiMap.FixUp_body.
  destruct (cnt =? 0) eqn:E0.
  - apply Z.eqb_eq in E0. eexists. split; [reflexivity|].
    exists l. split; [reflexivity|]. split; [exact Hlen|].
    apply (fixing_done T a e c l m Hfix). lia.
  - apply Z.eqb_neq in E0.
    rewrite kv_at_retable by lia.
    unfold MojoMultiMap.is_empty.
    destruct (IsHashNull (kv_key (slot_at l j))) eqn:Hv; simpl.
    + eexists. split; [reflexivity|]. exists l.
      split; [reflexivity|]. split; [exact Hlen|]. split; [|lia].
      apply (fixing_skip T a e c Ha l m j Hfix Hj Hd Hv).
    + assert (Hmc : m + 1 < c).
      { destruct (Z.eq_dec (m + 1) c) as [Heq|Hne]; [|lia]. exfalso.
        rewrite <- Hd, Hc in Heq.
        apply (dist_inj T a j e Ha Hj He) in Heq. subst j.
        destruct Hfix as [K1 _]. unfold vacant in K1. congruence. }
      destruct (Reinsert_retable m0 l n1 j) as [p [Hp [_ [Hpath [Hle Hre]]]]];
        [fold T; lia | exact Hj |].
      fold T in Hp, Hpath, Hle. rewrite Hre.
      eexists. split; [reflexivity|].
      destruct (Z.eqb_spec p j) as [->|Hpj].
      * exists l. split; [reflexivity|]. split; [exact Hlen|]. split; [|lia].
        apply (fixing_stay T a e c Ha l m j Hfix Hj Hd).
        exact Hpath.
      * eexists. split; [reflexivity|].
        split; [rewrite !list_set_length; exact Hlen|]. split; [|lia].
        apply (fixing_move T a e c HT0 Ha He Hc l m j p); auto. lia.
Qed.

(** [FixUp] over the run that the clearing loop went through brings the
    probing invariant back. *)
Lemma FixUp_restores (l1 : list (MojoKeyValue key value)) :
  length l1 = len -> fixing l1 T a e c 0 ->
  exists l2, MojoMultiMap.FixUp (retable m0 l1 n1) a c
             = Some (retable m0 l2 n1) /\
             length l2 = len /\ probe_invariant l2 T.
Proof.
  intros Hlen Hfix. unfold MojoMultiMap.FixUp.
  cbn [MojoMultiMap.m_TableCount retable MojoMultiMap.set_ActiveCount
       MojoMultiMap.set_KeyValues]. fold T.
  pose proof (dist_range T a e Ha He) as Hcr. rewrite <- Hc in Hcr.
  set (Q := fun sc : MojoMultiMap.t key value * Z =>
              exists l', fst sc = retable m0 l' n1 /\ length l' = len /\
                         probe_invariant l' T).
  set (P1 := fun (i : Z) (sc : MojoMultiMap.t key value * Z) =>
               exists l', sc = (retable m0 l' n1, c - (i - a - 1)) /\
                          length l' = len /\
                          fixing l' T a e c (i - a - 1) /\
                          0 <= c - (i - a - 1)).
  destruct (for_up_total P1 Q MojoMultiMap.FixUp_body
              (Z.to_nat (T - (a + 1))) (a + 1) (retable m0 l1 n1, c))
    as [r1 [Hr1 Hres1]].
  { exists l1. replace (a + 1 - a - 1) with 0 by lia.
    replace (c - 0) with c by lia. auto with zarith. }
  { intros j sc Hj [l' [-> [Hl' [Hf' Hpos]]]].
    destruct (FixUp_body_step l' (j - a - 1) j (c - (j - a - 1)))
      as [r [Hr Hm]]; auto; try lia.
    { assert (Hjr : 0 <= j < T) by lia. cyc. }
    exists r. split; [exact Hr|]. destruct r as [sc|sc]; [|exact Hm].
    destruct Hm as [l'' [-> [Hl'' [Hf'' Hpos']]]]. exists l''.
    replace (j + 1 - a - 1) with (j - a - 1 + 1) by lia.
    replace (c - (j - a - 1 + 1)) with (c - (j - a - 1) - 1) by lia. auto. }
  unfold for_range. rewrite Hr1.
  destruct r1 as [sc1|sc1].
  2:{ destruct Hres1 as [l2 [Hs [Hl2 Hinv]]]. exists l2. rewrite Hs. auto. }
  replace (a + 1 + Z.of_nat (Z.to_nat (T - (a + 1)))) with T in Hres1 by lia.
  destruct Hres1 as [l' [-> [Hl' [Hf' Hpos]]]].
  set (P2 := fun (i : Z) (sc : MojoMultiMap.t key value * Z) =>
               exists l', sc = (retable m0 l' n1, c - (T - a - 1 + i)) /\
                          length l' = len /\
                          fixing l' T a e c (T - a - 1 + i) /\
                          0 <= c - (T - a - 1 + i)).
  destruct (for_up_total P2 Q MojoMultiMap.FixUp_body
              (Z.to_nat (a - 0)) 0 (retable m0 l' n1, c - (T - a - 1)))
    as [r2 [Hr2 Hres2]].
  { exists l'. replace (T - a - 1 + 0) with (T - a - 1) by lia. auto. }
  { intros j sc Hj [l'' [-> [Hl'' [Hf'' Hpos']]]].
    destruct (FixUp_body_step l'' (T - a - 1 + j) j (c - (T - a - 1 + j)))
      as [r [Hr Hm]]; auto; try lia.
    { assert (Hjr : 0 <= j < T) by lia. cyc. }
    exists r. split; [exact Hr|]. destruct r as [sc|sc]; [|exact Hm].
    destruct Hm as [l3 [-> [Hl3 [Hf3 Hpos3]]]]. exists l3.
    replace (T - a - 1 + (j + 1)) with (T - a - 1 + j + 1) by lia.
    replace (c - (T - a - 1 + j + 1)) with (c - (T - a - 1 + j) - 1) by lia.
    auto. }
  rewrite Hr2. destruct r2 as [sc2|sc2].
  - replace (0 + Z.of_nat (Z.to_nat (a - 0))) with a in Hres2 by lia.
    destruct Hres2 as [l2 [-> [Hl2 [Hf2 Hpos2]]]].
    exists l2. split; [reflexivity|]. split; [exact Hl2|].
    apply (fixing_done T a e c l2 _ Hf2). lia.
  - destruct Hres2 as [l2 [Hs [Hl2 Hinv]]]. exists l2.
    simpl. rewrite Hs. auto.
Qed.

End FixUpLoops.

(* ------------------------------------------------------------------------- *)
(** ** Removal from a multimap *)

Section MultiMapRemoval.
Context {key value : Type} `{MojoKey key} `{MojoValue value}.

(** The first empty slot met from slot [a] on. *)
Lemma first_vacant_after (l : list (MojoKeyValue key value)) (T a : Z) :
  0 <= a < T -> has_empty l T ->
  exists e, 0 <= e < T /\ vacant l e /\
            forall y, 0 <= y < T -> dist T a y < dist T a e -> occupied l y.
Proof.
  intros Ha [e0 [He0 Hv0]].
  assert (Haux : forall (n : nat) (k : Z),
             Z.of_nat n = dist T a e0 - k -> 0 <= k ->
             (forall y, 0 <= y < T -> dist T a y < k -> occupied l y) ->
             exists e, 0 <= e < T /\ vacant l e /\
                       forall y, 0 <= y < T -> dist T a y < dist T a e ->
                                 occupied l y).
  { induction n as [|n IH]; intros k Hn Hk Hocc.
    - exists e0. split; [exact He0|]. split; [exact Hv0|].
      intros y Hy Hlt. apply Hocc; auto. lia.
    - pose proof (dist_range T a e0 Ha He0) as Hr.
      assert (Hkr : 0 <= k < T) by lia.
      destruct (dist_step T a k Ha Hkr) as [Hyk Hdk].
      destruct (occupied_or_vacant l ((a + k) mod T)) as [Ho|Hv].
      + apply (IH (k + 1)); try lia.
        intros y Hy Hlt.
        destruct (Z.eq_dec (dist T a y) k) as [Heq|Hne].
        * rewrite <- Hdk in Heq.
          apply (dist_inj T a y _ Ha Hy Hyk) in Heq. subst y. exact Ho.
        * apply Hocc; auto. lia.
      + exists ((a + k) mod T). split; [exact Hyk|]. split; [exact Hv|].
        intros y Hy Hlt. apply Hocc; auto. lia. }
  apply (Haux (Z.to_nat (dist T a e0)) 0).
  - pose proof (dist_range T a e0 Ha He0). lia.
  - lia.
  - intros y Hy Hlt. pose proof (dist_range T a y Ha Hy). lia.
Qed.

Section ClearRun.
Variable m0 : MojoMultiMap.t key value.
Variable doomed : MojoKeyValue key value -> bool.
Variable l : list (MojoKeyValue key value).
Variables a e c : Z.
Let T := MojoMultiMap.m_TableCount m0.
Hypothesis HT : 0 < T <= Z.of_nat (length l).
Hypothesis Ha : 0 <= a < T.
Hypothesis He : 0 <= e < T.
Hypothesis Hc : c = dist T a e.
Hypothesis Hve : vacant l e.
Hypothesis Hrun :
  forall y, 0 <= y < T -> dist T a y < c -> occupied l y.

(** The clearing loop walks the run from [a] to the empty slot [e], counts
    its [c] slots and clears some of them. *)
Lemma clear_run_clears :
  forall (k turns : nat) (l' : list (MojoKeyValue key value)) (n cnt i : Z),
    Z.of_nat k = c - cnt -> 0 <= cnt -> 0 <= i < T -> dist T a i = cnt ->
    c - cnt <= Z.of_nat turns ->
    cleared_in_run l l' T a c ->
    (forall y, 0 <= y < T -> cnt <= dist T a y -> slot_at l' y = slot_at l y) ->
    exists l1 n',
      MojoMultiMap.clear_run turns doomed (retable m0 l' n) cnt i
      = Some (retable m0 l1 n', c) /\
      cleared_in_run l l1 T a c.
Proof.
  induction k as [|k IH];
    intros turns l' n cnt i Hk Hcnt Hi Hd Hturns Hcl Hrest.
  - assert (Hcc : cnt = c) by lia.
    assert (Hie : i = e).
    { apply (dist_inj T a i e Ha Hi He). lia. }
    subst i. rewrite Hcc.
    exists l', n. split; [|exact Hcl].
    assert (Hlen : length l' = length l) by (destruct Hcl; assumption).
    assert (Hv : IsHashNull (kv_key (slot_at l' e)) = true).
    { rewrite Hrest by (auto; lia). exact Hve. }
    destruct turns; cbn [MojoMultiMap.clear_run];
      rewrite kv_at_retable by lia; unfold MojoMultiMap.is_empty;
      rewrite Hv; reflexivity.
  - assert (Hlen : length l' = length l) by (destruct Hcl; assumption).
    assert (Ho : IsHashNull (kv_key (slot_at l' i)) = false).
    { rewrite Hrest by (auto; lia). apply Hrun; auto. lia. }
    destruct turns as [|turns]; [lia|].
    cbn [MojoMultiMap.clear_run].
    rewrite kv_at_retable by lia. unfold MojoMultiMap.is_empty. rewrite Ho.
    assert (Hnext : 0 <= (i + 1) mod T < T /\
                    dist T a ((i + 1) mod T) = cnt + 1).
    { assert (Hm : 0 <= (i + 1) mod T < T) by (apply Z.mod_pos_bound; lia).
      split; [exact Hm|].
      pose proof (dist_range T a e Ha He).
      destruct (Z_lt_ge_dec (i + 1) T).
      - rewrite Z.mod_small in * by lia. cyc.
      - rewrite mod_wrap in * by lia. cyc. }
    destruct Hnext as [Hi' Hd'].
    destruct (doomed (slot_at l' i)).
    + rewrite store_retable by lia.
      cbn [MojoMultiMap.m_ActiveCount MojoMultiMap.m_TableCount retable
           MojoMultiMap.set_ActiveCount MojoMultiMap.set_KeyValues].
      fold T.
      change (MojoMultiMap.mk (MojoMultiMap.m_Alloc m0)
                (Some (list_set l' (Z.to_nat i) KeyValue_default))
                (MojoMultiMap.m_NotFoundValue m0) (n - 1)
                (MojoMultiMap.m_AllocCount m0) (MojoMultiMap.m_TableCount m0)
                (MojoMultiMap.m_ChangeCount m0) (MojoMultiMap.m_Status m0)
                (MojoMultiMap.m_AllocCountMin m0)
                (MojoMultiMap.m_TableCountMin m0)
                (MojoMultiMap.m_GrowThreshold m0)
                (MojoMultiMap.m_ShrinkThreshold m0)
                (MojoMultiMap.m_AutoGrow m0) (MojoMultiMap.m_AutoShrink m0)
                (MojoMultiMap.m_DynamicAlloc m0))
        with (retable m0 (list_set l' (Z.to_nat i) KeyValue_default) (n - 1)).
      apply IH; auto; try lia.
      * destruct Hcl as [_ Hcl]. split; [rewrite list_set_length; exact Hlen|].
        intros j Hj. destruct (Z.eq_dec j i) as [->|Hne].
        -- right. split; [lia|]. apply slot_at_set_same. lia.
        -- rewrite slot_at_set_other by lia. apply Hcl. exact Hj.
      * intros y Hy Hy'.
        rewrite slot_at_set_other; [apply Hrest; auto; lia | lia | lia |].
        intros ->. lia.
    + cbn [MojoMultiMap.m_TableCount retable MojoMultiMap.set_ActiveCount
           MojoMultiMap.set_KeyValues]. fold T.
      apply IH; auto; try lia.
      intros y Hy Hy'. apply Hrest; auto. lia.
Qed.

End ClearRun.
End MultiMapRemoval.

Section MultiMapCluster.
Context {key value : Type} `{MojoKey key} `{MojoValue value}.

(** Clearing part of the run of the first slot that holds a key and fixing
    up what follows keeps the probing invariant. *)
Lemma clear_and_fix (m : MojoMultiMap.t key value)
    (l : list (MojoKeyValue key value))
    (doomed : MojoKeyValue key value -> bool) (index : Z) :
  let T := MojoMultiMap.m_TableCount m in
  table_ok m l -> probe_invariant l T -> has_empty l T ->
  0 <= index < T -> occupied l index ->
  exists l2 n2,
    ('(s1, count) <- MojoMultiMap.clear_run (MojoMultiMap.run_turns m)
                       doomed m 0 index ;;
     MojoMultiMap.FixUp s1 index count)
    = Some (retable m l2 n2) /\
    length l2 = length l /\ probe_invariant l2 T.
Proof.
  intros T [Hl HT] Hinv Hempty Hi Hocc. fold T in HT.
  destruct (first_vacant_after l T index Hi Hempty) as [e [He [Hve Hrun]]].
  set (c := dist T index e).
  pose proof (dist_range T index e Hi He) as Hcr. fold c in Hcr.
  destruct (clear_run_clears m doomed l index e c HT Hi He eq_refl Hve Hrun
              (Z.to_nat c) (MojoMultiMap.run_turns m) l
              (MojoMultiMap.m_ActiveCount m) 0 index)
    as [l1 [n1 [Hclear Hcl]]]; try lia.
  - apply dist_self. exact Hi.
  - unfold MojoMultiMap.run_turns. fold T. lia.
  - split; [reflexivity|]. intros j Hj. left. reflexivity.
  - reflexivity.
  - rewrite (retable_id m l Hl) in Hclear. rewrite Hclear.
    destruct Hcl as [Hlen Hcl].
    destruct (FixUp_restores m index e c n1 (length l) HT Hi He eq_refl l1 Hlen)
      as [l2 [Hfix [Hlen2 Hinv2]]].
    + apply (fixing_start T index e c (proj1 HT) Hi He eq_refl l l1 Hinv Hve).
      split; assumption.
    + exists l2, n1. auto.
Qed.

Lemma table_ok_retable (m : MojoMultiMap.t key value)
    (l l' : list (MojoKeyValue key value)) (n : Z) :
  table_ok m l -> length l' = length l -> table_ok (retable m l' n) l'.
Proof.
  intros [Hl HT] Hlen. split; [reflexivity|].
  cbn [MojoMultiMap.m_TableCount retable MojoMultiMap.set_ActiveCount
       MojoMultiMap.set_KeyValues]. lia.
Qed.

(** The probe of a multimap is defined and stays in the table. *)
Lemma FindEmptyOrMatching_in_table (m : MojoMultiMap.t key value)
    (l : list (MojoKeyValue key value)) (k : key) :
  table_ok m l ->
  exists i, MojoMultiMap.FindEmptyOrMatching m k = Some i /\
            0 <= i < MojoMultiMap.m_TableCount m /\
            MojoMultiMap.kv_at m i = Some (slot_at l i).
Proof.
  intros [Hl HT]. unfold MojoMultiMap.FindEmptyOrMatching. rewrite Hl.
  destruct (probe_spec (MojoMultiMap.hit_key k) l (GetHash k) _ HT)
    as [i [Hi [Hr _]]].
  exists i. split; [exact Hi|]. split; [exact Hr|].
  unfold MojoMultiMap.kv_at. rewrite Hl. apply zget_slot_at. lia.
Qed.

Lemma RemoveAll_keeps_probe_invariant (m : MojoMultiMap.t key value)
    (l : list (MojoKeyValue key value)) (k : key) :
  table_ok m l -> probe_invariant l (MojoMultiMap.m_TableCount m) ->
  has_empty l (MojoMultiMap.m_TableCount m) ->
  exists removed l' n',
    MojoMultiMap.RemoveAll m k = Some (retable m l' n', removed) /\
    length l' = length l /\
    probe_invariant l' (MojoMultiMap.m_TableCount m).
Proof.
  intros Hok Hinv Hempty. unfold MojoMultiMap.RemoveAll.
  assert (Hsame : exists removed l' n',
            Some (m, MojoMultiMap.m_ActiveCount m
                     <? MojoMultiMap.m_ActiveCount m)
            = Some (retable m l' n', removed) /\
            length l' = length l /\
            probe_invariant l' (MojoMultiMap.m_TableCount m)).
  { eexists. exists l, (MojoMultiMap.m_ActiveCount m).
    rewrite (retable_id m l (proj1 Hok)). auto. }
  destruct (IsHashNull k); cbn [negb]; [exact Hsame|].
  destruct (FindEmptyOrMatching_in_table m l k Hok) as [i [Hf [Hi Hkv]]].
  rewrite Hf, Hkv. unfold MojoMultiMap.is_empty.
  destruct (IsHashNull (kv_key (slot_at l i))) eqn:Hv; cbn [negb];
    [exact Hsame|].
  destruct (clear_and_fix m l (fun slot => key_eqb (kv_key slot) k) i
              Hok Hinv Hempty Hi Hv) as [l2 [n2 [Hrun [Hlen Hinv2]]]].
  rewrite Hrun. eexists. exists l2, n2.
  split; [reflexivity|]. auto.
Qed.

Lemma RemoveOne_keeps_probe_invariant (m : MojoMultiMap.t key value)
    (l : list (MojoKeyValue key value)) (k : key) (v : value) :
  table_ok m l -> probe_invariant l (MojoMultiMap.m_TableCount m) ->
  has_empty l (MojoMultiMap.m_TableCount m) ->
  exists removed l' n',
    MojoMultiMap.RemoveOne m k v = Some (retable m l' n', removed) /\
    length l' = length l /\
    probe_invariant l' (MojoMultiMap.m_TableCount m).
Proof.
  intros Hok Hinv Hempty. unfold MojoMultiMap.RemoveOne.
  assert (Hsame : exists removed l' n',
            Some (m, MojoMultiMap.m_ActiveCount m
                     <? MojoMultiMap.m_ActiveCount m)
            = Some (retable m l' n', removed) /\
            length l' = length l /\
            probe_invariant l' (MojoMultiMap.m_TableCount m)).
  { eexists. exists l, (MojoMultiMap.m_ActiveCount m).
    rewrite (retable_id m l (proj1 Hok)). auto. }
  destruct (negb (IsHashNull k) && negb (value_IsHashNull v));
    [|exact Hsame].
  destruct (FindEmptyOrMatching_in_table m l k Hok) as [i [Hf [Hi Hkv]]].
  rewrite Hf, Hkv. unfold MojoMultiMap.is_empty.
  destruct (IsHashNull (kv_key (slot_at l i))) eqn:Hv; cbn [negb];
    [exact Hsame|].
  destruct (clear_and_fix m l
              (fun slot => key_eqb (kv_key slot) k
                           && value_eqb (kv_value slot) v) i
              Hok Hinv Hempty Hi Hv) as [l2 [n2 [Hrun [Hlen Hinv2]]]].
  rewrite Hrun. eexists. exists l2, n2.
  split; [reflexivity|]. auto.
Qed.

(** Two slots that hold the same key are on one probe path, so the probing
    invariant puts them in one run of occupied slots. *)
Lemma probe_invariant_clustered (l : list (MojoKeyValue key value)) (T : Z) :
  0 < T -> probe_invariant l T -> clustered l T.
Proof.
  intros HT Hinv i j Hi Hj Hoi Hoj Hkey.
  pose proof (Hinv i Hi Hoi) as Hri. pose proof (Hinv j Hj Hoj) as Hrj.
  unfold reachable, home in Hri, Hrj. rewrite <- Hkey in Hrj.
  set (h := GetHash (kv_key (slot_at l i)) mod T) in *.
  assert (Hh : 0 <= h < T) by (apply Z.mod_pos_bound; lia).
  destruct (Z_le_gt_dec (dist T h i) (dist T h j)) as [Hle|Hgt].
  - left. intros y Hy Hd.
    destruct (Z.eq_dec y j) as [->|Hne]; [exact Hoj|].
    apply Hrj; auto. cyc.
  - right. intros y Hy Hd.
    destruct (Z.eq_dec y i) as [->|Hne]; [exact Hoi|].
    apply Hri; auto. cyc.
Qed.

Lemma AutoGrow_idle_mm
    (insert : MojoMultiMap.t key value -> key -> value ->
              option (MojoMultiMap.t key value))
    (m : MojoMultiMap.t key value) :
  MojoMultiMap.m_AutoGrow m && MojoMultiMap.grow_due m = false ->
  MojoMultiMap.AutoGrow_with insert m = Some m.
Proof.
  intros Hidle. unfold MojoMultiMap.AutoGrow_with, MojoMultiMap.Grow_with.
  destruct (MojoMultiMap.m_AutoGrow m); [|reflexivity].
  simpl in Hidle. rewrite Hidle. reflexivity.
Qed.

(** An [Insert] that does not resize writes the pair in the first empty slot
    of its probe path, which keeps the probing invariant. *)
Lemma Insert_keeps_probe_invariant (depth : nat)
    (m m' : MojoMultiMap.t key value) (l : list (MojoKeyValue key value))
    (k : key) (v : value) (st : MojoStatus) :
  table_ok m l -> probe_invariant l (MojoMultiMap.m_TableCount m) ->
  MojoMultiMap.m_AutoGrow m && MojoMultiMap.grow_due m = false ->
  MojoMultiMap.Insert depth m k v = Some (m', st) ->
  exists l', table_ok m' l' /\
             MojoMultiMap.m_TableCount m' = MojoMultiMap.m_TableCount m /\
             probe_invariant l' (MojoMultiMap.m_TableCount m).
Proof.
  intros Hok Hinv Hidle Hins. destruct depth as [|depth]; [discriminate|].
  cbn [MojoMultiMap.Insert] in Hins. unfold MojoMultiMap.Insert_with in Hins.
  destruct (is_ok (MojoMultiMap.m_Status m)).
  2:{ injection Hins as <- <-. exists l. auto. }
  destruct (IsHashNull k) eqn:Hk.
  { injection Hins as <- <-. exists l. auto. }
  rewrite (AutoGrow_idle_mm _ m Hidle) in Hins.
  destruct (MojoMultiMap.m_ActiveCount m <? MojoMultiMap.m_TableCount m).
  2:{ injection Hins as <- <-. exists l. auto. }
  destruct Hok as [Hl HT].
  set (T := MojoMultiMap.m_TableCount m) in *.
  unfold MojoMultiMap.FindEmptyOrMatching2 in Hins. rewrite Hl in Hins.
  fold T in Hins.
  destruct (probe_spec (MojoMultiMap.hit_pair k v) l (GetHash k) T HT)
    as [i [Hp [Hi Hfirst]]].
  rewrite Hp in Hins. unfold MojoMultiMap.kv_at in Hins. rewrite Hl in Hins.
  rewrite zget_slot_at in Hins by lia. unfold MojoMultiMap.is_empty in Hins.
  destruct (IsHashNull (kv_key (slot_at l i))) eqn:Hv.
  2:{ injection Hins as <- <-. exists l.
      split; [split; [exact Hl | exact HT]|].
      split; [reflexivity | exact Hinv]. }
  rewrite <- (retable_id m l Hl) in Hins.
  rewrite store_retable in Hins by lia. injection Hins as <- <-.
  exists (list_set l (Z.to_nat i) (mkKeyValue k v)).
  split; [split; [reflexivity | rewrite list_set_length; exact HT]|].
  split; [reflexivity|].
  assert (Hh : 0 <= GetHash k mod T < T) by (apply Z.mod_pos_bound; lia).
  assert (Hpath : forall y, 0 <= y < T ->
            dist T (GetHash k mod T) y < dist T (GetHash k mod T) i ->
            occupied l y).
  { destruct Hfirst as [Hfirst | [_ Hnone]].
    - destruct (first_hit_by_dist _ l T _ i Hh Hfirst) as [_ [_ Hmiss]].
      intros y Hy Hd. apply (miss_is_occupied (MojoMultiMap.hit_pair k v)).
      + intros x Hx. unfold MojoMultiMap.hit_pair. rewrite Hx. reflexivity.
      + apply Hmiss; auto.
    - exfalso. destruct (Hnone i Hi) as [x [Hx Hmiss]].
      rewrite zget_slot_at in Hx by lia. injection Hx as <-.
      unfold MojoMultiMap.hit_pair in Hmiss. rewrite Hv in Hmiss.
      discriminate. }
  assert (Hslot : forall x, 0 <= x < T ->
            slot_at (list_set l (Z.to_nat i) (mkKeyValue k v)) x
            = if x =? i then mkKeyValue k v else slot_at l x).
  { intros x Hx. destruct (Z.eqb_spec x i) as [->|Hne].
    - apply slot_at_set_same. lia.
    - apply slot_at_set_other; lia. }
  assert (Hkeep : forall y, 0 <= y < T -> occupied l y ->
            occupied (list_set l (Z.to_nat i) (mkKeyValue k v)) y).
  { intros y Hy Ho. unfold occupied. rewrite (Hslot y Hy).
    destruct (Z.eqb_spec y i); [exact Hk | exact Ho]. }
  intros x Hx Ho. unfold reachable. rewrite (Hslot x Hx).
  destruct (Z.eqb_spec x i) as [->|Hne].
  - intros y Hy Hd. apply Hkeep; auto.
  - unfold occupied in Ho. rewrite (Hslot x Hx) in Ho.
    destruct (Z.eqb_spec x i); [contradiction|].
    intros y Hy Hd. apply Hkeep; auto. apply (Hinv x Hx Ho y Hy Hd).
Qed.

End MultiMapCluster.


(* ------------------------------------------------------------------------- *)
(** ** The cluster invariant *)

Lemma In_zrange (T y : Z) : In y (zrange T) <-> 0 <= y < T.
Proof.
  unfold zrange. rewrite in_map_iff. split.
  - intros [n [<- Hn]]. apply in_seq in Hn. lia.
  - intros Hy. exists (Z.to_nat y). split; [lia|]. apply in_seq. lia.
Qed.

Section MultiMapInvariants.
Context {key value : Type} `{MojoKey key} `{MojoValue value}.

Lemma probe_invariantb_sound (l : list (MojoKeyValue key value)) (T : Z) :
  probe_invariantb l T = true -> probe_invariant l T.
Proof.
  unfold probe_invariantb, reachableb. intros Hb j Hj Ho y Hy Hd.
  rewrite forallb_forall in Hb. specialize (Hb j (proj2 (In_zrange T j) Hj)).
  unfold occupiedb in Hb at 1. unfold occupied in Ho. rewrite Ho in Hb.
  cbn [negb implb] in Hb.
  rewrite forallb_forall in Hb. specialize (Hb y (proj2 (In_zrange T y) Hy)).
  apply Z.ltb_lt in Hd. rewrite Hd in Hb. cbn [implb] in Hb.
  unfold occupiedb in Hb. unfold occupied. apply negb_true_iff. exact Hb.
Qed.

Lemma invariants_kept_retable (m : MojoMultiMap.t key value)
    (l l' : list (MojoKeyValue key value)) (n : Z) :
  table_ok m l -> length l' = length l ->
  probe_invariant l' (MojoMultiMap.m_TableCount m) ->
  invariants_kept m (retable m l' n).
Proof.
  intros Hok Hlen Hinv. exists l'.
  split; [apply (table_ok_retable m l); auto|]. split; [reflexivity|].
  cbn [MojoMultiMap.m_TableCount retable MojoMultiMap.set_ActiveCount
       MojoMultiMap.set_KeyValues].
  split; [exact Hinv|]. apply probe_invariant_clustered; [|exact Hinv].
  destruct Hok as [_ HT]. lia.
Qed.

Lemma invariants_kept_change_count (m m' : MojoMultiMap.t key value) (n : Z) :
  invariants_kept m m' ->
  invariants_kept m (MojoMultiMap.set_ChangeCount m' n).
Proof. intros [l' [[Hl HT] Hrest]]. exists l'. split; [split|]; assumption. Qed.

Lemma AutoShrink_off (depth : nat) (m : MojoMultiMap.t key value) :
  MojoMultiMap.m_AutoShrink m = false ->
  MojoMultiMap.AutoShrink depth m = Some m.
Proof.
  intros Hoff. unfold MojoMultiMap.AutoShrink, MojoMultiMap.AutoShrink_with.
  rewrite Hoff. reflexivity.
Qed.


End MultiMapInvariants.



(* ------------------------------------------------------------------------- *)
(** ** Enumeration of the keys of a multimap *)

Lemma for_down_total {St R} (P : Z -> St -> Prop) (Q : R -> Prop)
    (body : Z -> St -> option (step St R)) :
  forall (n : nat) (i : Z) (s : St),
    P i s ->
    (forall j s1, i - Z.of_nat n < j <= i -> P j s1 ->
                  exists r, body j s1 = Some r /\
                            match r with
                            | Next s2 => P (j - 1) s2
                            | Leave x => Q x
                            end) ->
    exists res, for_down n i body s = Some res /\
                match res with
                | Next s' => P (i - Z.of_nat n) s'
                | Leave x => Q x
                end.
Proof.
  induction n as [|n IH]; intros i s HP Hbody; cbn [for_down].
  - exists (Next s). split; [reflexivity|].
    replace (i - Z.of_nat 0) with i by lia. exact HP.
  - destruct (Hbody i s) as [r [Hr Hs]]; [lia | exact HP |].
    rewrite Hr. destruct r as [s'|x].
    + replace (i - Z.of_nat (S n)) with ((i - 1) - Z.of_nat n) by lia.
      apply IH; auto.
      intros j s1 Hj. apply Hbody. lia.
    + exists (Leave x). auto.
Qed.

Section MultiMapEnumeration.
Context {key value : Type} `{MojoKey key} `{MojoValue value}.

Lemma key_eq_dec (a b : key) : a = b \/ a <> b.
Proof.
  destruct (key_eqb a b) eqn:E.
  - left. apply key_eqb_eq. exact E.
  - right. intros Hab. apply key_eqb_eq in Hab. congruence.
Qed.

(** The first slot met from [a] on that satisfies a decidable property. *)
Lemma first_after (P : Z -> Prop) (T a : Z) :
  (forall y, P y \/ ~ P y) -> 0 <= a < T ->
  (exists x, 0 <= x < T /\ P x) ->
  exists x, 0 <= x < T /\ P x /\
            forall y, 0 <= y < T -> dist T a y < dist T a x -> ~ P y.
Proof.
  intros Hdec Ha [x0 [Hx0 HP0]].
  assert (Haux : forall (n : nat) (k : Z),
             Z.of_nat n = dist T a x0 - k -> 0 <= k ->
             (forall y, 0 <= y < T -> dist T a y < k -> ~ P y) ->
             exists x, 0 <= x < T /\ P x /\
                       forall y, 0 <= y < T -> dist T a y < dist T a x ->
                                 ~ P y).
  { induction n as [|n IH]; intros k Hn Hk Hnot.
    - exists x0. split; [exact Hx0|]. split; [exact HP0|].
      intros y Hy Hlt. apply Hnot; auto. lia.
    - pose proof (dist_range T a x0 Ha Hx0) as Hr.
      assert (Hkr : 0 <= k < T) by lia.
      destruct (dist_step T a k Ha Hkr) as [Hyk Hdk].
      destruct (Hdec ((a + k) mod T)) as [Hyes|Hno].
      + exists ((a + k) mod T). split; [exact Hyk|]. split; [exact Hyes|].
        intros y Hy Hlt. apply Hnot; auto. lia.
      + apply (IH (k + 1)); try lia.
        intros y Hy Hlt.
        destruct (Z.eq_dec (dist T a y) k) as [Heq|Hne].
        * rewrite <- Hdk in Heq.
          apply (dist_inj T a y _ Ha Hy Hyk) in Heq. subst y. exact Hno.
        * apply Hnot; auto. lia. }
  apply (Haux (Z.to_nat (dist T a x0)) 0).
  - pose proof (dist_range T a x0 Ha Hx0). lia.
  - lia.
  - intros y Hy Hlt. pose proof (dist_range T a y Ha Hy). lia.
Qed.

(** With the probing invariant, two slots of one key are not both first. *)
Lemma first_of_key_unique (l : list (MojoKeyValue key value)) (T i j : Z) :
  0 < T -> probe_invariant l T ->
  0 <= i < T -> 0 <= j < T -> selected l T i -> selected l T j ->
  kv_key (slot_at l i) = kv_key (slot_at l j) -> i = j.
Proof.
  intros HT Hinv Hi Hj [Hoi Hfi] [Hoj Hfj] Hkey.
  destruct (Z.eq_dec i j) as [Heq|Hne]; [exact Heq|]. exfalso.
  pose proof (Hinv i Hi Hoi) as Hri. pose proof (Hinv j Hj Hoj) as Hrj.
  unfold reachable, home in Hri, Hrj. rewrite <- Hkey in Hrj.
  set (h := GetHash (kv_key (slot_at l i)) mod T) in *.
  assert (Hh : 0 <= h < T) by (apply Z.mod_pos_bound; lia).
  destruct (Z_lt_ge_dec (dist T h i) (dist T h j)) as [Hlt|Hge].
  - destruct (Hfj i Hi Hne Hkey) as [z [Hz [Hvz Hd]]].
    apply (occupied_not_vacant l z); [|exact Hvz].
    assert (Hzj : z <> j).
    { intros ->. exact (occupied_not_vacant l j Hoj Hvz). }
    apply Hrj; auto. cyc.
  - destruct (Hfi j Hj (not_eq_sym Hne) (eq_sym Hkey)) as [z [Hz [Hvz Hd]]].
    apply (occupied_not_vacant l z); [|exact Hvz].
    assert (Hzi : z <> i).
    { intros ->. exact (occupied_not_vacant l i Hoi Hvz). }
    assert (Hij : dist T h i <> dist T h j).
    { intros Heq. apply (dist_inj T h i j Hh Hi Hj) in Heq. contradiction. }
    apply Hri; auto. cyc.
Qed.

(** With the probing invariant and an empty slot, every stored key has a
    first slot. *)
Lemma first_of_key_exists (l : list (MojoKeyValue key value)) (T : Z)
    (k : key) :
  0 < T -> probe_invariant l T -> has_empty l T -> stored l T k ->
  exists i, 0 <= i < T /\ selected l T i /\ kv_key (slot_at l i) = k.
Proof.
  intros HT Hinv [e [He Hve]] Hst.
  set (h := GetHash k mod T).
  assert (Hh : 0 <= h < T) by (apply Z.mod_pos_bound; lia).
  destruct (first_after (fun x => occupied l x /\ kv_key (slot_at l x) = k)
              T h) as [i [Hi [[Hoi Hki] Hmin]]].
  { intros y. destruct (occupied_or_vacant l y) as [Ho|Hv].
    - destruct (key_eq_dec (kv_key (slot_at l y)) k) as [Hk|Hk]; [left; auto|].
      right. intros [_ Hk']. contradiction.
    - right. intros [Ho _]. exact (occupied_not_vacant l y Ho Hv). }
  { exact Hh. }
  { destruct Hst as [x [Hx [Hox Hkx]]]. exists x. auto. }
  exists i. split; [exact Hi|]. split; [|exact Hki].
  split; [exact Hoi|].
  intros y Hy Hyi Hky. rewrite Hki in Hky.
  assert (Hoy : occupied l y).
  { unfold occupied in *. rewrite Hky, <- Hki. exact Hoi. }
  exists e. split; [exact He|]. split; [exact Hve|].
  assert (Hiy : ~ dist T h y < dist T h i).
  { intros Hlt. apply (Hmin y Hy Hlt). auto. }
  assert (Hne : dist T h y <> dist T h i).
  { intros Heq. apply (dist_inj T h y i Hh Hy Hi) in Heq. contradiction. }
  assert (Hye : dist T h y < dist T h e).
  { pose proof (Hinv y Hy Hoy) as Hry. unfold reachable, home in Hry.
    rewrite Hky in Hry. fold h in Hry.
    destruct (Z_lt_ge_dec (dist T h y) (dist T h e)) as [Hlt|Hge]; [exact Hlt|].
    exfalso. apply (occupied_not_vacant l e); [|exact Hve].
    assert (Hey : e <> y).
    { intros ->. exact (occupied_not_vacant l y Hoy Hve). }
    assert (Hd : dist T h e <> dist T h y).
    { intros Heq. apply (dist_inj T h e y Hh He Hy) in Heq. contradiction. }
    apply Hry; auto. lia. }
  cyc.
Qed.


(** *** What the code of the cursor computes *)

Section Cursor.
Variable m : MojoMultiMap.t key value.
Variable l : list (MojoKeyValue key value).
Let T := MojoMultiMap.m_TableCount m.
Hypothesis Hok : table_ok m l.

Lemma kv_at_table (i : Z) :
  0 <= i < T -> MojoMultiMap.kv_at m i = Some (slot_at l i).
Proof.
  intros Hi. destruct Hok as [Hl HT]. unfold MojoMultiMap.kv_at. rewrite Hl.
  apply zget_slot_at. fold T in HT. lia.
Qed.

(** One of the two backward loops of [IsFirstInRun], over the [n] slots
    from [hi] down. *)
Lemma back_walk (k : key) (n : nat) (hi : Z) :
  hi < T -> -1 <= hi - Z.of_nat n ->
  exists r,
    for_down n hi (MojoMultiMap.first_in_run_body m k) tt = Some r /\
    match r with
    | Leave b =>
        exists j, hi - Z.of_nat n < j <= hi /\
                  (forall j', j < j' <= hi -> passes l k j') /\
                  if b then vacant l j
                  else occupied l j /\ kv_key (slot_at l j) = k
    | Next _ => forall j', hi - Z.of_nat n < j' <= hi -> passes l k j'
    end.
Proof.
  intros Hhi Hlo.
  destruct (for_down_total
              (fun (j : Z) (_ : unit) =>
                 forall j', j < j' <= hi -> passes l k j')
              (fun b : bool =>
                 exists j, hi - Z.of_nat n < j <= hi /\
                           (forall j', j < j' <= hi -> passes l k j') /\
                           if b then vacant l j
                           else occupied l j /\ kv_key (slot_at l j) = k)
              (MojoMultiMap.first_in_run_body m k) n hi tt)
    as [r [Hr Hres]].
  - intros j' Hj'. lia.
  - intros j [] Hj HP. unfold MojoMultiMap.first_in_run_body.
    rewrite kv_at_table by lia. unfold MojoMultiMap.is_empty.
    destruct (IsHashNull (kv_key (slot_at l j))) eqn:Hv.
    + eexists. split; [reflexivity|]. exists j. auto.
    + destruct (key_eqb (kv_key (slot_at l j)) k) eqn:Hk.
      * eexists. split; [reflexivity|]. exists j.
        split; [exact Hj|]. split; [exact HP|]. split; [exact Hv|].
        apply key_eqb_eq. exact Hk.
      * eexists. split; [reflexivity|]. intros j' Hj'.
        destruct (Z.eq_dec j' j) as [->|Hne]; [|apply HP; lia].
        split; [exact Hv|]. intros Heq. apply key_eqb_eq in Heq. congruence.
  - exists r. split; [exact Hr|]. destruct r as [[]|b]; exact Hres.
Qed.

Lemma IsFirstInRun_spec (i : Z) :
  0 <= i < T -> occupied l i ->
  exists b, MojoMultiMap.IsFirstInRun m i = Some b /\
            (b = true <-> is_first l T i).
Proof.
  intros Hi Hoi. unfold MojoMultiMap.IsFirstInRun.
  rewrite kv_at_table by exact Hi. fold T.
  set (k := kv_key (slot_at l i)).
  assert (Hknull : IsHashNull k = false) by exact Hoi.
  assert (Hkey_occ : forall y, kv_key (slot_at l y) = k -> occupied l y).
  { intros y Hy. unfold occupied. rewrite Hy. exact Hknull. }
  assert (HT0 : 0 < T) by lia.
  destruct (back_walk k (Z.to_nat i) (i - 1)) as [r1 [Hr1 Hres1]]; try lia.
  rewrite Hr1. destruct r1 as [[]|b1].
  2:{ (* the first loop has stopped *)
    exists b1. split; [reflexivity|].
    destruct Hres1 as [j [Hj [Hpass Hstop]]].
    assert (Hjr : 0 <= j < T) by lia.
    destruct b1.
    - split; [intros _|reflexivity].
      intros y Hy Hyi Hky. exists j. split; [exact Hjr|]. split; [exact Hstop|].
      assert (Hyj : y <> j).
      { intros ->. exact (occupied_not_vacant l j (Hkey_occ j Hky) Hstop). }
      assert (Hout : ~ (j < y <= i - 1)).
      { intros Hin. destruct (Hpass y Hin) as [_ Hne]. contradiction. }
      cyc.
    - split; [discriminate|]. intros Hfirst. exfalso.
      destruct Hstop as [Hoj Hkj].
      destruct (Hfirst j Hjr) as [z [Hz [Hvz Hd]]]; [lia | exact Hkj |].
      assert (Hzi : z <> i).
      { intros ->. exact (occupied_not_vacant l i Hoi Hvz). }
      assert (Hin : j < z <= i - 1) by cyc.
      destruct (Hpass z Hin) as [Hoz _].
      exact (occupied_not_vacant l z Hoz Hvz). }
  replace (i - 1 - Z.of_nat (Z.to_nat i)) with (-1) in Hres1 by lia.
  destruct (back_walk k (Z.to_nat (T - 1 - i)) (T - 1)) as [r2 [Hr2 Hres2]];
    try lia.
  rewrite Hr2.
  replace (T - 1 - Z.of_nat (Z.to_nat (T - 1 - i))) with i in Hres2 by lia.
  destruct r2 as [[]|b2].
  - exists true. split; [reflexivity|]. split; [intros _|reflexivity].
    intros y Hy Hyi Hky. exfalso.
    destruct (Z_lt_ge_dec y i) as [Hlt|Hge].
    + destruct (Hres1 y) as [_ Hne]; [lia | contradiction].
    + destruct (Hres2 y) as [_ Hne]; [lia | contradiction].
  - exists b2. split; [reflexivity|].
    destruct Hres2 as [j [Hj [Hpass Hstop]]].
    assert (Hjr : 0 <= j < T) by lia.
    destruct b2.
    + split; [intros _|reflexivity].
      intros y Hy Hyi Hky. exists j. split; [exact Hjr|]. split; [exact Hstop|].
      assert (Hyj : y <> j).
      { intros ->. exact (occupied_not_vacant l j (Hkey_occ j Hky) Hstop). }
      assert (Hout1 : ~ (-1 < y <= i - 1)).
      { intros Hin. destruct (Hres1 y Hin) as [_ Hne]. contradiction. }
      assert (Hout2 : ~ (j < y <= T - 1)).
      { intros Hin. destruct (Hpass y Hin) as [_ Hne]. contradiction. }
      cyc.
    + split; [discriminate|]. intros Hfirst. exfalso.
      destruct Hstop as [Hoj Hkj].
      destruct (Hfirst j Hjr) as [z [Hz [Hvz Hd]]]; [lia | exact Hkj |].
      assert (Hzi : z <> i).
      { intros ->. exact (occupied_not_vacant l i Hoi Hvz). }
      assert (Hin : -1 < z <= i - 1 \/ j < z <= T - 1) by cyc.
      destruct Hin as [Hin|Hin].
      * destruct (Hres1 z Hin) as [Hoz _].
        exact (occupied_not_vacant l z Hoz Hvz).
      * destruct (Hpass z Hin) as [Hoz _].
        exact (occupied_not_vacant l z Hoz Hvz).
Qed.

(** [_GetNextIndex] stops at the next selected slot, or at the end of the
    table. *)
Lemma GetNextIndex_spec (index : Z) :
  -1 <= index < T ->
  exists r, MojoMultiMap._GetNextIndex m index = Some r /\
            index < r <= T /\
            (r < T -> selected l T r) /\
            forall j, index < j < r -> ~ selected l T j.
Proof.
  intros Hindex. unfold MojoMultiMap._GetNextIndex, for_range. fold T.
  destruct (for_up_total
              (fun (j : Z) (_ : unit) =>
                 forall j', index < j' < j -> ~ selected l T j')
              (fun r : Z =>
                 index < r < T /\ selected l T r /\
                 forall j', index < j' < r -> ~ selected l T j')
              (fun i (_ : unit) =>
                 slot <- MojoMultiMap.kv_at m i ;;
                 if negb (MojoMultiMap.is_empty slot) then
                   first <- MojoMultiMap.IsFirstInRun m i ;;
                   Some (if first then Leave i else Next tt)
                 else Some (Next tt))
              (Z.to_nat (T - (index + 1))) (index + 1) tt)
    as [r [Hr Hres]].
  - intros j' Hj'. lia.
  - intros j [] Hj HP. rewrite kv_at_table by lia.
    unfold MojoMultiMap.is_empty.
    destruct (IsHashNull (kv_key (slot_at l j))) eqn:Hv; cbn [negb].
    + eexists. split; [reflexivity|]. intros j' Hj'.
      destruct (Z.eq_dec j' j) as [->|Hne]; [|apply HP; lia].
      intros [Ho _]. unfold occupied in Ho. congruence.
    + destruct (IsFirstInRun_spec j) as [b [Hb Hiff]]; [lia | exact Hv |].
      rewrite Hb. eexists. split; [reflexivity|]. destruct b.
      * split; [lia|]. split; [|exact HP].
        split; [exact Hv | apply Hiff; reflexivity].
      * intros j' Hj'.
        destruct (Z.eq_dec j' j) as [->|Hne]; [|apply HP; lia].
        intros [_ Hf]. apply Hiff in Hf. discriminate.
  - rewrite Hr. destruct r as [[]|r].
    + exists T. split; [reflexivity|]. split; [lia|]. split; [lia|].
      intros j Hj. apply Hres. lia.
    + exists r. split; [reflexivity|]. destruct Hres as [Hrr [Hsel Hnone]].
      split; [lia|]. split; [intros _; exact Hsel | exact Hnone].
Qed.

Hypothesis Hstatus : MojoMultiMap.m_Status m = kMojoStatus_Ok.

(** The cursor loop of [Enumerate] visits the selected slots, each once. *)
Lemma cursor_loop_spec :
  forall (n turns : nat) (i : Z) (visited : list Z),
    T - i <= Z.of_nat n -> 0 <= i <= T -> (i < T -> selected l T i) ->
    (n < turns)%nat ->
    exists vs, MojoMultiMap.cursor_loop turns m i visited
               = Some (visited ++ vs) /\
               NoDup vs /\
               forall j, In j vs <-> (i <= j < T /\ selected l T j).
Proof.
  induction n as [|n IH]; intros turns i visited Hn Hi Hsel Hturns.
  - assert (i = T) by lia. subst i.
    exists []. split; [|split; [constructor|]].
    + destruct turns; cbn [MojoMultiMap.cursor_loop];
        unfold MojoMultiMap._IsIndexValid; fold T;
        rewrite Z.ltb_irrefl, andb_false_r, app_nil_r; reflexivity.
    + intros j. split; [intros [] | lia].
  - destruct (Z.eq_dec i T) as [->|Hne].
    { apply IH; auto; lia. }
    destruct turns as [|turns]; [lia|].
    cbn [MojoMultiMap.cursor_loop]. unfold MojoMultiMap._IsIndexValid.
    fold T. rewrite Hstatus.
    destruct (Z.ltb_spec i T) as [Hlt|Hge]; [|lia]. cbn [is_ok andb].
    destruct (GetNextIndex_spec i) as [r [Hr [Hrr [Hrsel Hnone]]]]; [lia|].
    rewrite Hr.
    destruct (IH turns r (visited ++ [i])) as [vs [Hrun [Hnd Hin]]];
      try lia; auto.
    exists (i :: vs). split; [|split].
    + rewrite Hrun, <- app_assoc. reflexivity.
    + constructor; [|exact Hnd]. intros Hi'. apply Hin in Hi'. lia.
    + intros j. split.
      * intros [<- | Hj]; [split; [lia | apply Hsel; lia]|].
        apply Hin in Hj. split; [lia | apply Hj].
      * intros [Hj Hs]. destruct (Z.eq_dec i j) as [->|Hij]; [left; auto|].
        right. apply Hin. split; [|exact Hs].
        destruct (Z_lt_ge_dec j r) as [Hjr|Hjr]; [|lia].
        exfalso. apply (Hnone j); [lia | exact Hs].
Qed.

Lemma keys_at_spec (vs : list Z) :
  (forall j, In j vs -> 0 <= j < T) ->
  MojoMultiMap.keys_at m vs
  = Some (map (fun j => kv_key (slot_at l j)) vs).
Proof.
  induction vs as [|j vs IH]; intros Hin; cbn [MojoMultiMap.keys_at map].
  - reflexivity.
  - unfold MojoMultiMap._GetKeyAt.
    rewrite kv_at_table by (apply Hin; left; auto).
    cbn [option_map]. rewrite IH by (intros j' Hj'; apply Hin; right; auto).
    reflexivity.
Qed.

End Cursor.

Lemma NoDup_map_on {A B} (f : A -> B) (xs : list A) :
  (forall x y, In x xs -> In y xs -> f x = f y -> x = y) ->
  NoDup xs -> NoDup (map f xs).
Proof.
  intros Hinj Hnd. induction Hnd as [|x xs Hx Hnd IH]; cbn [map].
  - constructor.
  - constructor.
    + intros Hfx. apply in_map_iff in Hfx. destruct Hfx as [y [Hy Hin]].
      assert (y = x) by (apply Hinj; [right; auto | left; auto | exact Hy]).
      subst y. contradiction.
    + apply IH. intros a b Ha Hb. apply Hinj; right; assumption.
Qed.


End MultiMapEnumeration.


(** There the cursor stops at slots 1 and 2, and the keys pushed are 1 and
    9: key 1 is pushed once although it is held by slots 1 and 3. *)
Lemma interleaved_enumeration :
  MojoMultiMap.visited_slots interleaved = Some [1; 2] /\
  MojoMultiMap.Enumerate interleaved None = Some [1; 9].
Proof. split; reflexivity. Qed.

(** The empty slot is needed: two inserts fill a table of two slots that
    grows at 80% of load, and when both pairs have the same key the walk back
    of [IsFirstInRun] meets the other pair from either slot, so the
    enumeration stops nowhere. *)
Lemma Enumerate_nothing_on_full_table :
  exists m,
    multimap_after 2 tight_config [] [(4, 2); (4, 3)] = Some m /\
    MojoMultiMap.m_ActiveCount m = MojoMultiMap.m_TableCount m /\
    MojoMultiMap.Contains m 4 = Some true /\
    MojoMultiMap.Enumerate m None = Some [].
Proof.
  eexists. split; [vm_compute; reflexivity|].
  split; [reflexivity|]. split; reflexivity.
Qed.

(* ------------------------------------------------------------------------- *)
(** ** MojoMap: status and change counter *)

Lemma for_up_keeps {St} (P : St -> Prop)
    (body : Z -> St -> option (step St St)) :
  (forall j s1 r, P s1 -> body j s1 = Some r -> P (loop_end r)) ->
  forall (n : nat) (i : Z) (s : St) (res : step St St),
    P s -> for_up n i body s = Some res -> P (loop_end res).
Proof.
  intros Hbody. induction n as [|n IH]; intros i s res HP Hrun;
    cbn [for_up] in Hrun.
  - injection Hrun as <-. exact HP.
  - destruct (body i s) as [[s'|r]|] eqn:Hb; try discriminate.
    + apply (IH (i + 1) s'); [|exact Hrun].
      exact (Hbody i s (Next s') HP Hb).
    + injection Hrun as <-. exact (Hbody i s (Leave r) HP Hb).
Qed.

Section MapFrame.
Context {key value : Type} `{MojoKey key} `{MojoValue value}.

Lemma map_frame_refl (s : MojoMap.t key value) : map_frame s s.
Proof. split; [reflexivity | lia]. Qed.

Lemma map_frame_trans (s1 s2 s3 : MojoMap.t key value) :
  map_frame s1 s2 -> map_frame s2 s3 -> map_frame s1 s3.
Proof. intros [Ha Hb] [Hc Hd]. split; [congruence | lia]. Qed.

Lemma map_loop_frame (body : Z -> MojoMap.t key value ->
                             option (step (MojoMap.t key value)
                                          (MojoMap.t key value)))
    (lo hi : Z) (s : MojoMap.t key value) res :
  (forall j s1 r, body j s1 = Some r -> map_frame s1 (loop_end r)) ->
  for_range lo hi body s = Some res -> map_frame s (loop_end res).
Proof.
  intros Hbody Hrun. unfold for_range in Hrun.
  refine (for_up_keeps (map_frame s) body _ _ _ _ _ (map_frame_refl s) Hrun).
  intros j s1 r Hs1 Hb. apply (map_frame_trans s s1); [exact Hs1|].
  exact (Hbody j s1 r Hb).
Qed.

Lemma map_store_frame (s s' : MojoMap.t key value) (i : Z) kv :
  MojoMap.store s i kv = Some s' -> map_frame s s'.
Proof.
  unfold MojoMap.store. intros Hst.
  destruct (MojoMap.m_KeyValues s) as [l|]; [|discriminate].
  cbn in Hst. destruct (zset l i kv) as [l'|]; [|discriminate].
  injection Hst as <-. split; [reflexivity | cbn; lia].
Qed.

Lemma map_Reinsert_frame (s s' : MojoMap.t key value) (i : Z) :
  MojoMap.Reinsert s i = Some s' -> map_frame s s'.
Proof.
  unfold MojoMap.Reinsert. intros Hre.
  destruct (MojoMap.kv_at s i) as [kv|]; [|discriminate]. cbn in Hre.
  destruct (MojoMap.FindEmptyOrMatching s (kv_key kv)) as [j|];
    [|discriminate].
  cbn in Hre. destruct (negb (j =? i)).
  - destruct (MojoMap.store s j kv) as [s1|] eqn:H1; [|discriminate].
    cbn in Hre. apply (map_frame_trans s s1).
    + exact (map_store_frame _ _ _ _ H1).
    + exact (map_store_frame _ _ _ _ Hre).
  - injection Hre as <-. apply map_frame_refl.
Qed.

Lemma map_RemoveOne_fix_frame (i : Z) (s : MojoMap.t key value) r :
  MojoMap.RemoveOne_fix i s = Some r -> map_frame s (loop_end r).
Proof.
  unfold MojoMap.RemoveOne_fix. intros Hb.
  destruct (MojoMap.kv_at s i) as [slot|]; [|discriminate]. cbn in Hb.
  destruct (MojoMap.is_empty slot).
  - injection Hb as <-. apply map_frame_refl.
  - destruct (MojoMap.Reinsert s i) as [s'|] eqn:Hre; [|discriminate].
    injection Hb as <-. exact (map_Reinsert_frame _ _ _ Hre).
Qed.

Lemma map_reinsert_occupied_frame (i : Z) (s : MojoMap.t key value) r :
  MojoMap.reinsert_occupied i s = Some r -> map_frame s (loop_end r).
Proof.
  unfold MojoMap.reinsert_occupied. intros Hb.
  destruct (MojoMap.kv_at s i) as [slot|]; [|discriminate]. cbn in Hb.
  destruct (negb (MojoMap.is_empty slot)).
  - destruct (MojoMap.Reinsert s i) as [s'|] eqn:Hre; [|discriminate].
    injection Hb as <-. exact (map_Reinsert_frame _ _ _ Hre).
  - injection Hb as <-. apply map_frame_refl.
Qed.

Lemma map_reinsert_until_empty_frame (i : Z) (s : MojoMap.t key value) r :
  MojoMap.reinsert_until_empty i s = Some r -> map_frame s (loop_end r).
Proof.
  unfold MojoMap.reinsert_until_empty. intros Hb.
  destruct (MojoMap.kv_at s i) as [slot|]; [|discriminate]. cbn in Hb.
  destruct (MojoMap.is_empty slot).
  - injection Hb as <-. apply map_frame_refl.
  - destruct (MojoMap.Reinsert s i) as [s'|] eqn:Hre; [|discriminate].
    injection Hb as <-. exact (map_Reinsert_frame _ _ _ Hre).
Qed.

(** [RemoveOne] leaves the counter to its caller. *)
Lemma map_RemoveOne_frame (s s' : MojoMap.t key value) (k : key) removed :
  MojoMap.RemoveOne s k = Some (s', removed) -> map_frame s s'.
Proof.
  unfold MojoMap.RemoveOne. intros Hrm.
  destruct (IsHashNull k); [injection Hrm as <- _; apply map_frame_refl|].
  destruct (MojoMap.FindEmptyOrMatching s k) as [index|]; [|discriminate].
  cbn in Hrm. destruct (MojoMap.kv_at s index) as [slot|]; [|discriminate].
  cbn in Hrm.
  destruct (MojoMap.is_empty slot);
    [injection Hrm as <- _; apply map_frame_refl|].
  destruct (MojoMap.store s index KeyValue_default) as [s1|] eqn:H1;
    [|discriminate].
  cbn in Hrm.
  assert (H2 : map_frame s
                 (MojoMap.set_ActiveCount s1 (MojoMap.m_ActiveCount s1 - 1))).
  { apply (map_frame_trans s s1); [exact (map_store_frame _ _ _ _ H1)|].
    split; [reflexivity | cbn; lia]. }
  match type of Hrm with
  | context [for_range ?lo ?hi ?body ?s0] =>
      destruct (for_range lo hi body s0) as [r1|] eqn:Hr1; [|discriminate]
  end.
  cbn in Hrm.
  pose proof (map_loop_frame _ _ _ _ _ map_RemoveOne_fix_frame Hr1) as H3.
  destruct r1 as [s3|s3]; cbn [loop_end] in H3.
  - destruct (for_range 0 index MojoMap.RemoveOne_fix s3) as [r2|] eqn:Hr2;
      [|discriminate].
    cbn in Hrm. injection Hrm as <- _.
    pose proof (map_loop_frame _ _ _ _ _ map_RemoveOne_fix_frame Hr2) as H4.
    apply (map_frame_trans _ _ _ H2).
    apply (map_frame_trans _ s3); assumption.
  - injection Hrm as <- _. apply (map_frame_trans _ _ _ H2). exact H3.
Qed.

Lemma map_Resize_in_place_frame (s s' : MojoMap.t key value) (n : Z) :
  MojoMap.Resize_in_place s n = Some s' -> map_frame s s'.
Proof.
  unfold MojoMap.Resize_in_place. intros Hrs.
  destruct (n <? MojoMap.m_TableCount s).
  - destruct (for_range 0 (MojoMap.m_TableCount s) MojoMap.reinsert_occupied
                (MojoMap.set_TableCount s n)) as [r|] eqn:Hr; [|discriminate].
    injection Hrs as <-.
    exact (map_loop_frame _ _ _ _ _ map_reinsert_occupied_frame Hr).
  - destruct (MojoMap.m_TableCount s <? n).
    + destruct (for_range 0 (MojoMap.m_TableCount s)
                  MojoMap.reinsert_occupied (MojoMap.set_TableCount s n))
        as [r1|] eqn:Hr1; [|discriminate].
      cbn in Hrs.
      destruct (for_range (MojoMap.m_TableCount s) n
                  MojoMap.reinsert_until_empty (loop_end r1))
        as [r2|] eqn:Hr2; [|discriminate].
      injection Hrs as <-.
      apply (map_frame_trans _ (loop_end r1)).
      * exact (map_loop_frame _ _ _ _ _ map_reinsert_occupied_frame Hr1).
      * exact (map_loop_frame _ _ _ _ _ map_reinsert_until_empty_frame Hr2).
    + injection Hrs as <-. apply map_frame_refl.
Qed.

Section WithInsert.
Variable insert :
  MojoMap.t key value -> key -> value -> option (MojoMap.t key value).
Hypothesis insert_frame :
  forall s k v s', insert s k v = Some s' -> map_frame s s'.

Lemma map_Resize_with_frame (s s' : MojoMap.t key value) (n c : Z) :
  MojoMap.Resize_with insert s n c = Some s' -> map_frame s s'.
Proof.
  unfold MojoMap.Resize_with. intros Hrs.
  destruct (MojoMap.m_Alloc s) as [alloc|];
    [|exact (map_Resize_in_place_frame _ _ _ Hrs)].
  destruct (negb (MojoMap.m_AllocCount s =? c));
    [|exact (map_Resize_in_place_frame _ _ _ Hrs)].
  destruct (if negb (c =? 0)
            then let '(reply, rest) := Allocate alloc in
                 (if reply
                  then Some (repeat (@KeyValue_default key value _ _)
                               (Z.to_nat c))
                  else None, rest)
            else (None, alloc)) as [new_kvs alloc'].
  destruct (MojoMap.m_KeyValues s) as [old|];
    [|injection Hrs as <-; split; [reflexivity | cbn; lia]].
  destruct new_kvs as [new|];
    [|injection Hrs as <-; split; [reflexivity | cbn; lia]].
  match type of Hrs with
  | context [for_range ?lo ?hi ?body ?s1] =>
      destruct (for_range lo hi body s1) as [r|] eqn:Hr; [|discriminate];
      pose proof (map_loop_frame body lo hi s1 r) as Hloop
  end.
  injection Hrs as <-.
  refine (map_frame_trans _ _ _ _ (Hloop _ Hr));
    [split; [reflexivity | cbn; lia]|].
  intros j s1 r0 Hb. cbn beta in Hb.
  destruct (zget old j) as [kv|]; [|discriminate]. cbn in Hb.
  destruct (negb (MojoMap.is_empty kv)).
  - destruct (insert s1 (kv_key kv) (kv_value kv)) as [s2|] eqn:Hins;
      [|discriminate].
    injection Hb as <-. exact (insert_frame _ _ _ _ Hins).
  - injection Hb as <-. apply map_frame_refl.
Qed.

Lemma map_Grow_with_frame (s s' : MojoMap.t key value) :
  MojoMap.Grow_with insert s = Some s' -> map_frame s s'.
Proof.
  unfold MojoMap.Grow_with. intros Hg.
  destruct (MojoMap.grow_due s); [|injection Hg as <-; apply map_frame_refl].
  destruct (negb (MojoMap.m_DynamicAlloc s));
    exact (map_Resize_with_frame _ _ _ _ Hg).
Qed.

Lemma map_Shrink_with_frame (s s' : MojoMap.t key value) :
  MojoMap.Shrink_with insert s = Some s' -> map_frame s s'.
Proof.
  unfold MojoMap.Shrink_with. intros Hg.
  destruct (MojoMap.shrink_due s);
    [|injection Hg as <-; apply map_frame_refl].
  destruct (negb (MojoMap.m_DynamicAlloc s));
    exact (map_Resize_with_frame _ _ _ _ Hg).
Qed.

Lemma map_AutoGrow_with_frame (s s' : MojoMap.t key value) :
  MojoMap.AutoGrow_with insert s = Some s' -> map_frame s s'.
Proof.
  unfold MojoMap.AutoGrow_with. intros Hg.
  destruct (MojoMap.m_AutoGrow s);
    [exact (map_Grow_with_frame _ _ Hg)
    |injection Hg as <-; apply map_frame_refl].
Qed.

Lemma map_AutoShrink_with_frame (s s' : MojoMap.t key value) :
  MojoMap.AutoShrink_with insert s = Some s' -> map_frame s s'.
Proof.
  unfold MojoMap.AutoShrink_with. intros Hg.
  destruct (MojoMap.m_AutoShrink s);
    [exact (map_Shrink_with_frame _ _ Hg)
    |injection Hg as <-; apply map_frame_refl].
Qed.

(** What an [Insert] that returns ok has done: the probe for the key stops
    at an occupied slot that holds the value, and the counter has advanced. *)
Lemma map_Insert_with_spec (s s' : MojoMap.t key value) (k : key) (v : value)
    (st : MojoStatus) :
  MojoMap.Insert_with insert s k v = Some (s', st) ->
  map_frame s s' /\
  (is_ok st = true ->
   is_ok (MojoMap.m_Status s') = true /\ IsHashNull k = false /\
   MojoMap.m_ChangeCount s < MojoMap.m_ChangeCount s' /\
   exists i slot, MojoMap.FindEmptyOrMatching s' k = Some i /\
                  MojoMap.kv_at s' i = Some slot /\
                  MojoMap.is_empty slot = false /\ kv_value slot = v).
Proof.
  unfold MojoMap.Insert_with. intros Hins.
  destruct (is_ok (MojoMap.m_Status s)) eqn:Hs.
  2:{ injection Hins as <- <-. split; [apply map_frame_refl|]. congruence. }
  destruct (IsHashNull k) eqn:Hk.
  { injection Hins as <- <-. split; [apply map_frame_refl|]. discriminate. }
  destruct (MojoMap.AutoGrow_with insert s) as [s1|] eqn:Hg; [|discriminate].
  cbn in Hins. pose proof (map_AutoGrow_with_frame _ _ Hg) as [Hst Hcc].
  destruct (MojoMap.m_ActiveCount s1 <? MojoMap.m_TableCount s1).
  2:{ injection Hins as <- <-. split; [split; assumption|]. discriminate. }
  destruct (MojoMap.FindEmptyOrMatching s1 k) as [index|] eqn:Hf;
    [|discriminate].
  cbn in Hins. destruct (MojoMap.kv_at s1 index) as [slot|] eqn:Hslot;
    [|discriminate].
  cbn in Hins. unfold MojoMap.store, MojoMap.kv_at in *.
  destruct (MojoMap.m_KeyValues s1) as [l|] eqn:Hl; [|discriminate].
  cbn in Hslot. unfold MojoMap.FindEmptyOrMatching in Hf. rewrite Hl in Hf.
  destruct (MojoMap.is_empty slot) eqn:Hnull.
  - cbn in Hins.
    destruct (zset l index (mkKeyValue k v)) as [l'|] eqn:Hset;
      [|discriminate].
    cbn in Hins. injection Hins as <- <-.
    destruct (zset_inv Hset) as [Hb ->].
    split; [split; cbn; [exact Hst | lia]|]. intros _.
    split; [cbn; congruence|]. split; [reflexivity|].
    split; [cbn; lia|]. exists index, (mkKeyValue k v).
    unfold MojoMap.FindEmptyOrMatching.
    cbn [MojoMap.m_KeyValues MojoMap.m_TableCount MojoMap.set_ChangeCount
         MojoMap.set_ActiveCount MojoMap.set_KeyValues].
    split; [|split; [|split]].
    + rewrite (probe_after_store (MojoMap.hit_key k) l (GetHash k) _ index
                 slot (mkKeyValue k v) Hslot); [exact Hf|].
      unfold MojoMap.hit_key. unfold MojoMap.is_empty in Hnull.
      rewrite Hnull. cbn [kv_key]. rewrite key_eqb_refl.
      rewrite orb_true_r. reflexivity.
    + cbn. apply zget_list_set_same. exact Hb.
    + exact Hk.
    + reflexivity.
  - cbn in Hins.
    destruct (zset l index (mkKeyValue (kv_key slot) v)) as [l'|] eqn:Hset;
      [|discriminate].
    cbn in Hins. injection Hins as <- <-.
    destruct (zset_inv Hset) as [Hb ->].
    split; [split; cbn; [exact Hst | lia]|]. intros _.
    split; [cbn; congruence|]. split; [reflexivity|].
    split; [cbn; lia|]. exists index, (mkKeyValue (kv_key slot) v).
    unfold MojoMap.FindEmptyOrMatching.
    cbn [MojoMap.m_KeyValues MojoMap.m_TableCount MojoMap.set_ChangeCount
         MojoMap.set_ActiveCount MojoMap.set_KeyValues].
    split; [|split; [|split]].
    + rewrite (probe_after_store (MojoMap.hit_key k) l (GetHash k) _ index
                 slot (mkKeyValue (kv_key slot) v) Hslot); [exact Hf|].
      reflexivity.
    + cbn. apply zget_list_set_same. exact Hb.
    + exact Hnull.
    + reflexivity.
Qed.

End WithInsert.

Lemma map_Insert_spec (depth : nat) :
  forall (s s' : MojoMap.t key value) (k : key) (v : value) (st : MojoStatus),
    MojoMap.Insert depth s k v = Some (s', st) ->
    map_frame s s' /\
    (is_ok st = true ->
     is_ok (MojoMap.m_Status s') = true /\ IsHashNull k = false /\
     MojoMap.m_ChangeCount s < MojoMap.m_ChangeCount s' /\
     exists i slot, MojoMap.FindEmptyOrMatching s' k = Some i /\
                    MojoMap.kv_at s' i = Some slot /\
                    MojoMap.is_empty slot = false /\ kv_value slot = v).
Proof.
  induction depth as [|depth IH]; intros s s' k v st Hins;
    cbn [MojoMap.Insert] in Hins; [discriminate|].
  refine (map_Insert_with_spec _ _ _ _ _ _ _ Hins).
  intros s1 k1 v1 s2 Hn.
  destruct (MojoMap.Insert depth s1 k1 v1) as [[s3 st3]|] eqn:Hi;
    [|discriminate].
  injection Hn as <-. exact (proj1 (IH _ _ _ _ _ Hi)).
Qed.

Lemma map_nested_insert_frame (depth : nat) (s : MojoMap.t key value)
    (k : key) (v : value) (s' : MojoMap.t key value) :
  MojoMap.nested_insert depth s k v = Some s' -> map_frame s s'.
Proof.
  unfold MojoMap.nested_insert. intros Hn.
  destruct (MojoMap.Insert depth s k v) as [[s3 st3]|] eqn:Hi;
    [|discriminate].
  injection Hn as <-. exact (proj1 (map_Insert_spec _ _ _ _ _ _ Hi)).
Qed.

Lemma map_Remove_frame (depth : nat) (s s' : MojoMap.t key value) (k : key)
    (v : value) :
  MojoMap.Remove depth s k = Some (s', v) -> map_frame s s'.
Proof.
  unfold MojoMap.Remove. intros Hrm.
  destruct (negb (is_ok (MojoMap.m_Status s)));
    [injection Hrm as <- _; apply map_frame_refl|].
  destruct (negb (IsHashNull k));
    [|injection Hrm as <- _; apply map_frame_refl].
  destruct (MojoMap.RemoveOne s k) as [[s1 removed]|] eqn:H1; [|discriminate].
  cbn in Hrm. pose proof (map_RemoveOne_frame _ _ _ _ H1) as [Hst Hcc].
  destruct removed as [v1|]; [|injection Hrm as <- _; split; assumption].
  destruct (MojoMap.AutoShrink depth
              (MojoMap.set_ChangeCount s1 (MojoMap.m_ChangeCount s1 + 1)))
    as [s3|] eqn:H3; [|discriminate].
  injection Hrm as <- _.
  destruct (map_AutoShrink_with_frame _ (map_nested_insert_frame depth)
              _ _ H3) as [Hst3 Hcc3].
  cbn in Hst3, Hcc3. split; [congruence | lia].
Qed.

Lemma map_Update_frame (depth : nat) (s s' : MojoMap.t key value)
    (st : MojoStatus) :
  MojoMap.Update depth s = Some (s', st) -> map_frame s s'.
Proof.
  unfold MojoMap.Update. intros Hup.
  destruct (is_ok (MojoMap.m_Status s));
    [|injection Hup as <- _; apply map_frame_refl].
  destruct (MojoMap.Grow depth s) as [s1|] eqn:H1; [|discriminate].
  cbn in Hup.
  destruct (MojoMap.Shrink depth s1) as [s2|] eqn:H2; [|discriminate].
  injection Hup as <- _. apply (map_frame_trans s s1).
  - exact (map_Grow_with_frame _ (map_nested_insert_frame depth) _ _ H1).
  - exact (map_Shrink_with_frame _ (map_nested_insert_frame depth) _ _ H2).
Qed.

Lemma map_Reset_frame (depth : nat) (s s' : MojoMap.t key value) :
  MojoMap.Reset depth s = Some s' -> map_frame s s'.
Proof.
  unfold MojoMap.Reset. intros Hrs.
  match type of Hrs with
  | context [for_range ?lo ?hi ?body ?s1] =>
      destruct (for_range lo hi body s1) as [r|] eqn:Hr; [|discriminate];
      pose proof (map_loop_frame body lo hi s1 r) as Hloop
  end.
  cbn in Hrs.
  destruct Hloop as [Hst Hcc]; [|exact Hr|].
  { intros j s1 r0 Hb. cbn beta in Hb.
    destruct (MojoMap.store s1 j KeyValue_default) as [s2|] eqn:H2;
      [|discriminate].
    injection Hb as <-. exact (map_store_frame _ _ _ _ H2). }
  destruct (map_Resize_with_frame _ (map_nested_insert_frame depth)
              _ _ _ _ Hrs) as [Hst3 Hcc3].
  cbn in Hst3, Hcc3. split; [congruence | lia].
Qed.

End MapFrame.

(* ------------------------------------------------------------------------- *)
(** ** MojoRelation *)

Section RelationProperties.
Context {key : Type} `{MojoKey key}.

Lemma RemoveChild_frame (depth : nat) (r r' : MojoRelation.t key)
    (child : key) (st : MojoStatus) :
  MojoRelation.RemoveChild depth r child = Some (r', st) ->
  map_frame (MojoRelation.m_ChildToParent r) (MojoRelation.m_ChildToParent r').
Proof.
  unfold MojoRelation.RemoveChild. intros Hrm.
  destruct (negb (IsHashNull child));
    [|injection Hrm as <- _; apply map_frame_refl].
  destruct (MojoMap.Remove depth (MojoRelation.m_ChildToParent r) child)
    as [[c2p old_parent]|] eqn:H1; [|discriminate].
  cbn in Hrm. apply map_Remove_frame in H1.
  destruct (negb (IsHashNull old_parent)).
  - destruct (MojoMultiMap.Remove2 depth (MojoRelation.m_ParentToChild r)
                old_parent child) as [[p2c status]|]; [|discriminate].
    injection Hrm as <- _. exact H1.
  - injection Hrm as <- _. exact H1.
Qed.

Lemma InsertChildParent_frame (depth : nat) (r r' : MojoRelation.t key)
    (child parent : key) (st : MojoStatus) :
  MojoRelation.InsertChildParent depth r child parent = Some (r', st) ->
  map_frame (MojoRelation.m_ChildToParent r)
    (MojoRelation.m_ChildToParent r') /\
  (IsHashNull parent = false -> is_ok st = true ->
   MojoMap.m_ChangeCount (MojoRelation.m_ChildToParent r)
   < MojoMap.m_ChangeCount (MojoRelation.m_ChildToParent r')).
Proof.
  unfold MojoRelation.InsertChildParent. intros Hins.
  destruct (IsHashNull parent).
  { split; [exact (RemoveChild_frame _ _ _ _ _ Hins) | discriminate]. }
  destruct (IsHashNull child).
  { injection Hins as <- <-. split; [apply map_frame_refl|]. discriminate. }
  destruct (MojoRelation.RemoveChild depth r child) as [[r1 st1]|] eqn:H1;
    [|discriminate].
  cbn in Hins. apply RemoveChild_frame in H1.
  destruct (MojoMap.Insert depth (MojoRelation.m_ChildToParent r1) child
              parent) as [[c2p status]|] eqn:H2; [|discriminate].
  cbn in Hins. destruct (map_Insert_spec _ _ _ _ _ _ H2) as [H3 H4].
  pose proof (map_frame_trans _ _ _ H1 H3) as H5.
  destruct (is_ok status) eqn:Hok.
  - destruct (MojoMultiMap.Insert depth (MojoRelation.m_ParentToChild r1)
                parent child) as [[p2c status']|]; [|discriminate].
    injection Hins as <- <-. split; [exact H5|]. intros _ _.
    destruct (H4 eq_refl) as [_ [_ [Hlt _]]]. destruct H1 as [_ Hle].
    cbn. lia.
  - injection Hins as <- <-. split; [exact H5|]. congruence.
Qed.

Lemma remove_children_frame (depth : nat)
    (p2c : MojoMultiMap.t key key) (parent : key) :
  forall (turns : nat) (i : Z) (c2p c2p' : MojoMap.t key key),
    MojoRelation.remove_children turns depth p2c parent i c2p = Some c2p' ->
    map_frame c2p c2p'.
Proof.
  induction turns as [|turns IH]; intros i c2p c2p' Hrun;
    cbn [MojoRelation.remove_children] in Hrun;
    destruct (MojoMultiMap._IsIndexValidOf p2c parent i);
    try discriminate;
    try (injection Hrun as <-; apply map_frame_refl).
  destruct (MojoMultiMap._GetValueAt p2c i) as [child|]; [|discriminate].
  cbn in Hrun.
  destruct (MojoMap.Remove depth c2p child) as [[c2p1 v]|] eqn:H1;
    [|discriminate].
  cbn in Hrun.
  destruct (MojoMultiMap._GetNextIndexOf p2c parent i) as [j|];
    [|discriminate].
  cbn in Hrun. apply map_Remove_frame in H1. apply IH in Hrun.
  exact (map_frame_trans _ _ _ H1 Hrun).
Qed.

Lemma RemoveParent_frame (depth : nat) (r r' : MojoRelation.t key)
    (parent : key) (st : MojoStatus) :
  MojoRelation.RemoveParent depth r parent = Some (r', st) ->
  map_frame (MojoRelation.m_ChildToParent r) (MojoRelation.m_ChildToParent r').
Proof.
  unfold MojoRelation.RemoveParent. intros Hrm.
  destruct (negb (IsHashNull parent));
    [|injection Hrm as <- _; apply map_frame_refl].
  destruct (MojoMultiMap._GetFirstIndexOf (MojoRelation.m_ParentToChild r)
              parent) as [first|]; [|discriminate].
  cbn in Hrm.
  match type of Hrm with
  | context [MojoRelation.remove_children ?n ?d ?p ?k ?i ?c] =>
      destruct (MojoRelation.remove_children n d p k i c) as [c2p|] eqn:H1;
        [|discriminate]
  end.
  cbn in Hrm. apply remove_children_frame in H1.
  destruct (MojoMultiMap.Remove depth (MojoRelation.m_ParentToChild r) parent)
    as [[p2c status]|]; [|discriminate].
  injection Hrm as <- _. exact H1.
Qed.

Lemma Update_frame (depth : nat) (r r' : MojoRelation.t key)
    (st : MojoStatus) :
  MojoRelation.Update depth r = Some (r', st) ->
  map_frame (MojoRelation.m_ChildToParent r) (MojoRelation.m_ChildToParent r').
Proof.
  unfold MojoRelation.Update. intros Hup.
  destruct (MojoMap.Update depth (MojoRelation.m_ChildToParent r))
    as [[c2p status]|] eqn:H1; [|discriminate].
  cbn in Hup. apply map_Update_frame in H1.
  destruct (is_ok status).
  - destruct (MojoMultiMap.Update depth (MojoRelation.m_ParentToChild r))
      as [[p2c status']|]; [|discriminate].
    injection Hup as <- _. exact H1.
  - injection Hup as <- _. exact H1.
Qed.

Lemma Reset_frame (depth : nat) (r r' : MojoRelation.t key) :
  MojoRelation.Reset depth r = Some r' ->
  map_frame (MojoRelation.m_ChildToParent r) (MojoRelation.m_ChildToParent r').
Proof.
  unfold MojoRelation.Reset. intros Hrs.
  destruct (MojoMultiMap.Reset depth (MojoRelation.m_ParentToChild r))
    as [p2c|]; [|discriminate].
  cbn in Hrs.
  destruct (MojoMap.Reset depth (MojoRelation.m_ChildToParent r))
    as [c2p|] eqn:H1; [|discriminate].
  injection Hrs as <-. exact (map_Reset_frame _ _ _ H1).
Qed.



End RelationProperties.






(** The cross-invariant is also lost without any refusal of the allocator,
    through a full table.  After five children of parent 9 and
    [RemoveParent( 9 )] the map is back to two slots and the multimap has
    four; children 1 and 2 then fill the map.  [InsertChildParent( 3, 7 )]
    first removes child 3: the probe of the full map finds neither child 3
    nor an empty slot and answers slot 0, where child 2 is, and child 2 is
    removed in its place.  The call returns ok with the pair (9, 2) in the
    multimap and no child 2 in the map: two children, three pairs. *)
Lemma InsertChildParent_ok_breaks_the_cross_invariant :
  relation_after 8 tight_config [] []
    [OpInsertChildParent 1 9; OpInsertChildParent 2 9; OpUpdateRelation;
     OpInsertChildParent 3 9; OpInsertChildParent 4 9; OpUpdateRelation;
     OpInsertChildParent 5 9; OpRemoveParent 9;
     OpInsertChildParent 1 9; OpInsertChildParent 2 9]
  = Some (full_map_relation,
          [kMojoStatus_Ok; kMojoStatus_Ok; kMojoStatus_Ok; kMojoStatus_Ok;
           kMojoStatus_Ok; kMojoStatus_Ok; kMojoStatus_Ok; kMojoStatus_Ok;
           kMojoStatus_Ok; kMojoStatus_Ok; kMojoStatus_Ok]) /\
  exists r',
    MojoRelation.InsertChildParent 8 full_map_relation 3 7
    = Some (r', kMojoStatus_Ok) /\
    MojoMap.m_KeyValues (MojoRelation.m_ChildToParent r')
    = Some [mkKeyValue 3 7; mkKeyValue 1 9] /\
    MojoMultiMap.m_KeyValues (MojoRelation.m_ParentToChild r')
    = Some [mkKeyValue 0 0; mkKeyValue 9 1; mkKeyValue 9 2; mkKeyValue 7 3] /\
    MojoRelation.GetCount r' = 2 /\
    MojoMultiMap.GetCount (MojoRelation.m_ParentToChild r') = 3.
Proof.
  split; [vm_compute; reflexivity|].
  eexists. split; [vm_compute; reflexivity|].
  repeat (split; [vm_compute; reflexivity|]). vm_compute. reflexivity.
Qed.

(* ------------------------------------------------------------------------- *)
(** ** Lookups in a multimap *)

Section MultiMapLookups.
Context {key value : Type} `{MojoKey key} `{MojoValue value}.

Lemma hits_slot_at (hit : MojoKeyValue key value -> bool)
    (l : list (MojoKeyValue key value)) (i : Z) :
  0 <= i < Z.of_nat (length l) ->
  (hits hit l i <-> hit (slot_at l i) = true).
Proof.
  intros Hi. unfold hits. rewrite (zget_slot_at l i Hi). split.
  - intros [x [Hx Hh]]. injection Hx as <-. exact Hh.
  - intros Hh. exists (slot_at l i). auto.
Qed.

Lemma misses_slot_at (hit : MojoKeyValue key value -> bool)
    (l : list (MojoKeyValue key value)) (i : Z) :
  0 <= i < Z.of_nat (length l) ->
  (misses hit l i <-> hit (slot_at l i) = false).
Proof.
  intros Hi. unfold misses. rewrite (zget_slot_at l i Hi). split.
  - intros [x [Hx Hh]]. injection Hx as <-. exact Hh.
  - intros Hh. exists (slot_at l i). auto.
Qed.

(** A probe whose test accepts the empty slot stops, in a table that has an
    empty slot, at the first slot of its path that passes the test. *)
Lemma probe_first_hit (hit : MojoKeyValue key value -> bool)
    (l : list (MojoKeyValue key value)) (hash T : Z) :
  (forall kv, IsHashNull (kv_key kv) = true -> hit kv = true) ->
  0 < T <= Z.of_nat (length l) -> has_empty l T ->
  exists i, probe hit (Some l) hash T = Some i /\ 0 <= i < T /\
            hit (slot_at l i) = true /\
            forall y, 0 <= y < T ->
                      dist T (hash mod T) y < dist T (hash mod T) i ->
                      hit (slot_at l y) = false.
Proof.
  intros Hnull HT [e [He Hve]].
  destruct (probe_spec hit l hash T HT) as [r [Hr [Hrr [Hfirst | [_ Hnone]]]]].
  - exists r. split; [exact Hr|]. split; [exact Hrr|].
    assert (Hs : 0 <= hash mod T < T) by (apply Z.mod_pos_bound; lia).
    destruct (first_hit_by_dist hit l T (hash mod T) r Hs Hfirst)
      as [_ [Hhit Hmiss]].
    split; [apply hits_slot_at; [lia | exact Hhit]|].
    intros y Hy Hd. apply misses_slot_at; [lia|]. apply Hmiss; assumption.
  - exfalso. specialize (Hnone e He).
    apply misses_slot_at in Hnone; [|lia].
    rewrite (Hnull _ Hve) in Hnone. discriminate.
Qed.

Lemma hit_key_null (k : key) (kv : MojoKeyValue key value) :
  IsHashNull (kv_key kv) = true -> MojoMultiMap.hit_key k kv = true.
Proof. intros Hn. unfold MojoMultiMap.hit_key. rewrite Hn. reflexivity. Qed.

Lemma hit_pair_null (k : key) (v : value) (kv : MojoKeyValue key value) :
  IsHashNull (kv_key kv) = true -> MojoMultiMap.hit_pair k v kv = true.
Proof. intros Hn. unfold MojoMultiMap.hit_pair. rewrite Hn. reflexivity. Qed.

Lemma hit_key_occupied (l : list (MojoKeyValue key value)) (k : key)
    (i : Z) :
  occupied l i ->
  (MojoMultiMap.hit_key k (slot_at l i) = true <-> kv_key (slot_at l i) = k).
Proof.
  intros Ho. unfold MojoMultiMap.hit_key. unfold occupied in Ho. rewrite Ho.
  cbn [orb]. apply key_eqb_eq.
Qed.

Lemma hit_pair_occupied (l : list (MojoKeyValue key value)) (k : key)
    (v : value) (i : Z) :
  occupied l i ->
  (MojoMultiMap.hit_pair k v (slot_at l i) = true
   <-> slot_at l i = mkKeyValue k v).
Proof.
  intros Ho. unfold MojoMultiMap.hit_pair. unfold occupied in Ho. rewrite Ho.
  cbn [orb]. rewrite andb_true_iff, key_eqb_eq, value_eqb_eq.
  destruct (slot_at l i) as [k0 v0]. cbn [kv_key kv_value]. split.
  - intros [-> ->]. reflexivity.
  - intros E. injection E as -> ->. auto.
Qed.

Variable m : MojoMultiMap.t key value.
Variable l : list (MojoKeyValue key value).
Let T := MojoMultiMap.m_TableCount m.
Hypothesis Hok : table_ok m l.
Hypothesis Hinv : probe_invariant l T.
Hypothesis Hempty : has_empty l T.

(** The probe for a key stops at the first slot that holds the key, if there
    is one, and at an empty slot otherwise. *)
Lemma key_probe_spec (k : key) :
  exists i, MojoMultiMap.FindEmptyOrMatching m k = Some i /\ 0 <= i < T /\
            MojoMultiMap.kv_at m i = Some (slot_at l i) /\
            ((occupied l i /\ kv_key (slot_at l i) = k /\
              forall j, 0 <= j < T -> occupied l j ->
                        kv_key (slot_at l j) = k ->
                        dist T (GetHash k mod T) i
                        <= dist T (GetHash k mod T) j)
             \/ (vacant l i /\ ~ stored l T k)).
Proof.
  destruct Hok as [Hl HT]. fold T in HT.
  destruct (probe_first_hit (MojoMultiMap.hit_key k) l (GetHash k) T
              (hit_key_null k) HT Hempty) as [i [Hp [Hi [Hhit Hmiss]]]].
  exists i. unfold MojoMultiMap.FindEmptyOrMatching, MojoMultiMap.kv_at.
  rewrite Hl. fold T. split; [exact Hp|]. split; [exact Hi|].
  split; [apply zget_slot_at; lia|].
  assert (Hs : 0 <= GetHash k mod T < T) by (apply Z.mod_pos_bound; lia).
  destruct (occupied_or_vacant l i) as [Ho | Hv].
  - left. split; [exact Ho|]. split; [apply hit_key_occupied; assumption|].
    intros j Hj Hoj Hkj.
    destruct (Z_lt_ge_dec (dist T (GetHash k mod T) j)
                (dist T (GetHash k mod T) i)) as [Hlt|Hge]; [|lia].
    exfalso. specialize (Hmiss j Hj Hlt).
    apply (hit_key_occupied l k j Hoj) in Hkj. congruence.
  - right. split; [exact Hv|]. intros [j [Hj [Hoj Hkj]]].
    assert (Hhj : MojoMultiMap.hit_key k (slot_at l j) = true)
      by (apply hit_key_occupied; assumption).
    assert (Hle : dist T (GetHash k mod T) i <= dist T (GetHash k mod T) j).
    { destruct (Z_lt_ge_dec (dist T (GetHash k mod T) j)
                  (dist T (GetHash k mod T) i)) as [Hlt|Hge]; [|lia].
      specialize (Hmiss j Hj Hlt). congruence. }
    assert (Hij : i <> j).
    { intros ->. exact (occupied_not_vacant l j Hoj Hv). }
    assert (Hlt : dist T (GetHash k mod T) i < dist T (GetHash k mod T) j).
    { destruct (Z.eq_dec (dist T (GetHash k mod T) i)
                  (dist T (GetHash k mod T) j)) as [E|E]; [|lia].
      exfalso. apply Hij. apply (dist_inj T (GetHash k mod T) i j); auto. }
    pose proof (Hinv j Hj Hoj) as Hreach. unfold reachable, home in Hreach.
    rewrite Hkj in Hreach. specialize (Hreach i Hi Hlt).
    exact (occupied_not_vacant l i Hreach Hv).
Qed.

(** The probe for a pair stops at the slot that holds the pair, if there is
    one, and at an empty slot otherwise. *)
Lemma pair_probe_spec (k : key) (v : value) :
  exists i, MojoMultiMap.FindEmptyOrMatching2 m k v = Some i /\ 0 <= i < T /\
            MojoMultiMap.kv_at m i = Some (slot_at l i) /\
            (forall y, 0 <= y < T ->
                       dist T (GetHash k mod T) y < dist T (GetHash k mod T) i ->
                       occupied l y) /\
            ((occupied l i /\ slot_at l i = mkKeyValue k v)
             \/ (vacant l i /\ ~ holds l T (mkKeyValue k v))).
Proof.
  destruct Hok as [Hl HT]. fold T in HT.
  destruct (probe_first_hit (MojoMultiMap.hit_pair k v) l (GetHash k) T
              (hit_pair_null k v) HT Hempty) as [i [Hp [Hi [Hhit Hmiss]]]].
  exists i. unfold MojoMultiMap.FindEmptyOrMatching2, MojoMultiMap.kv_at.
  rewrite Hl. fold T. split; [exact Hp|]. split; [exact Hi|].
  split; [apply zget_slot_at; lia|].
  assert (Hs : 0 <= GetHash k mod T < T) by (apply Z.mod_pos_bound; lia).
  split.
  { intros y Hy Hd. specialize (Hmiss y Hy Hd).
    destruct (occupied_or_vacant l y) as [Ho | Hv]; [exact Ho|].
    rewrite (hit_pair_null k v _ Hv) in Hmiss. discriminate. }
  destruct (occupied_or_vacant l i) as [Ho | Hv].
  - left. split; [exact Ho|]. apply hit_pair_occupied; assumption.
  - right. split; [exact Hv|]. intros [j [Hj [Hoj Hkj]]].
    assert (Hhj : MojoMultiMap.hit_pair k v (slot_at l j) = true)
      by (apply hit_pair_occupied; assumption).
    assert (Hle : dist T (GetHash k mod T) i <= dist T (GetHash k mod T) j).
    { destruct (Z_lt_ge_dec (dist T (GetHash k mod T) j)
                  (dist T (GetHash k mod T) i)) as [Hlt|Hge]; [|lia].
      specialize (Hmiss j Hj Hlt). congruence. }
    assert (Hij : i <> j).
    { intros ->. exact (occupied_not_vacant l j Hoj Hv). }
    assert (Hlt : dist T (GetHash k mod T) i < dist T (GetHash k mod T) j).
    { destruct (Z.eq_dec (dist T (GetHash k mod T) i)
                  (dist T (GetHash k mod T) j)) as [E|E]; [|lia].
      exfalso. apply Hij. apply (dist_inj T (GetHash k mod T) i j); auto. }
    pose proof (Hinv j Hj Hoj) as Hreach. unfold reachable, home in Hreach.
    rewrite Hkj in Hreach. cbn [kv_key] in Hreach.
    specialize (Hreach i Hi Hlt).
    exact (occupied_not_vacant l i Hreach Hv).
Qed.

(** The slots that hold a key lie between the slot its probe stops at and
    the next empty slot. *)
Lemma key_slots_in_run (k : key) (a e : Z) :
  0 <= a < T -> 0 <= e < T -> occupied l a -> vacant l e ->
  (forall j, 0 <= j < T -> occupied l j -> kv_key (slot_at l j) = k ->
             dist T (GetHash k mod T) a <= dist T (GetHash k mod T) j) ->
  (forall y, 0 <= y < T -> dist T a y < dist T a e -> occupied l y) ->
  forall j, 0 <= j < T -> occupied l j -> kv_key (slot_at l j) = k ->
            dist T a j < dist T a e.
Proof.
  intros Ha He Hoa Hve Hfirst Hrun j Hj Hoj Hkj.
  assert (HT : 0 < T) by lia.
  assert (Hs : 0 <= GetHash k mod T < T) by (apply Z.mod_pos_bound; lia).
  destruct (Z_lt_ge_dec (dist T a j) (dist T a e)) as [Hlt|Hge];
    [exact Hlt|].
  exfalso. pose proof (Hfirst j Hj Hoj Hkj) as Hle.
  assert (Hje : j <> e).
  { intros ->. exact (occupied_not_vacant l e Hoj Hve). }
  assert (Hae : a <> e).
  { intros ->. exact (occupied_not_vacant l e Hoa Hve). }
  pose proof (Hinv j Hj Hoj) as Hreach. unfold reachable, home in Hreach.
  rewrite Hkj in Hreach.
  apply (occupied_not_vacant l e); [|exact Hve].
  apply Hreach; [exact He|]. cyc.
Qed.

End MultiMapLookups.

Section MultiMapQueries.
Context {key value : Type} `{MojoKey key} `{MojoValue value}.

(** The two outcomes of [Contains( key )] on a table that satisfies the
    probing invariant and has an empty slot. *)
Lemma Contains_cases (m : MojoMultiMap.t key value)
    (l : list (MojoKeyValue key value)) (k : key) :
  table_ok m l -> MojoMultiMap.m_Status m = kMojoStatus_Ok ->
  probe_invariant l (MojoMultiMap.m_TableCount m) ->
  has_empty l (MojoMultiMap.m_TableCount m) -> IsHashNull k = false ->
  (MojoMultiMap.Contains m k = Some true /\
   stored l (MojoMultiMap.m_TableCount m) k)
  \/ (MojoMultiMap.Contains m k = Some false /\
      ~ stored l (MojoMultiMap.m_TableCount m) k).
Proof.
  intros Hok Hst Hinv Hempty Hk.
  destruct (key_probe_spec m l Hok Hinv Hempty k)
    as [i [Hp [Hi [Hslot Hcase]]]].
  unfold MojoMultiMap.Contains.
  rewrite Hst, Hk, Hp, Hslot. cbn [is_ok negb andb].
  unfold MojoMultiMap.is_empty.
  destruct Hcase as [[Ho [Hki Hfirst]] | [Hv Hnot]].
  - left. unfold occupied in Ho. rewrite Ho.
    split; [reflexivity|]. exists i. auto.
  - right. unfold vacant in Hv. rewrite Hv. split; [reflexivity | exact Hnot].
Qed.

(** The two outcomes of [Contains( key, value )] on such a table. *)
Lemma Contains2_cases (m : MojoMultiMap.t key value)
    (l : list (MojoKeyValue key value)) (k : key) (v : value) :
  table_ok m l -> MojoMultiMap.m_Status m = kMojoStatus_Ok ->
  probe_invariant l (MojoMultiMap.m_TableCount m) ->
  has_empty l (MojoMultiMap.m_TableCount m) -> IsHashNull k = false ->
  (MojoMultiMap.Contains2 m k v = Some true /\
   holds l (MojoMultiMap.m_TableCount m) (mkKeyValue k v))
  \/ (MojoMultiMap.Contains2 m k v = Some false /\
      ~ holds l (MojoMultiMap.m_TableCount m) (mkKeyValue k v)).
Proof.
  intros Hok Hst Hinv Hempty Hk.
  destruct (pair_probe_spec m l Hok Hinv Hempty k v)
    as [i [Hp [Hi [Hslot [_ Hcase]]]]].
  unfold MojoMultiMap.Contains2.
  rewrite Hst, Hk, Hp, Hslot. cbn [is_ok negb andb].
  unfold MojoMultiMap.is_empty.
  destruct Hcase as [[Ho Hkv] | [Hv Hnot]].
  - left. unfold occupied in Ho. rewrite Ho.
    split; [reflexivity|]. exists i. auto.
  - right. unfold vacant in Hv. rewrite Hv. split; [reflexivity | exact Hnot].
Qed.

(** On a multimap whose status is ok and whose table satisfies the probing
    invariant and has an empty slot, [Contains( key )] answers true exactly
    for the keys that some slot of the table holds, and [Find( key )]
    answers the value of a pair of the key, or the not-found value when no
    slot holds the key. *)
Theorem Contains_and_Find_read_the_table (m : MojoMultiMap.t key value)
    (l : list (MojoKeyValue key value)) (k : key) :
  let T := MojoMultiMap.m_TableCount m in
  table_ok m l -> MojoMultiMap.m_Status m = kMojoStatus_Ok ->
  probe_invariant l T -> has_empty l T -> IsHashNull k = false ->
  exists b v,
    MojoMultiMap.Contains m k = Some b /\
    (b = true <-> stored l T k) /\
    MojoMultiMap.Find m k = Some v /\
    (stored l T k -> holds l T (mkKeyValue k v)) /\
    (~ stored l T k -> v = MojoMultiMap.m_NotFoundValue m).
Proof.
  intros T Hok Hst Hinv Hempty Hk.
  destruct (key_probe_spec m l Hok Hinv Hempty k)
    as [i [Hp [Hi [Hslot Hcase]]]].
  fold T in Hi, Hcase.
  unfold MojoMultiMap.Contains, MojoMultiMap.Find.
  rewrite Hst, Hk, Hp, Hslot. cbn [is_ok negb andb].
  unfold MojoMultiMap.is_empty.
  destruct Hcase as [[Ho [Hki Hfirst]] | [Hv Hnot]].
  - unfold occupied in Ho. rewrite Ho. cbn [negb].
    assert (Hstored : stored l T k) by (exists i; auto).
    exists true, (kv_value (slot_at l i)).
    split; [reflexivity|]. split; [tauto|]. split; [reflexivity|].
    split; [|tauto]. intros _. exists i. split; [exact Hi|].
    split; [exact Ho|]. rewrite <- Hki. destruct (slot_at l i). reflexivity.
  - unfold vacant in Hv. rewrite Hv. cbn [negb].
    exists false, (MojoMultiMap.m_NotFoundValue m).
    split; [reflexivity|]. split; [split; [discriminate | tauto]|].
    split; [reflexivity|]. split; [tauto | reflexivity].
Qed.

(** Under the same conditions [Contains( key, value )] answers true exactly
    for the pairs that some slot of the table holds. *)
Theorem Contains2_reads_the_table (m : MojoMultiMap.t key value)
    (l : list (MojoKeyValue key value)) (k : key) (v : value) :
  let T := MojoMultiMap.m_TableCount m in
  table_ok m l -> MojoMultiMap.m_Status m = kMojoStatus_Ok ->
  probe_invariant l T -> has_empty l T -> IsHashNull k = false ->
  exists b, MojoMultiMap.Contains2 m k v = Some b /\
            (b = true <-> holds l T (mkKeyValue k v)).
Proof.
  intros T Hok Hst Hinv Hempty Hk.
  destruct (pair_probe_spec m l Hok Hinv Hempty k v)
    as [i [Hp [Hi [Hslot [_ Hcase]]]]].
  fold T in Hi, Hcase.
  unfold MojoMultiMap.Contains2.
  rewrite Hst, Hk, Hp, Hslot. cbn [is_ok negb andb].
  unfold MojoMultiMap.is_empty.
  destruct Hcase as [[Ho Hkv] | [Hv Hnot]].
  - unfold occupied in Ho. rewrite Ho. exists true.
    split; [reflexivity|]. split; [intros _|reflexivity].
    exists i. auto.
  - unfold vacant in Hv. rewrite Hv. exists false.
    split; [reflexivity|]. split; [discriminate | tauto].
Qed.

End MultiMapQueries.

(** The queries on the multimap holding (1,11), (9,20) and (1,12), for
    key 9. *)
Lemma Contains_and_Find_read_the_table_witness :
  exists b v,
    MojoMultiMap.Contains interleaved 9 = Some b /\
    (b = true <-> stored interleaved_table 8 9) /\
    MojoMultiMap.Find interleaved 9 = Some v /\
    (stored interleaved_table 8 9 ->
     holds interleaved_table 8 (mkKeyValue 9 v)) /\
    (~ stored interleaved_table 8 9 ->
     v = MojoMultiMap.m_NotFoundValue interleaved).
Proof.
  apply (Contains_and_Find_read_the_table interleaved interleaved_table 9).
  - split; [reflexivity | simpl; lia].
  - reflexivity.
  - apply probe_invariantb_sound. vm_compute. reflexivity.
  - exists 0. split; [simpl; lia | reflexivity].
  - reflexivity.
Defined.

Lemma Contains2_reads_the_table_witness :
  exists b, MojoMultiMap.Contains2 interleaved 1 12 = Some b /\
            (b = true <-> holds interleaved_table 8 (mkKeyValue 1 12)).
Proof.
  apply (Contains2_reads_the_table interleaved interleaved_table 1 12).
  - split; [reflexivity | simpl; lia].
  - reflexivity.
  - apply probe_invariantb_sound. vm_compute. reflexivity.
  - exists 0. split; [simpl; lia | reflexivity].
  - reflexivity.
Defined.

(* ------------------------------------------------------------------------- *)
(** ** The values of a key *)

Section ValuesOfKey.
Context {key value : Type} `{MojoKey key} `{MojoValue value}.
Variable m : MojoMultiMap.t key value.
Variable l : list (MojoKeyValue key value).
Let T := MojoMultiMap.m_TableCount m.
Hypothesis Hok : table_ok m l.
Variable k : key.

(** One of the two loops of [_GetNextIndexOf], over the slots from [lo] up
    to [hi]. *)
Lemma next_of_scan (lo hi : Z) :
  0 <= lo -> hi <= T ->
  exists r,
    for_range lo hi (MojoMultiMap.next_of_body m k) tt = Some r /\
    match r with
    | Leave x =>
        exists j, lo <= j < hi /\
                  (forall y, lo <= y < j -> passes l k y) /\
                  ((vacant l j /\ x = T)
                   \/ (occupied l j /\ kv_key (slot_at l j) = k /\ x = j))
    | Next _ => forall y, lo <= y < hi -> passes l k y
    end.
Proof.
  intros Hlo Hhi. unfold for_range.
  destruct (for_up_total
              (fun (j : Z) (_ : unit) =>
                 forall y, lo <= y < j -> passes l k y)
              (fun x : Z =>
                 exists j, lo <= j < hi /\
                  (forall y, lo <= y < j -> passes l k y) /\
                  ((vacant l j /\ x = T)
                   \/ (occupied l j /\ kv_key (slot_at l j) = k /\ x = j)))
              (MojoMultiMap.next_of_body m k)
              (Z.to_nat (hi - lo)) lo tt) as [r [Hr Hres]].
  - intros y Hy. lia.
  - intros j [] Hj HP. unfold MojoMultiMap.next_of_body.
    rewrite (kv_at_table m l Hok) by (fold T; lia).
    unfold MojoMultiMap.is_empty.
    destruct (IsHashNull (kv_key (slot_at l j))) eqn:Hv.
    + eexists. split; [reflexivity|]. exists j.
      split; [lia|]. split; [exact HP|]. left. split; [exact Hv|reflexivity].
    + destruct (key_eqb (kv_key (slot_at l j)) k) eqn:Hk.
      * eexists. split; [reflexivity|]. exists j.
        split; [lia|]. split; [exact HP|]. right.
        split; [exact Hv|]. split; [apply key_eqb_eq; exact Hk | reflexivity].
      * eexists. split; [reflexivity|]. intros y Hy.
        destruct (Z.eq_dec y j) as [->|Hne]; [|apply HP; lia].
        split; [exact Hv|]. intros E. apply key_eqb_eq in E. congruence.
  - exists r. split; [exact Hr|]. destruct r as [[]|x].
    + intros y Hy. apply Hres. lia.
    + exact Hres.
Qed.

Hypothesis Hstatus : MojoMultiMap.m_Status m = kMojoStatus_Ok.
Hypothesis Hk : IsHashNull k = false.

(** From a slot of a run that ends at the empty slot [e], [_GetNextIndexOf]
    answers the next slot of the run that holds the key, and the table
    count when there is none before [e]. *)
Lemma GetNextIndexOf_spec (i e : Z) :
  0 <= i < T -> 0 <= e < T -> vacant l e -> i <> e ->
  (forall y, 0 <= y < T -> dist T i y < dist T i e -> occupied l y) ->
  exists r,
    MojoMultiMap._GetNextIndexOf m k i = Some r /\
    ((r = T /\
      forall y, 0 <= y < T -> 0 < dist T i y < dist T i e ->
                kv_key (slot_at l y) <> k)
     \/ (0 <= r < T /\ 0 < dist T i r < dist T i e /\
         kv_key (slot_at l r) = k /\
         forall y, 0 <= y < T -> 0 < dist T i y < dist T i r ->
                   kv_key (slot_at l y) <> k)).
Proof.
  intros Hi He Hve Hie Hrun.
  unfold MojoMultiMap._GetNextIndexOf. rewrite Hstatus, Hk.
  cbn [is_ok negb andb]. fold T.
  destruct (next_of_scan (i + 1) T) as [r1 [Hr1 Hres1]]; try lia.
  rewrite Hr1. destruct r1 as [[]|x].
  - destruct (next_of_scan 0 i) as [r2 [Hr2 Hres2]]; try lia.
    rewrite Hr2. destruct r2 as [[]|x].
    + exfalso. assert (He' : i + 1 <= e < T \/ 0 <= e < i) by lia.
      destruct He' as [He'|He'].
      * destruct (Hres1 e He') as [Ho _].
        exact (occupied_not_vacant l e Ho Hve).
      * destruct (Hres2 e He') as [Ho _].
        exact (occupied_not_vacant l e Ho Hve).
    + destruct Hres2 as [j [Hj [Hpass Hstop]]].
      assert (Hje : dist T i j <= dist T i e).
      { destruct (Z_lt_ge_dec (dist T i e) (dist T i j)) as [Hlt|Hge]; [|lia].
        exfalso. assert (He' : i + 1 <= e < T \/ 0 <= e < j) by cyc.
        destruct He' as [He'|He'].
        - destruct (Hres1 e He') as [Ho _].
          exact (occupied_not_vacant l e Ho Hve).
        - destruct (Hpass e He') as [Ho _].
          exact (occupied_not_vacant l e Ho Hve). }
      assert (Hbefore : forall y, 0 <= y < T -> 0 < dist T i y < dist T i j ->
                                  kv_key (slot_at l y) <> k).
      { intros y Hy Hd. assert (Hy' : i + 1 <= y < T \/ 0 <= y < j) by cyc.
        destruct Hy' as [Hy'|Hy'].
        - apply (Hres1 y Hy').
        - apply (Hpass y Hy'). }
      destruct Hstop as [[Hvj ->] | [Hoj [Hkj ->]]].
      * exists T. split; [reflexivity|]. left. split; [reflexivity|].
        assert (Heq : dist T i j = dist T i e).
        { destruct (Z.eq_dec (dist T i j) (dist T i e)) as [E|E]; [exact E|].
          exfalso. apply (occupied_not_vacant l j); [|exact Hvj].
          apply Hrun; lia. }
        intros y Hy Hd. apply Hbefore; [exact Hy | lia].
      * exists j. split; [reflexivity|]. right.
        assert (Hne : j <> e).
        { intros ->. exact (occupied_not_vacant l e Hoj Hve). }
        assert (Hlt : dist T i j <> dist T i e).
        { intros E. apply Hne. apply (dist_inj T i j e); auto; lia. }
        split; [lia|]. split; [cyc|]. split; [exact Hkj | exact Hbefore].
  - destruct Hres1 as [j [Hj [Hpass Hstop]]].
    assert (Hje : dist T i j <= dist T i e).
    { destruct (Z_lt_ge_dec (dist T i e) (dist T i j)) as [Hlt|Hge]; [|lia].
      exfalso. assert (He' : i + 1 <= e < j) by cyc.
      destruct (Hpass e He') as [Ho _].
      exact (occupied_not_vacant l e Ho Hve). }
    assert (Hbefore : forall y, 0 <= y < T -> 0 < dist T i y < dist T i j ->
                                kv_key (slot_at l y) <> k).
    { intros y Hy Hd. assert (Hy' : i + 1 <= y < j) by cyc.
      apply (Hpass y Hy'). }
    destruct Hstop as [[Hvj ->] | [Hoj [Hkj ->]]].
    + exists T. split; [reflexivity|]. left. split; [reflexivity|].
      assert (Heq : dist T i j = dist T i e).
      { destruct (Z.eq_dec (dist T i j) (dist T i e)) as [E|E]; [exact E|].
        exfalso. apply (occupied_not_vacant l j); [|exact Hvj].
        apply Hrun; lia. }
      intros y Hy Hd. apply Hbefore; [exact Hy | lia].
    + exists j. split; [reflexivity|]. right.
      assert (Hne : j <> e).
      { intros ->. exact (occupied_not_vacant l e Hoj Hve). }
      assert (Hlt : dist T i j <> dist T i e).
      { intros E. apply Hne. apply (dist_inj T i j e); auto; lia. }
      split; [lia|]. split; [cyc|]. split; [exact Hkj | exact Hbefore].
Qed.

End ValuesOfKey.

Section ValuesOfKeyLoop.
Context {key value : Type} `{MojoKey key} `{MojoValue value}.
Variable m : MojoMultiMap.t key value.
Variable l : list (MojoKeyValue key value).
Let T := MojoMultiMap.m_TableCount m.
Hypothesis Hok : table_ok m l.
Hypothesis Hstatus : MojoMultiMap.m_Status m = kMojoStatus_Ok.
Variable k : key.
Hypothesis Hk : IsHashNull k = false.
Variables a e : Z.
Hypothesis Ha : 0 <= a < T.
Hypothesis He : 0 <= e < T.
Hypothesis Hve : vacant l e.
Hypothesis Hrun :
  forall y, 0 <= y < T -> dist T a y < dist T a e -> occupied l y.
Hypothesis Hin_run :
  forall j, 0 <= j < T -> occupied l j -> kv_key (slot_at l j) = k ->
            dist T a j < dist T a e.

(** The loop of [MojoForEachMultiValue] from a slot of the run of [a]
    visits the slots of the key from there to the end of the run. *)
Lemma each_value_loop_spec :
  forall (n turns : nat) (i : Z) (visited : list (Z * value)),
    i = T \/ (0 <= i < T /\ occupied l i /\ kv_key (slot_at l i) = k /\
              dist T a e - dist T a i <= Z.of_nat n) ->
    (n < turns)%nat ->
    exists vs,
      each_value_loop turns m k i visited = Some (visited ++ vs) /\
      NoDup (map fst vs) /\
      forall j v, In (j, v) vs <->
                  (i <> T /\ 0 <= j < T /\ occupied l j /\
                   kv_key (slot_at l j) = k /\
                   dist T a i <= dist T a j /\ v = kv_value (slot_at l j)).
Proof.
  induction n as [|n IH]; intros turns i visited Hcase Hturns.
  - destruct Hcase as [-> | [Hi [Ho [Hki Hn]]]].
    + exists []. split; [|split; [constructor|]].
      * destruct turns; cbn [each_value_loop];
          unfold MojoMultiMap._IsIndexValidOf, MojoMultiMap._IsIndexValid;
          fold T; rewrite Z.ltb_irrefl, andb_false_r, app_nil_r; reflexivity.
      * intros j v. split; [intros [] | intros [Hne _]; congruence].
    + exfalso. specialize (Hin_run i Hi Ho Hki). lia.
  - destruct Hcase as [-> | [Hi [Ho [Hki Hn]]]].
    { apply IH; [left; reflexivity | lia]. }
    destruct turns as [|turns]; [lia|].
    cbn [each_value_loop].
    unfold MojoMultiMap._IsIndexValidOf, MojoMultiMap._IsIndexValid.
    fold T. rewrite Hstatus.
    destruct (Z.ltb_spec i T) as [Hlt|Hge]; [|lia]. cbn [is_ok andb].
    unfold MojoMultiMap._GetValueAt.
    rewrite (kv_at_table m l Hok) by (fold T; lia). cbn [option_map].
    pose proof (Hin_run i Hi Ho Hki) as Hie.
    assert (Hne : i <> e).
    { intros ->. exact (occupied_not_vacant l e Ho Hve). }
    destruct (GetNextIndexOf_spec m l Hok k Hstatus Hk i e) as [r [Hr Hnext]];
      auto.
    { intros y Hy Hd. apply Hrun; [exact Hy|]. cyc. }
    fold T in Hnext. rewrite Hr.
    destruct Hnext as [[-> Hnone] | [Hrr [Hdr [Hkr Hnone]]]].
    + destruct (IH turns T (visited ++ [(i, kv_value (slot_at l i))]))
        as [vs [Hloop [_ Hvs]]]; [left; reflexivity | lia |].
      assert (Hnil : vs = []).
      { destruct vs as [|[j v] vs]; [reflexivity|]. exfalso.
        destruct (proj1 (Hvs j v)) as [Hbad _]; [left; reflexivity|].
        congruence. }
      subst vs. rewrite app_nil_r in Hloop.
      exists [(i, kv_value (slot_at l i))]. split; [exact Hloop|].
      split; [repeat constructor; intros []|].
      intros j v. split.
      * intros [E|[]]. injection E as <- <-.
        split; [lia|]. split; [lia|]. split; [exact Ho|].
        split; [exact Hki|]. split; [lia | reflexivity].
      * intros [_ [Hj [Hoj [Hkj [Hd ->]]]]]. left.
        destruct (Z.eq_dec i j) as [->|Hij]; [reflexivity|]. exfalso.
        pose proof (Hin_run j Hj Hoj Hkj) as Hje.
        apply (Hnone j Hj); [|exact Hkj]. cyc.
    + assert (Hor : occupied l r).
      { apply Hrun; [lia|]. cyc. }
      destruct (IH turns r (visited ++ [(i, kv_value (slot_at l i))]))
        as [vs [Hloop [Hnd Hvs]]]; [|lia|].
      { right. split; [lia|]. split; [exact Hor|]. split; [exact Hkr|]. cyc. }
      exists ((i, kv_value (slot_at l i)) :: vs).
      split; [rewrite Hloop, <- app_assoc; reflexivity|]. split.
      * cbn [map fst]. constructor; [|exact Hnd]. intros Hbad.
        apply in_map_iff in Hbad. destruct Hbad as [[j v] [Hfst Hjv]].
        cbn [fst] in Hfst. subst j. apply Hvs in Hjv.
        destruct Hjv as [_ [_ [_ [_ [Hd _]]]]]. cyc.
      * intros j v. split.
        -- intros [E|Hjv].
           ++ injection E as <- <-.
              split; [lia|]. split; [lia|]. split; [exact Ho|].
              split; [exact Hki|]. split; [lia | reflexivity].
           ++ apply Hvs in Hjv.
              destruct Hjv as [_ [Hj [Hoj [Hkj [Hd ->]]]]].
              split; [lia|]. split; [exact Hj|]. split; [exact Hoj|].
              split; [exact Hkj|]. split; [cyc | reflexivity].
        -- intros [_ [Hj [Hoj [Hkj [Hd ->]]]]].
           destruct (Z.eq_dec i j) as [->|Hij]; [left; reflexivity|].
           right. apply Hvs. split; [lia|]. split; [exact Hj|].
           split; [exact Hoj|]. split; [exact Hkj|]. split; [|reflexivity].
           pose proof (Hin_run j Hj Hoj Hkj) as Hje.
           destruct (Z_lt_ge_dec (dist T i j) (dist T i r)) as [Hc|Hc].
           ++ exfalso. apply (Hnone j Hj); [|exact Hkj]. cyc.
           ++ cyc.
Qed.

End ValuesOfKeyLoop.

Section ValuesOfKeyTheorem.
Context {key value : Type} `{MojoKey key} `{MojoValue value}.

(** On a multimap whose status is ok and whose table satisfies the probing
    invariant and has an empty slot, the loop of [MojoForEachMultiValue]
    over a key visits exactly the slots that hold the key, each once, and
    reads the value of each. *)
Theorem MojoForEachMultiValue_visits_the_key (m : MojoMultiMap.t key value)
    (l : list (MojoKeyValue key value)) (k : key) :
  let T := MojoMultiMap.m_TableCount m in
  table_ok m l -> MojoMultiMap.m_Status m = kMojoStatus_Ok ->
  probe_invariant l T -> has_empty l T -> IsHashNull k = false ->
  exists visits,
    MojoForEachMultiValue m k = Some visits /\
    NoDup (map fst visits) /\
    forall i v, In (i, v) visits <->
                (0 <= i < T /\ occupied l i /\ slot_at l i = mkKeyValue k v).
Proof.
  intros T Hok Hst Hinv Hempty Hk.
  assert (HT : 0 < T) by (unfold T; destruct Hok; lia).
  assert (Hs : 0 <= GetHash k mod T < T) by (apply Z.mod_pos_bound; lia).
  destruct (key_probe_spec m l Hok Hinv Hempty k)
    as [a [Hp [Ha [Hslot Hcase]]]].
  fold T in Ha, Hcase.
  unfold MojoForEachMultiValue, MojoMultiMap._GetFirstIndexOf.
  rewrite Hst, Hk, Hp, Hslot. cbn [is_ok negb andb].
  unfold MojoMultiMap.is_empty. fold T.
  assert (Hpair : forall i v,
             (occupied l i /\ slot_at l i = mkKeyValue k v)
             <-> (occupied l i /\ kv_key (slot_at l i) = k /\
                  v = kv_value (slot_at l i))).
  { intros i v. destruct (slot_at l i) as [k0 v0] eqn:E.
    cbn [kv_key kv_value]. split.
    - intros [Ho Hkv]. injection Hkv as -> ->. auto.
    - intros [Ho [-> ->]]. auto. }
  destruct Hcase as [[Ho [Hka Hfirst]] | [Hv Hnot]].
  - unfold occupied in Ho. rewrite Ho. cbn [negb].
    destruct (first_vacant_after l T a Ha Hempty) as [e [He [Hve Hrun]]].
    pose proof (key_slots_in_run m l Hinv k a e Ha He Ho Hve Hfirst Hrun)
      as Hin_run.
    destruct (each_value_loop_spec m l Hok Hst k Hk a e Ha He Hve Hrun Hin_run
                (Z.to_nat T) (Z.to_nat T + 1)%nat a [])
      as [vs [Hloop [Hnd Hvs]]].
    + right. split; [exact Ha|]. split; [exact Ho|]. split; [exact Hka|].
      fold T. pose proof (dist_range T a e Ha He). rewrite (dist_self T a Ha).
      lia.
    + lia.
    + cbn [app] in Hloop. fold T in Hloop, Hvs. exists vs.
      split; [exact Hloop|]. split; [exact Hnd|].
      intros i v. rewrite Hvs. split.
      * intros [_ [Hi [Hoi [Hki [_ Hval]]]]]. split; [exact Hi|].
        apply Hpair. auto.
      * intros [Hi Hrest]. apply Hpair in Hrest.
        destruct Hrest as [Hoi [Hki Hval]].
        split; [lia|]. split; [exact Hi|]. split; [exact Hoi|].
        split; [exact Hki|]. split; [|exact Hval].
        rewrite (dist_self T a Ha). pose proof (dist_range T a i Ha Hi). lia.
  - unfold vacant in Hv. rewrite Hv. cbn [negb]. exists [].
    split.
    { destruct (Z.to_nat T + 1)%nat; cbn [each_value_loop];
        unfold MojoMultiMap._IsIndexValidOf, MojoMultiMap._IsIndexValid;
        fold T; rewrite Z.ltb_irrefl, andb_false_r; reflexivity. }
    split; [constructor|]. intros i v. split; [intros []|].
    intros [Hi [Hoi Hkv]]. apply Hnot. exists i. split; [exact Hi|].
    split; [exact Hoi|]. rewrite Hkv. reflexivity.
Qed.

End ValuesOfKeyTheorem.

(** The values of key 1 in the multimap holding (1,11), (9,20) and (1,12):
    slots 1 and 3, past the pair of key 9 that sits between them. *)
Lemma MojoForEachMultiValue_visits_the_key_witness :
  exists visits,
    MojoForEachMultiValue interleaved 1 = Some visits /\
    NoDup (map fst visits) /\
    forall i v, In (i, v) visits <->
                (0 <= i < 8 /\ occupied interleaved_table i /\
                 slot_at interleaved_table i = mkKeyValue 1 v).
Proof.
  apply (MojoForEachMultiValue_visits_the_key interleaved interleaved_table 1).
  - split; [reflexivity | simpl; lia].
  - reflexivity.
  - apply probe_invariantb_sound. vm_compute. reflexivity.
  - exists 0. split; [simpl; lia | reflexivity].
  - reflexivity.
Defined.

(* ------------------------------------------------------------------------- *)
(** ** What a removal leaves in a multimap *)

Lemma for_up_keeps_in {St} (P : St -> Prop)
    (body : Z -> St -> option (step St St)) :
  forall (n : nat) (i : Z) (s : St) (res : step St St),
    (forall j s1 r, i <= j < i + Z.of_nat n -> P s1 ->
                    body j s1 = Some r -> P (loop_end r)) ->
    P s -> for_up n i body s = Some res -> P (loop_end res).
Proof.
  induction n as [|n IH]; intros i s res Hbody HP Hrun;
    cbn [for_up] in Hrun.
  - injection Hrun as <-. exact HP.
  - destruct (body i s) as [[s'|r]|] eqn:Hb; try discriminate.
    + apply (IH (i + 1) s'); [| |exact Hrun].
      * intros j s1 r Hj. apply Hbody. lia.
      * apply (Hbody i s (Next s')); [lia | exact HP | exact Hb].
    + injection Hrun as <-. apply (Hbody i s (Leave r)); [lia | exact HP|].
      exact Hb.
Qed.

Section MultiMapContents.
Context {key value : Type} `{MojoKey key} `{MojoValue value}.

Lemma retable_inj (m : MojoMultiMap.t key value)
    (l l' : list (MojoKeyValue key value)) (n n' : Z) :
  retable m l n = retable m l' n' -> l = l' /\ n = n'.
Proof.
  unfold retable, MojoMultiMap.set_ActiveCount, MojoMultiMap.set_KeyValues.
  cbn. intros E. injection E as -> ->. auto.
Qed.

Lemma same_pairs_refl (l : list (MojoKeyValue key value)) (T : Z) :
  same_pairs l l T.
Proof. intros kv. reflexivity. Qed.

Lemma same_pairs_trans (l1 l2 l3 : list (MojoKeyValue key value)) (T : Z) :
  same_pairs l1 l2 T -> same_pairs l2 l3 T -> same_pairs l1 l3 T.
Proof. intros H12 H23 kv. rewrite (H23 kv). apply H12. Qed.

(** Moving the pair of slot [j] to a slot that is empty or holds the same
    pair keeps the pairs of the table, and leaves slot [j] empty. *)
Lemma move_same_pairs (l : list (MojoKeyValue key value)) (T j p : Z) :
  T <= Z.of_nat (length l) -> 0 <= j < T -> 0 <= p < T -> p <> j ->
  occupied l j ->
  MojoMultiMap.hit_pair (kv_key (slot_at l j)) (kv_value (slot_at l j))
    (slot_at l p) = true ->
  same_pairs l
    (list_set (list_set l (Z.to_nat p) (slot_at l j)) (Z.to_nat j)
       KeyValue_default) T
  /\ vacant (list_set (list_set l (Z.to_nat p) (slot_at l j)) (Z.to_nat j)
               KeyValue_default) j.
Proof.
  intros HT Hj Hp Hpj Hoj Hhit.
  set (l' := list_set (list_set l (Z.to_nat p) (slot_at l j)) (Z.to_nat j)
               KeyValue_default).
  assert (Hslot : forall x, 0 <= x < T ->
            slot_at l' x = if x =? j then KeyValue_default
                           else if x =? p then slot_at l j else slot_at l x).
  { intros x Hx. apply (slot_at_move T); assumption. }
  assert (Hpsame : occupied l p -> slot_at l p = slot_at l j).
  { intros Hop. apply (hit_pair_occupied l _ _ p Hop) in Hhit.
    rewrite Hhit. destruct (slot_at l j). reflexivity. }
  split.
  - intros kv. split.
    + intros [x [Hx [Hox Hkv]]]. unfold occupied in Hox.
      rewrite (Hslot x Hx) in Hox, Hkv.
      destruct (Z.eqb_spec x j) as [->|Hxj].
      { rewrite default_is_vacant in Hox. discriminate. }
      destruct (Z.eqb_spec x p) as [->|Hxp].
      * exists j. auto.
      * exists x. auto.
    + intros [x [Hx [Hox Hkv]]].
      destruct (Z.eq_dec x j) as [->|Hxj].
      * exists p. split; [exact Hp|]. unfold occupied.
        rewrite (Hslot p Hp).
        destruct (Z.eqb_spec p j) as [E|_]; [contradiction|].
        rewrite Z.eqb_refl. auto.
      * destruct (Z.eq_dec x p) as [->|Hxp].
        -- exists p. split; [exact Hp|]. unfold occupied.
           rewrite (Hslot p Hp).
           destruct (Z.eqb_spec p j) as [E|_]; [contradiction|].
           rewrite Z.eqb_refl. split; [exact Hoj|].
           rewrite <- Hkv. symmetry. apply Hpsame. exact Hox.
        -- exists x. split; [exact Hx|]. unfold occupied.
           rewrite (Hslot x Hx).
           destruct (Z.eqb_spec x j) as [E|_]; [contradiction|].
           destruct (Z.eqb_spec x p) as [E|_]; [contradiction|]. auto.
  - unfold vacant. rewrite (Hslot j Hj), Z.eqb_refl. apply default_is_vacant.
Qed.

(** [Reinsert] of an occupied slot keeps the pairs of the table and does not
    use up its last empty slot. *)
Lemma Reinsert_same_pairs (m : MojoMultiMap.t key value)
    (l : list (MojoKeyValue key value)) (n j : Z) :
  let T := MojoMultiMap.m_TableCount m in
  0 < T <= Z.of_nat (length l) -> 0 <= j < T -> occupied l j ->
  exists l', MojoMultiMap.Reinsert (retable m l n) j = Some (retable m l' n) /\
             length l' = length l /\ same_pairs l l' T /\
             (has_empty l T -> has_empty l' T).
Proof.
  intros T HT Hj Hoj.
  destruct (Reinsert_retable m l n j HT Hj) as [p [Hp [Hhit [_ [_ Hre]]]]].
  fold T in Hp. apply hits_slot_at in Hhit; [|lia].
  destruct (Z.eqb_spec p j) as [->|Hpj].
  - exists l. split; [exact Hre|]. split; [reflexivity|].
    split; [apply same_pairs_refl | auto].
  - eexists. split; [exact Hre|].
    split; [rewrite !list_set_length; reflexivity|].
    destruct (move_same_pairs l T j p (proj2 HT) Hj Hp Hpj Hoj Hhit)
      as [Hsame Hvac].
    split; [exact Hsame|]. intros _. exists j. auto.
Qed.

Section FixUpContents.
Variable m0 : MojoMultiMap.t key value.
Variable n1 : Z.
Variable l0 : list (MojoKeyValue key value).
Let T := MojoMultiMap.m_TableCount m0.
Hypothesis HT : 0 < T <= Z.of_nat (length l0).

Lemma FixUp_body_keeps (j : Z) (sc : MojoMultiMap.t key value * Z) r :
  0 <= j < T -> FixUp_keeps m0 n1 l0 sc ->
  MojoMultiMap.FixUp_body j sc = Some r ->
  FixUp_keeps m0 n1 l0 (loop_end r).
Proof.
  intros Hj [l' [Hs [Hlen [Hsame Hempty]]]] Hb.
  destruct sc as [s cnt]. cbn [fst] in Hs. subst s.
  unfold MojoMultiMap.FixUp_body in Hb.
  destruct (cnt =? 0).
  { injection Hb as <-. exists l'. auto. }
  rewrite kv_at_retable in Hb by lia.
  unfold MojoMultiMap.is_empty in Hb.
  destruct (IsHashNull (kv_key (slot_at l' j))) eqn:Hv; cbn [negb] in Hb.
  { injection Hb as <-. exists l'. auto. }
  destruct (Reinsert_same_pairs m0 l' n1 j) as [l2 [Hre [Hl2 [Hs2 He2]]]];
    [fold T; lia | exact Hj | exact Hv |].
  rewrite Hre in Hb. injection Hb as <-. exists l2.
  split; [reflexivity|]. split; [lia|].
  split; [exact (same_pairs_trans _ _ _ _ Hsame Hs2) | auto].
Qed.

(** [FixUp] keeps the pairs of the table. *)
Lemma FixUp_same_pairs (a c : Z) (s' : MojoMultiMap.t key value) :
  0 <= a < T -> has_empty l0 T ->
  MojoMultiMap.FixUp (retable m0 l0 n1) a c = Some s' ->
  exists l2, s' = retable m0 l2 n1 /\ length l2 = length l0 /\
             same_pairs l0 l2 T /\ has_empty l2 T.
Proof.
  intros Ha Hempty Hfix. unfold MojoMultiMap.FixUp in Hfix.
  cbn [MojoMultiMap.m_TableCount retable MojoMultiMap.set_ActiveCount
       MojoMultiMap.set_KeyValues] in Hfix. fold T in Hfix.
  assert (Hstart : FixUp_keeps m0 n1 l0 (retable m0 l0 n1, c)).
  { exists l0. split; [reflexivity|]. split; [reflexivity|].
    split; [apply same_pairs_refl | exact Hempty]. }
  unfold for_range in Hfix.
  destruct (for_up (Z.to_nat (T - (a + 1))) (a + 1) MojoMultiMap.FixUp_body
              (retable m0 l0 n1, c)) as [r1|] eqn:Hr1; [|discriminate].
  assert (H1 : FixUp_keeps m0 n1 l0 (loop_end r1)).
  { apply (for_up_keeps_in (FixUp_keeps m0 n1 l0) MojoMultiMap.FixUp_body
             (Z.to_nat (T - (a + 1))) (a + 1) (retable m0 l0 n1, c) r1);
      [|exact Hstart | exact Hr1].
    intros j s1 r Hj Hs1 Hb.
    apply (FixUp_body_keeps j s1 r); [lia | exact Hs1 | exact Hb]. }
  destruct r1 as [sc1|sc1]; cbn [loop_end] in H1.
  - destruct (for_up (Z.to_nat (a - 0)) 0 MojoMultiMap.FixUp_body sc1)
      as [r2|] eqn:Hr2; [|discriminate].
    injection Hfix as <-.
    assert (H2 : FixUp_keeps m0 n1 l0 (loop_end r2)).
    { apply (for_up_keeps_in (FixUp_keeps m0 n1 l0) MojoMultiMap.FixUp_body
               (Z.to_nat (a - 0)) 0 sc1 r2); [|exact H1 | exact Hr2].
      intros j s1 r Hj Hs1 Hb.
      apply (FixUp_body_keeps j s1 r); [lia | exact Hs1 | exact Hb]. }
    destruct H2 as [l2 [Hs Hrest]]. exists l2. auto.
  - injection Hfix as <-. destruct H1 as [l2 [Hs Hrest]]. exists l2. auto.
Qed.

End FixUpContents.

Section ClearRunExact.
Variable m0 : MojoMultiMap.t key value.
Variable doomed : MojoKeyValue key value -> bool.
Variable l : list (MojoKeyValue key value).
Variables a e c n0 : Z.
Let T := MojoMultiMap.m_TableCount m0.
Hypothesis HT : 0 < T <= Z.of_nat (length l).
Hypothesis Ha : 0 <= a < T.
Hypothesis He : 0 <= e < T.
Hypothesis Hc : c = dist T a e.
Hypothesis Hve : vacant l e.
Hypothesis Hrun :
  forall y, 0 <= y < T -> dist T a y < c -> occupied l y.

Lemma clear_run_exact :
  forall (k turns : nat) (l' : list (MojoKeyValue key value)) (n cnt i : Z),
    Z.of_nat k = c - cnt -> 0 <= cnt -> 0 <= i < T -> dist T a i = cnt ->
    c - cnt <= Z.of_nat turns ->
    cleared_upto doomed l T a n0 l' n cnt ->
    exists l1 n',
      MojoMultiMap.clear_run turns doomed (retable m0 l' n) cnt i
      = Some (retable m0 l1 n', c) /\
      cleared_upto doomed l T a n0 l1 n' c.
Proof.
  induction k as [|k IH];
    intros turns l' n cnt i Hk Hcnt Hi Hd Hturns Hcl.
  - assert (Hcc : cnt = c) by lia.
    assert (Hie : i = e).
    { apply (dist_inj T a i e Ha Hi He). lia. }
    subst i. rewrite <- Hcc.
    exists l', n. split; [|exact Hcl].
    destruct Hcl as [Hlen [Hslots _]].
    assert (Hv : IsHashNull (kv_key (slot_at l' e)) = true).
    { rewrite (Hslots e He).
      destruct (Z.ltb_spec (dist T a e) cnt) as [Hlt|Hge]; [lia|].
      cbn [andb]. exact Hve. }
    destruct turns; cbn [MojoMultiMap.clear_run];
      rewrite kv_at_retable by lia; unfold MojoMultiMap.is_empty;
      rewrite Hv; reflexivity.
  - destruct Hcl as [Hlen [Hslots [Hle Hlt]]].
    assert (Hsi : slot_at l' i = slot_at l i).
    { rewrite (Hslots i Hi).
      destruct (Z.ltb_spec (dist T a i) cnt) as [Hlt'|Hge]; [lia|].
      reflexivity. }
    assert (Ho : IsHashNull (kv_key (slot_at l' i)) = false).
    { rewrite Hsi. apply Hrun; auto. lia. }
    destruct turns as [|turns]; [lia|].
    cbn [MojoMultiMap.clear_run].
    rewrite kv_at_retable by lia. unfold MojoMultiMap.is_empty. rewrite Ho.
    assert (Hnext : 0 <= (i + 1) mod T < T /\
                    dist T a ((i + 1) mod T) = cnt + 1).
    { assert (Hm : 0 <= (i + 1) mod T < T) by (apply Z.mod_pos_bound; lia).
      split; [exact Hm|].
      pose proof (dist_range T a e Ha He).
      destruct (Z_lt_ge_dec (i + 1) T).
      - rewrite Z.mod_small in * by lia. cyc.
      - rewrite mod_wrap in * by lia. cyc. }
    destruct Hnext as [Hi' Hd'].
    assert (Hstep : forall j, 0 <= j < T ->
              (dist T a j <? cnt + 1)
              = (dist T a j <? cnt) || (j =? i)).
    { intros j Hj.
      destruct (Z.ltb_spec (dist T a j) (cnt + 1));
        destruct (Z.ltb_spec (dist T a j) cnt);
        destruct (Z.eqb_spec j i) as [->|Hji]; cbn [orb]; try reflexivity;
        try lia.
      exfalso. apply Hji. apply (dist_inj T a j i Ha Hj Hi). lia. }
    rewrite Hsi. destruct (doomed (slot_at l i)) eqn:Hdoom.
    + rewrite store_retable by lia.
      cbn [MojoMultiMap.m_ActiveCount MojoMultiMap.m_TableCount retable
           MojoMultiMap.set_ActiveCount MojoMultiMap.set_KeyValues].
      fold T.
      change (MojoMultiMap.mk (MojoMultiMap.m_Alloc m0)
                (Some (list_set l' (Z.to_nat i) KeyValue_default))
                (MojoMultiMap.m_NotFoundValue m0) (n - 1)
                (MojoMultiMap.m_AllocCount m0) (MojoMultiMap.m_TableCount m0)
                (MojoMultiMap.m_ChangeCount m0) (MojoMultiMap.m_Status m0)
                (MojoMultiMap.m_AllocCountMin m0)
                (MojoMultiMap.m_TableCountMin m0)
                (MojoMultiMap.m_GrowThreshold m0)
                (MojoMultiMap.m_ShrinkThreshold m0)
                (MojoMultiMap.m_AutoGrow m0) (MojoMultiMap.m_AutoShrink m0)
                (MojoMultiMap.m_DynamicAlloc m0))
        with (retable m0 (list_set l' (Z.to_nat i) KeyValue_default) (n - 1)).
      apply IH; auto; try lia.
      split; [rewrite list_set_length; exact Hlen|]. split; [|split; [lia|]].
      * intros j Hj. rewrite (Hstep j Hj).
        destruct (Z.eqb_spec j i) as [->|Hji].
        -- rewrite orb_true_r, Hdoom. cbn [andb].
           apply slot_at_set_same. lia.
        -- rewrite orb_false_r, slot_at_set_other by lia. apply Hslots.
           exact Hj.
      * split; [intros _|lia]. exists i. split; [exact Hi|].
        split; [lia | exact Hdoom].
    + cbn [MojoMultiMap.m_TableCount retable MojoMultiMap.set_ActiveCount
           MojoMultiMap.set_KeyValues]. fold T.
      apply IH; auto; try lia.
      split; [exact Hlen|]. split; [|split; [exact Hle|]].
      * intros j Hj. rewrite (Hstep j Hj).
        destruct (Z.eqb_spec j i) as [->|Hji].
        -- rewrite orb_true_r, Hdoom. cbn [andb]. exact Hsi.
        -- rewrite orb_false_r. apply Hslots. exact Hj.
      * rewrite Hlt. split.
        -- intros [j [Hj [Hdj Hdoomj]]]. exists j.
           split; [exact Hj|]. split; [lia | exact Hdoomj].
        -- intros [j [Hj [Hdj Hdoomj]]]. exists j.
           split; [exact Hj|]. split; [|exact Hdoomj].
           destruct (Z.eq_dec j i) as [->|Hji]; [congruence|].
           assert (dist T a j <> dist T a i).
           { intros E. apply Hji. apply (dist_inj T a j i Ha Hj Hi E). }
           lia.
Qed.

End ClearRunExact.

(** Clearing part of the run of slot [index] and fixing up what follows:
    the pairs left are those that were not cleared, and the table keeps the
    probing invariant and an empty slot. *)
Lemma clear_and_fix_exact (m : MojoMultiMap.t key value)
    (l : list (MojoKeyValue key value))
    (doomed : MojoKeyValue key value -> bool) (index : Z) :
  let T := MojoMultiMap.m_TableCount m in
  let n := MojoMultiMap.m_ActiveCount m in
  table_ok m l -> probe_invariant l T -> has_empty l T ->
  0 <= index < T -> occupied l index ->
  exists e l2 n2,
    0 <= e < T /\ vacant l e /\
    (forall y, 0 <= y < T -> dist T index y < dist T index e ->
               occupied l y) /\
    ('(s1, count) <- MojoMultiMap.clear_run (MojoMultiMap.run_turns m)
                       doomed m 0 index ;;
     MojoMultiMap.FixUp s1 index count)
    = Some (retable m l2 n2) /\
    length l2 = length l /\ probe_invariant l2 T /\ has_empty l2 T /\
    n2 <= n /\
    (n2 < n <-> exists j, 0 <= j < T /\ dist T index j < dist T index e /\
                          doomed (slot_at l j) = true) /\
    forall kv, holds l2 T kv <->
               exists j, 0 <= j < T /\ occupied l j /\ slot_at l j = kv /\
                         (dist T index j <? dist T index e) && doomed kv
                         = false.
Proof.
  intros T n [Hl HT] Hinv Hempty Hi Hocc. fold T in HT.
  destruct (first_vacant_after l T index Hi Hempty) as [e [He [Hve Hrun]]].
  set (c := dist T index e).
  pose proof (dist_range T index e Hi He) as Hcr. fold c in Hcr.
  destruct (clear_run_exact m doomed l index e c n HT Hi He eq_refl Hve Hrun
              (Z.to_nat c) (MojoMultiMap.run_turns m) l n 0 index)
    as [l1 [n1 [Hclear [Hlen [Hslots [Hle Hlt]]]]]]; try lia.
  - apply dist_self. exact Hi.
  - unfold MojoMultiMap.run_turns. fold T. lia.
  - split; [reflexivity|]. split; [|split; [lia|]].
    + intros j Hj. fold T in Hj |- *.
      pose proof (dist_range T index j Hi Hj).
      destruct (Z.ltb_spec (dist T index j) 0); [lia | reflexivity].
    + split; [lia|]. intros [j [Hj [Hd _]]]. fold T in Hj, Hd.
      pose proof (dist_range T index j Hi Hj). lia.
  - fold T in Hslots, Hlt. unfold n in Hclear.
    rewrite (retable_id m l Hl) in Hclear.
    assert (Hcl : cleared_in_run l l1 T index c).
    { split; [exact Hlen|]. intros j Hj. rewrite (Hslots j Hj).
      destruct (Z.ltb_spec (dist T index j) c); cbn [andb]; [|left; auto].
      destruct (doomed (slot_at l j)); [right; auto | left; auto]. }
    destruct (FixUp_restores m index e c n1 (length l) HT Hi He eq_refl l1
                Hlen) as [l2 [Hfix [Hlen2 Hinv2]]].
    { apply (fixing_start T index e c (proj1 HT) Hi He eq_refl l l1 Hinv Hve).
      exact Hcl. }
    assert (Hve1 : vacant l1 e).
    { unfold vacant. rewrite (Hslots e He).
      destruct (Z.ltb_spec (dist T index e) c); [lia|]. exact Hve. }
    destruct (FixUp_same_pairs m n1 l1 ltac:(fold T; lia) index c _
                ltac:(exact Hi) ltac:(exists e; auto) Hfix)
      as [l2' [Heq [_ [Hsame Hempty2]]]].
    apply retable_inj in Heq. destruct Heq as [<- _].
    exists e, l2, n1. split; [exact He|]. split; [exact Hve|].
    split; [exact Hrun|]. split; [rewrite Hclear; exact Hfix|].
    split; [lia|]. split; [exact Hinv2|]. split; [exact Hempty2|].
    split; [exact Hle|]. split; [exact Hlt|].
    intros kv. pose proof (Hsame kv) as Hkv2. fold T in Hkv2.
    rewrite Hkv2. clear Hkv2. split.
    + intros [j [Hj [Hoj Hkv]]]. exists j. split; [exact Hj|].
      unfold occupied in Hoj. rewrite (Hslots j Hj) in Hoj, Hkv. fold c.
      destruct ((dist T index j <? c) && doomed (slot_at l j)) eqn:E.
      * rewrite default_is_vacant in Hoj. discriminate.
      * split; [exact Hoj|]. split; [exact Hkv|]. rewrite <- Hkv. exact E.
    + intros [j [Hj [Hoj [Hkv E]]]]. exists j. split; [exact Hj|].
      fold c in E. rewrite <- Hkv in E.
      unfold occupied. rewrite (Hslots j Hj), E. auto.
Qed.

Lemma stored_key_not_null (l : list (MojoKeyValue key value)) (T : Z)
    (k : key) :
  stored l T k -> IsHashNull k = false.
Proof. intros [i [_ [Ho Hk]]]. rewrite <- Hk. exact Ho. Qed.

Lemma holds_key_stored (l : list (MojoKeyValue key value)) (T : Z)
    (kv : MojoKeyValue key value) :
  holds l T kv -> stored l T (kv_key kv).
Proof.
  intros [i [Hi [Ho Hkv]]]. exists i. rewrite <- Hkv. auto.
Qed.

(** [RemoveAll] clears every pair of the key and no other pair. *)
Lemma RemoveAll_exact (m : MojoMultiMap.t key value)
    (l : list (MojoKeyValue key value)) (k : key) :
  let T := MojoMultiMap.m_TableCount m in
  table_ok m l -> probe_invariant l T -> has_empty l T ->
  exists removed l' n',
    MojoMultiMap.RemoveAll m k = Some (retable m l' n', removed) /\
    length l' = length l /\ probe_invariant l' T /\ has_empty l' T /\
    (removed = true <-> stored l T k) /\
    (~ stored l T k -> retable m l' n' = m) /\
    forall kv, holds l' T kv <-> (holds l T kv /\ kv_key kv <> k).
Proof.
  intros T Hok Hinv Hempty. unfold MojoMultiMap.RemoveAll.
  assert (Hsame : ~ stored l T k ->
            exists removed l' n',
              Some (m, MojoMultiMap.m_ActiveCount m
                       <? MojoMultiMap.m_ActiveCount m)
              = Some (retable m l' n', removed) /\
              length l' = length l /\ probe_invariant l' T /\
              has_empty l' T /\ (removed = true <-> stored l T k) /\
              (~ stored l T k -> retable m l' n' = m) /\
              forall kv, holds l' T kv <-> (holds l T kv /\ kv_key kv <> k)).
  { intros Hnot. exists false, l, (MojoMultiMap.m_ActiveCount m).
    rewrite (retable_id m l (proj1 Hok)), Z.ltb_irrefl.
    split; [reflexivity|]. split; [reflexivity|]. split; [exact Hinv|].
    split; [exact Hempty|]. split; [split; [discriminate | tauto]|].
    split; [reflexivity|]. intros kv. split; [|tauto].
    intros Hh. split; [exact Hh|]. intros <-. apply Hnot.
    apply holds_key_stored. exact Hh. }
  destruct (IsHashNull k) eqn:Hk; cbn [negb].
  { apply Hsame. intros Hst. apply stored_key_not_null in Hst. congruence. }
  destruct (key_probe_spec m l Hok Hinv Hempty k)
    as [i [Hp [Hi [Hslot Hcase]]]].
  fold T in Hi, Hcase. rewrite Hp, Hslot. unfold MojoMultiMap.is_empty.
  destruct Hcase as [[Ho [Hki Hfirst]] | [Hv Hnot]].
  2:{ unfold vacant in Hv. rewrite Hv. cbn [negb]. apply Hsame. exact Hnot. }
  unfold occupied in Ho. rewrite Ho. cbn [negb].
  destruct (clear_and_fix_exact m l (fun slot => key_eqb (kv_key slot) k) i
              Hok Hinv Hempty Hi Ho)
    as [e [l2 [n2 [He [Hve [Hrun [Hcomp [Hlen [Hinv2 [Hem2 [Hle [Hlt Hkv]]]]]]]]]]]].
  fold T in He, Hrun, Hinv2, Hem2, Hlt, Hkv. rewrite Hcomp.
  assert (Hstored : stored l T k) by (exists i; auto).
  assert (Hie : i <> e).
  { intros ->. exact (occupied_not_vacant l e Ho Hve). }
  pose proof (key_slots_in_run m l Hinv k i e Hi He Ho Hve Hfirst Hrun)
    as Hin_run.
  fold T in Hin_run.
  eexists. exists l2, n2. split; [reflexivity|]. split; [exact Hlen|].
  split; [exact Hinv2|]. split; [exact Hem2|]. split; [|split; [tauto|]].
  - cbn [MojoMultiMap.m_ActiveCount retable MojoMultiMap.set_ActiveCount
         MojoMultiMap.set_KeyValues].
    split; [intros _; exact Hstored|]. intros _. apply Z.ltb_lt.
    apply Hlt. exists i. split; [exact Hi|].
    split; [apply Hin_run; auto|]. rewrite Hki. apply key_eqb_refl.
  - intros kv. rewrite Hkv. split.
    + intros [j [Hj [Hoj [Hs E]]]]. split; [exists j; auto|].
      intros Hkk. rewrite <- Hs in Hkk.
      pose proof (Hin_run j Hj Hoj Hkk) as Hd. rewrite <- Hs in E.
      rewrite Hkk, key_eqb_refl, andb_true_r in E.
      apply Z.ltb_ge in E. lia.
    + intros [[j [Hj [Hoj Hs]]] Hne]. exists j. split; [exact Hj|].
      split; [exact Hoj|]. split; [exact Hs|].
      destruct (key_eqb (kv_key kv) k) eqn:E; [|apply andb_false_r].
      apply key_eqb_eq in E. contradiction.
Qed.

(** [RemoveOne] clears the pair and no other pair. *)
Lemma RemoveOne_exact (m : MojoMultiMap.t key value)
    (l : list (MojoKeyValue key value)) (k : key) (v : value) :
  let T := MojoMultiMap.m_TableCount m in
  table_ok m l -> probe_invariant l T -> has_empty l T ->
  value_IsHashNull v = false ->
  exists removed l' n',
    MojoMultiMap.RemoveOne m k v = Some (retable m l' n', removed) /\
    length l' = length l /\ probe_invariant l' T /\ has_empty l' T /\
    (removed = true <-> holds l T (mkKeyValue k v)) /\
    forall kv, holds l' T kv <-> (holds l T kv /\ kv <> mkKeyValue k v).
Proof.
  intros T Hok Hinv Hempty Hvn. unfold MojoMultiMap.RemoveOne.
  assert (Hsame : ~ stored l T k ->
            exists removed l' n',
              Some (m, MojoMultiMap.m_ActiveCount m
                       <? MojoMultiMap.m_ActiveCount m)
              = Some (retable m l' n', removed) /\
              length l' = length l /\ probe_invariant l' T /\
              has_empty l' T /\
              (removed = true <-> holds l T (mkKeyValue k v)) /\
              forall kv, holds l' T kv
                         <-> (holds l T kv /\ kv <> mkKeyValue k v)).
  { intros Hnot. exists false, l, (MojoMultiMap.m_ActiveCount m).
    rewrite (retable_id m l (proj1 Hok)), Z.ltb_irrefl.
    split; [reflexivity|]. split; [reflexivity|]. split; [exact Hinv|].
    split; [exact Hempty|]. split.
    - split; [discriminate|]. intros Hh. exfalso. apply Hnot.
      apply holds_key_stored in Hh. exact Hh.
    - intros kv. split; [|tauto].
      intros Hh. split; [exact Hh|]. intros ->. apply Hnot.
      apply holds_key_stored in Hh. exact Hh. }
  rewrite Hvn. destruct (IsHashNull k) eqn:Hk; cbn [negb andb].
  { apply Hsame. intros Hst. apply stored_key_not_null in Hst. congruence. }
  destruct (key_probe_spec m l Hok Hinv Hempty k)
    as [i [Hp [Hi [Hslot Hcase]]]].
  fold T in Hi, Hcase. rewrite Hp, Hslot. unfold MojoMultiMap.is_empty.
  destruct Hcase as [[Ho [Hki Hfirst]] | [Hv Hnot]].
  2:{ unfold vacant in Hv. rewrite Hv. cbn [negb]. apply Hsame. exact Hnot. }
  unfold occupied in Ho. rewrite Ho. cbn [negb].
  destruct (clear_and_fix_exact m l
              (fun slot => key_eqb (kv_key slot) k
                           && value_eqb (kv_value slot) v) i
              Hok Hinv Hempty Hi Ho)
    as [e [l2 [n2 [He [Hve [Hrun [Hcomp [Hlen [Hinv2 [Hem2 [Hle [Hlt Hkv]]]]]]]]]]]].
  fold T in He, Hrun, Hinv2, Hem2, Hlt, Hkv. rewrite Hcomp.
  pose proof (key_slots_in_run m l Hinv k i e Hi He Ho Hve Hfirst Hrun)
    as Hin_run.
  fold T in Hin_run.
  assert (Hdoom : forall kv : MojoKeyValue key value,
            key_eqb (kv_key kv) k && value_eqb (kv_value kv) v = true
            <-> kv = mkKeyValue k v).
  { intros [k0 v0]. cbn [kv_key kv_value].
    rewrite andb_true_iff, key_eqb_eq, value_eqb_eq. split.
    - intros [-> ->]. reflexivity.
    - intros E. injection E as -> ->. auto. }
  eexists. exists l2, n2. split; [reflexivity|]. split; [exact Hlen|].
  split; [exact Hinv2|]. split; [exact Hem2|]. split.
  - cbn [MojoMultiMap.m_ActiveCount retable MojoMultiMap.set_ActiveCount
         MojoMultiMap.set_KeyValues].
    rewrite Z.ltb_lt, Hlt. split.
    + intros [j [Hj [Hd Hdj]]]. apply Hdoom in Hdj. exists j.
      split; [exact Hj|]. split; [|exact Hdj].
      unfold occupied. rewrite Hdj. exact Hk.
    + intros [j [Hj [Hoj Hs]]]. exists j. split; [exact Hj|].
      split; [|apply Hdoom; exact Hs].
      apply Hin_run; auto. rewrite Hs. reflexivity.
  - intros kv. rewrite Hkv. split.
    + intros [j [Hj [Hoj [Hs E]]]]. split; [exists j; auto|].
      intros Hkk. rewrite Hkk in Hs, E.
      assert (Hd : dist T i j < dist T i e).
      { apply Hin_run; auto. rewrite Hs. reflexivity. }
      cbn [kv_key kv_value] in E.
      rewrite key_eqb_refl in E.
      rewrite (proj2 (value_eqb_eq v v) eq_refl), andb_true_r in E.
      apply Z.ltb_ge in E. lia.
    + intros [[j [Hj [Hoj Hs]]] Hne]. exists j. split; [exact Hj|].
      split; [exact Hoj|]. split; [exact Hs|].
      destruct (key_eqb (kv_key kv) k && value_eqb (kv_value kv) v) eqn:E;
        [|apply andb_false_r].
      apply Hdoom in E. contradiction.
Qed.

End MultiMapContents.

Section MultiMapUpdates.
Context {key value : Type} `{MojoKey key} `{MojoValue value}.

(** Two multimaps whose tables store the same keys, up to key [k0], answer
    [Contains] alike on the other keys. *)
Lemma Contains_follows_stored (m m' : MojoMultiMap.t key value)
    (l l' : list (MojoKeyValue key value)) (k : key) :
  table_ok m l -> table_ok m' l' ->
  MojoMultiMap.m_Status m = kMojoStatus_Ok ->
  MojoMultiMap.m_Status m' = kMojoStatus_Ok ->
  probe_invariant l (MojoMultiMap.m_TableCount m) ->
  probe_invariant l' (MojoMultiMap.m_TableCount m') ->
  has_empty l (MojoMultiMap.m_TableCount m) ->
  has_empty l' (MojoMultiMap.m_TableCount m') ->
  (stored l' (MojoMultiMap.m_TableCount m') k
   <-> stored l (MojoMultiMap.m_TableCount m) k) ->
  MojoMultiMap.Contains m' k = MojoMultiMap.Contains m k.
Proof.
  intros Hok Hok' Hst Hst' Hinv Hinv' Hem Hem' Hiff.
  destruct (IsHashNull k) eqn:Hk.
  { unfold MojoMultiMap.Contains. rewrite Hst, Hst', Hk. reflexivity. }
  destruct (Contains_cases m l k Hok Hst Hinv Hem Hk) as [[-> Hs] | [-> Hs]];
    destruct (Contains_cases m' l' k Hok' Hst' Hinv' Hem' Hk)
      as [[-> Hs'] | [-> Hs']];
    try reflexivity; exfalso; tauto.
Qed.

Lemma Contains2_follows_holds (m m' : MojoMultiMap.t key value)
    (l l' : list (MojoKeyValue key value)) (k : key) (v : value) :
  table_ok m l -> table_ok m' l' ->
  MojoMultiMap.m_Status m = kMojoStatus_Ok ->
  MojoMultiMap.m_Status m' = kMojoStatus_Ok ->
  probe_invariant l (MojoMultiMap.m_TableCount m) ->
  probe_invariant l' (MojoMultiMap.m_TableCount m') ->
  has_empty l (MojoMultiMap.m_TableCount m) ->
  has_empty l' (MojoMultiMap.m_TableCount m') ->
  (holds l' (MojoMultiMap.m_TableCount m') (mkKeyValue k v)
   <-> holds l (MojoMultiMap.m_TableCount m) (mkKeyValue k v)) ->
  MojoMultiMap.Contains2 m' k v = MojoMultiMap.Contains2 m k v.
Proof.
  intros Hok Hok' Hst Hst' Hinv Hinv' Hem Hem' Hiff.
  destruct (IsHashNull k) eqn:Hk.
  { unfold MojoMultiMap.Contains2. rewrite Hst, Hst', Hk. reflexivity. }
  destruct (Contains2_cases m l k v Hok Hst Hinv Hem Hk)
    as [[-> Hs] | [-> Hs]];
    destruct (Contains2_cases m' l' k v Hok' Hst' Hinv' Hem' Hk)
      as [[-> Hs'] | [-> Hs']];
    try reflexivity; exfalso; tauto.
Qed.

Lemma stored_iff_holds (l : list (MojoKeyValue key value)) (T : Z)
    (k : key) :
  stored l T k <-> exists v, holds l T (mkKeyValue k v).
Proof.
  split.
  - intros [i [Hi [Ho Hk]]]. exists (kv_value (slot_at l i)), i.
    split; [exact Hi|]. split; [exact Ho|]. rewrite <- Hk.
    destruct (slot_at l i). reflexivity.
  - intros [v Hh]. apply holds_key_stored in Hh. exact Hh.
Qed.

(** [Remove( key )] on a multimap whose status is ok, whose table satisfies
    the probing invariant and has an empty slot, and which does not shrink
    by itself: the call returns ok when the key was stored and not-found,
    with the multimap as it was, when it was not; afterwards the table
    holds the pairs of the other keys and no pair of the key, it still
    satisfies the probing invariant, [Contains] answers false for the key
    and as before for every other key. *)
Theorem Remove_removes_the_key (depth : nat) (m : MojoMultiMap.t key value)
    (l : list (MojoKeyValue key value)) (k : key) :
  let T := MojoMultiMap.m_TableCount m in
  table_ok m l -> MojoMultiMap.m_Status m = kMojoStatus_Ok ->
  probe_invariant l T -> has_empty l T ->
  MojoMultiMap.m_AutoShrink m = false ->
  exists m' st l',
    MojoMultiMap.Remove depth m k = Some (m', st) /\
    (st = kMojoStatus_Ok <-> stored l T k) /\
    (~ stored l T k -> st = kMojoStatus_NotFound /\ m' = m) /\
    table_ok m' l' /\ MojoMultiMap.m_TableCount m' = T /\
    probe_invariant l' T /\ has_empty l' T /\
    (forall kv, holds l' T kv <-> (holds l T kv /\ kv_key kv <> k)) /\
    MojoMultiMap.Contains m' k = Some false /\
    (forall k', k' <> k ->
                MojoMultiMap.Contains m' k' = MojoMultiMap.Contains m k').
Proof.
  intros T Hok Hst Hinv Hempty Hshrink.
  assert (Hfinish : forall m' st l',
            MojoMultiMap.Remove depth m k = Some (m', st) ->
            (st = kMojoStatus_Ok <-> stored l T k) ->
            (~ stored l T k -> st = kMojoStatus_NotFound /\ m' = m) ->
            table_ok m' l' -> MojoMultiMap.m_TableCount m' = T ->
            MojoMultiMap.m_Status m' = kMojoStatus_Ok ->
            probe_invariant l' T -> has_empty l' T ->
            (forall kv, holds l' T kv <-> (holds l T kv /\ kv_key kv <> k)) ->
            exists m' st l',
              MojoMultiMap.Remove depth m k = Some (m', st) /\
              (st = kMojoStatus_Ok <-> stored l T k) /\
              (~ stored l T k -> st = kMojoStatus_NotFound /\ m' = m) /\
              table_ok m' l' /\ MojoMultiMap.m_TableCount m' = T /\
              probe_invariant l' T /\ has_empty l' T /\
              (forall kv, holds l' T kv <-> (holds l T kv /\ kv_key kv <> k)) /\
              MojoMultiMap.Contains m' k = Some false /\
              (forall k', k' <> k ->
                 MojoMultiMap.Contains m' k' = MojoMultiMap.Contains m k')).
  { intros m' st l' Hrun Hok_iff Hnf Hok' HT' Hst' Hinv' Hem' Hkv.
    exists m', st, l'. split; [exact Hrun|]. split; [exact Hok_iff|].
    split; [exact Hnf|]. split; [exact Hok'|]. split; [exact HT'|].
    split; [exact Hinv'|]. split; [exact Hem'|]. split; [exact Hkv|].
    assert (Hstored' : forall k', stored l' T k'
                                  <-> (stored l T k' /\ k' <> k)).
    { intros k'. rewrite !stored_iff_holds. split.
      - intros [v Hh]. apply Hkv in Hh. destruct Hh as [Hh Hne].
        split; [exists v; exact Hh | exact Hne].
      - intros [[v Hh] Hne]. exists v. apply Hkv. auto. }
    split.
    - destruct (IsHashNull k) eqn:Hk.
      { unfold MojoMultiMap.Contains. rewrite Hst', Hk. reflexivity. }
      rewrite <- HT' in Hinv', Hem'.
      destruct (Contains_cases m' l' k Hok' Hst' Hinv' Hem' Hk)
        as [[_ Hs] | [-> _]]; [|reflexivity].
      exfalso. rewrite HT' in Hs. apply Hstored' in Hs. tauto.
    - intros k' Hne.
      apply (Contains_follows_stored m m' l l' k'); auto;
        try (rewrite HT'; assumption).
      rewrite HT'. fold T. rewrite Hstored'. tauto. }
  destruct (IsHashNull k) eqn:Hk.
  { assert (Hnot : ~ stored l T k).
    { intros Hs. apply stored_key_not_null in Hs. congruence. }
    apply (Hfinish m kMojoStatus_NotFound l);
      [ unfold MojoMultiMap.Remove; rewrite Hst, Hk; reflexivity
      | split; [discriminate | tauto]
      | intros _; split; reflexivity
      | exact Hok | reflexivity | exact Hst | exact Hinv | exact Hempty |].
    intros kv. split; [|tauto]. intros Hh. split; [exact Hh|].
    intros <-. apply Hnot. apply holds_key_stored. exact Hh. }
  destruct (RemoveAll_exact m l k Hok Hinv Hempty)
    as [removed [l2 [n2 [Hrm [Hlen [Hinv2 [Hem2 [Hrem [Hsame Hkv]]]]]]]]].
  fold T in Hinv2, Hem2, Hrem, Hsame, Hkv.
  assert (Hrun0 : MojoMultiMap.Remove depth m k
                  = '(s1, removed) <- MojoMultiMap.RemoveAll m k ;;
                    if removed then
                      s3 <- MojoMultiMap.AutoShrink depth
                              (MojoMultiMap.set_ChangeCount s1
                                 (MojoMultiMap.m_ChangeCount s1 + 1)) ;;
                      Some (s3, kMojoStatus_Ok)
                    else Some (s1, kMojoStatus_NotFound)).
  { unfold MojoMultiMap.Remove. rewrite Hst, Hk. reflexivity. }
  rewrite Hrm in Hrun0.
  pose proof (table_ok_retable m l l2 n2 Hok Hlen) as Hok2.
  destruct removed.
  - rewrite AutoShrink_off in Hrun0 by exact Hshrink.
    apply (Hfinish _ kMojoStatus_Ok l2 Hrun0);
      [ split; [intros _; tauto | reflexivity]
      | intros Hnot; exfalso; apply Hnot; tauto
      | destruct Hok2 as [Hl2 HT2]; split; [exact Hl2 | exact HT2]
      | reflexivity | exact Hst | exact Hinv2 | exact Hem2 | exact Hkv ].
  - assert (Hnot : ~ stored l T k).
    { intros Hs. apply Hrem in Hs. discriminate. }
    apply (Hfinish _ kMojoStatus_NotFound l2 Hrun0);
      [ split; [discriminate | tauto]
      | intros _; split; [reflexivity | apply Hsame; exact Hnot]
      | exact Hok2
      | reflexivity | exact Hst | exact Hinv2 | exact Hem2 | exact Hkv ].
Qed.


End MultiMapUpdates.

Section MultiMapInsert.
Context {key value : Type} `{MojoKey key} `{MojoValue value}.


End MultiMapInsert.


(** [Remove( 1 )] on the steady multimap. *)
Lemma Remove_removes_the_key_witness :
  exists m' st l',
    MojoMultiMap.Remove 1 steady_multimap 1 = Some (m', st) /\
    (st = kMojoStatus_Ok <-> stored interleaved_table 8 1) /\
    (~ stored interleaved_table 8 1 ->
     st = kMojoStatus_NotFound /\ m' = steady_multimap) /\
    table_ok m' l' /\ MojoMultiMap.m_TableCount m' = 8 /\
    probe_invariant l' 8 /\ has_empty l' 8 /\
    (forall kv, holds l' 8 kv
                <-> (holds interleaved_table 8 kv /\ kv_key kv <> 1)) /\
    MojoMultiMap.Contains m' 1 = Some false /\
    (forall k', k' <> 1 ->
                MojoMultiMap.Contains m' k'
                = MojoMultiMap.Contains steady_multimap k').
Proof.
  apply (Remove_removes_the_key 1 steady_multimap interleaved_table 1).
  - split; [reflexivity | simpl; lia].
  - reflexivity.
  - apply probe_invariantb_sound. vm_compute. reflexivity.
  - exists 0. split; [simpl; lia | reflexivity].
  - reflexivity.
Defined.


(* ------------------------------------------------------------------------- *)
(** ** Creation of a multimap *)

Section MultiMapCreate.
Context {key value : Type} `{MojoKey key} `{MojoValue value}.

Lemma slot_at_repeat (n : nat) (i : Z) :
  slot_at (repeat (@KeyValue_default key value _ _) n) i = KeyValue_default.
Proof.
  unfold slot_at. generalize (Z.to_nat i). intros j. revert j.
  induction n as [|n IH]; intros [|j]; cbn; auto.
Qed.

(** [Create] on a multimap that was never created, with a configuration it
    accepts, no fixed array and an allocator that hands out the buffer:
    the call returns ok and leaves an empty multimap, with a table of
    [cfg_TableCountMin] empty slots in a buffer of the larger of the two
    minimum counts; no key is contained and the table satisfies the probing
    invariant. *)
Theorem Create_gives_an_empty_multimap (depth : nat)
    (s : MojoMultiMap.t key value) (not_found_value : value)
    (config : MojoConfig) (alloc : MojoAlloc) :
  MojoMultiMap.m_Status s = kMojoStatus_NotInitialized ->
  1 < cfg_AllocCountMin config -> 1 < cfg_TableCountMin config ->
  cfg_ShrinkThreshold config * 2 < cfg_GrowThreshold config ->
  fst (Allocate alloc) = true ->
  exists m' l',
    MojoMultiMap.Create depth s not_found_value config alloc None 0
    = Some (m', kMojoStatus_Ok) /\
    MojoMultiMap.GetStatus m' = kMojoStatus_Ok /\
    table_ok m' l' /\
    MojoMultiMap.m_TableCount m' = cfg_TableCountMin config /\
    Z.of_nat (length l')
    = MojoMax (cfg_AllocCountMin config) (cfg_TableCountMin config) /\
    MojoMultiMap.GetCount m' = 0 /\
    (forall i, vacant l' i) /\
    probe_invariant l' (MojoMultiMap.m_TableCount m') /\
    has_empty l' (MojoMultiMap.m_TableCount m') /\
    (forall k, MojoMultiMap.Contains m' k = Some false) /\
    (forall k, MojoMultiMap.Find m' k = Some not_found_value).
Proof.
  intros Hst Ha Ht Hg Halloc.
  set (cap := MojoMax (cfg_AllocCountMin config) (cfg_TableCountMin config)).
  assert (Hcap : cfg_TableCountMin config <= cap /\ 1 < cap).
  { unfold cap, MojoMax.
    destruct (Z.ltb_spec (cfg_AllocCountMin config)
                (cfg_TableCountMin config)); lia. }
  set (l' := repeat (@KeyValue_default key value _ _) (Z.to_nat cap)).
  assert (Hlen : Z.of_nat (length l') = cap).
  { unfold l'. rewrite repeat_length. lia. }
  assert (Hvac : forall i, vacant l' i).
  { intros i. unfold vacant, l'. rewrite slot_at_repeat.
    apply default_is_vacant. }
  destruct (Allocate alloc) as [reply rest] eqn:Hal. cbn [fst] in Halloc.
  subst reply.
  set (m' := MojoMultiMap.mk (Some rest) (Some l') not_found_value 0 cap
               (cfg_TableCountMin config) (MojoMultiMap.m_ChangeCount s)
               kMojoStatus_Ok (cfg_AllocCountMin config)
               (cfg_TableCountMin config) (cfg_GrowThreshold config)
               (cfg_ShrinkThreshold config) (cfg_AutoGrow config)
               (cfg_AutoShrink config) (cfg_DynamicAlloc config && true)).
  assert (Hrun : MojoMultiMap.Create depth s not_found_value config alloc
                   None 0 = Some (m', kMojoStatus_Ok)).
  { unfold MojoMultiMap.Create. rewrite Hst. cbn [MojoStatus_eqb negb].
    destruct (Z.leb_spec (cfg_AllocCountMin config) 1); [lia|].
    destruct (Z.leb_spec (cfg_TableCountMin config) 1); [lia|].
    destruct (Z.leb_spec (cfg_GrowThreshold config)
                (cfg_ShrinkThreshold config * 2)); [lia|].
    cbn [orb]. cbn [MojoMultiMap.m_KeyValues].
    unfold MojoMultiMap.Resize, MojoMultiMap.Resize_with.
    cbn [MojoMultiMap.m_Alloc MojoMultiMap.m_AllocCount
         MojoMultiMap.m_AllocCountMin MojoMultiMap.m_TableCountMin
         MojoMultiMap.m_KeyValues].
    fold cap.
    destruct (Z.eqb_spec 0 cap) as [E|_]; [lia|]. cbn [negb].
    destruct (Z.eqb_spec cap 0) as [E|_]; [lia|]. cbn [negb].
    rewrite Hal. reflexivity. }
  assert (Hok : table_ok m' l').
  { split; [reflexivity|]. cbn [m' MojoMultiMap.m_TableCount]. lia. }
  exists m', l'. split; [exact Hrun|]. split; [reflexivity|].
  split; [exact Hok|]. split; [reflexivity|]. split; [exact Hlen|].
  split; [reflexivity|]. split; [exact Hvac|].
  assert (Hinv : probe_invariant l' (MojoMultiMap.m_TableCount m')).
  { intros j Hj Ho. exfalso. exact (occupied_not_vacant l' j Ho (Hvac j)). }
  assert (Hem : has_empty l' (MojoMultiMap.m_TableCount m')).
  { exists 0. split; [cbn [m' MojoMultiMap.m_TableCount]; lia | apply Hvac]. }
  split; [exact Hinv|]. split; [exact Hem|].
  assert (Hnone : forall k, ~ stored l' (MojoMultiMap.m_TableCount m') k).
  { intros k [i [_ [Ho _]]]. exact (occupied_not_vacant l' i Ho (Hvac i)). }
  split.
  - intros k. destruct (IsHashNull k) eqn:Hk.
    { unfold MojoMultiMap.Contains. rewrite Hk, andb_false_r. reflexivity. }
    destruct (Contains_cases m' l' k Hok eq_refl Hinv Hem Hk)
      as [[_ Hs] | [-> _]]; [|reflexivity].
    exfalso. exact (Hnone k Hs).
  - intros k. unfold MojoMultiMap.Find.
    destruct (IsHashNull k) eqn:Hk.
    { rewrite andb_false_r. reflexivity. }
    destruct (key_probe_spec m' l' Hok Hinv Hem k)
      as [i [Hp [_ [Hslot _]]]].
    rewrite Hp, Hslot. cbn [m' MojoMultiMap.m_Status is_ok negb andb].
    unfold MojoMultiMap.is_empty. pose proof (Hvac i) as Hv.
    unfold vacant in Hv. rewrite Hv. reflexivity.
Qed.


End MultiMapCreate.

(** [Create] with the configuration of the specification's scenario. *)
Lemma Create_gives_an_empty_multimap_witness :
  exists m' l',
    MojoMultiMap.Create 0 (MojoMultiMap.Init : MojoMultiMap.t Z Z) 0
      scenario_config [] None 0 = Some (m', kMojoStatus_Ok) /\
    MojoMultiMap.GetStatus m' = kMojoStatus_Ok /\
    table_ok m' l' /\
    MojoMultiMap.m_TableCount m' = cfg_TableCountMin scenario_config /\
    Z.of_nat (length l')
    = MojoMax (cfg_AllocCountMin scenario_config)
        (cfg_TableCountMin scenario_config) /\
    MojoMultiMap.GetCount m' = 0 /\
    (forall i, vacant l' i) /\
    probe_invariant l' (MojoMultiMap.m_TableCount m') /\
    has_empty l' (MojoMultiMap.m_TableCount m') /\
    (forall k, MojoMultiMap.Contains m' k = Some false) /\
    (forall k, MojoMultiMap.Find m' k = Some 0).
Proof.
  apply (Create_gives_an_empty_multimap 0 MojoMultiMap.Init 0
           scenario_config []); try reflexivity; simpl; lia.
Defined.


(* ------------------------------------------------------------------------- *)
(** ** Tables of a set *)

Section SetTables.
Context {key : Type} `{MojoKey key}.

Lemma zget_key_slot (l : list key) (i : Z) :
  0 <= i < Z.of_nat (length l) -> zget l i = Some (key_slot l i).
Proof.
  intros Hi. unfold zget, key_slot.
  destruct (i <? 0) eqn:E; [apply Z.ltb_lt in E; lia|].
  apply nth_error_nth'. lia.
Qed.

Lemma key_slot_set_same (l : list key) (i : Z) (k : key) :
  0 <= i < Z.of_nat (length l) ->
  key_slot (list_set l (Z.to_nat i) k) i = k.
Proof. intros Hi. unfold key_slot. apply nth_list_set_same. lia. Qed.

Lemma key_slot_set_other (l : list key) (i j : Z) (k : key) :
  0 <= i -> 0 <= j -> i <> j ->
  key_slot (list_set l (Z.to_nat i) k) j = key_slot l j.
Proof. intros Hi Hj Hij. unfold key_slot. apply nth_list_set_other. lia. Qed.

Lemma key_at_table (s : MojoSet.t key) (l : list key) (i : Z) :
  set_ok s l -> 0 <= i < MojoSet.m_TableCount s ->
  MojoSet.key_at s i = Some (key_slot l i).
Proof.
  intros [Hl HT] Hi. unfold MojoSet.key_at. rewrite Hl.
  apply zget_key_slot. lia.
Qed.

Lemma member_not_null (l : list key) (T : Z) (k : key) :
  member l T k -> IsHashNull k = false.
Proof. intros [i [_ [Ho <-]]]. exact Ho. Qed.

Lemma set_hit_null (k x : key) : IsHashNull x = true -> MojoSet.hit k x = true.
Proof. intros Hx. unfold MojoSet.hit. rewrite Hx. reflexivity. Qed.

Lemma set_hit_occupied (k x : key) :
  IsHashNull x = false -> (MojoSet.hit k x = true <-> x = k).
Proof.
  intros Hx. unfold MojoSet.hit. rewrite Hx. cbn [orb]. apply key_eqb_eq.
Qed.

(** In a table where some slot is empty or holds [k], the probe for [k]
    stops at the first such slot of its path. *)
Lemma set_probe_first_hit (l : list key) (k : key) (T : Z) :
  0 < T <= Z.of_nat (length l) ->
  (exists h, 0 <= h < T /\ MojoSet.hit k (key_slot l h) = true) ->
  exists i, probe (MojoSet.hit k) (Some l) (GetHash k) T = Some i /\
            0 <= i < T /\
            MojoSet.hit k (key_slot l i) = true /\
            forall y, 0 <= y < T ->
                      dist T (GetHash k mod T) y < dist T (GetHash k mod T) i ->
                      MojoSet.hit k (key_slot l y) = false.
Proof.
  intros HT [e [He Hve]].
  assert (Hs : 0 <= GetHash k mod T < T) by (apply Z.mod_pos_bound; lia).
  destruct (probe_spec (MojoSet.hit k) l (GetHash k) T HT)
    as [r [Hr [Hrr [Hfirst | [_ Hnone]]]]].
  - exists r. split; [exact Hr|]. split; [exact Hrr|].
    destruct Hfirst as [d [Hd [-> [Hhit Hmiss]]]].
    destruct (dist_step T (GetHash k mod T) d Hs Hd) as [Hrange Hdist].
    split.
    + destruct Hhit as [x [Hx Hh]].
      rewrite zget_key_slot in Hx by lia. injection Hx as <-. exact Hh.
    + intros y Hy Hlt. rewrite Hdist in Hlt.
      pose proof (dist_range T _ y Hs Hy) as Hdr.
      destruct (Hmiss (dist T (GetHash k mod T) y)) as [x [Hx Hm]]; [lia|].
      rewrite (step_dist T _ y Hs Hy) in Hx.
      rewrite zget_key_slot in Hx by lia. injection Hx as <-. exact Hm.
  - exfalso. destruct (Hnone e He) as [x [Hx Hm]].
    rewrite zget_key_slot in Hx by lia. injection Hx as <-.
    congruence.
Qed.

(** The probe for a key stops at the slot that holds the key, if there is
    one, and at an empty slot otherwise; the slots it passed are occupied. *)
Lemma set_probe_spec (s : MojoSet.t key) (l : list key) (k : key) :
  let T := MojoSet.m_TableCount s in
  set_ok s l -> set_probe_invariant l T -> set_has_empty l T ->
  exists i, MojoSet.FindEmptyOrMatching s k = Some i /\ 0 <= i < T /\
            MojoSet.key_at s i = Some (key_slot l i) /\
            (forall y, 0 <= y < T ->
                       dist T (GetHash k mod T) y < dist T (GetHash k mod T) i ->
                       IsHashNull (key_slot l y) = false /\
                       key_slot l y <> k) /\
            ((IsHashNull (key_slot l i) = false /\ key_slot l i = k)
             \/ (IsHashNull (key_slot l i) = true /\ ~ member l T k)).
Proof.
  intros T Hok Hinv Hempty. pose proof Hok as [Hl HT]. fold T in HT.
  assert (Hsome : exists h, 0 <= h < T /\ MojoSet.hit k (key_slot l h) = true).
  { destruct Hempty as [e [He Hve]]. exists e. split; [exact He|].
    apply set_hit_null. exact Hve. }
  destruct (set_probe_first_hit l k T HT Hsome) as [i [Hp [Hi [Hhit Hmiss]]]].
  exists i. unfold MojoSet.FindEmptyOrMatching. rewrite Hl. fold T.
  split; [exact Hp|]. split; [exact Hi|].
  split; [apply key_at_table; assumption|].
  assert (Hs : 0 <= GetHash k mod T < T) by (apply Z.mod_pos_bound; lia).
  assert (Hpath : forall y, 0 <= y < T ->
            dist T (GetHash k mod T) y < dist T (GetHash k mod T) i ->
            IsHashNull (key_slot l y) = false /\ key_slot l y <> k).
  { intros y Hy Hd. specialize (Hmiss y Hy Hd).
    destruct (IsHashNull (key_slot l y)) eqn:E.
    - rewrite (set_hit_null k _ E) in Hmiss. discriminate.
    - split; [reflexivity|]. intros Hk.
      apply (set_hit_occupied k _ E) in Hk. congruence. }
  split; [exact Hpath|].
  destruct (IsHashNull (key_slot l i)) eqn:Ho.
  - right. split; [reflexivity|]. intros [j [Hj [Hoj Hkj]]].
    assert (Hij : i <> j) by (intros ->; congruence).
    destruct (Z_lt_ge_dec (dist T (GetHash k mod T) j)
                (dist T (GetHash k mod T) i)) as [Hlt|Hge].
    { destruct (Hpath j Hj Hlt) as [_ Hne]. contradiction. }
    assert (Hlt : dist T (GetHash k mod T) i < dist T (GetHash k mod T) j).
    { destruct (Z.eq_dec (dist T (GetHash k mod T) i)
                  (dist T (GetHash k mod T) j)) as [E|E]; [|lia].
      exfalso. apply Hij. apply (dist_inj T (GetHash k mod T) i j); auto. }
    pose proof (Hinv j Hj Hoj) as Hreach. unfold set_reachable in Hreach.
    rewrite Hkj in Hreach. specialize (Hreach i Hi Hlt). congruence.
  - left. split; [reflexivity|]. apply set_hit_occupied; assumption.
Qed.

(** The two outcomes of [Contains] on a table that satisfies the probing
    invariant and has an empty slot. *)
Lemma set_Contains_cases (s : MojoSet.t key) (l : list key) (k : key) :
  let T := MojoSet.m_TableCount s in
  set_ok s l -> MojoSet.m_Status s = kMojoStatus_Ok ->
  set_probe_invariant l T -> set_has_empty l T ->
  (MojoSet.Contains s k = Some true /\ member l T k)
  \/ (MojoSet.Contains s k = Some false /\ ~ member l T k).
Proof.
  intros T Hok Hst Hinv Hempty. unfold MojoSet.Contains. rewrite Hst.
  cbn [is_ok andb].
  destruct (IsHashNull k) eqn:Hk; cbn [negb].
  { right. split; [reflexivity|]. intros Hm.
    apply member_not_null in Hm. congruence. }
  destruct (set_probe_spec s l k Hok Hinv Hempty)
    as [i [Hp [Hi [Hslot [_ Hcase]]]]].
  rewrite Hp, Hslot.
  destruct Hcase as [[Ho Hki] | [Hv Hnot]].
  - left. rewrite Ho. split; [reflexivity|]. exists i. auto.
  - right. rewrite Hv. split; [reflexivity | exact Hnot].
Qed.

(** With count parity, a table that is not full has an empty slot. *)
Lemma room_has_empty (s : MojoSet.t key) (l : list key) :
  set_ok s l -> count_parity s ->
  MojoSet.m_ActiveCount s < MojoSet.m_TableCount s ->
  set_has_empty l (MojoSet.m_TableCount s).
Proof.
  intros [Hl HT] Hpar Hroom.
  destruct (empty_slot_exists s l Hl HT Hpar Hroom) as [e [x [He [Hx Hn]]]].
  exists e. split; [exact He|].
  rewrite zget_key_slot in Hx by lia. injection Hx as <-. exact Hn.
Qed.

End SetTables.

(* ------------------------------------------------------------------------- *)
(** ** Membership in a set *)

Section SetQueries.
Context {key : Type} `{MojoKey key}.

(** On a set whose status is ok, whose table satisfies the probing
    invariant and whose count, which counts the occupied slots, is below
    the table count, [Contains] answers true exactly for the keys that
    some slot of the table holds. *)
Theorem Set_Contains_tells_membership (s : MojoSet.t key) (l : list key)
    (k : key) :
  let T := MojoSet.m_TableCount s in
  set_ok s l -> MojoSet.m_Status s = kMojoStatus_Ok ->
  set_probe_invariant l T -> count_parity s -> MojoSet.GetCount s < T ->
  exists b, MojoSet.Contains s k = Some b /\ (b = true <-> member l T k).
Proof.
  intros T Hok Hst Hinv Hpar Hroom.
  pose proof (room_has_empty s l Hok Hpar Hroom) as Hempty.
  destruct (set_Contains_cases s l k Hok Hst Hinv Hempty)
    as [[-> Hm] | [-> Hm]].
  - exists true. split; [reflexivity | tauto].
  - exists false. split; [reflexivity|]. split; [discriminate | tauto].
Qed.

End SetQueries.

(* ------------------------------------------------------------------------- *)
(** ** Enumeration of a set *)

Section SetEnumeration.
Context {key : Type} `{MojoKey key}.

Lemma skipn_nth_cons {A} (L : list A) (n : nat) (d : A) :
  (n < length L)%nat -> skipn n L = nth n L d :: skipn (S n) L.
Proof.
  revert n. induction L as [|x L IH]; intros [|n] Hn; simpl in *;
    try lia; auto.
  apply IH. lia.
Qed.

Lemma nth_firstn_lt {A} (l : list A) (n T : nat) (d : A) :
  (n < T)%nat -> nth n (firstn T l) d = nth n l d.
Proof.
  revert n T. induction l as [|x l IH]; intros [|n] [|T] Hn; simpl;
    try lia; auto.
  apply IH. lia.
Qed.

Variable s : MojoSet.t key.
Variable l : list key.
Let T := MojoSet.m_TableCount s.
Hypothesis Hok : set_ok s l.

(** The keys of the occupied slots from slot [i] on. *)
Let keys_from (i : Z) : list key :=
  filter (fun k => negb (IsHashNull k))
    (skipn (Z.to_nat i) (firstn (Z.to_nat T) l)).

Lemma keys_from_step (i : Z) :
  0 <= i < T ->
  keys_from i = if IsHashNull (key_slot l i) then keys_from (i + 1)
                else key_slot l i :: keys_from (i + 1).
Proof.
  intros Hi. destruct Hok as [_ HT]. fold T in HT. unfold keys_from.
  rewrite (skipn_nth_cons _ (Z.to_nat i) key_default)
    by (rewrite firstn_length_le; lia).
  rewrite nth_firstn_lt by lia.
  replace (S (Z.to_nat i)) with (Z.to_nat (i + 1)) by lia.
  cbn [filter]. fold (key_slot l i).
  destruct (IsHashNull (key_slot l i)); reflexivity.
Qed.

Lemma keys_from_end : keys_from T = [].
Proof.
  destruct Hok as [_ HT]. fold T in HT. unfold keys_from.
  rewrite skipn_all2; [reflexivity|]. rewrite firstn_length_le; lia.
Qed.

(** The scan of [_GetNextIndex] stops at the next occupied slot. *)
Lemma set_next_scan (n : nat) (i : Z) :
  0 <= i -> i + Z.of_nat n = T ->
  exists r,
    for_up n i
      (fun i (_ : unit) =>
         k <- MojoSet.key_at s i ;;
         Some (if negb (IsHashNull k) then Leave i else Next tt)) tt
    = Some r /\
    match r with
    | Leave j => i <= j < T /\ IsHashNull (key_slot l j) = false /\
                 keys_from i = keys_from j
    | Next _ => keys_from i = []
    end.
Proof.
  revert i. induction n as [|n IH]; intros i Hi Hn.
  - exists (Next tt). split; [reflexivity|].
    replace i with T by lia. apply keys_from_end.
  - cbn [for_up]. rewrite (key_at_table s l i Hok) by (fold T; lia).
    rewrite (keys_from_step i) by lia.
    destruct (IsHashNull (key_slot l i)) eqn:E; cbn [negb].
    + destruct (IH (i + 1)) as [r [Hr Hres]]; try lia.
      exists r. split; [exact Hr|]. destruct r as [u|j]; [exact Hres|].
      destruct Hres as [Hj [Ho Hk]]. split; [lia|]. auto.
    + exists (Leave i). split; [reflexivity|]. split; [lia|].
      split; [exact E|]. rewrite (keys_from_step i) by lia. rewrite E.
      reflexivity.
Qed.

Lemma set_GetNextIndex_spec (index : Z) :
  -1 <= index < T ->
  exists j, MojoSet._GetNextIndex s index = Some j /\ index < j <= T /\
            (j < T -> IsHashNull (key_slot l j) = false) /\
            keys_from (index + 1) = keys_from j.
Proof.
  intros Hi. unfold MojoSet._GetNextIndex, for_range. fold T.
  destruct (set_next_scan (Z.to_nat (T - (index + 1))) (index + 1))
    as [r [Hr Hres]]; try lia.
  rewrite Hr. destruct r as [u|j].
  - exists T. split; [reflexivity|]. split; [lia|]. split; [lia|].
    rewrite Hres, keys_from_end. reflexivity.
  - destruct Hres as [Hj [Ho Hk]]. exists j. split; [reflexivity|].
    split; [lia|]. auto.
Qed.

Hypothesis Hstatus : MojoSet.m_Status s = kMojoStatus_Ok.

Lemma limited_app (limit : option (key -> bool)) (a b : list key) :
  limited limit (a ++ b) = limited limit a ++ limited limit b.
Proof. destruct limit; cbn [limited]; [apply filter_app | reflexivity]. Qed.

(** The cursor loop of [Enumerate] pushes the keys of the occupied slots
    from the cursor on, in the order of the slots. *)
Lemma set_cursor_loop_spec (limit : option (key -> bool)) :
  forall (n turns : nat) (i : Z) (pushed : list key),
    T - i <= Z.of_nat n -> 0 <= i <= T ->
    (i < T -> IsHashNull (key_slot l i) = false) -> (n < turns)%nat ->
    MojoSet.cursor_loop turns s limit i pushed
    = Some (pushed ++ limited limit (keys_from i)).
Proof.
  induction n as [|n IH]; intros turns i pushed Hn Hi Ho Hturns.
  - assert (i = T) by lia. subst i. rewrite keys_from_end.
    destruct turns; cbn [MojoSet.cursor_loop];
      unfold MojoSet._IsIndexValid; fold T;
      rewrite Z.ltb_irrefl, andb_false_r; destruct limit; cbn [limited filter];
      rewrite app_nil_r; reflexivity.
  - destruct (Z.eq_dec i T) as [->|Hne].
    { apply (IH turns T pushed); auto; lia. }
    destruct turns as [|turns]; [lia|].
    cbn [MojoSet.cursor_loop]. unfold MojoSet._IsIndexValid. fold T.
    rewrite Hstatus. destruct (Z.ltb_spec i T) as [Hlt|Hge]; [|lia].
    cbn [is_ok andb]. unfold MojoSet._GetKeyAt.
    rewrite (key_at_table s l i Hok) by (fold T; lia).
    destruct (set_GetNextIndex_spec i) as [j [Hj [Hjr [Hjo Hk]]]]; [lia|].
    rewrite Hj. rewrite (keys_from_step i) by lia. rewrite (Ho Hlt).
    rewrite Hk.
    rewrite (IH turns j) by (auto; lia).
    replace (key_slot l i :: keys_from j)
      with ([key_slot l i] ++ keys_from j) by reflexivity.
    rewrite limited_app, app_assoc. f_equal. f_equal.
    destruct limit as [contains|]; cbn [limited filter]; [|reflexivity].
    destruct (contains (key_slot l i)); [reflexivity|].
    rewrite app_nil_r. reflexivity.
Qed.

Lemma set_Enumerate_spec (limit : option (key -> bool)) :
  MojoSet.Enumerate s limit = Some (limited limit (table_keys l T)).
Proof.
  unfold MojoSet.Enumerate, MojoSet._GetFirstIndex.
  destruct Hok as [_ HT]. fold T in HT.
  destruct (set_GetNextIndex_spec (-1)) as [j [Hj [Hjr [Hjo Hk]]]]; [lia|].
  rewrite Hj. fold T.
  rewrite (set_cursor_loop_spec limit (Z.to_nat T)) by (auto; lia).
  cbn [app]. rewrite <- Hk. reflexivity.
Qed.

End SetEnumeration.

Section SetKeys.
Context {key : Type} `{MojoKey key}.

Lemma In_firstn_nth {A} (l : list A) (T : nat) (d x : A) :
  (T <= length l)%nat ->
  (In x (firstn T l) <-> exists n, (n < T)%nat /\ nth n l d = x).
Proof.
  intros HT. split.
  - intros Hin. destruct (In_nth _ _ d Hin) as [n [Hn Hx]].
    rewrite firstn_length_le in Hn by exact HT.
    exists n. split; [exact Hn|]. rewrite nth_firstn_lt in Hx; assumption.
  - intros [n [Hn <-]]. rewrite <- (nth_firstn_lt l n T d Hn).
    apply nth_In. rewrite firstn_length_le; assumption.
Qed.

Lemma table_keys_member (l : list key) (T : Z) (k : key) :
  0 <= T <= Z.of_nat (length l) ->
  (In k (table_keys l T) <-> member l T k).
Proof.
  intros HT. unfold table_keys. rewrite filter_In.
  rewrite (In_firstn_nth l (Z.to_nat T) key_default k) by lia.
  rewrite negb_true_iff. split.
  - intros [[n [Hn Hk]] Ho]. exists (Z.of_nat n). unfold key_slot.
    rewrite Nat2Z.id. rewrite Hk. split; [lia|]. auto.
  - intros [i [Hi [Ho Hk]]]. unfold key_slot in *. split.
    + exists (Z.to_nat i). split; [lia | exact Hk].
    + rewrite <- Hk. exact Ho.
Qed.

Lemma table_keys_NoDup (l : list key) (T : Z) :
  0 <= T <= Z.of_nat (length l) -> no_duplicates l T ->
  NoDup (table_keys l T).
Proof.
  intros HT Hnd. unfold table_keys.
  assert (Hgen : forall n : nat, (n <= Z.to_nat T)%nat ->
            NoDup (filter (fun k => negb (IsHashNull k))
                     (skipn n (firstn (Z.to_nat T) l)))).
  { intros n Hn. remember (Z.to_nat T - n)%nat as d eqn:Hd.
    revert n Hn Hd. induction d as [|d IH]; intros n Hn Hd.
    - rewrite skipn_all2; [constructor|]. rewrite firstn_length_le; lia.
    - rewrite (skipn_nth_cons _ n key_default)
        by (rewrite firstn_length_le; lia).
      rewrite nth_firstn_lt by lia. cbn [filter].
      destruct (IsHashNull (nth n l key_default)) eqn:Ho; cbn [negb];
        [apply IH; lia|].
      constructor; [|apply IH; lia].
      rewrite filter_In. intros [Hin _].
      destruct (In_nth _ _ key_default Hin) as [m [Hm Hx]].
      rewrite length_skipn, firstn_length_le in Hm by lia.
      rewrite nth_skipn, nth_firstn_lt in Hx by lia.
      assert (E : Z.of_nat n = Z.of_nat (S n + m)).
      { apply Hnd; try lia; unfold key_slot; rewrite !Nat2Z.id;
          [exact Ho | symmetry; exact Hx]. }
      lia. }
  apply (Hgen 0%nat). lia.
Qed.

(** [Enumerate] pushes the keys of the occupied slots of the table, in the
    order of the slots and [limit]ed to the keys that the limiting set
    contains when there is one.  These are the members of the set; their
    number is the number of occupied slots, and no key comes twice when no
    key is in two slots. *)
Theorem Set_Enumerate_lists_the_keys (s : MojoSet.t key) (l : list key)
    (limit : option (key -> bool)) :
  let T := MojoSet.m_TableCount s in
  set_ok s l -> MojoSet.m_Status s = kMojoStatus_Ok ->
  MojoSet.Enumerate s limit = Some (limited limit (table_keys l T)) /\
  (forall k, In k (table_keys l T) <-> member l T k) /\
  Z.of_nat (length (table_keys l T)) = occupied_slots s /\
  (no_duplicates l T -> NoDup (table_keys l T)).
Proof.
  intros T Hok Hst. pose proof Hok as [Hl HT]. fold T in HT.
  split; [apply set_Enumerate_spec; assumption|].
  split; [intros k; apply table_keys_member; lia|].
  split; [unfold occupied_slots; rewrite Hl; reflexivity|].
  apply table_keys_NoDup. lia.
Qed.

End SetKeys.

(** The scenario's set after three keys, limited to the odd keys. *)
Lemma Set_Enumerate_lists_the_keys_witness :
  MojoSet.Enumerate three_keys (Some Z.odd)
  = Some (limited (Some Z.odd) (table_keys [0; 1; 2; 3; 0; 0; 0; 0] 4)) /\
  (forall k, In k (table_keys [0; 1; 2; 3; 0; 0; 0; 0] 4)
             <-> member [0; 1; 2; 3; 0; 0; 0; 0] 4 k) /\
  Z.of_nat (length (table_keys [0; 1; 2; 3; 0; 0; 0; 0] 4))
  = occupied_slots three_keys /\
  (no_duplicates [0; 1; 2; 3; 0; 0; 0; 0] 4 ->
   NoDup (table_keys [0; 1; 2; 3; 0; 0; 0; 0] 4)).
Proof.
  apply (Set_Enumerate_lists_the_keys three_keys [0; 1; 2; 3; 0; 0; 0; 0]
           (Some Z.odd)).
  - split; [reflexivity | simpl; lia].
  - reflexivity.
Defined.

(* ------------------------------------------------------------------------- *)
(** ** The table of a set as a table of pairs *)

Section SetAsPairs.
Context {key : Type} `{MojoKey key}.

Lemma slot_at_as_pairs (l : list key) (i : Z) :
  slot_at (as_pairs l) i = mkKeyValue (key_slot l i) (key_slot l i).
Proof.
  unfold slot_at, as_pairs, key_slot.
  exact (map_nth (fun k : key => mkKeyValue k k) l key_default (Z.to_nat i)).
Qed.

Lemma as_pairs_length (l : list key) : length (as_pairs l) = length l.
Proof. apply length_map. Qed.

Lemma as_pairs_list_set (l : list key) (n : nat) (k : key) :
  as_pairs (list_set l n k) = list_set (as_pairs l) n (mkKeyValue k k).
Proof.
  revert n. induction l as [|x l IH]; intros [|n]; cbn; auto.
  f_equal. apply IH.
Qed.

Lemma occupied_as_pairs (l : list key) (i : Z) :
  occupied (as_pairs l) i <-> IsHashNull (key_slot l i) = false.
Proof. unfold occupied. rewrite slot_at_as_pairs. reflexivity. Qed.

Lemma vacant_as_pairs (l : list key) (i : Z) :
  vacant (as_pairs l) i <-> IsHashNull (key_slot l i) = true.
Proof. unfold vacant. rewrite slot_at_as_pairs. reflexivity. Qed.

Lemma reachable_as_pairs (l : list key) (T j : Z) :
  reachable (as_pairs l) T j <-> set_reachable l T j.
Proof.
  unfold reachable, set_reachable, home. rewrite slot_at_as_pairs.
  cbn [kv_key]. split; intros Hr y Hy Hd.
  - apply occupied_as_pairs. apply Hr; assumption.
  - apply occupied_as_pairs. apply Hr; assumption.
Qed.

Lemma probe_invariant_as_pairs (l : list key) (T : Z) :
  probe_invariant (as_pairs l) T <-> set_probe_invariant l T.
Proof.
  unfold probe_invariant, set_probe_invariant. split; intros Hinv j Hj Ho.
  - apply reachable_as_pairs. apply Hinv; [exact Hj|].
    apply occupied_as_pairs. exact Ho.
  - apply reachable_as_pairs. apply Hinv; [exact Hj|].
    apply occupied_as_pairs. exact Ho.
Qed.

Lemma has_empty_as_pairs (l : list key) (T : Z) :
  has_empty (as_pairs l) T <-> set_has_empty l T.
Proof.
  unfold has_empty, set_has_empty. split; intros [e [He Hv]]; exists e;
    (split; [exact He|]); apply vacant_as_pairs; exact Hv.
Qed.

Lemma no_duplicatesb_sound (l : list key) (T : Z) :
  no_duplicatesb l T = true -> no_duplicates l T.
Proof.
  unfold no_duplicatesb. intros Hb i j Hi Hj Ho Hij.
  rewrite forallb_forall in Hb. specialize (Hb i (proj2 (In_zrange T i) Hi)).
  rewrite forallb_forall in Hb. specialize (Hb j (proj2 (In_zrange T j) Hj)).
  rewrite Ho, (proj2 (key_eqb_eq _ _) Hij) in Hb. cbn [negb andb implb] in Hb.
  apply Z.eqb_eq. exact Hb.
Qed.

Lemma set_invariantb_sound (s : MojoSet.t key) (l : list key) :
  MojoSet.m_Keys s = Some l -> set_invariantb s l = true ->
  set_invariant s l.
Proof.
  unfold set_invariantb. intros Hl Hb.
  repeat (apply andb_true_iff in Hb; destruct Hb as [Hb ?]).
  split; [split; [exact Hl | lia]|].
  split; [destruct (MojoSet.m_Status s); try discriminate; reflexivity|].
  split; [apply probe_invariant_as_pairs, probe_invariantb_sound; assumption|].
  split; [apply no_duplicatesb_sound; assumption|].
  unfold count_parity. lia.
Qed.

End SetAsPairs.

(* ------------------------------------------------------------------------- *)
(** ** Writing to the table of a set *)

Section SetWrites.
Context {key : Type} `{MojoKey key}.

Lemma set_table_id (s : MojoSet.t key) (l : list key) :
  MojoSet.m_Keys s = Some l -> set_table s l (MojoSet.m_ActiveCount s) = s.
Proof. destruct s. simpl. intros ->. reflexivity. Qed.

Lemma set_table_inj (s : MojoSet.t key) (l l' : list key) (n n' : Z) :
  set_table s l n = set_table s l' n' -> l = l' /\ n = n'.
Proof.
  unfold set_table, MojoSet.set_ActiveCount, MojoSet.set_Keys.
  cbn. intros E. injection E as -> ->. auto.
Qed.

Lemma key_at_set_table (s : MojoSet.t key) (l : list key) (n i : Z) :
  0 <= i < Z.of_nat (length l) ->
  MojoSet.key_at (set_table s l n) i = Some (key_slot l i).
Proof. intros Hi. unfold MojoSet.key_at. simpl. apply zget_key_slot, Hi. Qed.

Lemma store_set_table (s : MojoSet.t key) (l : list key) (n i : Z)
    (k : key) :
  0 <= i < Z.of_nat (length l) ->
  MojoSet.store (set_table s l n) i k
  = Some (set_table s (list_set l (Z.to_nat i) k) n).
Proof.
  intros Hi. unfold MojoSet.store. simpl. rewrite zset_Some by exact Hi.
  reflexivity.
Qed.

(** The number of elements that pass a test, after one of them was
    replaced. *)
Lemma filter_length_list_set {A} (f : A -> bool) (l : list A) (n T : nat)
    (v d : A) :
  (n < T)%nat -> (n < length l)%nat ->
  (length (filter f (firstn T (list_set l n v)))
   + (if f (nth n l d) then 1 else 0)
   = length (filter f (firstn T l)) + (if f v then 1 else 0))%nat.
Proof.
  revert n T. induction l as [|x l IH]; intros [|n] [|T] Hn Hlen;
    simpl in *; try lia.
  - destruct (f v), (f x); simpl; lia.
  - specialize (IH n T). destruct (f x); simpl; rewrite <- IH; lia.
Qed.

(** The number of occupied slots of a table. *)
Lemma occupied_slots_set_table (s : MojoSet.t key) (l : list key) (n : Z) :
  occupied_slots (set_table s l n)
  = Z.of_nat (length (table_keys l (MojoSet.m_TableCount s))).
Proof. reflexivity. Qed.

Lemma table_keys_set (l : list key) (T i : Z) (k : key) :
  0 <= i < T -> T <= Z.of_nat (length l) ->
  Z.of_nat (length (table_keys (list_set l (Z.to_nat i) k) T))
  = Z.of_nat (length (table_keys l T))
    - (if IsHashNull (key_slot l i) then 0 else 1)
    + (if IsHashNull k then 0 else 1).
Proof.
  intros Hi HT. unfold table_keys, key_slot.
  pose proof (filter_length_list_set (fun k => negb (IsHashNull k)) l
                (Z.to_nat i) (Z.to_nat T) k key_default) as Hc.
  cbv beta in Hc.
  destruct (IsHashNull (nth (Z.to_nat i) l key_default)),
    (IsHashNull k); cbn [negb] in Hc; lia.
Qed.

Lemma key_slot_default_null (l : list key) (i : Z) :
  key_slot l i = key_default -> IsHashNull (key_slot l i) = true.
Proof. intros ->. apply IsHashNull_default. reflexivity. Qed.

(** The table after the key of slot [j] has moved to the empty slot [p]. *)
Lemma key_slot_move (l : list key) (T p j x : Z) (k : key) :
  T <= Z.of_nat (length l) -> 0 <= p < T -> 0 <= j < T -> 0 <= x < T ->
  key_slot (list_set (list_set l (Z.to_nat p) k) (Z.to_nat j) key_default) x
  = if x =? j then key_default else if x =? p then k else key_slot l x.
Proof.
  intros Hlen Hp Hj Hx.
  destruct (Z.eqb_spec x j) as [->|Hxj].
  - apply key_slot_set_same. rewrite list_set_length. lia.
  - rewrite key_slot_set_other by lia.
    destruct (Z.eqb_spec x p) as [->|Hxp].
    + apply key_slot_set_same. lia.
    + apply key_slot_set_other; lia.
Qed.

(** What [Reinsert] does to the table: the key of slot [j] moves to the
    first slot of its probe path that is empty or holds it, or stays. *)
Lemma set_Reinsert_table (s : MojoSet.t key) (l : list key) (n j : Z) :
  let T := MojoSet.m_TableCount s in
  let k := key_slot l j in
  0 < T <= Z.of_nat (length l) -> 0 <= j < T ->
  exists p,
    0 <= p < T /\
    MojoSet.hit k (key_slot l p) = true /\
    (forall y, 0 <= y < T ->
               dist T (GetHash k mod T) y < dist T (GetHash k mod T) p ->
               IsHashNull (key_slot l y) = false /\ key_slot l y <> k) /\
    dist T (GetHash k mod T) p <= dist T (GetHash k mod T) j /\
    MojoSet.Reinsert (set_table s l n) j
    = Some (set_table s (if p =? j then l
                         else list_set (list_set l (Z.to_nat p) k)
                                (Z.to_nat j) key_default) n).
Proof.
  intros T k HT Hj.
  assert (Hjhit : MojoSet.hit k (key_slot l j) = true).
  { unfold MojoSet.hit. fold k. rewrite (proj2 (key_eqb_eq k k) eq_refl).
    apply orb_true_r. }
  destruct (set_probe_first_hit l k T HT) as [p [Hp [Hrange [Hhit Hmiss]]]].
  { exists j. auto. }
  assert (Hle : dist T (GetHash k mod T) p <= dist T (GetHash k mod T) j).
  { destruct (Z_le_gt_dec (dist T (GetHash k mod T) p)
                (dist T (GetHash k mod T) j)); [assumption|].
    exfalso. rewrite (Hmiss j Hj) in Hjhit by lia. discriminate. }
  exists p. split; [exact Hrange|]. split; [exact Hhit|]. split; [|split].
  - intros y Hy Hd. specialize (Hmiss y Hy Hd).
    destruct (IsHashNull (key_slot l y)) eqn:E.
    + rewrite (set_hit_null k _ E) in Hmiss. discriminate.
    + split; [reflexivity|]. intros Hk.
      apply (set_hit_occupied k _ E) in Hk. congruence.
  - exact Hle.
  - unfold MojoSet.Reinsert.
    rewrite key_at_set_table by lia. fold k.
    unfold MojoSet.FindEmptyOrMatching.
    cbn [MojoSet.m_Keys MojoSet.m_TableCount set_table
         MojoSet.set_ActiveCount MojoSet.set_Keys].
    fold T. rewrite Hp.
    destruct (p =? j) eqn:Epj; simpl; [reflexivity|].
    rewrite store_set_table by lia.
    rewrite store_set_table by (rewrite list_set_length; lia).
    reflexivity.
Qed.

End SetWrites.

(* ------------------------------------------------------------------------- *)
(** ** Insertion in a set *)

Section SetInsert.
Context {key : Type} `{MojoKey key}.

(** [Insert] after its [AutoGrow] step has left the set [s1] in its
    invariant: the key is stored in the table of [s1] unless it is there or
    the table is full, and nothing but the table, the count and the change
    count differs from [s1]. *)
Lemma set_Insert_with_spec
    (insert : MojoSet.t key -> key -> option (MojoSet.t key))
    (s s1 : MojoSet.t key) (l : list key) (k : key) :
  let T := MojoSet.m_TableCount s1 in
  MojoSet.m_Status s = kMojoStatus_Ok -> IsHashNull k = false ->
  MojoSet.AutoGrow_with insert s = Some s1 ->
  set_invariant s1 l ->
  exists s' st l',
    MojoSet.Insert_with insert s k = Some (s', st) /\
    set_invariant s' l' /\ length l' = length l /\
    (exists c, s' = MojoSet.set_ChangeCount
                      (set_table s1 l' (MojoSet.m_ActiveCount s')) c) /\
    (T <= MojoSet.GetCount s1 -> st = kMojoStatus_CouldNotAlloc /\ s' = s1) /\
    (MojoSet.GetCount s1 < T ->
     st = kMojoStatus_Ok /\
     (forall k', member l' T k' <-> (member l T k' \/ k' = k)) /\
     (member l T k -> s' = s1) /\
     (~ member l T k ->
      MojoSet.GetCount s' = MojoSet.GetCount s1 + 1 /\
      MojoSet._GetChangeCount s' = MojoSet._GetChangeCount s1 + 1)).
Proof.
  intros T Hst0 Hk Hgrow Hinvs.
  pose proof Hinvs as [Hok [Hst [Hinv [Hnd Hpar]]]].
  pose proof Hok as [Hl HT]. fold T in HT, Hinv, Hnd.
  unfold MojoSet.Insert_with.
  rewrite Hst0, Hk, Hgrow. cbn [is_ok].
  unfold MojoSet.GetCount. fold T.
  assert (Hself : exists c, s1 = MojoSet.set_ChangeCount
                                   (set_table s1 l (MojoSet.m_ActiveCount s1))
                                   c).
  { exists (MojoSet.m_ChangeCount s1). rewrite (set_table_id s1 l Hl).
    destruct s1. reflexivity. }
  destruct (Z.ltb_spec (MojoSet.m_ActiveCount s1) T) as [Hroom|Hfull].
  2:{ exists s1, kMojoStatus_CouldNotAlloc, l. split; [reflexivity|].
      split; [exact Hinvs|]. split; [reflexivity|]. split; [exact Hself|].
      split; [auto | lia]. }
  pose proof (room_has_empty s1 l Hok Hpar Hroom) as Hempty.
  fold T in Hempty.
  destruct (set_probe_spec s1 l k Hok Hinv Hempty)
    as [i [Hp [Hi [Hslot [Hpath Hcase]]]]].
  fold T in Hi, Hpath, Hcase. rewrite Hp, Hslot.
  destruct Hcase as [[Ho Hki] | [Hv Hnot]].
  - rewrite Ho.
    assert (Hmem : member l T k) by (exists i; auto).
    exists s1, kMojoStatus_Ok, l. split; [reflexivity|].
    split; [exact Hinvs|]. split; [reflexivity|]. split; [exact Hself|].
    split; [lia|].
    intros _. split; [reflexivity|]. split; [|split; [reflexivity | tauto]].
    intros k'. split; [tauto|]. intros [Hm | ->]; assumption.
  - rewrite Hv.
    set (l' := list_set l (Z.to_nat i) k).
    assert (Hstore : MojoSet.store s1 i k
                     = Some (set_table s1 l' (MojoSet.m_ActiveCount s1))).
    { rewrite <- (store_set_table s1 l _ i k) by lia.
      rewrite (set_table_id s1 l Hl). reflexivity. }
    rewrite Hstore.
    set (s' := MojoSet.set_ChangeCount
                 (MojoSet.set_ActiveCount (set_table s1 l'
                    (MojoSet.m_ActiveCount s1))
                    (MojoSet.m_ActiveCount s1 + 1))
                 (MojoSet.m_ChangeCount s1 + 1)).
    assert (Hslot' : forall x, 0 <= x < T ->
              key_slot l' x = if x =? i then k else key_slot l x).
    { intros x Hx. unfold l'. destruct (Z.eqb_spec x i) as [->|Hne].
      - apply key_slot_set_same. lia.
      - apply key_slot_set_other; lia. }
    assert (Hocc' : forall x, 0 <= x < T ->
              IsHashNull (key_slot l x) = false ->
              IsHashNull (key_slot l' x) = false).
    { intros x Hx Hox. rewrite Hslot' by exact Hx.
      destruct (x =? i); assumption. }
    assert (Hmem' : forall k', member l' T k' <-> (member l T k' \/ k' = k)).
    { intros k'. split.
      - intros [x [Hx [Hox Hkx]]]. rewrite Hslot' in Hox, Hkx by exact Hx.
        destruct (Z.eqb_spec x i) as [->|Hne]; [right; congruence|].
        left. exists x. auto.
      - intros [[x [Hx [Hox Hkx]]] | ->].
        + exists x. split; [exact Hx|]. split; [apply Hocc'; assumption|].
          rewrite Hslot' by exact Hx.
          destruct (Z.eqb_spec x i) as [->|Hne]; [congruence | exact Hkx].
        + exists i. rewrite Hslot' by exact Hi. rewrite Z.eqb_refl. auto. }
    exists s', kMojoStatus_Ok, l'. split; [reflexivity|].
    split; [|split; [unfold l'; apply list_set_length|
                     split; [exists (MojoSet.m_ChangeCount s1 + 1);
                             reflexivity|]]].
    2:{ split; [lia|]. intros _. split; [reflexivity|].
        split; [exact Hmem'|]. split; [tauto|]. intros _. split; reflexivity. }
    split; [|split; [exact Hst|split; [|split]]].
    + split; [reflexivity|]. cbn [s' MojoSet.m_TableCount
        MojoSet.set_ChangeCount MojoSet.set_ActiveCount set_table
        MojoSet.set_Keys]. fold T. unfold l'. rewrite list_set_length. lia.
    + change (MojoSet.m_TableCount s') with T.
      intros j Hj Hoj y Hy Hd.
      rewrite Hslot' in Hoj, Hd by exact Hj.
      destruct (Z.eqb_spec j i) as [->|Hne].
      * apply Hocc'; [exact Hy|]. apply (Hpath y Hy Hd).
      * apply Hocc'; [exact Hy|]. apply (Hinv j Hj Hoj y Hy Hd).
    + change (MojoSet.m_TableCount s') with T.
      intros a b Ha Hb Hoa Hab.
      rewrite Hslot' in Hoa, Hab by assumption.
      rewrite (Hslot' b Hb) in Hab.
      destruct (Z.eqb_spec a i) as [->|Hna];
        destruct (Z.eqb_spec b i) as [->|Hnb]; try reflexivity.
      * exfalso. destruct (IsHashNull (key_slot l b)) eqn:Hob.
        -- rewrite <- Hab in Hob. congruence.
        -- apply Hnot. exists b. auto.
      * exfalso. apply Hnot. exists a. auto.
      * apply Hnd; assumption.
    + unfold count_parity in *.
      change (occupied_slots s')
        with (Z.of_nat (length (table_keys l' T))).
      change (MojoSet.m_ActiveCount s') with (MojoSet.m_ActiveCount s1 + 1).
      unfold l'. rewrite table_keys_set by lia. rewrite Hv, Hk.
      rewrite Hpar. unfold occupied_slots. rewrite Hl. fold T.
      unfold table_keys. lia.
Qed.


End SetInsert.


(* ------------------------------------------------------------------------- *)
(** ** Removal from a set *)

Section SetFixUp.
Context {key : Type} `{MojoKey key}.

Lemma same_keys_refl (l : list key) (T : Z) :
  no_duplicates l T -> same_keys l l T.
Proof. intros Hnd. split; [reflexivity|]. split; [tauto|]. auto. Qed.

Variable s : MojoSet.t key.
Variable l0 : list key.
Variables a e n : Z.
Let T := MojoSet.m_TableCount s.
Let c := dist T a e.
Hypothesis HT : 0 < T <= Z.of_nat (length l0).
Hypothesis Ha : 0 <= a < T.
Hypothesis He : 0 <= e < T.

(** Moving the key of slot [j] to the empty slot [p] keeps the keys. *)
Lemma move_same_keys (l : list key) (j p : Z) :
  same_keys l0 l T -> 0 <= j < T -> 0 <= p < T -> p <> j ->
  IsHashNull (key_slot l j) = false -> IsHashNull (key_slot l p) = true ->
  same_keys l0
    (list_set (list_set l (Z.to_nat p) (key_slot l j)) (Z.to_nat j)
       key_default) T.
Proof.
  intros [Hlen [Hmem [Hnd Hcnt]]] Hj Hp Hpj Hoj Hvp.
  set (k := key_slot l j) in *.
  set (l' := list_set (list_set l (Z.to_nat p) k) (Z.to_nat j) key_default).
  assert (Hslot : forall x, 0 <= x < T ->
            key_slot l' x = if x =? j then key_default
                            else if x =? p then k else key_slot l x).
  { intros x Hx. apply (key_slot_move l T); auto. lia. }
  assert (Hdn : IsHashNull (key_default : key) = true)
    by (apply IsHashNull_default; reflexivity).
  split; [unfold l'; rewrite !list_set_length; exact Hlen|].
  split; [|split].
  - intros k'. rewrite <- Hmem. split.
    + intros [x [Hx [Hox Hkx]]]. rewrite Hslot in Hox, Hkx by exact Hx.
      destruct (Z.eqb_spec x j) as [->|Hxj]; [congruence|].
      destruct (Z.eqb_spec x p) as [->|Hxp].
      * exists j. subst k'. auto.
      * exists x. auto.
    + intros [x [Hx [Hox Hkx]]].
      destruct (Z.eq_dec x j) as [->|Hxj].
      * exists p. rewrite Hslot by exact Hp.
        destruct (Z.eqb_spec p j) as [E|_]; [contradiction|].
        rewrite Z.eqb_refl. fold k in Hkx. subst k'. auto.
      * exists x. rewrite Hslot by exact Hx.
        destruct (Z.eqb_spec x j) as [E|_]; [contradiction|].
        destruct (Z.eqb_spec x p) as [->|Hxp]; [congruence|]. auto.
  - intros x y Hx Hy Hox Hxy.
    rewrite Hslot in Hox, Hxy by exact Hx. rewrite (Hslot y Hy) in Hxy.
    destruct (Z.eqb_spec x j) as [->|Hxj]; [congruence|].
    destruct (Z.eqb_spec y j) as [->|Hyj].
    { rewrite Hxy in Hox. congruence. }
    destruct (Z.eqb_spec x p) as [->|Hxp];
      destruct (Z.eqb_spec y p) as [->|Hyp]; try reflexivity.
    + exfalso. apply Hyj. symmetry. apply Hnd; auto.
    + exfalso. apply Hxj. apply Hnd; auto.
    + apply Hnd; auto.
  - rewrite <- Hcnt. unfold l'.
    rewrite table_keys_set by (rewrite ?list_set_length; lia).
    rewrite table_keys_set by lia.
    rewrite key_slot_set_other by lia. fold k. rewrite Hoj, Hvp, Hdn. lia.
Qed.

(** One turn of a fix-up loop of [RemoveOne], on the slot one step further
    from [a]: the loop is left at [e], with the probing invariant back. *)
Lemma set_fix_step (l : list key) (m j : Z) :
  set_fixing l0 l T a e m -> 0 <= j < T -> dist T a j = m + 1 ->
  m + 1 <= c ->
  exists r,
    MojoSet.RemoveOne_fix j (set_table s l n) = Some r /\
    match r with
    | Next st =>
        exists l', st = set_table s l' n /\ set_fixing l0 l' T a e (m + 1) /\
                   m + 1 < c
    | Leave st =>
        exists l', st = set_table s l' n /\ set_probe_invariant l' T /\
                   same_keys l0 l' T
    end.
Proof.
  intros [Hfix [Hrun Hsame]] Hj Hd Hm. pose proof Hsame as [Hlen [_ [Hnd _]]].
  assert (HT0 : 0 < T) by lia.
  unfold MojoSet.RemoveOne_fix.
  rewrite key_at_set_table by lia.
  destruct (IsHashNull (key_slot l j)) eqn:Hv.
  - eexists. split; [reflexivity|]. exists l. split; [reflexivity|].
    split; [|exact Hsame].
    apply probe_invariant_as_pairs.
    apply (fixing_done T a e c (as_pairs l) m Hfix).
    destruct (Z.eq_dec (m + 1) c) as [Heq|Hne]; [lia|]. exfalso.
    rewrite (Hrun j Hj) in Hv by (fold c; lia). discriminate.
  - assert (Hmc : m + 1 < c).
    { destruct (Z.eq_dec (m + 1) c) as [Heq|Hne]; [|lia]. exfalso.
      rewrite <- Hd in Heq. unfold c in Heq.
      apply (dist_inj T a j e Ha Hj He) in Heq. subst j.
      destruct Hfix as [K1 _]. apply vacant_as_pairs in K1. congruence. }
    destruct (set_Reinsert_table s l n j) as [p [Hp [Hhit [Hpath [Hle Hre]]]]];
      [fold T; lia | exact Hj |].
    fold T in Hp, Hpath, Hle. rewrite Hre.
    eexists. split; [reflexivity|].
    destruct (Z.eqb_spec p j) as [->|Hpj].
    + exists l. split; [reflexivity|]. split; [|exact Hmc].
      split; [|split; [|exact Hsame]].
      * apply (fixing_stay T a e c Ha (as_pairs l) m j Hfix Hj Hd).
        apply reachable_as_pairs. intros y Hy Hdy. apply (Hpath y Hy Hdy).
      * intros y Hy Hdy. apply Hrun; [exact Hy | fold c; lia].
    + assert (Hvp : IsHashNull (key_slot l p) = true).
      { destruct (IsHashNull (key_slot l p)) eqn:E; [reflexivity|].
        exfalso. apply Hpj. symmetry.
        apply (set_hit_occupied _ _ E) in Hhit.
        apply Hnd; auto. }
      eexists. split; [reflexivity|]. split; [|exact Hmc].
      split; [|split].
      * rewrite !as_pairs_list_set.
        pose proof (fixing_move T a e c HT0 Ha He eq_refl (as_pairs l) m j p)
          as Hmove.
        cbv zeta in Hmove. rewrite slot_at_as_pairs in Hmove.
        apply Hmove; auto.
        -- rewrite as_pairs_length. lia.
        -- apply occupied_as_pairs. exact Hv.
        -- intros y Hy Hdy. apply occupied_as_pairs.
           apply (Hpath y Hy Hdy).
      * intros y Hy Hdy. rewrite (key_slot_move l T) by (auto; lia).
        destruct (Z.eqb_spec y j) as [->|Hyj]; [lia|].
        destruct (Z.eqb_spec y p) as [->|Hyp]; [exact Hv|].
        apply Hrun; [exact Hy | fold c; lia].
      * apply move_same_keys; auto.
Qed.

(** The two fix-up loops of [RemoveOne] end at the empty slot [e] and
    bring the probing invariant back. *)
Lemma set_fix_loops (l1 : list key) :
  a <> e -> set_fixing l0 l1 T a e 0 ->
  exists l2 r1,
    for_range (a + 1) T MojoSet.RemoveOne_fix (set_table s l1 n) = Some r1 /\
    match r1 with
    | Leave st => st = set_table s l2 n
    | Next st =>
        exists r2, for_range 0 a MojoSet.RemoveOne_fix st = Some r2 /\
                   loop_end r2 = set_table s l2 n
    end /\
    set_probe_invariant l2 T /\ same_keys l0 l2 T.
Proof.
  intros Hae Hfix.
  pose proof (dist_range T a e Ha He) as Hcr. fold c in Hcr.
  assert (Hc0 : 0 < c).
  { destruct (Z.eq_dec c 0) as [E|E]; [|lia]. exfalso. apply Hae.
    unfold c in E. rewrite <- (dist_self T a Ha) in E.
    symmetry. apply (dist_inj T a e a Ha He Ha). exact E. }
  set (Q := fun st : MojoSet.t key =>
              exists l', st = set_table s l' n /\ set_probe_invariant l' T /\
                         same_keys l0 l' T).
  set (P1 := fun (i : Z) (st : MojoSet.t key) =>
               exists l', st = set_table s l' n /\
                          set_fixing l0 l' T a e (i - a - 1) /\ i - a <= c).
  destruct (for_up_total P1 Q MojoSet.RemoveOne_fix
              (Z.to_nat (T - (a + 1))) (a + 1) (set_table s l1 n))
    as [r1 [Hr1 Hres1]].
  { exists l1. replace (a + 1 - a - 1) with 0 by lia.
    split; [reflexivity|]. split; [exact Hfix | lia]. }
  { intros j st Hj [l' [-> [Hf' Hle]]].
    destruct (set_fix_step l' (j - a - 1) j Hf') as [r [Hr Hm]]; try lia.
    { assert (Hjr : 0 <= j < T) by lia. cyc. }
    exists r. split; [exact Hr|]. destruct r as [st|st]; [|exact Hm].
    destruct Hm as [l'' [-> [Hf'' Hlt]]]. exists l''.
    split; [reflexivity|].
    replace (j + 1 - a - 1) with (j - a - 1 + 1) by lia.
    split; [exact Hf'' | lia]. }
  unfold for_range. rewrite Hr1.
  destruct r1 as [st1|st1].
  2:{ destruct Hres1 as [l2 [-> [Hinv Hsame]]].
      exists l2, (Leave (set_table s l2 n)). auto. }
  replace (a + 1 + Z.of_nat (Z.to_nat (T - (a + 1)))) with T in Hres1 by lia.
  destruct Hres1 as [l' [-> [Hf' Hle]]].
  set (P2 := fun (i : Z) (st : MojoSet.t key) =>
               exists l', st = set_table s l' n /\
                          set_fixing l0 l' T a e (T - a - 1 + i) /\
                          T - a + i <= c).
  destruct (for_up_total P2 Q MojoSet.RemoveOne_fix
              (Z.to_nat (a - 0)) 0 (set_table s l' n))
    as [r2 [Hr2 Hres2]].
  { exists l'. replace (T - a - 1 + 0) with (T - a - 1) by lia.
    split; [reflexivity|]. split; [exact Hf' | lia]. }
  { intros j st Hj [l'' [-> [Hf'' Hle']]].
    destruct (set_fix_step l'' (T - a - 1 + j) j Hf'') as [r [Hr Hm]];
      try lia.
    { assert (Hjr : 0 <= j < T) by lia. cyc. }
    exists r. split; [exact Hr|]. destruct r as [st|st]; [|exact Hm].
    destruct Hm as [l3 [-> [Hf3 Hlt]]]. exists l3.
    split; [reflexivity|].
    replace (T - a - 1 + (j + 1)) with (T - a - 1 + j + 1) by lia.
    split; [exact Hf3 | lia]. }
  destruct r2 as [st2|st2].
  - exfalso.
    replace (0 + Z.of_nat (Z.to_nat (a - 0))) with a in Hres2 by lia.
    destruct Hres2 as [l2 [_ [_ Hle2]]]. lia.
  - destruct Hres2 as [l2 [-> [Hinv Hsame]]].
    exists l2, (Next (set_table s l' n)). split; [reflexivity|].
    split; [|auto]. exists (Leave (set_table s l2 n)).
    split; [exact Hr2 | reflexivity].
Qed.

End SetFixUp.

Section SetRemove.
Context {key : Type} `{MojoKey key}.

Lemma set_AutoShrink_off (depth : nat) (s : MojoSet.t key) :
  MojoSet.m_AutoShrink s = false -> MojoSet.AutoShrink depth s = Some s.
Proof.
  intros Hoff. unfold MojoSet.AutoShrink, MojoSet.AutoShrink_with.
  rewrite Hoff. reflexivity.
Qed.

(** [RemoveOne] of a key the set holds clears its slot and moves the keys
    that follow it back to where their probes find them. *)
Lemma set_RemoveOne_member (s : MojoSet.t key) (l : list key) (k : key) :
  let T := MojoSet.m_TableCount s in
  set_invariant s l -> MojoSet.m_ActiveCount s < T -> member l T k ->
  exists l',
    MojoSet.RemoveOne s k
    = Some (set_table s l' (MojoSet.m_ActiveCount s - 1), true) /\
    length l' = length l /\ set_probe_invariant l' T /\
    no_duplicates l' T /\
    (forall k', member l' T k' <-> (member l T k' /\ k' <> k)) /\
    Z.of_nat (length (table_keys l' T))
    = Z.of_nat (length (table_keys l T)) - 1.
Proof.
  intros T [Hok [Hst [Hinv [Hnd Hpar]]]] Hroom Hmem.
  pose proof Hok as [Hl HT]. fold T in HT, Hinv, Hnd.
  pose proof (room_has_empty s l Hok Hpar Hroom) as Hempty. fold T in Hempty.
  pose proof (member_not_null l T k Hmem) as Hk.
  destruct (set_probe_spec s l k Hok Hinv Hempty)
    as [a [Hp [Ha [Hslot [_ Hcase]]]]].
  fold T in Ha, Hcase.
  destruct Hcase as [[Hoa Hka] | [_ Hnot]]; [|contradiction].
  unfold MojoSet.RemoveOne. rewrite Hk, Hp, Hslot, Hoa.
  set (l1 := list_set l (Z.to_nat a) key_default).
  assert (Hstore : MojoSet.store s a key_default
                   = Some (set_table s l1 (MojoSet.m_ActiveCount s))).
  { unfold l1. rewrite <- (store_set_table s l _ a key_default) by lia.
    rewrite (set_table_id s l Hl). reflexivity. }
  rewrite Hstore.
  change (MojoSet.set_ActiveCount
            (set_table s l1 (MojoSet.m_ActiveCount s))
            (MojoSet.m_ActiveCount
               (set_table s l1 (MojoSet.m_ActiveCount s)) - 1))
    with (set_table s l1 (MojoSet.m_ActiveCount s - 1)).
  change (MojoSet.m_TableCount
            (set_table s l1 (MojoSet.m_ActiveCount s - 1))) with T.
  assert (Hdn : IsHashNull (key_default : key) = true)
    by (apply IsHashNull_default; reflexivity).
  assert (Hslot1 : forall x, 0 <= x < T ->
            key_slot l1 x = if x =? a then key_default else key_slot l x).
  { intros x Hx. unfold l1. destruct (Z.eqb_spec x a) as [->|Hne].
    - apply key_slot_set_same. lia.
    - apply key_slot_set_other; lia. }
  assert (Hlen1 : length l1 = length l)
    by (unfold l1; apply list_set_length).
  (* the empty slot that ends the run of [a] *)
  destruct (first_vacant_after (as_pairs l) T a Ha
              (proj2 (has_empty_as_pairs l T) Hempty))
    as [e [He [Hve Hrun]]].
  assert (Hae : a <> e).
  { intros ->. apply vacant_as_pairs in Hve. congruence. }
  pose proof (dist_range T a e Ha He) as Hcr.
  assert (Hc0 : 0 < dist T a e).
  { destruct (Z.eq_dec (dist T a e) 0) as [E|E]; [|lia]. exfalso. apply Hae.
    rewrite <- (dist_self T a Ha) in E.
    symmetry. apply (dist_inj T a e a Ha He Ha). exact E. }
  assert (Hnd1 : no_duplicates l1 T).
  { intros x y Hx Hy Hox Hxy.
    rewrite Hslot1 in Hox, Hxy by exact Hx. rewrite (Hslot1 y Hy) in Hxy.
    destruct (Z.eqb_spec x a) as [->|Hxa]; [congruence|].
    destruct (Z.eqb_spec y a) as [->|Hya].
    { rewrite Hxy in Hox. congruence. }
    apply Hnd; auto. }
  assert (Hmem1 : forall k', member l1 T k' <-> (member l T k' /\ k' <> k)).
  { intros k'. split.
    - intros [x [Hx [Hox Hkx]]]. rewrite Hslot1 in Hox, Hkx by exact Hx.
      destruct (Z.eqb_spec x a) as [->|Hxa]; [congruence|].
      split; [exists x; auto|]. intros ->. apply Hxa.
      apply Hnd; auto. congruence.
    - intros [[x [Hx [Hox Hkx]]] Hne]. exists x.
      rewrite Hslot1 by exact Hx.
      destruct (Z.eqb_spec x a) as [->|Hxa]; [congruence|]. auto. }
  assert (Hcnt1 : Z.of_nat (length (table_keys l1 T))
                  = Z.of_nat (length (table_keys l T)) - 1).
  { unfold l1. rewrite table_keys_set by lia. rewrite Hoa, Hdn. lia. }
  assert (Hfix : set_fixing l1 l1 T a e 0).
  { split; [|split].
    - apply (fixing_start T a e (dist T a e) (ltac:(lia)) Ha He eq_refl
               (as_pairs l) (as_pairs l1)).
      + apply probe_invariant_as_pairs. exact Hinv.
      + exact Hve.
      + split; [rewrite !as_pairs_length; exact Hlen1|].
        intros j Hj. rewrite !slot_at_as_pairs, Hslot1 by exact Hj.
        destruct (Z.eqb_spec j a) as [->|Hja]; [right | left; reflexivity].
        split; [rewrite (dist_self T a Ha); lia | reflexivity].
    - intros y Hy Hdy. rewrite Hslot1 by exact Hy.
      destruct (Z.eqb_spec y a) as [->|Hya].
      + rewrite (dist_self T a Ha) in Hdy. lia.
      + apply occupied_as_pairs. apply Hrun; [exact Hy | lia].
    - apply same_keys_refl. exact Hnd1. }
  destruct (set_fix_loops s l1 a e (MojoSet.m_ActiveCount s - 1)
              (ltac:(fold T; lia)) Ha He l1 Hae Hfix)
    as [l2 [r1 [Hr1 [Hres [Hinv2 [Hlen2 [Hmem2 [Hnd2 Hcnt2]]]]]]]].
  fold T in Hr1, Hinv2, Hmem2, Hnd2, Hcnt2. rewrite Hr1.
  exists l2.
  assert (Hfacts : length l2 = length l /\ set_probe_invariant l2 T /\
            no_duplicates l2 T /\
            (forall k', member l2 T k' <-> (member l T k' /\ k' <> k)) /\
            Z.of_nat (length (table_keys l2 T))
            = Z.of_nat (length (table_keys l T)) - 1).
  { split; [congruence|]. split; [exact Hinv2|]. split; [exact Hnd2|].
    split; [|lia]. intros k'. rewrite Hmem2. apply Hmem1. }
  destruct r1 as [st|st].
  - destruct Hres as [r2 [Hr2 Hend]]. rewrite Hr2, Hend.
    split; [reflexivity | exact Hfacts].
  - rewrite Hres. split; [reflexivity | exact Hfacts].
Qed.

(** [Remove] on a set in its invariant, with room in its table and
    automatic shrinking off; nothing but the table, the count and the
    change count differs afterwards. *)
Lemma set_Remove_spec (depth : nat) (s : MojoSet.t key) (l : list key)
    (k : key) :
  let T := MojoSet.m_TableCount s in
  set_invariant s l -> MojoSet.m_ActiveCount s < T ->
  MojoSet.m_AutoShrink s = false ->
  exists s' st l',
    MojoSet.Remove depth s k = Some (s', st) /\
    (st = kMojoStatus_Ok <-> member l T k) /\
    (~ member l T k -> st = kMojoStatus_NotFound /\ s' = s) /\
    set_invariant s' l' /\
    (exists c, s' = MojoSet.set_ChangeCount
                      (set_table s l' (MojoSet.m_ActiveCount s')) c) /\
    (forall k', member l' T k' <-> (member l T k' /\ k' <> k)) /\
    (member l T k ->
     MojoSet.m_ActiveCount s' = MojoSet.m_ActiveCount s - 1 /\
     MojoSet.m_ChangeCount s' = MojoSet.m_ChangeCount s + 1).
Proof.
  intros T Hinvs Hroom Hshrink.
  pose proof Hinvs as [Hok [Hst [Hinv [Hnd Hpar]]]].
  pose proof Hok as [Hl HT]. fold T in HT, Hinv, Hnd.
  pose proof (room_has_empty s l Hok Hpar Hroom) as Hempty. fold T in Hempty.
  assert (Hunchanged : forall st,
            ~ member l T k -> st = kMojoStatus_NotFound ->
            (st = kMojoStatus_Ok <-> member l T k) /\
            (~ member l T k -> st = kMojoStatus_NotFound /\ s = s) /\
            set_invariant s l /\
            (exists c, s = MojoSet.set_ChangeCount
                             (set_table s l (MojoSet.m_ActiveCount s)) c) /\
            (forall k', member l T k' <-> (member l T k' /\ k' <> k)) /\
            (member l T k ->
             MojoSet.m_ActiveCount s = MojoSet.m_ActiveCount s - 1 /\
             MojoSet.m_ChangeCount s = MojoSet.m_ChangeCount s + 1)).
  { intros st Hnot ->. split; [split; [discriminate | tauto]|].
    split; [auto|]. split; [exact Hinvs|]. split; [|split; [|tauto]].
    - exists (MojoSet.m_ChangeCount s). rewrite (set_table_id s l Hl).
      destruct s. reflexivity.
    - intros k'. split; [|tauto]. intros Hm. split; [exact Hm|].
      intros ->. contradiction. }
  unfold MojoSet.Remove. rewrite Hst. cbn [is_ok negb].
  destruct (IsHashNull k) eqn:Hk; cbn [negb].
  { exists s, kMojoStatus_NotFound, l. split; [reflexivity|].
    apply Hunchanged; [|reflexivity]. intros Hm.
    apply member_not_null in Hm. congruence. }
  destruct (set_Contains_cases s l k Hok Hst Hinv Hempty)
    as [[_ Hm] | [_ Hnot]].
  2:{ exists s, kMojoStatus_NotFound, l.
      split; [|apply Hunchanged; [exact Hnot | reflexivity]].
      unfold MojoSet.RemoveOne. rewrite Hk.
      destruct (set_probe_spec s l k Hok Hinv Hempty)
        as [a [Hp [Ha [Hslot [_ Hcase]]]]].
      rewrite Hp, Hslot.
      destruct Hcase as [[Hoa Hka] | [Hva _]].
      - exfalso. apply Hnot. exists a. auto.
      - rewrite Hva. reflexivity. }
  destruct (set_RemoveOne_member s l k Hinvs Hroom Hm)
    as [l' [Hrm [Hlen [Hinv' [Hnd' [Hmem' Hcnt']]]]]].
  fold T in Hinv', Hnd', Hmem', Hcnt'. rewrite Hrm.
  rewrite set_AutoShrink_off by exact Hshrink.
  set (s' := MojoSet.set_ChangeCount
               (set_table s l' (MojoSet.m_ActiveCount s - 1))
               (MojoSet.m_ChangeCount
                  (set_table s l' (MojoSet.m_ActiveCount s - 1)) + 1)).
  assert (Hok' : set_ok s' l').
  { split; [reflexivity|]. change (MojoSet.m_TableCount s') with T. lia. }
  assert (Hpar' : count_parity s').
  { unfold count_parity.
    change (occupied_slots s') with (Z.of_nat (length (table_keys l' T))).
    change (MojoSet.m_ActiveCount s') with (MojoSet.m_ActiveCount s - 1).
    rewrite Hcnt'. rewrite Hpar. unfold occupied_slots. rewrite Hl. fold T.
    unfold table_keys. lia. }
  assert (Hinvs' : set_invariant s' l').
  { split; [exact Hok'|]. split; [exact Hst|]. auto. }
  exists s', kMojoStatus_Ok, l'. split; [reflexivity|].
  split; [tauto|]. split; [tauto|]. split; [exact Hinvs'|].
  split; [eexists; reflexivity|]. split; [exact Hmem'|].
  intros _. split; reflexivity.
Qed.

(** [Remove] on a set in its invariant, with room in its table and
    automatic shrinking off: the call returns ok exactly when the set held
    the key, and NotFound with the set unchanged otherwise.  Afterwards the
    table holds the former keys but [k], the invariant holds again,
    [Contains( k )] is false, and a removal lowers the count by one and
    raises the change count by one. *)
Theorem Set_Remove_removes_the_key (depth : nat) (s : MojoSet.t key)
    (l : list key) (k : key) :
  let T := MojoSet.m_TableCount s in
  set_invariant s l -> MojoSet.GetCount s < T ->
  MojoSet.m_AutoShrink s = false ->
  exists s' st l',
    MojoSet.Remove depth s k = Some (s', st) /\
    (st = kMojoStatus_Ok <-> member l T k) /\
    (~ member l T k -> st = kMojoStatus_NotFound /\ s' = s) /\
    set_invariant s' l' /\ MojoSet.m_TableCount s' = T /\
    (forall k', member l' T k' <-> (member l T k' /\ k' <> k)) /\
    MojoSet.Contains s' k = Some false /\
    (member l T k ->
     MojoSet.GetCount s' = MojoSet.GetCount s - 1 /\
     MojoSet._GetChangeCount s' = MojoSet._GetChangeCount s + 1).
Proof.
  intros T Hinvs Hroom Hshrink. unfold MojoSet.GetCount in Hroom.
  destruct (set_Remove_spec depth s l k Hinvs Hroom Hshrink)
    as [s' [st [l' [Hrun [Hst [Hnot [Hinvs' [[c Hframe] [Hmem' Hcount]]]]]]]]].
  fold T in Hst, Hnot, Hmem', Hcount.
  assert (HT' : MojoSet.m_TableCount s' = T) by (rewrite Hframe; reflexivity).
  exists s', st, l'. split; [exact Hrun|]. split; [exact Hst|].
  split; [exact Hnot|]. split; [exact Hinvs'|]. split; [exact HT'|].
  split; [exact Hmem'|]. split; [|exact Hcount].
  (* the key is gone: its probe ends at an empty slot *)
  pose proof Hinvs as [Hok0 [Hst0 [Hinv0 [_ Hpar0]]]].
  pose proof Hinvs' as [Hok' [Hst' [Hinv' [_ Hpar']]]].
  assert (Hle : MojoSet.m_ActiveCount s' <= MojoSet.m_ActiveCount s).
  { destruct (set_Contains_cases s l k Hok0 Hst0 Hinv0
                (room_has_empty s l Hok0 Hpar0 Hroom)) as [[_ Hm] | [_ Hm]].
    - destruct (Hcount Hm) as [Hn _]. lia.
    - destruct (Hnot Hm) as [_ ->]. lia. }
  assert (Hempty' : set_has_empty l' (MojoSet.m_TableCount s')).
  { apply (room_has_empty s' l' Hok' Hpar'). rewrite HT'. lia. }
  destruct (set_Contains_cases s' l' k Hok' Hst' Hinv' Hempty')
    as [[_ Hm'] | [-> _]]; [|reflexivity].
  exfalso. rewrite HT' in Hm'. apply Hmem' in Hm'. tauto.
Qed.

End SetRemove.

(* ------------------------------------------------------------------------- *)
(** ** Creation of a set *)

Section SetCreate.
Context {key : Type} `{MojoKey key}.

Lemma key_slot_repeat (n : nat) (i : Z) :
  key_slot (repeat key_default n) i = key_default.
Proof.
  unfold key_slot. generalize (Z.to_nat i). intros j. revert j.
  induction n as [|n IH]; intros [|j]; cbn; auto.
Qed.

(** [Create] on a set that was never created, with a configuration it
    accepts, no fixed array and an allocator that hands out the buffer:
    the call returns ok and leaves an empty set in its invariant, with a
    table of [cfg_TableCountMin] slots in a buffer of the larger of the two
    minimum counts; it contains no key and enumerates none. *)
Theorem Set_Create_gives_an_empty_set (depth : nat) (s : MojoSet.t key)
    (config : MojoConfig) (alloc : MojoAlloc) :
  MojoSet.m_Status s = kMojoStatus_NotInitialized ->
  1 < cfg_AllocCountMin config -> 1 < cfg_TableCountMin config ->
  cfg_ShrinkThreshold config * 2 < cfg_GrowThreshold config ->
  fst (Allocate alloc) = true ->
  exists s' l',
    MojoSet.Create depth s config alloc None 0 = Some (s', kMojoStatus_Ok) /\
    set_invariant s' l' /\
    MojoSet.m_TableCount s' = cfg_TableCountMin config /\
    Z.of_nat (length l')
    = MojoMax (cfg_AllocCountMin config) (cfg_TableCountMin config) /\
    MojoSet.GetCount s' = 0 /\
    (forall k, ~ member l' (MojoSet.m_TableCount s') k) /\
    (forall k, MojoSet.Contains s' k = Some false) /\
    (forall limit, MojoSet.Enumerate s' limit = Some []).
Proof.
  intros Hst Ha Ht Hg Halloc.
  set (cap := MojoMax (cfg_AllocCountMin config) (cfg_TableCountMin config)).
  assert (Hcap : cfg_TableCountMin config <= cap /\ 1 < cap).
  { unfold cap, MojoMax.
    destruct (Z.ltb_spec (cfg_AllocCountMin config)
                (cfg_TableCountMin config)); lia. }
  set (l' := repeat (key_default : key) (Z.to_nat cap)).
  assert (Hlen : Z.of_nat (length l') = cap).
  { unfold l'. rewrite repeat_length. lia. }
  assert (Hdn : IsHashNull (key_default : key) = true)
    by (apply IsHashNull_default; reflexivity).
  assert (Hvac : forall i, IsHashNull (key_slot l' i) = true).
  { intros i. unfold l'. rewrite key_slot_repeat. exact Hdn. }
  destruct (Allocate alloc) as [reply rest] eqn:Hal. cbn [fst] in Halloc.
  subst reply.
  set (s' := MojoSet.mk (Some rest) (Some l') 0 cap
               (cfg_TableCountMin config) (MojoSet.m_ChangeCount s)
               kMojoStatus_Ok (cfg_AllocCountMin config)
               (cfg_TableCountMin config) (cfg_GrowThreshold config)
               (cfg_ShrinkThreshold config) (cfg_AutoGrow config)
               (cfg_AutoShrink config) (cfg_DynamicAlloc config && true)).
  assert (Hrun : MojoSet.Create depth s config alloc None 0
                 = Some (s', kMojoStatus_Ok)).
  { unfold MojoSet.Create. rewrite Hst. cbn [MojoStatus_eqb negb].
    destruct (Z.leb_spec (cfg_AllocCountMin config) 1); [lia|].
    destruct (Z.leb_spec (cfg_TableCountMin config) 1); [lia|].
    destruct (Z.leb_spec (cfg_GrowThreshold config)
                (cfg_ShrinkThreshold config * 2)); [lia|].
    cbn [orb]. cbn [MojoSet.m_Keys].
    unfold MojoSet.Resize, MojoSet.Resize_with.
    cbn [MojoSet.m_Alloc MojoSet.m_AllocCount MojoSet.m_AllocCountMin
         MojoSet.m_TableCountMin MojoSet.m_Keys].
    fold cap.
    destruct (Z.eqb_spec 0 cap) as [E|_]; [lia|]. cbn [negb].
    destruct (Z.eqb_spec cap 0) as [E|_]; [lia|]. cbn [negb].
    rewrite Hal. reflexivity. }
  assert (Hok : set_ok s' l').
  { split; [reflexivity|]. cbn [s' MojoSet.m_TableCount]. lia. }
  assert (Hnone : forall k, ~ member l' (MojoSet.m_TableCount s') k).
  { intros k [i [_ [Ho _]]]. rewrite Hvac in Ho. discriminate. }
  assert (Hkeys : table_keys l' (MojoSet.m_TableCount s') = []).
  { destruct (table_keys l' (MojoSet.m_TableCount s')) as [|x r] eqn:E;
      [reflexivity|].
    exfalso. apply (Hnone x). apply table_keys_member.
    - cbn [s' MojoSet.m_TableCount]. lia.
    - rewrite E. left. reflexivity. }
  assert (Hinv : set_probe_invariant l' (MojoSet.m_TableCount s')).
  { intros j Hj Ho. rewrite Hvac in Ho. discriminate. }
  assert (Hinvs : set_invariant s' l').
  { split; [exact Hok|]. split; [reflexivity|]. split; [exact Hinv|].
    split.
    - intros i j _ _ Ho. rewrite Hvac in Ho. discriminate.
    - unfold count_parity.
      change (occupied_slots s')
        with (Z.of_nat (length (table_keys l' (MojoSet.m_TableCount s')))).
      rewrite Hkeys. reflexivity. }
  exists s', l'. split; [exact Hrun|]. split; [exact Hinvs|].
  split; [reflexivity|]. split; [exact Hlen|]. split; [reflexivity|].
  split; [exact Hnone|]. split.
  - intros k.
    assert (Hem : set_has_empty l' (MojoSet.m_TableCount s')).
    { exists 0. split; [cbn [s' MojoSet.m_TableCount]; lia | apply Hvac]. }
    destruct (set_Contains_cases s' l' k Hok eq_refl Hinv Hem)
      as [[_ Hm] | [-> _]]; [|reflexivity].
    exfalso. exact (Hnone k Hm).
  - intros limit. rewrite (set_Enumerate_spec s' l' Hok eq_refl), Hkeys.
    destruct limit; reflexivity.
Qed.

End SetCreate.

(** [Create] with the configuration of the specification's scenario. *)
Lemma Set_Create_gives_an_empty_set_witness :
  exists s' l',
    MojoSet.Create 0 (MojoSet.Init : MojoSet.t Z) scenario_config [] None 0
    = Some (s', kMojoStatus_Ok) /\
    set_invariant s' l' /\
    MojoSet.m_TableCount s' = cfg_TableCountMin scenario_config /\
    Z.of_nat (length l')
    = MojoMax (cfg_AllocCountMin scenario_config)
        (cfg_TableCountMin scenario_config) /\
    MojoSet.GetCount s' = 0 /\
    (forall k, ~ member l' (MojoSet.m_TableCount s') k) /\
    (forall k, MojoSet.Contains s' k = Some false) /\
    (forall limit, MojoSet.Enumerate s' limit = Some []).
Proof.
  apply (Set_Create_gives_an_empty_set 0 MojoSet.Init scenario_config []);
    try reflexivity; simpl; lia.
Defined.

(** [Contains( 2 )] on the set that holds 1, 2 and 3. *)
Lemma Set_Contains_tells_membership_witness :
  exists b, MojoSet.Contains steady_set 2 = Some b /\
            (b = true <-> member [0; 1; 2; 3; 0; 0; 0; 0] 8 2).
Proof.
  apply (Set_Contains_tells_membership steady_set [0; 1; 2; 3; 0; 0; 0; 0] 2).
  - split; [reflexivity | simpl; lia].
  - reflexivity.
  - apply probe_invariant_as_pairs, probe_invariantb_sound. reflexivity.
  - reflexivity.
  - simpl. lia.
Defined.

(** [Remove( 2 )] on the set that holds 1, 2 and 3. *)
Lemma Set_Remove_removes_the_key_witness :
  exists s' st l',
    MojoSet.Remove 0 steady_set 2 = Some (s', st) /\
    (st = kMojoStatus_Ok <-> member [0; 1; 2; 3; 0; 0; 0; 0] 8 2) /\
    (~ member [0; 1; 2; 3; 0; 0; 0; 0] 8 2 ->
     st = kMojoStatus_NotFound /\ s' = steady_set) /\
    set_invariant s' l' /\ MojoSet.m_TableCount s' = 8 /\
    (forall k', member l' 8 k'
                <-> (member [0; 1; 2; 3; 0; 0; 0; 0] 8 k' /\ k' <> 2)) /\
    MojoSet.Contains s' 2 = Some false /\
    (member [0; 1; 2; 3; 0; 0; 0; 0] 8 2 ->
     MojoSet.GetCount s' = MojoSet.GetCount steady_set - 1 /\
     MojoSet._GetChangeCount s' = MojoSet._GetChangeCount steady_set + 1).
Proof.
  apply (Set_Remove_removes_the_key 0 steady_set [0; 1; 2; 3; 0; 0; 0; 0] 2).
  - apply set_invariantb_sound; reflexivity.
  - simpl. lia.
  - reflexivity.
Defined.

(* ------------------------------------------------------------------------- *)
(** ** Moving a set to a fresh buffer *)

Section SetResize.
Context {key : Type} `{MojoKey key}.

Lemma firstn_succ_nth {A} (l : list A) (n : nat) (d : A) :
  (n < length l)%nat -> firstn (S n) l = firstn n l ++ [nth n l d].
Proof.
  revert n. induction l as [|x l IH]; intros [|n] Hn; simpl in *;
    try lia; auto.
  f_equal. apply IH. lia.
Qed.

(** The keys of the first [i + 1] slots. *)
Lemma table_keys_succ (l : list key) (i : Z) :
  0 <= i < Z.of_nat (length l) ->
  table_keys l (i + 1)
  = table_keys l i
    ++ (if IsHashNull (key_slot l i) then [] else [key_slot l i]).
Proof.
  intros Hi. unfold table_keys, key_slot.
  replace (Z.to_nat (i + 1)) with (S (Z.to_nat i)) by lia.
  rewrite (firstn_succ_nth l _ key_default) by lia.
  rewrite filter_app. cbn [filter].
  destruct (IsHashNull (nth (Z.to_nat i) l key_default)); reflexivity.
Qed.

Lemma table_keys_mono (l : list key) (i j : Z) :
  0 <= i <= j ->
  (length (table_keys l i) <= length (table_keys l j))%nat.
Proof.
  intros Hij. unfold table_keys.
  rewrite <- (firstn_skipn (Z.to_nat i) (firstn (Z.to_nat j) l)).
  rewrite firstn_firstn. replace (Nat.min (Z.to_nat i) (Z.to_nat j))
    with (Z.to_nat i) by lia.
  rewrite filter_app, length_app. lia.
Qed.

Lemma table_keys_bound (l : list key) (T : Z) :
  0 <= T -> Z.of_nat (length (table_keys l T)) <= T.
Proof.
  intros HT. unfold table_keys.
  pose proof (filter_length_le (fun k => negb (IsHashNull k))
                (firstn (Z.to_nat T) l)) as H1.
  pose proof (firstn_le_length (Z.to_nat T) l) as H2. lia.
Qed.

Lemma member_succ (l : list key) (i : Z) (k : key) :
  0 <= i ->
  (member l (i + 1) k
   <-> (member l i k
        \/ (IsHashNull (key_slot l i) = false /\ key_slot l i = k))).
Proof.
  intros Hi. split.
  - intros [x [Hx [Ho Hk]]]. destruct (Z.eq_dec x i) as [->|Hne].
    + right. auto.
    + left. exists x. split; [lia | auto].
  - intros [[x [Hx [Ho Hk]]] | [Ho Hk]].
    + exists x. split; [lia | auto].
    + exists i. split; [lia | auto].
Qed.

Lemma member_zero (l : list key) (k : key) : ~ member l 0 k.
Proof. intros [x [Hx _]]. lia. Qed.

(** [Resize] to a buffer of another size, which the allocator hands out:
    every key is inserted in the fresh table.  With a table that takes the
    keys without growing again, the set is in its invariant afterwards,
    holds the same keys and as many, and its change count went up by one
    for each key. *)
Lemma set_Resize_fresh (depth : nat) (s : MojoSet.t key) (l : list key)
    (alloc : MojoAlloc) (T' C' : Z) :
  let T := MojoSet.m_TableCount s in
  set_invariant s l ->
  MojoSet.m_Alloc s = Some alloc -> fst (Allocate alloc) = true ->
  MojoSet.m_AllocCount s <> C' -> 0 < T' <= C' ->
  MojoSet.m_ActiveCount s <= T' ->
  (MojoSet.m_AutoGrow s = false
   \/ (MojoSet.m_ActiveCount s - 1) * 100 < T' * MojoSet.m_GrowThreshold s) ->
  exists l' n c,
    MojoSet.Resize (S depth) s T' C'
    = Some (MojoSet.mk (Some (snd (Allocate alloc))) (Some l') n C' T' c
              (MojoSet.m_Status s) (MojoSet.m_AllocCountMin s)
              (MojoSet.m_TableCountMin s) (MojoSet.m_GrowThreshold s)
              (MojoSet.m_ShrinkThreshold s) (MojoSet.m_AutoGrow s)
              (MojoSet.m_AutoShrink s) (MojoSet.m_DynamicAlloc s)) /\
    set_invariant
      (MojoSet.mk (Some (snd (Allocate alloc))) (Some l') n C' T' c
         (MojoSet.m_Status s) (MojoSet.m_AllocCountMin s)
         (MojoSet.m_TableCountMin s) (MojoSet.m_GrowThreshold s)
         (MojoSet.m_ShrinkThreshold s) (MojoSet.m_AutoGrow s)
         (MojoSet.m_AutoShrink s) (MojoSet.m_DynamicAlloc s)) l' /\
    Z.of_nat (length l') = C' /\
    (forall k, member l' T' k <-> member l T k) /\
    n = MojoSet.m_ActiveCount s /\
    c = MojoSet.m_ChangeCount s + MojoSet.m_ActiveCount s.
Proof.
  intros T Hinvs Halloc Hgrant Hcap HT' Hroom Hidle.
  pose proof Hinvs as [Hok [Hst [Hinv [Hnd Hpar]]]].
  pose proof Hok as [Hl HT]. fold T in HT, Hinv, Hnd.
  assert (HN : MojoSet.m_ActiveCount s = Z.of_nat (length (table_keys l T))).
  { rewrite Hpar. unfold occupied_slots. rewrite Hl. reflexivity. }
  destruct (Allocate alloc) as [reply rest] eqn:Hal. cbn [fst] in Hgrant.
  subst reply. cbn [snd].
  set (fresh := repeat (key_default : key) (Z.to_nat C')).
  set (s1 := MojoSet.mk (Some rest) (Some fresh) 0 C' T'
               (MojoSet.m_ChangeCount s) (MojoSet.m_Status s)
               (MojoSet.m_AllocCountMin s) (MojoSet.m_TableCountMin s)
               (MojoSet.m_GrowThreshold s) (MojoSet.m_ShrinkThreshold s)
               (MojoSet.m_AutoGrow s) (MojoSet.m_AutoShrink s)
               (MojoSet.m_DynamicAlloc s)).
  set (body := fun (i : Z) (s' : MojoSet.t key) =>
                 k <- zget l i ;;
                 if negb (IsHashNull k)
                 then s'' <- MojoSet.nested_insert (S depth) s' k ;;
                      Some (Next s'')
                 else Some (@Next (MojoSet.t key) (MojoSet.t key) s')).
  assert (Hunfold : MojoSet.Resize (S depth) s T' C'
                    = (r <- for_range 0 T body s1 ;; Some (loop_end r))).
  { unfold MojoSet.Resize, MojoSet.Resize_with. rewrite Halloc, Hl.
    destruct (Z.eqb_spec (MojoSet.m_AllocCount s) C') as [E|_];
      [contradiction|].
    cbn [negb]. destruct (Z.eqb_spec C' 0) as [E|_]; [lia|]. cbn [negb].
    rewrite Hal. reflexivity. }
  assert (Hdn : IsHashNull (key_default : key) = true)
    by (apply IsHashNull_default; reflexivity).
  set (P := fun (i : Z) (st : MojoSet.t key) =>
              exists l' c,
                st = MojoSet.set_ChangeCount
                       (set_table s1 l'
                          (Z.of_nat (length (table_keys l i)))) c /\
                set_invariant st l' /\ Z.of_nat (length l') = C' /\
                (forall k, member l' T' k <-> member l i k) /\
                c = MojoSet.m_ChangeCount s
                    + Z.of_nat (length (table_keys l i))).
  destruct (for_up_total P (fun _ : MojoSet.t key => False) body
              (Z.to_nat (T - 0)) 0 s1) as [r [Hr Hres]].
  { exists fresh, (MojoSet.m_ChangeCount s).
    assert (Hvac : forall i, IsHashNull (key_slot fresh i) = true).
    { intros i. unfold fresh. rewrite key_slot_repeat. exact Hdn. }
    assert (Hlen : Z.of_nat (length fresh) = C').
    { unfold fresh. rewrite repeat_length. lia. }
    assert (Hk0 : table_keys fresh T' = []).
    { destruct (table_keys fresh T') as [|x r] eqn:E; [reflexivity|].
      exfalso.
      assert (Hm : member fresh T' x).
      { apply table_keys_member; [lia|]. rewrite E. left. reflexivity. }
      destruct Hm as [i [_ [Ho _]]]. rewrite Hvac in Ho. discriminate. }
    split; [reflexivity|]. split; [|split; [exact Hlen|split]].
    - split; [split; [reflexivity | cbn [s1 MojoSet.m_TableCount]; lia]|].
      split; [exact Hst|]. split; [|split].
      + intros j Hj Ho. rewrite Hvac in Ho. discriminate.
      + intros i j _ _ Ho. rewrite Hvac in Ho. discriminate.
      + unfold count_parity.
        change (occupied_slots s1)
          with (Z.of_nat (length (table_keys fresh T'))).
        rewrite Hk0. reflexivity.
    - intros k. split.
      + intros [i [_ [Ho _]]]. rewrite Hvac in Ho. discriminate.
      + intros Hm. exfalso. exact (member_zero l k Hm).
    - cbn. lia. }
  { intros i st Hi [l' [c [Hst' [Hinvs' [Hlen' [Hmem' Hc']]]]]].
    unfold body. rewrite zget_key_slot by lia.
    pose proof (table_keys_succ l i ltac:(lia)) as Hsucc.
    destruct (IsHashNull (key_slot l i)) eqn:Ho; cbn [negb].
    - eexists. split; [reflexivity|]. exists l', c.
      rewrite Hsucc, app_nil_r.
      split; [exact Hst'|]. split; [exact Hinvs'|]. split; [exact Hlen'|].
      split; [|exact Hc'].
      intros k. rewrite Hmem', member_succ by lia.
      split; [tauto|]. intros [Hm | [Ho' _]]; [exact Hm | congruence].
    - (* the key of slot [i] goes into the fresh table *)
      assert (Hcnt : Z.of_nat (length (table_keys l i)) + 1
                     <= MojoSet.m_ActiveCount s).
      { rewrite HN. pose proof (table_keys_mono l (i + 1) T ltac:(lia)) as Hm.
        rewrite Hsucc, length_app in Hm. cbn [length] in Hm. lia. }
      assert (Hact : MojoSet.m_ActiveCount st
                     = Z.of_nat (length (table_keys l i)))
        by (rewrite Hst'; reflexivity).
      assert (HTst : MojoSet.m_TableCount st = T')
        by (rewrite Hst'; reflexivity).
      assert (Hgrow : MojoSet.m_AutoGrow st && MojoSet.grow_due st = false).
      { unfold MojoSet.grow_due. rewrite HTst, Hact.
        replace (MojoSet.m_AutoGrow st) with (MojoSet.m_AutoGrow s)
          by (rewrite Hst'; reflexivity).
        replace (MojoSet.m_GrowThreshold st) with (MojoSet.m_GrowThreshold s)
          by (rewrite Hst'; reflexivity).
        destruct Hidle as [-> | Hthr]; [reflexivity|].
        apply andb_false_iff. right. apply Z.leb_gt. lia. }
      assert (Hnew : ~ member l' (MojoSet.m_TableCount st) (key_slot l i)).
      { rewrite HTst, Hmem'. intros [x [Hx [Hox Hkx]]].
        assert (x = i) by (apply Hnd; auto; lia). lia. }
      destruct (set_Insert_with_spec
                  (fun s' k' => option_map fst (MojoSet.Insert depth s' k'))
                  st st l' (key_slot l i)
                  ltac:(apply Hinvs') Ho (AutoGrow_idle _ st Hgrow) Hinvs')
        as [s2 [st2 [l2 [Hrun [Hinvs2 [Hlen2 [[c2 Hframe]
              [_ Hadded]]]]]]]].
      destruct Hadded as [_ [Hmem2 [_ Hcount]]].
      { unfold MojoSet.GetCount. rewrite HTst, Hact. lia. }
      destruct (Hcount Hnew) as [Hn2 Hc2].
      unfold MojoSet.GetCount in Hn2. unfold MojoSet._GetChangeCount in Hc2.
      unfold MojoSet.nested_insert. cbn [MojoSet.Insert]. rewrite Hrun.
      cbn [option_map fst].
      eexists. split; [reflexivity|]. exists l2, c2.
      rewrite Hsucc, length_app. cbn [length].
      assert (Hc2' : c2 = MojoSet.m_ChangeCount st + 1).
      { rewrite <- Hc2. rewrite Hframe. reflexivity. }
      split; [|split; [exact Hinvs2|split; [lia|split]]].
      + rewrite Hframe at 1. rewrite Hn2, Hact, Hst'.
        replace (Z.of_nat (length (table_keys l i) + 1))
          with (Z.of_nat (length (table_keys l i)) + 1) by lia.
        reflexivity.
      + intros k. rewrite HTst in Hmem2. rewrite Hmem2, Hmem'.
        rewrite member_succ by lia. split.
        * intros [Hm | ->]; [left; exact Hm | right; auto].
        * intros [Hm | [_ Hk]]; [left; exact Hm | right; auto].
      + rewrite Hc2'. replace (MojoSet.m_ChangeCount st) with c
          by (rewrite Hst'; reflexivity). lia. }
  rewrite Hunfold. unfold for_range. rewrite Hr.
  destruct r as [sf|x]; [|contradiction].
  replace (0 + Z.of_nat (Z.to_nat (T - 0))) with T in Hres by lia.
  destruct Hres as [l' [c [Hsf [Hinvs' [Hlen' [Hmem' Hc']]]]]].
  exists l', (Z.of_nat (length (table_keys l T))), c.
  cbn [loop_end]. rewrite <- HN in Hc'.
  assert (Hshape : sf = MojoSet.mk (Some rest) (Some l')
                          (Z.of_nat (length (table_keys l T))) C' T' c
                          (MojoSet.m_Status s) (MojoSet.m_AllocCountMin s)
                          (MojoSet.m_TableCountMin s)
                          (MojoSet.m_GrowThreshold s)
                          (MojoSet.m_ShrinkThreshold s) (MojoSet.m_AutoGrow s)
                          (MojoSet.m_AutoShrink s) (MojoSet.m_DynamicAlloc s))
    by (rewrite Hsf; reflexivity).
  rewrite <- Hshape.
  split; [reflexivity|]. split; [exact Hinvs'|]. split; [exact Hlen'|].
  split; [exact Hmem'|]. split; [symmetry; exact HN | exact Hc'].
Qed.

End SetResize.

Section SetGrowth.
Context {key : Type} `{MojoKey key}.


End SetGrowth.


(* ------------------------------------------------------------------------- *)
(** ** Runs of insertions and removals *)

Section SetRuns.
Context {key : Type} `{MojoKey key}.

Lemma is_live_In (k : key) (live : list key) :
  is_live k live = true <-> In k live.
Proof.
  unfold is_live. rewrite existsb_exists. split.
  - intros [x [Hin Hx]]. apply key_eqb_eq in Hx. subst x. exact Hin.
  - intros Hin. exists k. split; [exact Hin | apply key_eqb_refl].
Qed.

Lemma is_live_drop (k k0 : key) (live : list key) :
  is_live k (drop_key k0 live) = true <-> (is_live k live = true /\ k <> k0).
Proof.
  rewrite !is_live_In. unfold drop_key. rewrite filter_In.
  rewrite negb_true_iff. split.
  - intros [Hin Hne]. split; [exact Hin|]. intros ->.
    rewrite key_eqb_refl in Hne. discriminate.
  - intros [Hin Hne]. split; [exact Hin|].
    destruct (key_eqb k k0) eqn:E; [|reflexivity].
    apply key_eqb_eq in E. contradiction.
Qed.

(** One insertion or removal, with resizing off and room in the table. *)
Lemma set_run_op_spec (depth : nat) (s : MojoSet.t key) (l live : list key)
    (op : SetOp) :
  let T := MojoSet.m_TableCount s in
  set_invariant s l ->
  MojoSet.m_AutoGrow s = false -> MojoSet.m_AutoShrink s = false ->
  holds_live l T live -> op <> OpUpdate ->
  MojoSet.m_ActiveCount s < T ->
  exists s' l' live',
    run_op (S depth) (s, live) op = Some (s', live') /\
    set_invariant s' l' /\ MojoSet.m_TableCount s' = T /\
    MojoSet.m_AutoGrow s' = false /\ MojoSet.m_AutoShrink s' = false /\
    holds_live l' T live' /\
    MojoSet.m_ActiveCount s' <= MojoSet.m_ActiveCount s + 1.
Proof.
  intros T Hinvs Hgrow Hshrink Hbook Hop Hroom.
  pose proof Hinvs as [Hok [Hst [Hinv [Hnd Hpar]]]].
  pose proof Hok as [Hl HT]. fold T in HT, Hinv.
  pose proof (room_has_empty s l Hok Hpar Hroom) as Hempty. fold T in Hempty.
  destruct op as [k|k|]; [| |contradiction]; cbn [run_op].
  - (* Insert *)
    destruct (IsHashNull k) eqn:Hk.
    + cbn [MojoSet.Insert]. unfold MojoSet.Insert_with.
      rewrite Hst, Hk. cbn [is_ok].
      exists s, l, (k :: live). split; [reflexivity|].
      split; [exact Hinvs|]. split; [reflexivity|].
      split; [exact Hgrow|]. split; [exact Hshrink|]. split; [|lia].
      intros k'. rewrite (Hbook k'), !is_live_In. cbn [In]. split.
      * intros [Hn Hin]. auto.
      * intros [Hn [-> | Hin]]; [congruence | auto].
    + assert (Hidle : MojoSet.m_AutoGrow s && MojoSet.grow_due s = false)
        by (rewrite Hgrow; reflexivity).
      cbn [MojoSet.Insert].
      destruct (set_Insert_with_spec
                  (fun s' k' => option_map fst (MojoSet.Insert depth s' k'))
                  s s l k Hst Hk (AutoGrow_idle _ s Hidle) Hinvs)
        as [s' [st [l' [Hrun [Hinvs' [_ [[c Hframe] [_ Hadd]]]]]]]].
      destruct (Hadd Hroom) as [_ [Hmem' [Hsame Hnew]]].
      fold T in Hmem', Hsame, Hnew.
      rewrite Hrun. exists s', l', (k :: live). split; [reflexivity|].
      split; [exact Hinvs'|].
      split; [rewrite Hframe; reflexivity|].
      split; [rewrite Hframe; exact Hgrow|].
      split; [rewrite Hframe; exact Hshrink|]. split.
      * intros k'. rewrite Hmem', (Hbook k'), !is_live_In. cbn [In]. split.
        -- intros [[Hn Hin] | ->]; auto.
        -- intros [Hn [-> | Hin]]; auto.
      * destruct (set_Contains_cases s l k Hok Hst Hinv Hempty)
          as [[_ Hm] | [_ Hm]].
        -- rewrite (Hsame Hm). lia.
        -- destruct (Hnew Hm) as [Hc _]. unfold MojoSet.GetCount in Hc. lia.
  - (* Remove *)
    destruct (set_Remove_spec (S depth) s l k Hinvs Hroom Hshrink)
      as [s' [st [l' [Hrun [Hst' [Hnot [Hinvs' [[c Hframe]
            [Hmem' Hcount]]]]]]]]].
    fold T in Hst', Hnot, Hmem', Hcount. rewrite Hrun.
    destruct (set_Contains_cases s l k Hok Hst Hinv Hempty)
      as [[_ Hm] | [_ Hm]].
    + assert (Hs : st = kMojoStatus_Ok) by tauto. subst st. cbn [is_ok].
      exists s', l', (drop_key k live). split; [reflexivity|].
      split; [exact Hinvs'|].
      split; [rewrite Hframe; reflexivity|].
      split; [rewrite Hframe; exact Hgrow|].
      split; [rewrite Hframe; exact Hshrink|]. split.
      * intros k'. rewrite Hmem', (Hbook k'), is_live_drop. tauto.
      * destruct (Hcount Hm) as [Hn _]. lia.
    + destruct (Hnot Hm) as [-> ->]. cbn [is_ok].
      exists s, l', live. split; [reflexivity|].
      split; [exact Hinvs'|]. split; [reflexivity|].
      split; [exact Hgrow|]. split; [exact Hshrink|]. split; [|lia].
      intros k'. rewrite Hmem', (Hbook k'). split; [tauto|].
      intros [Hn Hin]. split; [auto|]. intros ->. apply Hm.
      apply Hbook. auto.
Qed.

Lemma set_run_ops_spec (depth : nat) (T : Z) (ops : list SetOp) :
  forall (s : MojoSet.t key) (l live : list key),
    MojoSet.m_TableCount s = T -> set_invariant s l ->
    MojoSet.m_AutoGrow s = false -> MojoSet.m_AutoShrink s = false ->
    holds_live l T live ->
    (forall op, In op ops -> op <> OpUpdate) ->
    MojoSet.m_ActiveCount s + Z.of_nat (length ops) < T ->
    exists s' l' live',
      run_ops (S depth) (s, live) ops = Some (s', live') /\
      set_invariant s' l' /\ MojoSet.m_TableCount s' = T /\
      holds_live l' T live' /\
      MojoSet.m_ActiveCount s'
      <= MojoSet.m_ActiveCount s + Z.of_nat (length ops).
Proof.
  induction ops as [|op ops IH];
    intros s l live HT Hinvs Hgrow Hshrink Hbook Hops Hroom.
  - exists s, l, live. split; [reflexivity|]. split; [exact Hinvs|].
    split; [exact HT|]. split; [exact Hbook|]. cbn [length]. lia.
  - cbn [length] in Hroom. cbn [run_ops].
    destruct (set_run_op_spec depth s l live op Hinvs Hgrow Hshrink)
      as [s1 [l1 [live1 [Hrun [Hinvs1 [HT1 [Hg1 [Hs1 [Hbook1 Hc1]]]]]]]]].
    { rewrite HT. exact Hbook. }
    { apply Hops. left. reflexivity. }
    { lia. }
    rewrite HT in HT1, Hbook1. rewrite Hrun.
    destruct (IH s1 l1 live1 HT1 Hinvs1 Hg1 Hs1 Hbook1)
      as [s' [l' [live' [Hrun' [Hinvs' [HT' [Hbook' Hc']]]]]]].
    { intros op' Hin. apply Hops. right. exact Hin. }
    { lia. }
    exists s', l', live'. split; [exact Hrun'|]. split; [exact Hinvs'|].
    split; [exact HT'|]. split; [exact Hbook'|]. cbn [length]. lia.
Qed.

(** A run of insertions and removals on a set in its invariant, with
    automatic resizing off and a table that has room for the whole run:
    the run has a result, the invariant holds after it, and [Contains]
    answers true exactly for the non-null keys that are live by the book,
    that is inserted and not removed since. *)
Theorem Set_operations_by_the_book (depth : nat) (s : MojoSet.t key)
    (l live : list key) (ops : list SetOp) :
  let T := MojoSet.m_TableCount s in
  set_invariant s l ->
  MojoSet.m_AutoGrow s = false -> MojoSet.m_AutoShrink s = false ->
  holds_live l T live ->
  (forall op, In op ops -> op <> OpUpdate) ->
  MojoSet.GetCount s + Z.of_nat (length ops) < T ->
  exists s' l' live',
    run_ops (S depth) (s, live) ops = Some (s', live') /\
    set_invariant s' l' /\ MojoSet.m_TableCount s' = T /\
    holds_live l' T live' /\
    (forall k, MojoSet.Contains s' k
               = Some (negb (IsHashNull k) && is_live k live')).
Proof.
  intros T Hinvs Hgrow Hshrink Hbook Hops Hroom.
  unfold MojoSet.GetCount in Hroom.
  destruct (set_run_ops_spec depth T ops s l live eq_refl Hinvs Hgrow Hshrink
              Hbook Hops Hroom)
    as [s' [l' [live' [Hrun [Hinvs' [HT' [Hbook' Hc']]]]]]].
  exists s', l', live'. split; [exact Hrun|]. split; [exact Hinvs'|].
  split; [exact HT'|]. split; [exact Hbook'|].
  intros k. pose proof Hinvs' as [Hok' [Hst' [Hinv' [_ Hpar']]]].
  assert (Hempty' : set_has_empty l' (MojoSet.m_TableCount s')).
  { apply (room_has_empty s' l' Hok' Hpar'). rewrite HT'. lia. }
  destruct (set_Contains_cases s' l' k Hok' Hst' Hinv' Hempty')
    as [[-> Hm] | [-> Hm]]; rewrite HT' in Hm; f_equal.
  - apply Hbook' in Hm. destruct Hm as [-> ->]. reflexivity.
  - destruct (IsHashNull k) eqn:Hk; [reflexivity|]. cbn [negb andb].
    destruct (is_live k live') eqn:Hlive; [|reflexivity].
    exfalso. apply Hm. apply Hbook'. auto.
Qed.

End SetRuns.

(** Insert 5, insert 1 again, remove 2 and remove 9 on the set that holds
    1, 2 and 3. *)
Lemma Set_operations_by_the_book_witness :
  exists s' l' live',
    run_ops 1 (steady_set, [3; 2; 1])
      [OpInsert 5; OpInsert 1; OpRemove 2; OpRemove 9]
    = Some (s', live') /\
    set_invariant s' l' /\ MojoSet.m_TableCount s' = 8 /\
    holds_live l' 8 live' /\
    (forall k, MojoSet.Contains s' k
               = Some (negb (IsHashNull k) && is_live k live')).
Proof.
  apply (Set_operations_by_the_book 0 steady_set [0; 1; 2; 3; 0; 0; 0; 0]
           [3; 2; 1] [OpInsert 5; OpInsert 1; OpRemove 2; OpRemove 9]).
  - apply set_invariantb_sound; reflexivity.
  - reflexivity.
  - reflexivity.
  - intros k. split.
    + intros [i [Hi [Ho Hk]]].
      assert (Hs : i = 0 \/ i = 1 \/ i = 2 \/ i = 3 \/ i = 4 \/ i = 5
                   \/ i = 6 \/ i = 7) by (simpl in Hi; lia).
      destruct Hs as [-> | [-> | [-> | [-> | [-> | [-> | [-> | ->]]]]]]];
        try discriminate Ho; subst k; split; reflexivity.
    + intros [Hn Hlive]. apply is_live_In in Hlive.
      destruct Hlive as [<- | [<- | [<- | []]]].
      * exists 3. split; [simpl; lia | split; reflexivity].
      * exists 2. split; [simpl; lia | split; reflexivity].
      * exists 1. split; [simpl; lia | split; reflexivity].
  - intros op [<- | [<- | [<- | [<- | []]]]]; discriminate.
  - simpl. lia.
Defined.

(* ------------------------------------------------------------------------- *)
(** ** Containers on a fixed array *)

Section FixedArray.
Context {key : Type} `{MojoKey key}.

(** [Create] on a fixed array returns ok and, as it does not call
    [Resize], leaves [m_TableCount] at the 0 of [Init].  No count of the
    array changes that: [Grow] doubles 0.  Every [Insert] of a non-null key
    returns CouldNotAlloc and leaves the set as it is, and [Contains] and
    [Remove] of a non-null key compute [GetHash() % 0], which has no
    defined result. *)
Theorem Set_on_fixed_array_has_no_table (depth : nat) (config : MojoConfig)
    (alloc : MojoAlloc) (fixed_array : list key) (fixed_array_count : Z) :
  1 < cfg_AllocCountMin config -> 1 < cfg_TableCountMin config ->
  cfg_ShrinkThreshold config * 2 < cfg_GrowThreshold config ->
  0 <= fixed_array_count ->
  exists s,
    MojoSet.Create depth MojoSet.Init config alloc (Some fixed_array)
      fixed_array_count = Some (s, kMojoStatus_Ok) /\
    MojoSet.m_TableCount s = 0 /\
    (forall d k, IsHashNull k = false ->
                 MojoSet.Insert (S d) s k
                 = Some (s, kMojoStatus_CouldNotAlloc)) /\
    (forall k, IsHashNull k = false -> MojoSet.Contains s k = None) /\
    (forall d k, IsHashNull k = false -> MojoSet.Remove d s k = None) /\
    (forall limit, MojoSet.Enumerate s limit = Some []).
Proof.
  intros Ha Ht Hg Hn.
  set (s := MojoSet.mk None (Some fixed_array) 0 fixed_array_count 0 0
              kMojoStatus_Ok (cfg_AllocCountMin config)
              (cfg_TableCountMin config) (cfg_GrowThreshold config)
              (cfg_ShrinkThreshold config) (cfg_AutoGrow config)
              (cfg_AutoShrink config) (cfg_DynamicAlloc config && false)).
  exists s. split; [|split; [reflexivity|split; [|split; [|split]]]].
  - unfold MojoSet.Create. cbn [MojoSet.Init MojoSet.m_Status
      MojoStatus_eqb negb].
    destruct (Z.leb_spec (cfg_AllocCountMin config) 1); [lia|].
    destruct (Z.leb_spec (cfg_TableCountMin config) 1); [lia|].
    destruct (Z.leb_spec (cfg_GrowThreshold config)
                (cfg_ShrinkThreshold config * 2)); [lia|].
    reflexivity.
  - intros d k Hk. cbn [MojoSet.Insert]. unfold MojoSet.Insert_with.
    cbn [s MojoSet.m_Status is_ok]. rewrite Hk.
    assert (Hgrow : forall insert, MojoSet.AutoGrow_with insert s = Some s).
    { intros insert. unfold MojoSet.AutoGrow_with, MojoSet.Grow_with.
      destruct (MojoSet.m_AutoGrow s); [|reflexivity].
      unfold MojoSet.grow_due.
      cbn [s MojoSet.m_TableCount MojoSet.m_ActiveCount
           MojoSet.m_DynamicAlloc MojoSet.m_AllocCount].
      rewrite andb_false_r. cbn [Z.mul Z.leb Z.compare negb].
      unfold MojoSet.Resize_with. cbn [MojoSet.m_Alloc].
      unfold MojoSet.Resize_in_place. cbn [MojoSet.m_TableCount].
      replace (MojoMin 0 fixed_array_count) with 0.
      2:{ unfold MojoMin. destruct (Z.ltb_spec 0 fixed_array_count); lia. }
      reflexivity. }
    rewrite Hgrow. reflexivity.
  - intros k Hk. unfold MojoSet.Contains. cbn [s MojoSet.m_Status is_ok].
    rewrite Hk. reflexivity.
  - intros d k Hk. unfold MojoSet.Remove. cbn [s MojoSet.m_Status is_ok negb].
    rewrite Hk. cbn [negb]. unfold MojoSet.RemoveOne. rewrite Hk.
    reflexivity.
  - intros limit. reflexivity.
Qed.

End FixedArray.

Section FixedArrayMultiMap.
Context {key value : Type} `{MojoKey key} `{MojoValue value}.

(** The same holds for a multimap on a fixed array: its table count
    stays 0, [Insert] returns CouldNotAlloc, and the lookups and removals
    of a non-null key compute [GetHash() % 0]. *)
Theorem MultiMap_on_fixed_array_has_no_table (depth : nat)
    (not_found_value : value) (config : MojoConfig) (alloc : MojoAlloc)
    (fixed_array : list (MojoKeyValue key value)) (fixed_array_count : Z) :
  1 < cfg_AllocCountMin config -> 1 < cfg_TableCountMin config ->
  cfg_ShrinkThreshold config * 2 < cfg_GrowThreshold config ->
  0 <= fixed_array_count ->
  exists m,
    MojoMultiMap.Create depth MojoMultiMap.Init not_found_value config alloc
      (Some fixed_array) fixed_array_count = Some (m, kMojoStatus_Ok) /\
    MojoMultiMap.m_TableCount m = 0 /\
    (forall d k v, IsHashNull k = false ->
                   MojoMultiMap.Insert (S d) m k v
                   = Some (m, kMojoStatus_CouldNotAlloc)) /\
    (forall k, IsHashNull k = false -> MojoMultiMap.Contains m k = None) /\
    (forall k, IsHashNull k = false -> MojoMultiMap.Find m k = None) /\
    (forall d k, IsHashNull k = false -> MojoMultiMap.Remove d m k = None).
Proof.
  intros Ha Ht Hg Hn.
  set (m := MojoMultiMap.mk None (Some fixed_array) not_found_value 0
              fixed_array_count 0 0
              kMojoStatus_Ok (cfg_AllocCountMin config)
              (cfg_TableCountMin config) (cfg_GrowThreshold config)
              (cfg_ShrinkThreshold config) (cfg_AutoGrow config)
              (cfg_AutoShrink config) (cfg_DynamicAlloc config && false)).
  exists m. split; [|split; [reflexivity|split; [|split; [|split]]]].
  - unfold MojoMultiMap.Create. cbn [MojoMultiMap.Init MojoMultiMap.m_Status
      MojoStatus_eqb negb].
    destruct (Z.leb_spec (cfg_AllocCountMin config) 1); [lia|].
    destruct (Z.leb_spec (cfg_TableCountMin config) 1); [lia|].
    destruct (Z.leb_spec (cfg_GrowThreshold config)
                (cfg_ShrinkThreshold config * 2)); [lia|].
    reflexivity.
  - intros d k v Hk. cbn [MojoMultiMap.Insert].
    unfold MojoMultiMap.Insert_with.
    cbn [m MojoMultiMap.m_Status is_ok]. rewrite Hk.
    assert (Hgrow : forall insert,
              MojoMultiMap.AutoGrow_with insert m = Some m).
    { intros insert.
      unfold MojoMultiMap.AutoGrow_with, MojoMultiMap.Grow_with.
      destruct (MojoMultiMap.m_AutoGrow m); [|reflexivity].
      unfold MojoMultiMap.grow_due.
      cbn [m MojoMultiMap.m_TableCount MojoMultiMap.m_ActiveCount
           MojoMultiMap.m_DynamicAlloc MojoMultiMap.m_AllocCount].
      rewrite andb_false_r. cbn [Z.mul Z.leb Z.compare negb].
      unfold MojoMultiMap.Resize_with. cbn [MojoMultiMap.m_Alloc].
      unfold MojoMultiMap.Resize_in_place. cbn [MojoMultiMap.m_TableCount].
      replace (MojoMin 0 fixed_array_count) with 0.
      2:{ unfold MojoMin. destruct (Z.ltb_spec 0 fixed_array_count); lia. }
      reflexivity. }
    rewrite Hgrow. reflexivity.
  - intros k Hk. unfold MojoMultiMap.Contains.
    cbn [m MojoMultiMap.m_Status is_ok]. rewrite Hk. reflexivity.
  - intros k Hk. unfold MojoMultiMap.Find.
    cbn [m MojoMultiMap.m_Status is_ok]. rewrite Hk. reflexivity.
  - intros d k Hk. unfold MojoMultiMap.Remove.
    cbn [m MojoMultiMap.m_Status is_ok negb].
    rewrite Hk. cbn [negb]. unfold MojoMultiMap.RemoveAll. rewrite Hk.
    reflexivity.
Qed.

End FixedArrayMultiMap.

(** A set on an array of eight slots, with the scenario's configuration. *)
Lemma Set_on_fixed_array_has_no_table_witness :
  exists s : MojoSet.t Z,
    MojoSet.Create 0 MojoSet.Init scenario_config []
      (Some [0; 0; 0; 0; 0; 0; 0; 0]) 8 = Some (s, kMojoStatus_Ok) /\
    MojoSet.m_TableCount s = 0 /\
    (forall d k, IsHashNull k = false ->
                 MojoSet.Insert (S d) s k
                 = Some (s, kMojoStatus_CouldNotAlloc)) /\
    (forall k, IsHashNull k = false -> MojoSet.Contains s k = None) /\
    (forall d k, IsHashNull k = false -> MojoSet.Remove d s k = None) /\
    (forall limit, MojoSet.Enumerate s limit = Some []).
Proof.
  apply (Set_on_fixed_array_has_no_table 0 scenario_config []
           [0; 0; 0; 0; 0; 0; 0; 0] 8); simpl; lia.
Defined.

Lemma MultiMap_on_fixed_array_has_no_table_witness :
  exists m : MojoMultiMap.t Z Z,
    MojoMultiMap.Create 0 MojoMultiMap.Init 0 scenario_config []
      (Some (repeat KeyValue_default 8)) 8 = Some (m, kMojoStatus_Ok) /\
    MojoMultiMap.m_TableCount m = 0 /\
    (forall d k v, IsHashNull k = false ->
                   MojoMultiMap.Insert (S d) m k v
                   = Some (m, kMojoStatus_CouldNotAlloc)) /\
    (forall k, IsHashNull k = false -> MojoMultiMap.Contains m k = None) /\
    (forall k, IsHashNull k = false -> MojoMultiMap.Find m k = None) /\
    (forall d k, IsHashNull k = false -> MojoMultiMap.Remove d m k = None).
Proof.
  apply (MultiMap_on_fixed_array_has_no_table 0 0 scenario_config []
           (repeat KeyValue_default 8) 8); simpl; lia.
Defined.

(* ------------------------------------------------------------------------- *)
(** ** Resetting a set *)

Section SetReset.
Context {key : Type} `{MojoKey key}.

(** The first loop of [Reset] empties the slots of the table. *)
Lemma set_Reset_clears (s : MojoSet.t key) (l : list key) :
  set_ok s l ->
  exists l',
    for_range 0 (MojoSet.m_TableCount s)
      (fun i s' => s'' <- MojoSet.store s' i key_default ;;
                   Some (@Next (MojoSet.t key) (MojoSet.t key) s'')) s
    = Some (Next (set_table s l' (MojoSet.m_ActiveCount s))) /\
    length l' = length l /\
    forall j, 0 <= j < MojoSet.m_TableCount s -> key_slot l' j = key_default.
Proof.
  intros [Hl HT]. set (T := MojoSet.m_TableCount s) in *.
  set (P := fun (i : Z) (st : MojoSet.t key) =>
              exists l', st = set_table s l' (MojoSet.m_ActiveCount s) /\
                         length l' = length l /\
                         forall j, 0 <= j < i -> key_slot l' j = key_default).
  destruct (for_up_total P (fun _ : MojoSet.t key => False)
              (fun i s' => s'' <- MojoSet.store s' i key_default ;;
                           Some (@Next (MojoSet.t key) (MojoSet.t key) s''))
              (Z.to_nat (T - 0)) 0 s) as [r [Hr Hres]].
  { exists l. split; [symmetry; apply set_table_id; exact Hl|].
    split; [reflexivity|]. intros j Hj. lia. }
  { intros i st Hi [l' [-> [Hlen Hclear]]].
    rewrite store_set_table by lia.
    eexists. split; [reflexivity|].
    exists (list_set l' (Z.to_nat i) key_default).
    split; [reflexivity|]. split; [rewrite list_set_length; exact Hlen|].
    intros j Hj. destruct (Z.eq_dec j i) as [->|Hne].
    - apply key_slot_set_same. lia.
    - rewrite key_slot_set_other by lia. apply Hclear. lia. }
  unfold for_range. rewrite Hr. destruct r as [st|x]; [|contradiction].
  replace (0 + Z.of_nat (Z.to_nat (T - 0))) with T in Hres by lia.
  destruct Hres as [l' [-> [Hlen Hclear]]]. exists l'. auto.
Qed.

(** A loop of [Resize] over a table without keys moves nothing. *)
Lemma set_reinsert_nothing (s : MojoSet.t key) (l : list key) (hi : Z) :
  MojoSet.m_Keys s = Some l -> hi <= Z.of_nat (length l) ->
  (forall j, 0 <= j < hi -> key_slot l j = key_default) ->
  for_range 0 hi MojoSet.reinsert_occupied s = Some (Next s).
Proof.
  intros Hl Hlen Hclear. unfold for_range.
  assert (Hgen : forall (n : nat) (i : Z),
            0 <= i -> i + Z.of_nat n <= hi ->
            for_up n i MojoSet.reinsert_occupied s = Some (Next s)).
  { induction n as [|n IH]; intros i Hi Hn; cbn [for_up]; [reflexivity|].
    unfold MojoSet.reinsert_occupied at 1. unfold MojoSet.key_at.
    rewrite Hl, zget_key_slot by lia. rewrite Hclear by lia.
    rewrite (proj2 (IsHashNull_default _) eq_refl). cbn [negb].
    apply IH; lia. }
  destruct (Z_le_gt_dec 0 hi).
  - apply Hgen; lia.
  - replace (Z.to_nat (hi - 0)) with 0%nat by lia. reflexivity.
Qed.

Lemma set_insert_nothing
    (insert : MojoSet.t key -> key -> option (MojoSet.t key))
    (s : MojoSet.t key) (l : list key) (hi : Z) :
  hi <= Z.of_nat (length l) ->
  (forall j, 0 <= j < hi -> key_slot l j = key_default) ->
  for_range 0 hi
    (fun i s' =>
       k <- zget l i ;;
       if negb (IsHashNull k)
       then s'' <- insert s' k ;; Some (Next s'')
       else Some (@Next (MojoSet.t key) (MojoSet.t key) s')) s
  = Some (Next s).
Proof.
  intros Hlen Hclear. unfold for_range.
  assert (Hgen : forall (n : nat) (i : Z),
            0 <= i -> i + Z.of_nat n <= hi ->
            for_up n i
              (fun i s' =>
                 k <- zget l i ;;
                 if negb (IsHashNull k)
                 then s'' <- insert s' k ;; Some (Next s'')
                 else Some (@Next (MojoSet.t key) (MojoSet.t key) s')) s
            = Some (Next s)).
  { induction n as [|n IH]; intros i Hi Hn; cbn [for_up]; [reflexivity|].
    rewrite zget_key_slot by lia. rewrite Hclear by lia.
    rewrite (proj2 (IsHashNull_default _) eq_refl). cbn [negb].
    apply IH; lia. }
  destruct (Z_le_gt_dec 0 hi).
  - apply Hgen; lia.
  - replace (Z.to_nat (hi - 0)) with 0%nat by lia. reflexivity.
Qed.

(** A table without keys belongs to an empty set in its invariant. *)
Lemma empty_table_invariant (s : MojoSet.t key) (l : list key) :
  set_ok s l -> MojoSet.m_Status s = kMojoStatus_Ok ->
  MojoSet.m_ActiveCount s = 0 ->
  (forall j, 0 <= j < MojoSet.m_TableCount s -> key_slot l j = key_default) ->
  set_invariant s l /\
  (forall k, ~ member l (MojoSet.m_TableCount s) k) /\
  (forall k, MojoSet.Contains s k = Some false) /\
  (forall limit, MojoSet.Enumerate s limit = Some []).
Proof.
  intros Hok Hst Hcount Hclear. pose proof Hok as [Hl HT].
  assert (Hvac : forall j, 0 <= j < MojoSet.m_TableCount s ->
                           IsHashNull (key_slot l j) = true).
  { intros j Hj. rewrite Hclear by exact Hj.
    apply IsHashNull_default. reflexivity. }
  assert (Hnone : forall k, ~ member l (MojoSet.m_TableCount s) k).
  { intros k [i [Hi [Ho _]]]. rewrite Hvac in Ho by exact Hi. discriminate. }
  assert (Hkeys : table_keys l (MojoSet.m_TableCount s) = []).
  { destruct (table_keys l (MojoSet.m_TableCount s)) as [|x r] eqn:E;
      [reflexivity|].
    exfalso. apply (Hnone x). apply table_keys_member; [lia|].
    rewrite E. left. reflexivity. }
  assert (Hinv : set_probe_invariant l (MojoSet.m_TableCount s)).
  { intros j Hj Ho. rewrite Hvac in Ho by exact Hj. discriminate. }
  split; [|split; [exact Hnone|split]].
  - split; [exact Hok|]. split; [exact Hst|]. split; [exact Hinv|]. split.
    + intros i j Hi _ Ho. rewrite Hvac in Ho by exact Hi. discriminate.
    + unfold count_parity, occupied_slots. rewrite Hl.
      fold (table_keys l (MojoSet.m_TableCount s)). rewrite Hkeys, Hcount.
      reflexivity.
  - intros k.
    assert (Hem : set_has_empty l (MojoSet.m_TableCount s)).
    { exists 0. split; [lia | apply Hvac; lia]. }
    destruct (set_Contains_cases s l k Hok Hst Hinv Hem)
      as [[_ Hm] | [-> _]]; [|reflexivity].
    exfalso. exact (Hnone k Hm).
  - intros limit. rewrite (set_Enumerate_spec s l Hok Hst), Hkeys.
    destruct limit; reflexivity.
Qed.


End SetReset.


(* ------------------------------------------------------------------------- *)
(** ** Growing the table of a set in place *)

Section SetGrowCounting.
Context {key : Type} `{MojoKey key}.

(** The number of keys of a run of occupied slots. *)
Lemma table_keys_run (l : list key) (a : Z) (n : nat) :
  0 <= a -> a + Z.of_nat n <= Z.of_nat (length l) ->
  all_occupied l a (a + Z.of_nat n - 1) ->
  Z.of_nat (length (table_keys l (a + Z.of_nat n)))
  = Z.of_nat (length (table_keys l a)) + Z.of_nat n.
Proof.
  intros Ha. induction n as [|n IH]; intros Hlen Hocc.
  - replace (a + Z.of_nat 0) with a by lia. lia.
  - replace (a + Z.of_nat (S n)) with (a + Z.of_nat n + 1) by lia.
    rewrite table_keys_succ by lia.
    rewrite (Hocc (a + Z.of_nat n)) by lia.
    rewrite length_app. cbn [length].
    rewrite Nat2Z.inj_add, IH; [lia | lia |].
    intros y Hy. apply Hocc. lia.
Qed.

(** The number of keys does not go up over a run of empty slots. *)
Lemma table_keys_clean (l : list key) (a : Z) (n : nat) :
  0 <= a -> a + Z.of_nat n <= Z.of_nat (length l) -> clean_tail l a ->
  table_keys l (a + Z.of_nat n) = table_keys l a.
Proof.
  intros Ha. induction n as [|n IH]; intros Hlen Hclean.
  - replace (a + Z.of_nat 0) with a by lia. reflexivity.
  - replace (a + Z.of_nat (S n)) with (a + Z.of_nat n + 1) by lia.
    rewrite table_keys_succ by lia.
    rewrite (Hclean (a + Z.of_nat n)) by lia.
    rewrite app_nil_r. apply IH; [lia | exact Hclean].
Qed.

(** A table of [2 * T] slots whose upper half is full and whose lower half
    holds a key has more than [T] keys. *)
Lemma upper_full_count (l : list key) (T j : Z) :
  0 < T -> 2 * T <= Z.of_nat (length l) ->
  all_occupied l T (2 * T - 1) ->
  0 <= j < T -> IsHashNull (key_slot l j) = false ->
  T + 1 <= Z.of_nat (length (table_keys l (2 * T))).
Proof.
  intros HT Hlen Hfull Hj Ho.
  pose proof (table_keys_run l T (Z.to_nat T) ltac:(lia) ltac:(lia)) as Hrun.
  replace (T + Z.of_nat (Z.to_nat T)) with (2 * T) in Hrun by lia.
  rewrite Hrun by exact Hfull.
  assert (Hin : In (key_slot l j) (table_keys l T)).
  { apply table_keys_member; [lia|]. exists j. auto. }
  destruct (table_keys l T) as [|x r]; [contradiction|].
  cbn [length]. lia.
Qed.

(** Either the lower half holds a key or it holds none. *)
Lemma lower_half_cases (l : list key) (T : Z) :
  (exists j, 0 <= j < T /\ IsHashNull (key_slot l j) = false)
  \/ (forall j, 0 <= j < T -> IsHashNull (key_slot l j) = true).
Proof.
  destruct (Z_le_gt_dec T 0) as [Hle|Hgt].
  { right. intros j Hj. lia. }
  assert (Hgen : forall n : nat,
            (exists j, 0 <= j < Z.of_nat n
                       /\ IsHashNull (key_slot l j) = false)
            \/ (forall j, 0 <= j < Z.of_nat n ->
                          IsHashNull (key_slot l j) = true)).
  { induction n as [|n [[j [Hj Ho]] | Hnone]].
    - right. intros j Hj. lia.
    - left. exists j. split; [lia | exact Ho].
    - destruct (IsHashNull (key_slot l (Z.of_nat n))) eqn:E.
      + right. intros j Hj. destruct (Z.eq_dec j (Z.of_nat n)) as [->|Hne];
          [exact E | apply Hnone; lia].
      + left. exists (Z.of_nat n). split; [lia | exact E]. }
  destruct (Hgen (Z.to_nat T)) as [[j [Hj Ho]] | Hnone].
  - left. exists j. split; [lia | exact Ho].
  - right. intros j Hj. apply Hnone. lia.
Qed.

(** The home of a key in the doubled table, taken modulo the old count, is
    its home in the old table. *)
Lemma home_doubled (k : key) (T : Z) :
  0 < T -> (GetHash k mod (2 * T)) mod T = GetHash k mod T.
Proof.
  intros HT. apply Z.mod_mod_divide. exists 2. lia.
Qed.

Lemma home_doubled_cases (k : key) (T : Z) :
  0 < T ->
  GetHash k mod (2 * T) = GetHash k mod T
  \/ GetHash k mod (2 * T) = GetHash k mod T + T.
Proof.
  intros HT. pose proof (home_doubled k T HT) as Hm.
  pose proof (Z.mod_pos_bound (GetHash k) (2 * T) ltac:(lia)) as Hb.
  destruct (Z_lt_ge_dec (GetHash k mod (2 * T)) T) as [Hlt|Hge].
  - left. rewrite Z.mod_small in Hm by lia. exact Hm.
  - right. rewrite <- Hm.
    rewrite (mod_wrap (GetHash k mod (2 * T)) T) by lia. lia.
Qed.

End SetGrowCounting.

Section SetGrowMove.
Context {key : Type} `{MojoKey key}.
Variable W : Z.
Variable l : list key.
Variables i p : Z.
Hypothesis Hlen : W <= Z.of_nat (length l).
Hypothesis Hi : 0 <= i < W.
Hypothesis Hp : 0 <= p < W.
Hypothesis Hoi : IsHashNull (key_slot l i) = false.
Hypothesis Hhit : MojoSet.hit (key_slot l i) (key_slot l p) = true.
Hypothesis Hnd : no_duplicates l W.
Hypothesis Hpath :
  forall y, 0 <= y < W ->
            dist W (GetHash (key_slot l i) mod W) y
            < dist W (GetHash (key_slot l i) mod W) p ->
            IsHashNull (key_slot l y) = false /\ key_slot l y <> key_slot l i.
Hypothesis Hle :
  dist W (GetHash (key_slot l i) mod W) p
  <= dist W (GetHash (key_slot l i) mod W) i.

(** The table after [Reinsert( i )] found slot [p]. *)
Let l' : list key :=
  if p =? i then l
  else list_set (list_set l (Z.to_nat p) (key_slot l i)) (Z.to_nat i)
         key_default.

Lemma reinsert_target_empty : p <> i -> IsHashNull (key_slot l p) = true.
Proof.
  intros Hpi. destruct (IsHashNull (key_slot l p)) eqn:E; [reflexivity|].
  exfalso. apply Hpi. apply (set_hit_occupied _ _ E) in Hhit.
  apply Hnd; auto.
Qed.

Lemma reinsert_target_before : p <> i ->
  dist W (GetHash (key_slot l i) mod W) p
  < dist W (GetHash (key_slot l i) mod W) i.
Proof.
  intros Hpi.
  assert (Hh : 0 <= GetHash (key_slot l i) mod W < W)
    by (apply Z.mod_pos_bound; lia).
  destruct (Z.eq_dec (dist W (GetHash (key_slot l i) mod W) p)
              (dist W (GetHash (key_slot l i) mod W) i)) as [E|E]; [|lia].
  exfalso. apply Hpi. apply (dist_inj W _ p i Hh Hp Hi E).
Qed.

Lemma reinserted_slot (y : Z) :
  0 <= y < W ->
  key_slot l' y
  = if p =? i then key_slot l y
    else if y =? i then key_default
         else if y =? p then key_slot l i else key_slot l y.
Proof.
  intros Hy. unfold l'. destruct (Z.eqb_spec p i) as [E|E]; [reflexivity|].
  apply (key_slot_move l W); auto.
Qed.

Lemma reinserted_length : length l' = length l.
Proof.
  unfold l'. destruct (p =? i); [reflexivity|].
  rewrite !list_set_length. reflexivity.
Qed.

(** A slot other than [i] that was occupied still is. *)
Lemma reinserted_occupied (y : Z) :
  0 <= y < W -> (p = i \/ y <> i) ->
  IsHashNull (key_slot l y) = false -> IsHashNull (key_slot l' y) = false.
Proof.
  intros Hy Hyi Ho. rewrite reinserted_slot by exact Hy.
  destruct (Z.eqb_spec p i) as [E|E]; [exact Ho|].
  destruct (Z.eqb_spec y i) as [->|_]; [destruct Hyi; contradiction|].
  destruct (Z.eqb_spec y p) as [->|_]; [exact Hoi | exact Ho].
Qed.

(** The key that was reinserted is reachable where it is now. *)
Lemma reinserted_reachable : set_reachable l' W p.
Proof.
  assert (Hh : 0 <= GetHash (key_slot l i) mod W < W)
    by (apply Z.mod_pos_bound; lia).
  assert (Hkp : key_slot l' p = key_slot l i).
  { rewrite reinserted_slot by exact Hp.
    destruct (Z.eqb_spec p i) as [->|E]; [reflexivity|].
    destruct (Z.eqb_spec p i) as [E'|_]; [contradiction|].
    rewrite Z.eqb_refl. reflexivity. }
  intros y Hy Hd. rewrite Hkp in Hd.
  apply reinserted_occupied; [exact Hy | | apply (Hpath y Hy Hd)].
  destruct (Z.eq_dec p i) as [E|E]; [left; exact E | right].
  intros ->. pose proof (reinsert_target_before E). lia.
Qed.

(** A key that was reachable by a path that does not pass [i] still is. *)
Lemma reinserted_keeps_reachable (j : Z) :
  0 <= j < W -> j <> i -> j <> p ->
  set_reachable l W j ->
  (p = i
   \/ ~ dist W (GetHash (key_slot l j) mod W) i
        < dist W (GetHash (key_slot l j) mod W) j) ->
  set_reachable l' W j.
Proof.
  intros Hj Hji Hjp Hreach Hoff.
  assert (Hkj : key_slot l' j = key_slot l j).
  { rewrite reinserted_slot by exact Hj.
    destruct (Z.eqb_spec p i) as [E|E]; [reflexivity|].
    destruct (Z.eqb_spec j i) as [E'|_]; [contradiction|].
    destruct (Z.eqb_spec j p) as [E'|_]; [contradiction|]. reflexivity. }
  intros y Hy Hd. rewrite Hkj in Hd.
  apply reinserted_occupied; [exact Hy | | apply (Hreach y Hy Hd)].
  destruct Hoff as [E|Hoff]; [left; exact E | right].
  intros ->. contradiction.
Qed.

End SetGrowMove.

Section SetGrowBasics.
Context {key : Type} `{MojoKey key}.

Lemma home_range2 (T : Z) (k : key) :
  0 < T -> 0 <= GetHash k mod (2 * T) < 2 * T.
Proof. intros HT. apply Z.mod_pos_bound. lia. Qed.

(** Moving a key inside a table of [2 * T] slots keeps the keys. *)
Lemma same_keys_reinserted (T : Z) (l0 l : list key) (i p : Z) :
  0 < T -> 2 * T <= Z.of_nat (length l0) ->
  same_keys l0 l (2 * T) -> 0 <= i < 2 * T -> 0 <= p < 2 * T -> p <> i ->
  IsHashNull (key_slot l i) = false -> IsHashNull (key_slot l p) = true ->
  same_keys l0
    (list_set (list_set l (Z.to_nat p) (key_slot l i)) (Z.to_nat i)
       key_default) (2 * T).
Proof.
  intros HT Hlen0 Hsame Hi Hp Hpi Hoi Hvp.
  apply (move_same_keys (MojoSet.set_TableCount MojoSet.Init (2 * T)) l0 0 0);
    cbn [MojoSet.m_TableCount MojoSet.set_TableCount]; auto. lia.
Qed.

End SetGrowBasics.

Section SetGrowFirstLoop.
Context {key : Type} `{MojoKey key}.
Variable T : Z.
Variable l0 : list key.
Hypothesis HT : 0 < T.
Hypothesis Hlen0 : 2 * T <= Z.of_nat (length l0).
Hypothesis Hinv0 : set_probe_invariant l0 T.
Hypothesis Hcount0 : Z.of_nat (length (table_keys l0 (2 * T))) <= T.

Lemma growing_start :
  no_duplicates l0 T -> clean_tail l0 T -> growing l0 l0 T 0.
Proof.
  intros Hnd Hclean. split; [|split; [|split]].
  - apply same_keys_refl. intros a b Ha Hb Ho Hab.
    assert (Ha' : 0 <= a < T).
    { destruct (Z_lt_ge_dec a T); [lia|]. rewrite Hclean in Ho by lia.
      discriminate. }
    assert (Hb' : 0 <= b < T).
    { destruct (Z_lt_ge_dec b T); [lia|]. rewrite Hab in Ho.
      rewrite Hclean in Ho by lia. discriminate. }
    apply Hnd; auto.
  - reflexivity.
  - intros j Hj Ho Hout. exfalso. rewrite Hclean in Ho by lia. discriminate.
  - intros j Hj Ho. exfalso. rewrite Hclean in Ho by lia. discriminate.
Qed.

Lemma growing_skip (l : list key) (i : Z) :
  growing l0 l T i -> 0 <= i < T -> IsHashNull (key_slot l i) = true ->
  growing l0 l T (i + 1).
Proof.
  intros [Hsame [Ha [Hc Hw]]] Hi Hv. split; [exact Hsame|].
  split; [intros j Hj; apply Ha; lia|]. split; [|exact Hw].
  intros j Hj Ho Hout. apply Hc; auto.
  intros Hin. assert (j = i) by lia. subst j. congruence.
Qed.

(** One turn of the first loop on an occupied slot. *)
Lemma growing_step (l : list key) (i p : Z) :
  growing l0 l T i -> 0 <= i < T -> IsHashNull (key_slot l i) = false ->
  0 <= p < 2 * T ->
  MojoSet.hit (key_slot l i) (key_slot l p) = true ->
  (forall y, 0 <= y < 2 * T ->
             dist (2 * T) (GetHash (key_slot l i) mod (2 * T)) y
             < dist (2 * T) (GetHash (key_slot l i) mod (2 * T)) p ->
             IsHashNull (key_slot l y) = false
             /\ key_slot l y <> key_slot l i) ->
  dist (2 * T) (GetHash (key_slot l i) mod (2 * T)) p
  <= dist (2 * T) (GetHash (key_slot l i) mod (2 * T)) i ->
  growing l0
    (if p =? i then l
     else list_set (list_set l (Z.to_nat p) (key_slot l i)) (Z.to_nat i)
            key_default) T (i + 1).
Proof.
  intros [Hsame [Ha [Hc Hw]]] Hi Hoi Hp Hhit Hpath Hle.
  pose proof Hsame as [Hlen [Hmem [Hnd Hcnt]]].
  assert (HlenW : 2 * T <= Z.of_nat (length l)) by (rewrite Hlen; lia).
  assert (Hi2 : 0 <= i < 2 * T) by lia.
  pose proof (home_range2 T (key_slot l i) HT) as Hh.
  destruct (Z.eq_dec p i) as [->|Hpi].
  { (* the key stays *)
    rewrite Z.eqb_refl. split; [exact Hsame|].
    split; [intros j Hj; apply Ha; lia|]. split; [|exact Hw].
    intros j Hj Ho Hout. destruct (Z.eq_dec j i) as [->|Hji].
    - left. intros y Hy Hd. apply (Hpath y Hy Hd).
    - apply Hc; auto. lia. }
  (* the key moves to the empty slot [p] *)
  pose proof (reinsert_target_empty (2 * T) l i p Hi2 Hp Hhit Hnd Hpi) as Hvp.
  pose proof (reinsert_target_before (2 * T) l i p Hi2 Hp Hle Hpi) as Hlt.
  pose proof (reinserted_slot (2 * T) l i p HlenW Hi2 Hp) as Hslot.
  pose proof (reinserted_occupied (2 * T) l i p HlenW Hi2 Hp Hoi) as Hkeep.
  pose proof (reinserted_reachable (2 * T) l i p HlenW Hi2 Hp Hoi Hhit Hpath
                Hle) as Hrp.
  pose proof (reinserted_keeps_reachable (2 * T) l i p HlenW Hi2 Hp Hoi)
    as Hrj.
  destruct (Z.eqb_spec p i) as [E|_]; [contradiction|].
  set (l' := list_set (list_set l (Z.to_nat p) (key_slot l i)) (Z.to_nat i)
               key_default) in *.
  assert (Hp_out : ~ (i < p < T)).
  { intros Hin.
    assert (Ho0 : IsHashNull (key_slot l0 i) = false)
      by (rewrite <- Ha by lia; exact Hoi).
    pose proof (Hinv0 i Hi Ho0) as Hreach. unfold set_reachable in Hreach.
    rewrite <- (Ha i) in Hreach by lia.
    assert (Hold : 0 <= GetHash (key_slot l i) mod T < T)
      by (apply Z.mod_pos_bound; lia).
    assert (Hop : IsHashNull (key_slot l0 p) = false).
    { apply Hreach; [lia|].
      destruct (home_doubled_cases (key_slot l i) T HT) as [E|E];
        rewrite E in Hlt, Hh; cyc. }
    rewrite <- (Ha p) in Hop by lia. congruence. }
  split; [|split; [|split]].
  - apply same_keys_reinserted; auto; lia.
  - intros j Hj. rewrite Hslot by lia.
    destruct (Z.eqb_spec j i) as [E|_]; [lia|].
    destruct (Z.eqb_spec j p) as [E|_]; [lia|]. apply Ha. lia.
  - intros j Hj Ho Hout. rewrite Hslot in Ho by exact Hj.
    destruct (Z.eqb_spec j i) as [->|Hji].
    { rewrite (proj2 (IsHashNull_default _) eq_refl) in Ho. discriminate. }
    destruct (Z.eqb_spec j p) as [->|Hjp]; [left; exact Hrp|].
    pose proof (home_range2 T (key_slot l j) HT) as Hhj.
    destruct (Hc j Hj Ho ltac:(lia)) as [Hreach | [HjT Hrun]].
    + destruct (Z_lt_ge_dec
                  (dist (2 * T) (GetHash (key_slot l j) mod (2 * T)) i)
                  (dist (2 * T) (GetHash (key_slot l j) mod (2 * T)) j))
        as [Hon|Hoff].
      * destruct (Z_lt_ge_dec j T) as [Hlow|Hup].
        -- (* the whole upper half would be occupied *)
           exfalso.
           assert (Hfull : all_occupied l T (2 * T - 1)).
           { intros y Hy. apply Hreach; [lia|]. cyc. }
           pose proof (upper_full_count l T i HT HlenW Hfull Hi Hoi). lia.
        -- right. split; [lia|]. intros y Hy.
           apply Hkeep; [lia | right; lia |].
           destruct (Z.eq_dec y j) as [->|Hyj]; [exact Ho|].
           apply Hreach; [lia|].
           pose proof (Hw j ltac:(lia) Ho). cyc.
      * left. apply Hrj; auto; right; lia.
    + right. split; [exact HjT|]. intros y Hy.
      apply Hkeep; [lia | right; lia | apply Hrun; exact Hy].
  - intros j Hj Ho. rewrite Hslot in Ho |- * by lia.
    destruct (Z.eqb_spec j i) as [E|_]; [lia|].
    destruct (Z.eqb_spec j p) as [->|_]; [cyc | apply Hw; assumption].
Qed.

End SetGrowFirstLoop.

Section SetGrowSecondLoop.
Context {key : Type} `{MojoKey key}.
Variable T : Z.
Variable l1 : list key.
Hypothesis HT : 0 < T.
Hypothesis Hlen1 : 2 * T <= Z.of_nat (length l1).
Hypothesis Hcount1 : Z.of_nat (length (table_keys l1 (2 * T))) <= T.

Lemma settling_start (l0 : list key) :
  growing l0 l1 T T -> settling l1 l1 T T.
Proof.
  intros [[_ [_ [Hnd _]]] [_ [Hc Hw]]].
  split; [apply same_keys_refl; exact Hnd|]. split; [reflexivity|].
  split; [intros y Hy; lia|]. split; [|split; [exact Hw|]].
  - intros j Hj Ho. apply Hc; auto. lia.
  - destruct (lower_half_cases l1 T) as [Hsome | Hnone]; [left; exact Hsome|].
    right. intros j Hj Ho. rewrite Hnone in Ho by exact Hj. discriminate.
Qed.

(** The second loop ends at an empty slot, or at the end of the table, with
    the probing invariant of the doubled table. *)
Lemma settling_done (l : list key) (i : Z) :
  settling l1 l T i ->
  i = 2 * T \/ IsHashNull (key_slot l i) = true ->
  set_probe_invariant l (2 * T) /\ same_keys l1 l (2 * T).
Proof.
  intros [Hsame [_ [_ [Hc _]]]] Hend. split; [|exact Hsame].
  intros j Hj Ho. destruct (Hc j Hj Ho) as [Hreach | [Hij Hrun]];
    [exact Hreach|].
  exfalso. destruct Hend as [-> | Hv]; [lia|].
  rewrite (Hrun i) in Hv by lia. discriminate.
Qed.

(** One turn of the second loop on an occupied slot. *)
Lemma settling_step (l : list key) (i p : Z) :
  settling l1 l T i -> T <= i < 2 * T ->
  IsHashNull (key_slot l i) = false ->
  0 <= p < 2 * T ->
  MojoSet.hit (key_slot l i) (key_slot l p) = true ->
  (forall y, 0 <= y < 2 * T ->
             dist (2 * T) (GetHash (key_slot l i) mod (2 * T)) y
             < dist (2 * T) (GetHash (key_slot l i) mod (2 * T)) p ->
             IsHashNull (key_slot l y) = false
             /\ key_slot l y <> key_slot l i) ->
  dist (2 * T) (GetHash (key_slot l i) mod (2 * T)) p
  <= dist (2 * T) (GetHash (key_slot l i) mod (2 * T)) i ->
  settling l1
    (if p =? i then l
     else list_set (list_set l (Z.to_nat p) (key_slot l i)) (Z.to_nat i)
            key_default) T (i + 1).
Proof.
  intros [Hsame [Hd [Hg [Hc [Hw Hf]]]]] Hi Hoi Hp Hhit Hpath Hle.
  pose proof Hsame as [Hlen [Hmem [Hnd Hcnt]]].
  assert (HlenW : 2 * T <= Z.of_nat (length l)) by (rewrite Hlen; lia).
  assert (Hi2 : 0 <= i < 2 * T) by lia.
  pose proof (home_range2 T (key_slot l i) HT) as Hh.
  pose proof (Hw i Hi Hoi) as Hhi.
  assert (Hg' : all_occupied l1 T (i + 1 - 1)).
  { intros y Hy. destruct (Z.eq_dec y i) as [->|Hyi].
    - rewrite <- Hd by lia. exact Hoi.
    - apply Hg. lia. }
  destruct (Z.eq_dec p i) as [->|Hpi].
  { (* the key stays *)
    rewrite Z.eqb_refl. split; [exact Hsame|].
    split; [intros y Hy; apply Hd; lia|]. split; [exact Hg'|].
    split; [|split; [exact Hw | exact Hf]].
    intros j Hj Ho. destruct (Hc j Hj Ho) as [Hreach | [Hij Hrun]];
      [left; exact Hreach|].
    destruct (Z.eq_dec j i) as [->|Hji].
    - left. intros y Hy Hdy. apply (Hpath y Hy Hdy).
    - right. split; [lia|]. intros y Hy. apply Hrun. lia. }
  (* the key moves back to the empty slot [p] *)
  pose proof (reinsert_target_empty (2 * T) l i p Hi2 Hp Hhit Hnd Hpi) as Hvp.
  pose proof (reinsert_target_before (2 * T) l i p Hi2 Hp Hle Hpi) as Hlt.
  pose proof (reinserted_slot (2 * T) l i p HlenW Hi2 Hp) as Hslot.
  pose proof (reinserted_occupied (2 * T) l i p HlenW Hi2 Hp Hoi) as Hkeep.
  pose proof (reinserted_reachable (2 * T) l i p HlenW Hi2 Hp Hoi Hhit Hpath
                Hle) as Hrp.
  pose proof (reinserted_keeps_reachable (2 * T) l i p HlenW Hi2 Hp Hoi)
    as Hrj.
  destruct (Z.eqb_spec p i) as [E|_]; [contradiction|].
  set (l' := list_set (list_set l (Z.to_nat p) (key_slot l i)) (Z.to_nat i)
               key_default) in *.
  assert (Hpi' : GetHash (key_slot l i) mod (2 * T) <= p < i) by cyc.
  split; [|split; [|split; [exact Hg'|split; [|split]]]].
  - apply same_keys_reinserted; auto; lia.
  - intros y Hy. rewrite Hslot by lia.
    destruct (Z.eqb_spec y i) as [E|_]; [lia|].
    destruct (Z.eqb_spec y p) as [E|_]; [lia|]. apply Hd. lia.
  - intros j Hj Ho. rewrite Hslot in Ho by exact Hj.
    destruct (Z.eqb_spec j i) as [->|Hji].
    { rewrite (proj2 (IsHashNull_default _) eq_refl) in Ho. discriminate. }
    destruct (Z.eqb_spec j p) as [->|Hjp]; [left; exact Hrp|].
    pose proof (home_range2 T (key_slot l j) HT) as Hhj.
    destruct (Hc j Hj Ho) as [Hreach | [Hij Hrun]].
    + destruct (Z_lt_ge_dec
                  (dist (2 * T) (GetHash (key_slot l j) mod (2 * T)) i)
                  (dist (2 * T) (GetHash (key_slot l j) mod (2 * T)) j))
        as [Hon|Hoff].
      * destruct (Z_lt_ge_dec j T) as [Hlow|Hup].
        -- (* a key of the lower half whose path goes through the upper
              half: the upper half was full when the loop began *)
           exfalso.
           assert (Hwrap : j < GetHash (key_slot l j) mod (2 * T) <= i)
             by cyc.
           destruct Hf as [[j' [Hj' Ho']] | Hnowrap].
           2:{ pose proof (Hnowrap j ltac:(lia) Ho). lia. }
           assert (Hfull : all_occupied l1 T (2 * T - 1)).
           { intros y Hy. destruct (Z_lt_ge_dec y i) as [Hyi|Hyi].
             - apply Hg. lia.
             - rewrite <- Hd by lia. apply Hreach; [lia|]. cyc. }
           pose proof (upper_full_count l1 T j' HT Hlen1 Hfull Hj' Ho'). lia.
        -- right. pose proof (Hw j ltac:(lia) Ho) as Hhj'.
           assert (Hij : i < j) by cyc.
           split; [lia|]. intros y Hy.
           apply Hkeep; [lia | right; lia |].
           destruct (Z.eq_dec y j) as [->|Hyj]; [exact Ho|].
           apply Hreach; [lia|]. cyc.
      * left. apply Hrj; auto; right; lia.
    + right. split; [lia|]. intros y Hy.
      apply Hkeep; [lia | right; lia | apply Hrun; lia].
  - intros j Hj Ho. rewrite Hslot in Ho |- * by lia.
    destruct (Z.eqb_spec j i) as [->|_].
    { rewrite (proj2 (IsHashNull_default _) eq_refl) in Ho. discriminate. }
    destruct (Z.eqb_spec j p) as [->|_]; [lia | apply Hw; assumption].
  - destruct Hf as [Hsome | Hnowrap]; [left; exact Hsome|].
    right. intros j Hj Ho. rewrite Hslot in Ho |- * by lia.
    destruct (Z.eqb_spec j i) as [->|_]; [lia|].
    destruct (Z.eqb_spec j p) as [->|_]; [lia | apply Hnowrap; assumption].
Qed.

End SetGrowSecondLoop.

Section SetGrowInPlace.
Context {key : Type} `{MojoKey key}.

(** The keys of a table whose tail is empty, counted over more slots. *)
Lemma clean_tail_keys (l : list key) (T : Z) :
  0 <= T -> 2 * T <= Z.of_nat (length l) -> clean_tail l T ->
  table_keys l (2 * T) = table_keys l T /\
  (forall k, member l (2 * T) k <-> member l T k).
Proof.
  intros HT Hlen Hclean. split.
  - pose proof (table_keys_clean l T (Z.to_nat T) HT ltac:(lia) Hclean) as E.
    replace (T + Z.of_nat (Z.to_nat T)) with (2 * T) in E by lia. exact E.
  - intros k. split.
    + intros [i [Hi [Ho Hk]]]. exists i. split; [|auto].
      destruct (Z_lt_ge_dec i T); [lia|].
      rewrite Hclean in Ho by lia. discriminate.
    + intros [i [Hi [Ho Hk]]]. exists i. split; [lia | auto].
Qed.

(** [Resize] in place to the double of the table count, on a set in its
    invariant whose buffer holds the doubled table and is empty behind the
    table: every key is reachable in the doubled table afterwards. *)
Lemma set_Resize_in_place_doubles (s : MojoSet.t key) (l0 : list key) :
  let T := MojoSet.m_TableCount s in
  set_invariant s l0 -> 2 * T <= Z.of_nat (length l0) -> clean_tail l0 T ->
  exists l2,
    MojoSet.Resize_in_place s (2 * T)
    = Some (set_table (MojoSet.set_TableCount s (2 * T)) l2
              (MojoSet.m_ActiveCount s)) /\
    set_invariant
      (set_table (MojoSet.set_TableCount s (2 * T)) l2
         (MojoSet.m_ActiveCount s)) l2 /\
    length l2 = length l0 /\
    (forall k, member l2 (2 * T) k <-> member l0 T k) /\
    clean_tail l2 (2 * T).
Proof.
  intros T Hinvs Hlen0 Hclean.
  pose proof Hinvs as [Hok [Hst [Hinv [Hnd Hpar]]]].
  pose proof Hok as [Hl HT]. fold T in HT, Hinv, Hnd.
  assert (HT0 : 0 < T) by lia.
  destruct (clean_tail_keys l0 T ltac:(lia) Hlen0 Hclean) as [Hkeys0 Hmem0].
  assert (HN : MojoSet.m_ActiveCount s = Z.of_nat (length (table_keys l0 T))).
  { rewrite Hpar. unfold occupied_slots. rewrite Hl. reflexivity. }
  assert (Hcount0 : Z.of_nat (length (table_keys l0 (2 * T))) <= T).
  { rewrite Hkeys0. apply table_keys_bound. lia. }
  set (n := MojoSet.m_ActiveCount s) in *.
  set (s1 := MojoSet.set_TableCount s (2 * T)).
  assert (Hs1 : s1 = set_table s1 l0 n).
  { symmetry. apply (set_table_id s1 l0). exact Hl. }
  unfold MojoSet.Resize_in_place. fold T.
  destruct (Z.ltb_spec (2 * T) T) as [Hc|_]; [lia|].
  destruct (Z.ltb_spec T (2 * T)) as [_|Hc]; [|lia].
  fold s1.
  (* one turn of either loop on an occupied slot *)
  assert (Hreinsert : forall l i,
            length l = length l0 -> 0 <= i < 2 * T ->
            exists p,
              0 <= p < 2 * T /\
              MojoSet.hit (key_slot l i) (key_slot l p) = true /\
              (forall y, 0 <= y < 2 * T ->
                 dist (2 * T) (GetHash (key_slot l i) mod (2 * T)) y
                 < dist (2 * T) (GetHash (key_slot l i) mod (2 * T)) p ->
                 IsHashNull (key_slot l y) = false
                 /\ key_slot l y <> key_slot l i) /\
              dist (2 * T) (GetHash (key_slot l i) mod (2 * T)) p
              <= dist (2 * T) (GetHash (key_slot l i) mod (2 * T)) i /\
              MojoSet.Reinsert (set_table s1 l n) i
              = Some (set_table s1
                        (if p =? i then l
                         else list_set
                                (list_set l (Z.to_nat p) (key_slot l i))
                                (Z.to_nat i) key_default) n)).
  { intros l i Hlen Hi.
    pose proof (set_Reinsert_table s1 l n i) as Hre.
    cbn [s1 MojoSet.m_TableCount MojoSet.set_TableCount] in Hre.
    apply Hre; [rewrite Hlen; lia | exact Hi]. }
  assert (Htail : forall (l : list key) i p,
            0 <= i < 2 * T -> 0 <= p < 2 * T ->
            clean_tail l (2 * T) ->
            clean_tail
              (if p =? i then l
               else list_set (list_set l (Z.to_nat p) (key_slot l i))
                      (Z.to_nat i) key_default) (2 * T)).
  { intros l i p Hi Hp Hcl y Hy. destruct (p =? i); [apply Hcl; exact Hy|].
    rewrite !key_slot_set_other by lia. apply Hcl. exact Hy. }
  (* the first loop *)
  set (P1 := fun (i : Z) (st : MojoSet.t key) =>
               exists l, st = set_table s1 l n /\ growing l0 l T i /\
                         clean_tail l (2 * T)).
  destruct (for_up_total P1 (fun _ : MojoSet.t key => False)
              MojoSet.reinsert_occupied (Z.to_nat (T - 0)) 0 s1)
    as [r1 [Hr1 Hres1]].
  { exists l0. split; [exact Hs1|]. split.
    - apply growing_start; assumption.
    - intros y Hy. apply Hclean. lia. }
  { intros i st Hi [l [-> [Hgrow Hcl]]].
    pose proof Hgrow as [[Hlen _] _].
    unfold MojoSet.reinsert_occupied.
    rewrite key_at_set_table by (rewrite Hlen; lia).
    destruct (IsHashNull (key_slot l i)) eqn:Ho; cbn [negb].
    - eexists. split; [reflexivity|]. exists l. split; [reflexivity|].
      split; [|exact Hcl]. apply growing_skip; [exact Hgrow | lia | exact Ho].
    - destruct (Hreinsert l i Hlen ltac:(lia))
        as [p [Hp [Hhit [Hpath [Hle Hre]]]]].
      rewrite Hre. eexists. split; [reflexivity|]. eexists.
      split; [reflexivity|]. split.
      + apply (growing_step T l0 HT0 Hlen0 Hinv Hcount0 l i p); auto. lia.
      + apply Htail; auto. lia. }
  unfold for_range. rewrite Hr1. destruct r1 as [st1|x]; [|contradiction].
  replace (0 + Z.of_nat (Z.to_nat (T - 0))) with T in Hres1 by lia.
  destruct Hres1 as [l1 [-> [Hgrow1 Hcl1]]]. cbn [loop_end].
  pose proof Hgrow1 as [[Hlen1 [Hmem1 [Hnd1 Hcnt1]]] _].
  assert (Hlen1' : 2 * T <= Z.of_nat (length l1)) by (rewrite Hlen1; lia).
  assert (Hcount1 : Z.of_nat (length (table_keys l1 (2 * T))) <= T) by lia.
  (* the second loop *)
  set (Q := fun st : MojoSet.t key =>
              exists l, st = set_table s1 l n /\
                        set_probe_invariant l (2 * T) /\
                        same_keys l1 l (2 * T) /\ clean_tail l (2 * T)).
  set (P2 := fun (i : Z) (st : MojoSet.t key) =>
               exists l, st = set_table s1 l n /\ settling l1 l T i /\
                         clean_tail l (2 * T)).
  destruct (for_up_total P2 Q MojoSet.reinsert_until_empty
              (Z.to_nat (2 * T - T)) T (set_table s1 l1 n))
    as [r2 [Hr2 Hres2]].
  { exists l1. split; [reflexivity|]. split; [|exact Hcl1].
    apply (settling_start T l1 l0). exact Hgrow1. }
  { intros i st Hi [l [-> [Hset Hcl]]].
    pose proof Hset as [[Hlen _] _].
    unfold MojoSet.reinsert_until_empty.
    rewrite key_at_set_table by (rewrite Hlen, Hlen1; lia).
    destruct (IsHashNull (key_slot l i)) eqn:Ho.
    - eexists. split; [reflexivity|]. exists l. split; [reflexivity|].
      destruct (settling_done T l1 l i Hset (or_intror Ho)) as [Hi2 Hs2].
      auto.
    - destruct (Hreinsert l i ltac:(congruence) ltac:(lia))
        as [p [Hp [Hhit [Hpath [Hle Hre]]]]].
      rewrite Hre. eexists. split; [reflexivity|]. eexists.
      split; [reflexivity|]. split.
      + apply (settling_step T l1 HT0 Hlen1' Hcount1 l i p); auto. lia.
      + apply Htail; auto. lia. }
  rewrite Hr2.
  assert (Hend : exists l2, loop_end r2 = set_table s1 l2 n /\
                            set_probe_invariant l2 (2 * T) /\
                            same_keys l1 l2 (2 * T) /\
                            clean_tail l2 (2 * T)).
  { destruct r2 as [st2|st2]; cbn [loop_end]; [|exact Hres2].
    replace (T + Z.of_nat (Z.to_nat (2 * T - T))) with (2 * T) in Hres2
      by lia.
    destruct Hres2 as [l2 [-> [Hset Hcl]]]. exists l2.
    destruct (settling_done T l1 l2 (2 * T) Hset (or_introl eq_refl))
      as [Hi2 Hs2].
    auto. }
  destruct Hend as [l2 [-> [Hinv2 [[Hlen2 [Hmem2 [Hnd2 Hcnt2]]] Hcl2]]]].
  exists l2. split; [reflexivity|]. split; [|split; [congruence|split]].
  - split; [split; [reflexivity|]|].
    { cbn [s1 set_table MojoSet.m_TableCount MojoSet.set_TableCount
           MojoSet.set_ActiveCount MojoSet.set_Keys].
      rewrite Hlen2, Hlen1. lia. }
    split; [exact Hst|]. split; [exact Hinv2|]. split; [exact Hnd2|].
    unfold count_parity.
    change (occupied_slots (set_table s1 l2 n))
      with (Z.of_nat (length (table_keys l2 (2 * T)))).
    change (MojoSet.m_ActiveCount (set_table s1 l2 n)) with n.
    rewrite Hcnt2, Hcnt1, Hkeys0. exact HN.
  - intros k. rewrite Hmem2, Hmem1. apply Hmem0.
  - exact Hcl2.
Qed.

End SetGrowInPlace.

Section SetInsertInPlace.
Context {key : Type} `{MojoKey key}.

Lemma clean_tailb_sound (l : list key) (T : Z) :
  0 <= T -> clean_tailb l T = true -> clean_tail l T.
Proof.
  unfold clean_tailb. intros HT Hb y Hy. unfold key_slot.
  rewrite forallb_forall in Hb.
  destruct (Nat.lt_ge_cases (Z.to_nat y) (length l)) as [Hin|Hout].
  - apply Hb.
    replace (Z.to_nat y) with (Z.to_nat T + (Z.to_nat y - Z.to_nat T))%nat
      by lia.
    rewrite <- nth_skipn. apply nth_In. rewrite length_skipn. lia.
  - rewrite nth_overflow by exact Hout. apply IsHashNull_default. reflexivity.
Qed.

(** [Insert] writes inside the table: the slots from the table count on
    keep what they hold. *)
Lemma set_Insert_with_tail
    (insert : MojoSet.t key -> key -> option (MojoSet.t key))
    (s s1 s' : MojoSet.t key) (l l' : list key) (k : key)
    (st : MojoStatus) :
  MojoSet.m_Status s = kMojoStatus_Ok -> IsHashNull k = false ->
  MojoSet.AutoGrow_with insert s = Some s1 -> set_ok s1 l ->
  MojoSet.Insert_with insert s k = Some (s', st) ->
  MojoSet.m_Keys s' = Some l' ->
  forall y, MojoSet.m_TableCount s1 <= y -> key_slot l' y = key_slot l y.
Proof.
  intros Hst Hk Hgrow [Hl HT] Hrun Hl' y Hy.
  unfold MojoSet.Insert_with in Hrun. rewrite Hst, Hk, Hgrow in Hrun.
  cbn [is_ok] in Hrun.
  assert (Hsame : s' = s1 -> key_slot l' y = key_slot l y).
  { intros ->. congruence. }
  destruct (MojoSet.m_ActiveCount s1 <? MojoSet.m_TableCount s1).
  2:{ injection Hrun as <- _. auto. }
  unfold MojoSet.FindEmptyOrMatching in Hrun. rewrite Hl in Hrun.
  destruct (probe_spec (MojoSet.hit k) l (GetHash k)
              (MojoSet.m_TableCount s1) HT) as [r [Hr [Hrange _]]].
  rewrite Hr in Hrun.
  destruct (MojoSet.key_at s1 r) as [slot|]; [|discriminate].
  destruct (IsHashNull slot).
  2:{ injection Hrun as <- _. auto. }
  unfold MojoSet.store in Hrun. rewrite Hl in Hrun.
  rewrite zset_Some in Hrun by lia.
  injection Hrun as <- _. cbn in Hl'. injection Hl' as <-.
  apply key_slot_set_other; lia.
Qed.


End SetInsertInPlace.


(* ------------------------------------------------------------------------- *)
(** ** Sets that grow on their own *)

Section SetRemoveFrame.
Context {key : Type} `{MojoKey key}.

(** [RemoveOne] writes inside the table: the buffer keeps its size and the
    slots from the table count on keep what they hold. *)
Lemma set_RemoveOne_tail (s s' : MojoSet.t key) (l : list key) (k : key)
    (b : bool) :
  set_ok s l -> MojoSet.RemoveOne s k = Some (s', b) ->
  exists l' n,
    s' = set_table s l' n /\ length l' = length l /\
    (forall y, MojoSet.m_TableCount s <= y -> key_slot l' y = key_slot l y).
Proof.
  intros [Hl HT] Hrun.
  set (T := MojoSet.m_TableCount s) in *.
  set (P := fun st : MojoSet.t key =>
              exists l1 n, st = set_table s l1 n /\ length l1 = length l /\
                           forall y, T <= y -> key_slot l1 y = key_slot l y).
  assert (Hs : P s).
  { exists l, (MojoSet.m_ActiveCount s). split; [|auto].
    symmetry. apply set_table_id. exact Hl. }
  change (P s').
  assert (Hbody : forall j st r, 0 <= j < T -> P st ->
            MojoSet.RemoveOne_fix j st = Some r -> P (loop_end r)).
  { intros j st r Hj [l1 [n [-> [Hlen Htail]]]] Hr.
    unfold MojoSet.RemoveOne_fix in Hr.
    rewrite key_at_set_table in Hr by (rewrite Hlen; lia).
    destruct (IsHashNull (key_slot l1 j)).
    - injection Hr as <-. exists l1, n. auto.
    - destruct (set_Reinsert_table s l1 n j ltac:(rewrite Hlen; exact HT) Hj)
        as [p [Hp [_ [_ [_ Hre]]]]].
      fold T in Hp. rewrite Hre in Hr. injection Hr as <-. cbn [loop_end].
      eexists _, n. split; [reflexivity|].
      destruct (p =? j); [auto|]. split.
      + rewrite !list_set_length. exact Hlen.
      + intros y Hy. rewrite !key_slot_set_other by lia. apply Htail, Hy. }
  unfold MojoSet.RemoveOne in Hrun.
  destruct (IsHashNull k); [injection Hrun as <- _; exact Hs|].
  unfold MojoSet.FindEmptyOrMatching in Hrun. rewrite Hl in Hrun.
  destruct (probe_spec (MojoSet.hit k) l (GetHash k) T HT)
    as [a [Ha [Hrange _]]].
  fold T in Hrun. rewrite Ha in Hrun.
  assert (Hkey : MojoSet.key_at s a = Some (key_slot l a)).
  { unfold MojoSet.key_at. rewrite Hl. apply zget_key_slot. lia. }
  rewrite Hkey in Hrun.
  destruct (IsHashNull (key_slot l a)); [injection Hrun as <- _; exact Hs|].
  set (l1 := list_set l (Z.to_nat a) key_default) in *.
  assert (Hstore : MojoSet.store s a key_default
                   = Some (set_table s l1 (MojoSet.m_ActiveCount s))).
  { unfold l1. rewrite <- (store_set_table s l _ a key_default) by lia.
    rewrite (set_table_id s l Hl). reflexivity. }
  rewrite Hstore in Hrun.
  change (MojoSet.set_ActiveCount
            (set_table s l1 (MojoSet.m_ActiveCount s))
            (MojoSet.m_ActiveCount
               (set_table s l1 (MojoSet.m_ActiveCount s)) - 1))
    with (set_table s l1 (MojoSet.m_ActiveCount s - 1)) in Hrun.
  change (MojoSet.m_TableCount
            (set_table s l1 (MojoSet.m_ActiveCount s - 1))) with T in Hrun.
  assert (Hs2 : P (set_table s l1 (MojoSet.m_ActiveCount s - 1))).
  { eexists _, _. split; [reflexivity|]. split.
    - unfold l1. apply list_set_length.
    - intros y Hy. unfold l1. apply key_slot_set_other; lia. }
  destruct (for_range (a + 1) T MojoSet.RemoveOne_fix
              (set_table s l1 (MojoSet.m_ActiveCount s - 1)))
    as [r1|] eqn:Hr1; [|discriminate].
  assert (H1 : P (loop_end r1)).
  { unfold for_range in Hr1.
    apply (for_up_keeps_in P MojoSet.RemoveOne_fix _ _ _ r1) in Hr1;
      [exact Hr1 | | exact Hs2].
    intros j st r Hj. apply Hbody. lia. }
  destruct r1 as [s3|s3]; cbn [loop_end] in H1.
  2:{ injection Hrun as <- _. exact H1. }
  destruct (for_range 0 a MojoSet.RemoveOne_fix s3) as [r2|] eqn:Hr2;
    [|discriminate].
  injection Hrun as <- _.
  unfold for_range in Hr2.
  apply (for_up_keeps_in P MojoSet.RemoveOne_fix _ _ _ r2) in Hr2;
    [exact Hr2 | | exact H1].
  intros j st r Hj. apply Hbody. lia.
Qed.

(** [Remove] with automatic shrinking off writes inside the table. *)
Lemma set_Remove_tail (depth : nat) (s s' : MojoSet.t key) (l l' : list key)
    (k : key) (st : MojoStatus) :
  set_ok s l -> MojoSet.m_AutoShrink s = false ->
  MojoSet.Remove depth s k = Some (s', st) ->
  MojoSet.m_Keys s' = Some l' ->
  length l' = length l /\
  (forall y, MojoSet.m_TableCount s <= y -> key_slot l' y = key_slot l y).
Proof.
  intros Hok Hshrink Hrun Hl'.
  assert (Hsame : s' = s ->
            length l' = length l /\
            (forall y, MojoSet.m_TableCount s <= y ->
                       key_slot l' y = key_slot l y)).
  { intros ->. destruct Hok as [Hl _]. rewrite Hl in Hl'.
    injection Hl' as <-. auto. }
  unfold MojoSet.Remove in Hrun.
  destruct (negb (is_ok (MojoSet.m_Status s)));
    [injection Hrun as <- _; auto|].
  destruct (negb (IsHashNull k)); [|injection Hrun as <- _; auto].
  destruct (MojoSet.RemoveOne s k) as [[s1 removed]|] eqn:Hrm;
    [|discriminate].
  destruct (set_RemoveOne_tail s s1 l k removed Hok Hrm)
    as [l1 [n [-> Hfacts]]].
  destruct removed.
  - rewrite set_AutoShrink_off in Hrun by exact Hshrink.
    injection Hrun as <- _. cbn in Hl'. injection Hl' as <-. exact Hfacts.
  - injection Hrun as <- _. cbn in Hl'. injection Hl' as <-. exact Hfacts.
Qed.

End SetRemoveFrame.

Section SetSelfGrowing.
Context {key : Type} `{MojoKey key}.

Lemma spare_slot_room (s : MojoSet.t key) :
  spare_slot s -> MojoSet.m_ActiveCount s < MojoSet.m_TableCount s.
Proof. unfold spare_slot. cbv zeta. lia. Qed.

Lemma never_refuses_next (alloc : MojoAlloc) :
  ~ In false alloc ->
  fst (Allocate alloc) = true /\ ~ In false (snd (Allocate alloc)).
Proof.
  destruct alloc as [|[|] rest]; cbn; intros Hno; auto.
Qed.

(** The [AutoGrow] step of [Insert] on a set that grows on its own: the
    table stays or doubles, in place when the buffer holds the doubled
    table and in a fresh buffer otherwise, and growth is no longer due. *)
Lemma set_AutoGrow_self_growing (depth : nat) (s : MojoSet.t key)
    (l : list key) :
  let T := MojoSet.m_TableCount s in
  self_growing s l ->
  exists s1 l1,
    MojoSet.AutoGrow_with
      (fun s' k' => option_map fst (MojoSet.Insert (S depth) s' k')) s
    = Some s1 /\
    self_growing s1 l1 /\
    MojoSet.m_ActiveCount s1 * 100
    < MojoSet.m_TableCount s1 * MojoSet.m_GrowThreshold s1 /\
    MojoSet.m_ActiveCount s1 = MojoSet.m_ActiveCount s /\
    (MojoSet.m_TableCount s1 = T \/ MojoSet.m_TableCount s1 = 2 * T) /\
    (forall k, member l1 (MojoSet.m_TableCount s1) k <-> member l T k).
Proof.
  intros T [Hinvs [Hclean [Hlen [Hauto [Hshrink [Hdyn [[alloc [Halloc Hno]]
              Hspare]]]]]]].
  pose proof Hinvs as [Hok [Hst [Hinv [Hnd Hpar]]]].
  pose proof Hok as [Hl HT]. fold T in HT, Hclean.
  pose proof Hspare as [Hg1 [Hg2 Hg3]]. cbv zeta in Hg1, Hg2, Hg3.
  fold T in Hg1, Hg2, Hg3.
  set (g := MojoSet.m_GrowThreshold s) in *.
  set (A := MojoSet.m_ActiveCount s) in *.
  assert (E2 : 2 * T * g = 2 * (T * g)) by ring.
  destruct (MojoSet.grow_due s) eqn:Hdue.
  2:{ exists s, l. split.
      { apply AutoGrow_idle. rewrite Hdue. apply andb_false_r. }
      split.
      { split; [exact Hinvs|]. split; [exact Hclean|]. split; [exact Hlen|].
        split; [exact Hauto|]. split; [exact Hshrink|]. split; [exact Hdyn|].
        split; [exists alloc; auto | exact Hspare]. }
      split.
      { unfold MojoSet.grow_due in Hdue. apply Z.leb_gt in Hdue. exact Hdue. }
      split; [reflexivity|]. split; [left; reflexivity|]. intros k. tauto. }
  destruct (Z_le_gt_dec (2 * T) (MojoSet.m_AllocCount s)) as [Hcap|Hcap].
  - (* the buffer holds the doubled table *)
    destruct (set_Resize_in_place_doubles s l Hinvs ltac:(fold T; lia) Hclean)
      as [l1 [Hres [Hinvs1 [Hlen1 [Hmem1 Hclean1]]]]].
    fold T in Hres, Hinvs1, Hmem1, Hclean1. fold A in Hres, Hinvs1.
    set (s1 := set_table (MojoSet.set_TableCount s (2 * T)) l1 A) in *.
    exists s1, l1. split.
    { unfold MojoSet.AutoGrow_with, MojoSet.Grow_with.
      rewrite Hauto, Hdue, Hdyn. cbn [negb]. fold T.
      assert (Hmax : MojoMax (MojoSet.m_AllocCount s) (T * 2)
                     = MojoSet.m_AllocCount s).
      { unfold MojoMax.
        destruct (Z.ltb_spec (MojoSet.m_AllocCount s) (T * 2)); lia. }
      rewrite Hmax. replace (T * 2) with (2 * T) by lia.
      unfold MojoSet.Resize_with. rewrite Halloc, Z.eqb_refl. cbn [negb].
      exact Hres. }
    split.
    { split; [exact Hinvs1|]. split; [exact Hclean1|].
      split; [rewrite Hlen1; exact Hlen|].
      split; [exact Hauto|]. split; [exact Hshrink|]. split; [exact Hdyn|].
      split; [exists alloc; auto|].
      unfold spare_slot. cbv zeta.
      change (MojoSet.m_TableCount s1) with (2 * T).
      change (MojoSet.m_GrowThreshold s1) with g.
      change (MojoSet.m_ActiveCount s1) with A. lia. }
    change (MojoSet.m_TableCount s1) with (2 * T).
    change (MojoSet.m_GrowThreshold s1) with g.
    change (MojoSet.m_ActiveCount s1) with A.
    split; [lia|]. split; [reflexivity|]. split; [right; reflexivity|].
    exact Hmem1.
  - (* the keys move to a fresh buffer *)
    destruct (never_refuses_next alloc Hno) as [Hgrant Hno'].
    assert (HN : A <= T).
    { unfold A. rewrite Hpar. unfold occupied_slots. rewrite Hl.
      apply (table_keys_bound l T). lia. }
    destruct (set_Resize_fresh depth s l alloc (2 * T) (2 * T) Hinvs Halloc
                Hgrant) as [l1 [n1 [c1 [Hres [Hinvs1 [Hlen1 [Hmem1
                              [Hn1 Hc1]]]]]]]]; try (fold T; fold A g; lia).
    fold T in Hmem1. fold A in Hn1.
    set (s1 := MojoSet.mk (Some (snd (Allocate alloc))) (Some l1) n1 (2 * T)
                 (2 * T) c1 (MojoSet.m_Status s) (MojoSet.m_AllocCountMin s)
                 (MojoSet.m_TableCountMin s) (MojoSet.m_GrowThreshold s)
                 (MojoSet.m_ShrinkThreshold s) (MojoSet.m_AutoGrow s)
                 (MojoSet.m_AutoShrink s) (MojoSet.m_DynamicAlloc s)) in *.
    exists s1, l1. split.
    { unfold MojoSet.AutoGrow_with, MojoSet.Grow_with.
      rewrite Hauto, Hdue, Hdyn. cbn [negb]. fold T.
      replace (MojoMax (MojoSet.m_AllocCount s) (T * 2)) with (2 * T).
      2:{ unfold MojoMax.
          destruct (Z.ltb_spec (MojoSet.m_AllocCount s) (T * 2)); lia. }
      replace (T * 2) with (2 * T) by lia. exact Hres. }
    split.
    { split; [exact Hinvs1|]. split.
      { intros y Hy. unfold key_slot.
        rewrite nth_overflow
          by (cbn [s1 MojoSet.m_TableCount] in Hy; lia).
        apply IsHashNull_default. reflexivity. }
      split; [exact Hlen1|].
      split; [exact Hauto|]. split; [exact Hshrink|]. split; [exact Hdyn|].
      split; [exists (snd (Allocate alloc)); auto|].
      unfold spare_slot. cbv zeta.
      cbn [s1 MojoSet.m_TableCount MojoSet.m_GrowThreshold
           MojoSet.m_ActiveCount]. fold g. lia. }
    cbn [s1 MojoSet.m_TableCount MojoSet.m_GrowThreshold
         MojoSet.m_ActiveCount]. fold g.
    split; [lia|]. split; [exact Hn1|]. split; [right; reflexivity|].
    exact Hmem1.
Qed.

(** [Insert] of a non-null key on a set that grows on its own. *)
Lemma set_Insert_self_growing (depth : nat) (s : MojoSet.t key)
    (l : list key) (k : key) :
  let T := MojoSet.m_TableCount s in
  self_growing s l -> IsHashNull k = false ->
  exists s' l',
    MojoSet.Insert (S (S depth)) s k = Some (s', kMojoStatus_Ok) /\
    self_growing s' l' /\
    (MojoSet.m_TableCount s' = T \/ MojoSet.m_TableCount s' = 2 * T) /\
    (forall k', member l' (MojoSet.m_TableCount s') k'
                <-> (member l T k' \/ k' = k)) /\
    (member l T k -> MojoSet.GetCount s' = MojoSet.GetCount s) /\
    (~ member l T k -> MojoSet.GetCount s' = MojoSet.GetCount s + 1).
Proof.
  intros T Hself Hk.
  pose proof Hself as [[_ [Hst _]] _].
  destruct (set_AutoGrow_self_growing depth s l Hself)
    as [s1 [l1 [Hgrow [Hself1 [Hidle [HA1 [HT1 Hmem1]]]]]]].
  fold T in HT1, Hmem1.
  pose proof Hself1 as [Hinvs1 [Hclean1 [Hlen1 [Hauto1 [Hshrink1 [Hdyn1
                          [Halloc1 Hspare1]]]]]]].
  pose proof (spare_slot_room s1 Hspare1) as Hroom1.
  pose proof Hspare1 as [Hg1 [Hg2 Hg3]]. cbv zeta in Hg1, Hg2, Hg3.
  cbn [MojoSet.Insert].
  set (nested := fun (s' : MojoSet.t key) (k' : key) =>
                   option_map fst (MojoSet.Insert (S depth) s' k')) in *.
  destruct (set_Insert_with_spec nested s s1 l1 k Hst Hk Hgrow Hinvs1)
    as [s' [st [l' [Hrun [Hinvs' [Hlen' [[c Hframe] [_ Hadd]]]]]]]].
  destruct (Hadd Hroom1) as [-> [Hmem' [Hsame Hnew]]].
  assert (HT' : MojoSet.m_TableCount s' = MojoSet.m_TableCount s1)
    by (rewrite Hframe; reflexivity).
  assert (Hcount : MojoSet.m_ActiveCount s' <= MojoSet.m_ActiveCount s1 + 1
                   /\ (member l T k ->
                       MojoSet.m_ActiveCount s' = MojoSet.m_ActiveCount s)
                   /\ (~ member l T k ->
                       MojoSet.m_ActiveCount s'
                       = MojoSet.m_ActiveCount s + 1)).
  { pose proof Hinvs1 as [Hok1 [Hst1 [Hinv1 [_ Hpar1]]]].
    destruct (set_Contains_cases s1 l1 k Hok1 Hst1 Hinv1
                (room_has_empty s1 l1 Hok1 Hpar1 Hroom1))
      as [[_ Hm] | [_ Hm]].
    - rewrite (Hsame Hm). split; [lia|]. split; [intros _; exact HA1|].
      intros Hnot. exfalso. apply Hnot. apply Hmem1. exact Hm.
    - destruct (Hnew Hm) as [Hc _]. unfold MojoSet.GetCount in Hc.
      split; [lia|]. split; [|intros _; lia].
      intros Hin. exfalso. apply Hm. apply Hmem1. exact Hin. }
  destruct Hcount as [Hle [Hold Hfresh]].
  exists s', l'. split; [exact Hrun|]. split.
  { split; [exact Hinvs'|]. split.
    { intros y Hy. rewrite HT' in Hy.
      rewrite (set_Insert_with_tail nested s s1 s' l1 l' k kMojoStatus_Ok Hst
                 Hk Hgrow ltac:(apply Hinvs1) Hrun ltac:(apply Hinvs') y Hy).
      apply Hclean1. exact Hy. }
    split.
    { rewrite Hlen', Hlen1. rewrite Hframe. reflexivity. }
    split; [rewrite Hframe; exact Hauto1|].
    split; [rewrite Hframe; exact Hshrink1|].
    split; [rewrite Hframe; exact Hdyn1|].
    split; [rewrite Hframe; exact Halloc1|].
    unfold spare_slot. cbv zeta. rewrite HT'.
    replace (MojoSet.m_GrowThreshold s') with (MojoSet.m_GrowThreshold s1)
      by (rewrite Hframe; reflexivity).
    lia. }
  split; [rewrite HT'; exact HT1|]. split.
  { intros k'. rewrite HT', Hmem', Hmem1. reflexivity. }
  unfold MojoSet.GetCount. split; assumption.
Qed.

(** [Remove] on a set that grows on its own. *)
Lemma set_Remove_self_growing (depth : nat) (s : MojoSet.t key)
    (l : list key) (k : key) :
  let T := MojoSet.m_TableCount s in
  self_growing s l ->
  exists s' st l',
    MojoSet.Remove depth s k = Some (s', st) /\
    self_growing s' l' /\ MojoSet.m_TableCount s' = T /\
    (st = kMojoStatus_Ok <-> member l T k) /\
    (forall k', member l' T k' <-> (member l T k' /\ k' <> k)) /\
    (member l T k -> MojoSet.GetCount s' = MojoSet.GetCount s - 1) /\
    (~ member l T k -> s' = s).
Proof.
  intros T [Hinvs [Hclean [Hlen [Hauto [Hshrink [Hdyn [Halloc Hspare]]]]]]].
  pose proof (spare_slot_room s Hspare) as Hroom.
  pose proof Hspare as [Hg1 [Hg2 Hg3]]. cbv zeta in Hg1, Hg2, Hg3.
  destruct (set_Remove_spec depth s l k Hinvs Hroom Hshrink)
    as [s' [st [l' [Hrun [Hst [Hnot [Hinvs' [[c Hframe] [Hmem' Hcount]]]]]]]]].
  fold T in Hst, Hnot, Hmem', Hcount.
  destruct (set_Remove_tail depth s s' l l' k st ltac:(apply Hinvs) Hshrink
              Hrun ltac:(apply Hinvs')) as [Hlen' Htail].
  assert (HT' : MojoSet.m_TableCount s' = T) by (rewrite Hframe; reflexivity).
  assert (Hle : MojoSet.m_ActiveCount s' <= MojoSet.m_ActiveCount s).
  { pose proof Hinvs as [Hok0 [Hst0 [Hinv0 [_ Hpar0]]]].
    destruct (set_Contains_cases s l k Hok0 Hst0 Hinv0
                (room_has_empty s l Hok0 Hpar0 Hroom)) as [[_ Hm] | [_ Hm]].
    - destruct (Hcount Hm) as [Hn _]. lia.
    - destruct (Hnot Hm) as [_ ->]. lia. }
  exists s', st, l'. split; [exact Hrun|]. split.
  { split; [exact Hinvs'|]. split.
    { intros y Hy. rewrite HT' in Hy. rewrite (Htail y Hy).
      apply Hclean. exact Hy. }
    split; [rewrite Hlen', Hlen, Hframe; reflexivity|].
    split; [rewrite Hframe; exact Hauto|].
    split; [rewrite Hframe; exact Hshrink|].
    split; [rewrite Hframe; exact Hdyn|].
    split; [rewrite Hframe; exact Halloc|].
    unfold spare_slot. cbv zeta. rewrite HT'.
    replace (MojoSet.m_GrowThreshold s') with (MojoSet.m_GrowThreshold s)
      by (rewrite Hframe; reflexivity).
    fold T in Hg1, Hg2, Hg3. lia. }
  split; [exact HT'|]. split; [exact Hst|]. split; [exact Hmem'|].
  split.
  - intros Hm. destruct (Hcount Hm) as [Hn _]. exact Hn.
  - intros Hm. apply (Hnot Hm).
Qed.

End SetSelfGrowing.

Section SetGrowingRuns.
Context {key : Type} `{MojoKey key}.

Lemma self_growing_Contains (s : MojoSet.t key) (l live : list key) :
  self_growing s l -> holds_live l (MojoSet.m_TableCount s) live ->
  forall k, MojoSet.Contains s k
            = Some (negb (IsHashNull k) && is_live k live).
Proof.
  intros [Hinvs [_ [_ [_ [_ [_ [_ Hspare]]]]]]] Hbook k.
  pose proof Hinvs as [Hok [Hst [Hinv [_ Hpar]]]].
  pose proof (room_has_empty s l Hok Hpar (spare_slot_room s Hspare))
    as Hempty.
  destruct (set_Contains_cases s l k Hok Hst Hinv Hempty)
    as [[-> Hm] | [-> Hm]]; f_equal.
  - apply Hbook in Hm. destruct Hm as [-> ->]. reflexivity.
  - destruct (IsHashNull k) eqn:Hk; [reflexivity|]. cbn [negb andb].
    destruct (is_live k live) eqn:Hlive; [|reflexivity].
    exfalso. apply Hm. apply Hbook. auto.
Qed.

(** One insertion or removal on a set that grows on its own. *)
Lemma set_run_op_self_growing (depth : nat) (s : MojoSet.t key)
    (l live : list key) (op : SetOp) :
  let T := MojoSet.m_TableCount s in
  self_growing s l -> holds_live l T live -> op <> OpUpdate ->
  exists s' l' live',
    run_op (S (S depth)) (s, live) op = Some (s', live') /\
    self_growing s' l' /\
    holds_live l' (MojoSet.m_TableCount s') live' /\
    T <= MojoSet.m_TableCount s'.
Proof.
  intros T Hself Hbook Hop.
  pose proof Hself as [Hinvs _].
  pose proof Hinvs as [[_ HT] [Hst _]]. fold T in HT.
  destruct op as [k|k|]; [| |contradiction]; cbn [run_op].
  - (* Insert *)
    destruct (IsHashNull k) eqn:Hk.
    + cbn [MojoSet.Insert]. unfold MojoSet.Insert_with.
      rewrite Hst, Hk. cbn [is_ok].
      exists s, l, (k :: live). split; [reflexivity|].
      split; [exact Hself|]. split; [|fold T; lia].
      fold T. intros k'. rewrite (Hbook k'), !is_live_In. cbn [In]. split.
      * intros [Hn Hin]. auto.
      * intros [Hn [-> | Hin]]; [congruence | auto].
    + destruct (set_Insert_self_growing depth s l k Hself Hk)
        as [s' [l' [Hrun [Hself' [HT' [Hmem' _]]]]]].
      fold T in HT', Hmem'. rewrite Hrun.
      exists s', l', (k :: live). split; [reflexivity|].
      split; [exact Hself'|]. split; [|lia].
      intros k'. rewrite Hmem', (Hbook k'), !is_live_In. cbn [In]. split.
      * intros [[Hn Hin] | ->]; auto.
      * intros [Hn [-> | Hin]]; auto.
  - (* Remove *)
    destruct (set_Remove_self_growing (S (S depth)) s l k Hself)
      as [s' [st [l' [Hrun [Hself' [HT' [Hst' [Hmem' [_ Hnot]]]]]]]]].
    fold T in HT', Hst', Hmem', Hnot. rewrite Hrun.
    exists s', l'.
    destruct (is_ok st) eqn:Hok.
    + assert (Hm : member l T k).
      { apply Hst'. destruct st; try discriminate. reflexivity. }
      exists (drop_key k live). split; [reflexivity|].
      split; [exact Hself'|]. rewrite HT'. split; [|lia].
      intros k'. rewrite Hmem', (Hbook k'), is_live_drop. tauto.
    + assert (Hm : ~ member l T k).
      { intros Hm. apply Hst' in Hm. subst st. discriminate. }
      exists live. split; [reflexivity|].
      split; [exact Hself'|]. rewrite HT'. split; [|lia].
      intros k'. rewrite Hmem', (Hbook k'). split; [tauto|].
      intros [Hn Hin]. split; [auto|]. intros ->. apply Hm.
      apply Hbook. auto.
Qed.

Lemma set_run_ops_self_growing (depth : nat) (ops : list SetOp) :
  forall (s : MojoSet.t key) (l live : list key),
    self_growing s l -> holds_live l (MojoSet.m_TableCount s) live ->
    (forall op, In op ops -> op <> OpUpdate) ->
    exists s' l' live',
      run_ops (S (S depth)) (s, live) ops = Some (s', live') /\
      self_growing s' l' /\
      holds_live l' (MojoSet.m_TableCount s') live' /\
      MojoSet.m_TableCount s <= MojoSet.m_TableCount s'.
Proof.
  induction ops as [|op ops IH]; intros s l live Hself Hbook Hops.
  - exists s, l, live. split; [reflexivity|]. split; [exact Hself|].
    split; [exact Hbook | lia].
  - cbn [run_ops].
    destruct (set_run_op_self_growing depth s l live op Hself Hbook)
      as [s1 [l1 [live1 [Hrun [Hself1 [Hbook1 HT1]]]]]].
    { apply Hops. left. reflexivity. }
    rewrite Hrun.
    destruct (IH s1 l1 live1 Hself1 Hbook1)
      as [s' [l' [live' [Hrun' [Hself' [Hbook' HT']]]]]].
    { intros op' Hin. apply Hops. right. exact Hin. }
    exists s', l', live'. split; [exact Hrun'|]. split; [exact Hself'|].
    split; [exact Hbook' | lia].
Qed.

(** [Create] with a configuration that grows and never shrinks leaves a
    set that grows on its own. *)
Lemma set_Create_self_growing (depth : nat) (config : MojoConfig)
    (alloc : MojoAlloc) :
  1 < cfg_AllocCountMin config -> 1 < cfg_TableCountMin config ->
  cfg_ShrinkThreshold config * 2 < cfg_GrowThreshold config ->
  cfg_AutoGrow config = true -> cfg_AutoShrink config = false ->
  cfg_DynamicAlloc config = true -> ~ In false alloc ->
  100 <= cfg_TableCountMin config * cfg_GrowThreshold config ->
  cfg_TableCountMin config * cfg_GrowThreshold config
  <= 100 * (cfg_TableCountMin config - 1) ->
  exists s l,
    MojoSet.Create depth (MojoSet.Init : MojoSet.t key) config alloc None 0
    = Some (s, kMojoStatus_Ok) /\
    self_growing s l /\
    MojoSet.m_TableCount s = cfg_TableCountMin config /\
    holds_live l (MojoSet.m_TableCount s) [].
Proof.
  intros Ha Ht Hg Hauto Hshrink Hdyn Hno Hg1 Hg2.
  destruct (never_refuses_next alloc Hno) as [Hgrant Hno'].
  set (cap := MojoMax (cfg_AllocCountMin config) (cfg_TableCountMin config)).
  assert (Hcap : cfg_TableCountMin config <= cap /\ 1 < cap).
  { unfold cap, MojoMax.
    destruct (Z.ltb_spec (cfg_AllocCountMin config)
                (cfg_TableCountMin config)); lia. }
  set (l := repeat (key_default : key) (Z.to_nat cap)).
  assert (Hlen : Z.of_nat (length l) = cap).
  { unfold l. rewrite repeat_length. lia. }
  assert (Hdn : IsHashNull (key_default : key) = true)
    by (apply IsHashNull_default; reflexivity).
  destruct (Allocate alloc) as [reply rest] eqn:Hal.
  cbn [fst snd] in Hgrant, Hno'. subst reply.
  set (s := MojoSet.mk (Some rest) (Some l) 0 cap
              (cfg_TableCountMin config) 0
              kMojoStatus_Ok (cfg_AllocCountMin config)
              (cfg_TableCountMin config) (cfg_GrowThreshold config)
              (cfg_ShrinkThreshold config) (cfg_AutoGrow config)
              (cfg_AutoShrink config) (cfg_DynamicAlloc config && true)).
  assert (Hrun : MojoSet.Create depth MojoSet.Init config alloc None 0
                 = Some (s, kMojoStatus_Ok)).
  { unfold MojoSet.Create. cbn [MojoSet.Init MojoSet.m_Status
      MojoStatus_eqb negb].
    destruct (Z.leb_spec (cfg_AllocCountMin config) 1); [lia|].
    destruct (Z.leb_spec (cfg_TableCountMin config) 1); [lia|].
    destruct (Z.leb_spec (cfg_GrowThreshold config)
                (cfg_ShrinkThreshold config * 2)); [lia|].
    cbn [orb]. cbn [MojoSet.m_Keys].
    unfold MojoSet.Resize, MojoSet.Resize_with.
    cbn [MojoSet.m_Alloc MojoSet.m_AllocCount MojoSet.m_AllocCountMin
         MojoSet.m_TableCountMin MojoSet.m_Keys].
    fold cap.
    destruct (Z.eqb_spec 0 cap) as [E|_]; [lia|]. cbn [negb].
    destruct (Z.eqb_spec cap 0) as [E|_]; [lia|]. cbn [negb].
    rewrite Hal. reflexivity. }
  assert (Hok : set_ok s l).
  { split; [reflexivity|]. cbn [s MojoSet.m_TableCount]. lia. }
  destruct (empty_table_invariant s l Hok eq_refl eq_refl)
    as [Hinvs [Hnone _]].
  { intros j _. unfold l. apply key_slot_repeat. }
  exists s, l. split; [exact Hrun|]. split; [|split; [reflexivity|]].
  - split; [exact Hinvs|]. split.
    { intros y _. unfold l. rewrite key_slot_repeat. exact Hdn. }
    split; [exact Hlen|]. split; [exact Hauto|]. split; [exact Hshrink|].
    split; [cbn [s MojoSet.m_DynamicAlloc]; rewrite Hdyn; reflexivity|].
    split; [exists rest; auto|].
    unfold spare_slot. cbv zeta.
    cbn [s MojoSet.m_TableCount MojoSet.m_GrowThreshold
         MojoSet.m_ActiveCount]. lia.
  - intros k. split.
    + intros Hm. exfalso. exact (Hnone k Hm).
    + intros [_ Hlive]. discriminate Hlive.
Qed.




End SetGrowingRuns.

Lemma roomy_set_self_growing :
  self_growing roomy_set [0; 1; 0; 0; 0; 0; 0; 0].
Proof.
  split; [apply set_invariantb_sound; reflexivity|].
  split; [apply clean_tailb_sound; [simpl; lia | reflexivity]|].
  split; [reflexivity|]. split; [reflexivity|]. split; [reflexivity|].
  split; [reflexivity|]. split.
  - exists []. split; [reflexivity|]. intros [].
  - unfold spare_slot. simpl. lia.
Qed.

Lemma roomy_set_holds_live :
  holds_live [0; 1; 0; 0; 0; 0; 0; 0] 2 [1].
Proof.
  intros k. split.
  - intros [i [Hi [Ho Hk]]].
    assert (Hs : i = 0 \/ i = 1) by lia.
    destruct Hs as [-> | ->]; try discriminate Ho; subst k; split;
      reflexivity.
  - intros [Hn Hlive]. apply is_live_In in Hlive.
    destruct Hlive as [<- | []].
    exists 1. split; [lia | split; reflexivity].
Qed.




(* ------------------------------------------------------------------------- *)
(** ** Sets that grow and shrink on their own *)

Section SetResizing.
Context {key : Type} `{MojoKey key}.

(** [RemoveOne] of a non-null key on a set in its invariant with room in
    its table. *)
Lemma set_RemoveOne_spec (s : MojoSet.t key) (l : list key) (k : key) :
  let T := MojoSet.m_TableCount s in
  let A := MojoSet.m_ActiveCount s in
  set_invariant s l -> A < T -> IsHashNull k = false ->
  exists (l' : list key) (b : bool),
    MojoSet.RemoveOne s k
    = Some (set_table s l' (if b then A - 1 else A), b) /\
    (b = true <-> member l T k) /\ (b = false -> l' = l) /\
    length l' = length l /\
    set_invariant (set_table s l' (if b then A - 1 else A)) l' /\
    (forall k', member l' T k' <-> (member l T k' /\ k' <> k)).
Proof.
  intros T A Hinvs Hroom Hk.
  pose proof Hinvs as [Hok [Hst [Hinv [Hnd Hpar]]]].
  pose proof Hok as [Hl HT]. fold T in HT, Hinv, Hnd.
  pose proof (room_has_empty s l Hok Hpar Hroom) as Hempty. fold T in Hempty.
  destruct (set_Contains_cases s l k Hok Hst Hinv Hempty)
    as [[_ Hm] | [_ Hnot]].
  - destruct (set_RemoveOne_member s l k Hinvs Hroom Hm)
      as [l' [Hrm [Hlen [Hinv' [Hnd' [Hmem' Hcnt']]]]]].
    fold T in Hinv', Hnd', Hmem', Hcnt'. fold A in Hrm.
    exists l', true. split; [exact Hrm|]. split; [tauto|].
    split; [discriminate|].
    split; [exact Hlen|]. split; [|exact Hmem'].
    split; [split; [reflexivity|]|].
    { change (MojoSet.m_TableCount (set_table s l' (A - 1))) with T. lia. }
    split; [exact Hst|]. split; [exact Hinv'|]. split; [exact Hnd'|].
    unfold count_parity.
    change (occupied_slots (set_table s l' (A - 1)))
      with (Z.of_nat (length (table_keys l' T))).
    change (MojoSet.m_ActiveCount (set_table s l' (A - 1))) with (A - 1).
    rewrite Hcnt'. unfold A. rewrite Hpar. unfold occupied_slots.
    rewrite Hl. fold T. unfold table_keys. lia.
  - exists l, false.
    assert (Hs : set_table s l A = s) by (apply set_table_id; exact Hl).
    rewrite Hs. split.
    { unfold MojoSet.RemoveOne. rewrite Hk.
      destruct (set_probe_spec s l k Hok Hinv Hempty)
        as [a [Hp [Ha [Hslot [_ Hcase]]]]].
      rewrite Hp, Hslot.
      destruct Hcase as [[Hoa Hka] | [Hva _]].
      - exfalso. apply Hnot. exists a. auto.
      - rewrite Hva. reflexivity. }
    split; [split; [discriminate | tauto]|]. split; [reflexivity|].
    split; [reflexivity|]. split; [exact Hinvs|].
    intros k'. split; [|tauto]. intros Hm. split; [exact Hm|].
    intros ->. contradiction.
Qed.

Lemma self_resizing_room (s : MojoSet.t key) (l : list key) :
  self_resizing s l ->
  MojoSet.m_ActiveCount s < MojoSet.m_TableCount s /\
  0 < MojoSet.m_GrowThreshold s < 100 /\
  MojoSet.m_ShrinkThreshold s < 50 /\
  100 <= MojoSet.m_TableCount s * MojoSet.m_GrowThreshold s /\
  MojoSet.m_TableCount s * MojoSet.m_GrowThreshold s
  <= 100 * (MojoSet.m_TableCount s - 1) /\
  0 <= MojoSet.m_ActiveCount s.
Proof.
  unfold self_resizing. cbv zeta.
  intros [Hinvs [Hlen [Hcap [Hmin [HTm [_ [_ [_ [Hsh [Hg1 [Hg2 Hg3]]]]]]]]]]].
  set (T := MojoSet.m_TableCount s) in *.
  set (M := MojoSet.m_TableCountMin s) in *.
  set (g := MojoSet.m_GrowThreshold s) in *.
  assert (HA : 0 <= MojoSet.m_ActiveCount s).
  { destruct Hinvs as [[Hl _] [_ [_ [_ Hpar]]]]. rewrite Hpar.
    unfold occupied_slots. rewrite Hl. lia. }
  assert (Hg : 0 < g < 100) by nia.
  assert (HTg : 100 <= T * g) by nia.
  assert (HTg' : T * g <= 100 * (T - 1)) by nia.
  split; [nia|]. split; [exact Hg|]. split; [lia|].
  split; [exact HTg|]. split; [exact HTg' | exact HA].
Qed.

(** [Resize] of a set that resizes on its own to another table count, in
    a buffer of that size. *)
Lemma set_Resize_tight (depth : nat) (s : MojoSet.t key) (l : list key)
    (T' : Z) :
  let T := MojoSet.m_TableCount s in
  let A := MojoSet.m_ActiveCount s in
  self_resizing s l ->
  MojoSet.m_TableCountMin s <= T' -> T' <> T -> A <= T' ->
  (A - 1) * 100 < T' * MojoSet.m_GrowThreshold s ->
  exists s1 l1,
    MojoSet.Resize (S depth) s T' T' = Some s1 /\
    self_resizing s1 l1 /\
    MojoSet.m_TableCount s1 = T' /\ MojoSet.m_ActiveCount s1 = A /\
    MojoSet.m_GrowThreshold s1 = MojoSet.m_GrowThreshold s /\
    MojoSet.m_ShrinkThreshold s1 = MojoSet.m_ShrinkThreshold s /\
    MojoSet.m_AutoShrink s1 = MojoSet.m_AutoShrink s /\
    MojoSet.m_TableCountMin s1 = MojoSet.m_TableCountMin s /\
    (forall k, member l1 T' k <-> member l T k).
Proof.
  intros T A Hself HM Hne HA Hload.
  pose proof Hself as Hself0. unfold self_resizing in Hself. cbv zeta in Hself.
  destruct Hself as [Hinvs [Hlen [Hcap [Hmin [HTm [Hauto [Hdyn
                       [[alloc [Halloc Hno]] [Hsh [Hg1 [Hg2 Hg3]]]]]]]]]]].
  fold T in Hlen, Hcap, HTm, Hg3.
  destruct (never_refuses_next alloc Hno) as [Hgrant Hno'].
  destruct (set_Resize_fresh depth s l alloc T' T' Hinvs Halloc Hgrant)
    as [l1 [n1 [c1 [Hres [Hinvs1 [Hlen1 [Hmem1 [Hn1 Hc1]]]]]]]];
    try (fold T; fold A; lia).
  fold T in Hmem1. fold A in Hn1.
  eexists _, l1. split; [exact Hres|]. split.
  { unfold self_resizing. cbv zeta.
    cbn [MojoSet.m_TableCount MojoSet.m_AllocCount MojoSet.m_GrowThreshold
         MojoSet.m_AllocCountMin MojoSet.m_TableCountMin MojoSet.m_AutoGrow
         MojoSet.m_DynamicAlloc MojoSet.m_Alloc MojoSet.m_ShrinkThreshold
         MojoSet.m_ActiveCount].
    split; [exact Hinvs1|]. split; [exact Hlen1|]. split; [reflexivity|].
    split; [exact Hmin|]. split; [lia|]. split; [exact Hauto|].
    split; [exact Hdyn|]. split; [exists (snd (Allocate alloc)); auto|].
    split; [exact Hsh|]. split; [exact Hg1|]. split; [exact Hg2|].
    rewrite Hn1. exact Hload. }
  cbn [MojoSet.m_TableCount MojoSet.m_ActiveCount MojoSet.m_GrowThreshold
       MojoSet.m_ShrinkThreshold MojoSet.m_AutoShrink MojoSet.m_TableCountMin].
  auto 10.
Qed.

(** [Grow] on a set that resizes on its own: the table stays, or doubles
    in a fresh buffer, and growth is no longer due. *)
Lemma set_Grow_tight (depth : nat) (s : MojoSet.t key) (l : list key) :
  let T := MojoSet.m_TableCount s in
  self_resizing s l ->
  exists s1 l1,
    MojoSet.Grow (S depth) s = Some s1 /\
    self_resizing s1 l1 /\
    MojoSet.m_ActiveCount s1 * 100
    < MojoSet.m_TableCount s1 * MojoSet.m_GrowThreshold s1 /\
    MojoSet.m_ActiveCount s1 = MojoSet.m_ActiveCount s /\
    MojoSet.m_AutoShrink s1 = MojoSet.m_AutoShrink s /\
    (MojoSet.m_TableCount s1 = T \/
     MojoSet.m_TableCount s1 = 2 * T /\
     MojoSet.m_TableCount s * MojoSet.m_GrowThreshold s
     <= MojoSet.m_ActiveCount s * 100) /\
    MojoSet.m_GrowThreshold s1 = MojoSet.m_GrowThreshold s /\
    MojoSet.m_ShrinkThreshold s1 = MojoSet.m_ShrinkThreshold s /\
    MojoSet.m_TableCountMin s1 = MojoSet.m_TableCountMin s /\
    (forall k, member l1 (MojoSet.m_TableCount s1) k <-> member l T k).
Proof.
  intros T Hself.
  destruct (self_resizing_room s l Hself)
    as [Hroom [Hg [Hsh50 [HTg [HTg' HA]]]]].
  pose proof Hself as Hself0. unfold self_resizing in Hself. cbv zeta in Hself.
  destruct Hself as [Hinvs [Hlen [Hcap [Hmin [HTm [Hauto [Hdyn
                       [Halloc [Hsh [Hg1 [Hg2 Hg3]]]]]]]]]]].
  fold T in Hlen, Hcap, HTm, Hg3, Hroom, HTg, HTg'.
  set (g := MojoSet.m_GrowThreshold s) in *.
  set (A := MojoSet.m_ActiveCount s) in *.
  unfold MojoSet.Grow, MojoSet.Grow_with.
  destruct (MojoSet.grow_due s) eqn:Hdue.
  2:{ exists s, l. split; [reflexivity|]. split; [exact Hself0|].
      unfold MojoSet.grow_due in Hdue. apply Z.leb_gt in Hdue.
      fold T g A in Hdue. split; [exact Hdue|]. split; [reflexivity|].
      split; [reflexivity|]. split; [left; reflexivity|].
      split; [reflexivity|]. split; [reflexivity|]. split; [reflexivity|].
      intros k. tauto. }
  rewrite Hdyn. cbn [negb]. fold T. rewrite Hcap.
  replace (MojoMax T (T * 2)) with (2 * T).
  2:{ unfold MojoMax. destruct (Z.ltb_spec T (T * 2)); lia. }
  replace (T * 2) with (2 * T) by lia.
  unfold MojoSet.grow_due in Hdue. apply Z.leb_le in Hdue. fold T g A in Hdue.
  assert (E2 : 2 * T * g = 2 * (T * g)) by ring.
  destruct (set_Resize_tight depth s l (2 * T) Hself0)
    as [s1 [l1 [Hres [Hself1 [HT1 [HA1 [Hg1' [Hs1' [Hsh1 [HM1 Hmem1]]]]]]]]]];
    try (fold T; fold A; fold g; lia).
  fold T in Hmem1. fold A in HA1. fold g in Hg1'.
  exists s1, l1. split; [exact Hres|]. split; [exact Hself1|].
  rewrite HT1, HA1, Hg1'. split; [lia|]. split; [reflexivity|].
  split; [exact Hsh1|]. split; [right; split; [reflexivity | exact Hdue]|].
  split; [reflexivity|]. split; [exact Hs1'|]. split; [exact HM1|].
  exact Hmem1.
Qed.

(** [Shrink] on a set that resizes on its own: the table stays, or goes
    down to the larger of its half and the minimum, in a fresh buffer. *)
Lemma set_Shrink_tight (depth : nat) (s : MojoSet.t key) (l : list key) :
  let T := MojoSet.m_TableCount s in
  self_resizing s l ->
  exists s1 l1,
    MojoSet.Shrink (S depth) s = Some s1 /\
    self_resizing s1 l1 /\
    MojoSet.m_ActiveCount s1 = MojoSet.m_ActiveCount s /\
    MojoSet.m_AutoShrink s1 = MojoSet.m_AutoShrink s /\
    MojoSet.m_TableCount s1
    = (if MojoSet.shrink_due s
       then MojoMax (T / 2) (MojoSet.m_TableCountMin s) else T) /\
    MojoSet.m_TableCount s1 <= T /\
    (forall k, member l1 (MojoSet.m_TableCount s1) k <-> member l T k).
Proof.
  intros T Hself.
  destruct (self_resizing_room s l Hself)
    as [Hroom [Hg [Hsh50 [HTg [HTg' HA]]]]].
  pose proof Hself as Hself0. unfold self_resizing in Hself. cbv zeta in Hself.
  destruct Hself as [Hinvs [Hlen [Hcap [Hmin [HTm [Hauto [Hdyn
                       [Halloc [Hsh [Hg1 [Hg2 Hg3]]]]]]]]]]].
  fold T in Hlen, Hcap, HTm, Hg3, Hroom, HTg, HTg'.
  set (g := MojoSet.m_GrowThreshold s) in *.
  set (A := MojoSet.m_ActiveCount s) in *.
  set (sh := MojoSet.m_ShrinkThreshold s) in *.
  set (M := MojoSet.m_TableCountMin s) in *.
  unfold MojoSet.Shrink, MojoSet.Shrink_with.
  destruct (MojoSet.shrink_due s) eqn:Hdue.
  2:{ exists s, l. split; [reflexivity|]. split; [exact Hself0|].
      split; [reflexivity|]. split; [reflexivity|]. split; [reflexivity|].
      split; [lia|]. intros k. tauto. }
  unfold MojoSet.shrink_due in Hdue. apply andb_true_iff in Hdue.
  destruct Hdue as [HMT Hlow]. apply Z.ltb_lt in HMT, Hlow.
  fold T M in HMT. fold A T sh in Hlow.
  rewrite Hdyn. cbn [negb]. fold T M.
  set (T' := MojoMax (T / 2) M).
  assert (Hhalf : 2 * (T / 2) <= T < 2 * (T / 2) + 2).
  { pose proof (Z.div_mod T 2 ltac:(lia)) as E.
    pose proof (Z.mod_pos_bound T 2 ltac:(lia)). lia. }
  assert (HT' : M <= T' /\ T / 2 <= T' /\ T' < T).
  { unfold T', MojoMax. destruct (Z.ltb_spec (T / 2) M); lia. }
  replace (MojoMax T' (MojoSet.m_AllocCountMin s)) with T'.
  2:{ unfold MojoMax.
      destruct (Z.ltb_spec T' (MojoSet.m_AllocCountMin s)); lia. }
  assert (HAT : 2 * A < T) by nia.
  assert (Hload : (A - 1) * 100 < T' * g) by nia.
  destruct (set_Resize_tight depth s l T' Hself0)
    as [s1 [l1 [Hres [Hself1 [HT1 [HA1 [Hg1' [Hs1' [Hsh1 [HM1 Hmem1]]]]]]]]]];
    try (fold T; fold A; fold g; fold M; lia).
  fold T in Hmem1. fold A in HA1.
  exists s1, l1. split; [exact Hres|]. split; [exact Hself1|].
  rewrite HT1. split; [exact HA1|]. split; [exact Hsh1|].
  split; [reflexivity|]. split; [lia|]. exact Hmem1.
Qed.

End SetResizing.

Section SetResizingCalls.
Context {key : Type} `{MojoKey key}.

Lemma self_resizing_change (s : MojoSet.t key) (l l' : list key) (n c : Z) :
  self_resizing s l ->
  set_invariant (set_table s l' n) l' -> length l' = length l ->
  n <= MojoSet.m_ActiveCount s + 1 ->
  MojoSet.m_ActiveCount s * 100
  < MojoSet.m_TableCount s * MojoSet.m_GrowThreshold s
  \/ n <= MojoSet.m_ActiveCount s ->
  self_resizing (MojoSet.set_ChangeCount (set_table s l' n) c) l'.
Proof.
  unfold self_resizing. cbv zeta.
  intros [Hinvs [Hlen [Hcap [Hmin [HTm [Hauto [Hdyn [Halloc [Hsh [Hg1
            [Hg2 Hg3]]]]]]]]]]] Hinvs' Hlen' Hn Hload.
  cbn [MojoSet.m_TableCount MojoSet.m_AllocCount MojoSet.m_GrowThreshold
       MojoSet.m_AllocCountMin MojoSet.m_TableCountMin MojoSet.m_AutoGrow
       MojoSet.m_DynamicAlloc MojoSet.m_Alloc MojoSet.m_ShrinkThreshold
       MojoSet.m_ActiveCount MojoSet.set_ChangeCount set_table
       MojoSet.set_ActiveCount MojoSet.set_Keys].
  split; [exact Hinvs'|]. split; [rewrite Hlen'; exact Hlen|].
  split; [exact Hcap|]. split; [exact Hmin|]. split; [exact HTm|].
  split; [exact Hauto|]. split; [exact Hdyn|]. split; [exact Halloc|].
  split; [exact Hsh|]. split; [exact Hg1|]. split; [exact Hg2|]. lia.
Qed.

(** [Insert] of a non-null key on a set that resizes on its own. *)
Lemma set_Insert_tight (depth : nat) (s : MojoSet.t key) (l : list key)
    (k : key) :
  let T := MojoSet.m_TableCount s in
  self_resizing s l -> IsHashNull k = false ->
  exists s' l',
    MojoSet.Insert (S (S depth)) s k = Some (s', kMojoStatus_Ok) /\
    self_resizing s' l' /\
    (MojoSet.m_TableCount s' = T \/ MojoSet.m_TableCount s' = 2 * T) /\
    (forall k', member l' (MojoSet.m_TableCount s') k'
                <-> (member l T k' \/ k' = k)) /\
    (member l T k -> MojoSet.GetCount s' = MojoSet.GetCount s) /\
    (~ member l T k -> MojoSet.GetCount s' = MojoSet.GetCount s + 1).
Proof.
  intros T Hself Hk.
  pose proof Hself as [[_ [Hst _]] [_ [_ [_ [_ [Hauto _]]]]]].
  destruct (set_Grow_tight depth s l Hself)
    as [s1 [l1 [Hres [Hself1 [Hidle [HA1 [_ [HT1 [_ [_ [_ Hmem1]]]]]]]]]]].
  fold T in HT1, Hmem1.
  destruct (self_resizing_room s1 l1 Hself1) as [Hroom1 _].
  pose proof Hself1 as [Hinvs1 _].
  set (nested := fun (s' : MojoSet.t key) (k' : key) =>
                   option_map fst (MojoSet.Insert (S depth) s' k')).
  assert (Hgrow : MojoSet.AutoGrow_with nested s = Some s1).
  { unfold MojoSet.AutoGrow_with. rewrite Hauto. exact Hres. }
  cbn [MojoSet.Insert]. fold nested.
  destruct (set_Insert_with_spec nested s s1 l1 k Hst Hk Hgrow Hinvs1)
    as [s' [st [l' [Hrun [Hinvs' [Hlen' [[c Hframe] [_ Hadd]]]]]]]].
  destruct (Hadd Hroom1) as [-> [Hmem' [Hsame Hnew]]].
  assert (HT' : MojoSet.m_TableCount s' = MojoSet.m_TableCount s1)
    by (rewrite Hframe; reflexivity).
  assert (Hcount : MojoSet.m_ActiveCount s' <= MojoSet.m_ActiveCount s1 + 1
                   /\ (member l T k ->
                       MojoSet.m_ActiveCount s' = MojoSet.m_ActiveCount s)
                   /\ (~ member l T k ->
                       MojoSet.m_ActiveCount s'
                       = MojoSet.m_ActiveCount s + 1)).
  { pose proof Hinvs1 as [Hok1 [Hst1 [Hinv1 [_ Hpar1]]]].
    destruct (set_Contains_cases s1 l1 k Hok1 Hst1 Hinv1
                (room_has_empty s1 l1 Hok1 Hpar1 Hroom1))
      as [[_ Hm] | [_ Hm]].
    - rewrite (Hsame Hm). split; [lia|]. split; [intros _; exact HA1|].
      intros Hnot. exfalso. apply Hnot. apply Hmem1. exact Hm.
    - destruct (Hnew Hm) as [Hc _]. unfold MojoSet.GetCount in Hc.
      split; [lia|]. split; [|intros _; lia].
      intros Hin. exfalso. apply Hm. apply Hmem1. exact Hin. }
  destruct Hcount as [Hle [Hold Hfresh]].
  exists s', l'. split; [exact Hrun|]. split.
  { rewrite Hframe. apply (self_resizing_change s1 l1 l' _ c Hself1).
    - rewrite Hframe in Hinvs'. exact Hinvs'.
    - exact Hlen'.
    - exact Hle.
    - left. exact Hidle. }
  split.
  { rewrite HT'. destruct HT1 as [E | [E _]]; auto. }
  split.
  { intros k'. rewrite HT', Hmem', Hmem1. reflexivity. }
  unfold MojoSet.GetCount. split; assumption.
Qed.

(** [Remove] on a set that resizes on its own. *)
Lemma set_Remove_tight (depth : nat) (s : MojoSet.t key) (l : list key)
    (k : key) :
  let T := MojoSet.m_TableCount s in
  self_resizing s l ->
  exists s' st l',
    MojoSet.Remove (S depth) s k = Some (s', st) /\
    self_resizing s' l' /\
    (st = kMojoStatus_Ok <-> member l T k) /\
    (st = kMojoStatus_Ok \/ st = kMojoStatus_NotFound /\ s' = s) /\
    (forall k', member l' (MojoSet.m_TableCount s') k'
                <-> (member l T k' /\ k' <> k)) /\
    (member l T k -> MojoSet.GetCount s' = MojoSet.GetCount s - 1) /\
    (MojoSet.m_TableCount s' = T \/
     MojoSet.m_AutoShrink s = true /\
     MojoSet.m_TableCountMin s < T /\
     (MojoSet.GetCount s - 1) * 100 < T * MojoSet.m_ShrinkThreshold s /\
     MojoSet.m_TableCount s'
     = MojoMax (T / 2) (MojoSet.m_TableCountMin s)).
Proof.
  intros T Hself.
  destruct (self_resizing_room s l Hself) as [Hroom _].
  pose proof Hself as [Hinvs _].
  pose proof Hinvs as [[Hl _] [Hst _]].
  assert (Hkeep : forall st',
            st' = kMojoStatus_NotFound -> ~ member l T k ->
            self_resizing s l /\
            (st' = kMojoStatus_Ok <-> member l T k) /\
            (st' = kMojoStatus_Ok \/ st' = kMojoStatus_NotFound /\ s = s) /\
            (forall k', member l (MojoSet.m_TableCount s) k'
                        <-> (member l T k' /\ k' <> k)) /\
            (member l T k -> MojoSet.GetCount s = MojoSet.GetCount s - 1) /\
            (MojoSet.m_TableCount s = T \/
             MojoSet.m_AutoShrink s = true /\
             MojoSet.m_TableCountMin s < T /\
             (MojoSet.GetCount s - 1) * 100
             < T * MojoSet.m_ShrinkThreshold s /\
             MojoSet.m_TableCount s
             = MojoMax (T / 2) (MojoSet.m_TableCountMin s))).
  { intros st' -> Hnot. split; [exact Hself|].
    split; [split; [discriminate | tauto]|]. split; [right; auto|].
    split; [|split; [tauto | left; reflexivity]].
    intros k'. fold T. split; [|tauto]. intros Hm. split; [exact Hm|].
    intros ->. contradiction. }
  unfold MojoSet.Remove. rewrite Hst. cbn [is_ok negb].
  destruct (IsHashNull k) eqn:Hk; cbn [negb].
  { exists s, kMojoStatus_NotFound, l. split; [reflexivity|].
    apply Hkeep; [reflexivity|]. intros Hm.
    apply member_not_null in Hm. congruence. }
  destruct (set_RemoveOne_spec s l k Hinvs Hroom Hk)
    as [l1 [b [Hrm [Hb [Hsame [Hlen1 [Hinvs1 Hmem1]]]]]]].
  fold T in Hb, Hmem1. rewrite Hrm.
  destruct b.
  2:{ rewrite (Hsame eq_refl), (set_table_id s l Hl).
      exists s, kMojoStatus_NotFound, l. split; [reflexivity|].
      apply Hkeep; [reflexivity|]. intros Hm. apply Hb in Hm.
      discriminate. }
  assert (Hm : member l T k) by (apply Hb; reflexivity).
  set (A := MojoSet.m_ActiveCount s) in *.
  set (s2 := MojoSet.set_ChangeCount (set_table s l1 (A - 1))
               (MojoSet.m_ChangeCount (set_table s l1 (A - 1)) + 1)).
  assert (Hself2 : self_resizing s2 l1).
  { apply (self_resizing_change s l l1 (A - 1) _ Hself Hinvs1 Hlen1);
      fold A; [lia | right; lia]. }
  unfold MojoSet.AutoShrink, MojoSet.AutoShrink_with.
  change (MojoSet.m_AutoShrink s2) with (MojoSet.m_AutoShrink s).
  destruct (MojoSet.m_AutoShrink s) eqn:Hflag.
  2:{ exists s2, kMojoStatus_Ok, l1. split; [reflexivity|].
      split; [exact Hself2|]. split; [tauto|]. split; [left; reflexivity|].
      split; [exact Hmem1|]. split; [intros _; reflexivity|].
      left. reflexivity. }
  destruct (set_Shrink_tight depth s2 l1 Hself2)
    as [s3 [l3 [Hres [Hself3 [HA3 [_ [HT3 [_ Hmem3]]]]]]]].
  change (MojoSet.m_TableCount s2) with T in HT3, Hmem3.
  change (MojoSet.m_TableCountMin s2) with (MojoSet.m_TableCountMin s) in HT3.
  change (MojoSet.m_ActiveCount s2) with (A - 1) in HA3.
  change (MojoSet.Shrink_with (MojoSet.nested_insert (S depth)) s2)
    with (MojoSet.Shrink (S depth) s2).
  rewrite Hres.
  exists s3, kMojoStatus_Ok, l3. split; [reflexivity|].
  split; [exact Hself3|]. split; [tauto|]. split; [left; reflexivity|].
  split; [intros k'; rewrite Hmem3; apply Hmem1|].
  split; [intros _; exact HA3|].
  destruct (MojoSet.shrink_due s2) eqn:Hdue; [|left; exact HT3].
  right. split; [reflexivity|].
  unfold MojoSet.shrink_due in Hdue. apply andb_true_iff in Hdue.
  destruct Hdue as [HMT Hlow]. apply Z.ltb_lt in HMT, Hlow.
  change (MojoSet.m_TableCount s2) with T in HMT, Hlow.
  change (MojoSet.m_TableCountMin s2) with (MojoSet.m_TableCountMin s) in HMT.
  change (MojoSet.m_ActiveCount s2) with (A - 1) in Hlow.
  change (MojoSet.m_ShrinkThreshold s2)
    with (MojoSet.m_ShrinkThreshold s) in Hlow.
  unfold MojoSet.GetCount. fold A. auto.
Qed.

(** [Update] on a set that resizes on its own. *)
Lemma set_Update_tight (depth : nat) (s : MojoSet.t key) (l : list key) :
  let T := MojoSet.m_TableCount s in
  self_resizing s l ->
  exists s' l',
    MojoSet.Update (S depth) s = Some (s', kMojoStatus_Ok) /\
    self_resizing s' l' /\
    MojoSet.GetCount s' = MojoSet.GetCount s /\
    (forall k, member l' (MojoSet.m_TableCount s') k <-> member l T k).
Proof.
  intros T Hself.
  pose proof Hself as [[_ [Hst _]] _].
  destruct (set_Grow_tight depth s l Hself)
    as [s1 [l1 [Hres1 [Hself1 [_ [HA1 [_ [_ [_ [_ [_ Hmem1]]]]]]]]]]].
  fold T in Hmem1.
  destruct (set_Shrink_tight depth s1 l1 Hself1)
    as [s2 [l2 [Hres2 [Hself2 [HA2 [_ [_ [_ Hmem2]]]]]]]].
  unfold MojoSet.Update. rewrite Hst. cbn [is_ok]. rewrite Hres1, Hres2.
  exists s2, l2. split; [reflexivity|]. split; [exact Hself2|].
  split; [unfold MojoSet.GetCount; lia|].
  intros k. rewrite Hmem2. apply Hmem1.
Qed.

Lemma self_resizing_Contains (s : MojoSet.t key) (l live : list key) :
  self_resizing s l -> holds_live l (MojoSet.m_TableCount s) live ->
  forall k, MojoSet.Contains s k
            = Some (negb (IsHashNull k) && is_live k live).
Proof.
  intros Hself Hbook k.
  destruct (self_resizing_room s l Hself) as [Hroom _].
  pose proof Hself as [Hinvs _].
  pose proof Hinvs as [Hok [Hst [Hinv [_ Hpar]]]].
  pose proof (room_has_empty s l Hok Hpar Hroom) as Hempty.
  destruct (set_Contains_cases s l k Hok Hst Hinv Hempty)
    as [[-> Hm] | [-> Hm]]; f_equal.
  - apply Hbook in Hm. destruct Hm as [-> ->]. reflexivity.
  - destruct (IsHashNull k) eqn:Hk; [reflexivity|]. cbn [negb andb].
    destruct (is_live k live) eqn:Hlive; [|reflexivity].
    exfalso. apply Hm. apply Hbook. auto.
Qed.

(** One call of [Insert], [Remove] or [Update] on a set that resizes on
    its own. *)
Lemma set_run_op_tight (depth : nat) (s : MojoSet.t key)
    (l live : list key) (op : SetOp) :
  self_resizing s l -> holds_live l (MojoSet.m_TableCount s) live ->
  exists s' l' live',
    run_op (S (S depth)) (s, live) op = Some (s', live') /\
    self_resizing s' l' /\
    holds_live l' (MojoSet.m_TableCount s') live'.
Proof.
  intros Hself Hbook.
  pose proof Hself as [[_ [Hst _]] _].
  set (T := MojoSet.m_TableCount s) in *.
  destruct op as [k|k|]; cbn [run_op].
  - (* Insert *)
    destruct (IsHashNull k) eqn:Hk.
    + cbn [MojoSet.Insert]. unfold MojoSet.Insert_with.
      rewrite Hst, Hk. cbn [is_ok].
      exists s, l, (k :: live). split; [reflexivity|].
      split; [exact Hself|]. fold T.
      intros k'. rewrite (Hbook k'), !is_live_In. cbn [In]. split.
      * intros [Hn Hin]. auto.
      * intros [Hn [-> | Hin]]; [congruence | auto].
    + destruct (set_Insert_tight depth s l k Hself Hk)
        as [s' [l' [Hrun [Hself' [_ [Hmem' _]]]]]].
      fold T in Hmem'. rewrite Hrun.
      exists s', l', (k :: live). split; [reflexivity|].
      split; [exact Hself'|].
      intros k'. rewrite Hmem', (Hbook k'), !is_live_In. cbn [In]. split.
      * intros [[Hn Hin] | ->]; auto.
      * intros [Hn [-> | Hin]]; auto.
  - (* Remove *)
    destruct (set_Remove_tight (S depth) s l k Hself)
      as [s' [st [l' [Hrun [Hself' [Hst' [_ [Hmem' _]]]]]]]].
    fold T in Hst', Hmem'. rewrite Hrun.
    exists s', l'.
    destruct (is_ok st) eqn:Hok.
    + assert (Hm : member l T k).
      { apply Hst'. destruct st; try discriminate. reflexivity. }
      exists (drop_key k live). split; [reflexivity|].
      split; [exact Hself'|].
      intros k'. rewrite Hmem', (Hbook k'), is_live_drop. tauto.
    + assert (Hm : ~ member l T k).
      { intros Hm. apply Hst' in Hm. subst st. discriminate. }
      exists live. split; [reflexivity|]. split; [exact Hself'|].
      intros k'. rewrite Hmem', (Hbook k'). split; [tauto|].
      intros [Hn Hin]. split; [auto|]. intros ->. apply Hm.
      apply Hbook. auto.
  - (* Update *)
    destruct (set_Update_tight (S depth) s l Hself)
      as [s' [l' [Hrun [Hself' [_ Hmem']]]]].
    fold T in Hmem'. rewrite Hrun.
    exists s', l', live. split; [reflexivity|]. split; [exact Hself'|].
    intros k'. rewrite Hmem'. apply Hbook.
Qed.

Lemma set_run_ops_tight (depth : nat) (ops : list SetOp) :
  forall (s : MojoSet.t key) (l live : list key),
    self_resizing s l -> holds_live l (MojoSet.m_TableCount s) live ->
    exists s' l' live',
      run_ops (S (S depth)) (s, live) ops = Some (s', live') /\
      self_resizing s' l' /\
      holds_live l' (MojoSet.m_TableCount s') live'.
Proof.
  induction ops as [|op ops IH]; intros s l live Hself Hbook.
  - exists s, l, live. auto.
  - cbn [run_ops].
    destruct (set_run_op_tight depth s l live op Hself Hbook)
      as [s1 [l1 [live1 [Hrun [Hself1 Hbook1]]]]].
    rewrite Hrun. apply (IH s1 l1 live1 Hself1 Hbook1).
Qed.

(** [Create] with a configuration whose buffer is its table leaves a set
    that resizes on its own. *)
Lemma set_Create_tight (depth : nat) (config : MojoConfig)
    (alloc : MojoAlloc) :
  1 < cfg_AllocCountMin config <= cfg_TableCountMin config ->
  cfg_ShrinkThreshold config * 2 < cfg_GrowThreshold config ->
  cfg_AutoGrow config = true -> cfg_DynamicAlloc config = true ->
  ~ In false alloc ->
  100 <= cfg_TableCountMin config * cfg_GrowThreshold config ->
  cfg_TableCountMin config * cfg_GrowThreshold config
  <= 100 * (cfg_TableCountMin config - 1) ->
  exists s l,
    MojoSet.Create depth (MojoSet.Init : MojoSet.t key) config alloc None 0
    = Some (s, kMojoStatus_Ok) /\
    self_resizing s l /\
    holds_live l (MojoSet.m_TableCount s) [].
Proof.
  intros Ha Hg Hauto Hdyn Hno Hg1 Hg2.
  destruct (never_refuses_next alloc Hno) as [Hgrant Hno'].
  set (M := cfg_TableCountMin config) in *.
  assert (Hcap : MojoMax (cfg_AllocCountMin config) M = M).
  { unfold MojoMax. destruct (Z.ltb_spec (cfg_AllocCountMin config) M); lia. }
  set (l := repeat (key_default : key) (Z.to_nat M)).
  assert (Hlen : Z.of_nat (length l) = M).
  { unfold l. rewrite repeat_length. lia. }
  destruct (Allocate alloc) as [reply rest] eqn:Hal.
  cbn [fst snd] in Hgrant, Hno'. subst reply.
  set (s := MojoSet.mk (Some rest) (Some l) 0 M M 0
              kMojoStatus_Ok (cfg_AllocCountMin config) M
              (cfg_GrowThreshold config)
              (cfg_ShrinkThreshold config) (cfg_AutoGrow config)
              (cfg_AutoShrink config) (cfg_DynamicAlloc config && true)).
  assert (Hrun : MojoSet.Create depth MojoSet.Init config alloc None 0
                 = Some (s, kMojoStatus_Ok)).
  { unfold MojoSet.Create. cbn [MojoSet.Init MojoSet.m_Status
      MojoStatus_eqb negb].
    destruct (Z.leb_spec (cfg_AllocCountMin config) 1); [lia|].
    destruct (Z.leb_spec (cfg_TableCountMin config) 1); [unfold M in *; lia|].
    destruct (Z.leb_spec (cfg_GrowThreshold config)
                (cfg_ShrinkThreshold config * 2)); [lia|].
    cbn [orb]. cbn [MojoSet.m_Keys].
    unfold MojoSet.Resize, MojoSet.Resize_with.
    cbn [MojoSet.m_Alloc MojoSet.m_AllocCount MojoSet.m_AllocCountMin
         MojoSet.m_TableCountMin MojoSet.m_Keys].
    fold M. rewrite Hcap.
    destruct (Z.eqb_spec 0 M) as [E|_]; [lia|]. cbn [negb].
    destruct (Z.eqb_spec M 0) as [E|_]; [lia|]. cbn [negb].
    rewrite Hal. reflexivity. }
  assert (Hok : set_ok s l).
  { split; [reflexivity|]. cbn [s MojoSet.m_TableCount]. lia. }
  destruct (empty_table_invariant s l Hok eq_refl eq_refl)
    as [Hinvs [Hnone _]].
  { intros j _. unfold l. apply key_slot_repeat. }
  exists s, l. split; [exact Hrun|]. split.
  - unfold self_resizing. cbv zeta.
    cbn [s MojoSet.m_TableCount MojoSet.m_AllocCount MojoSet.m_GrowThreshold
         MojoSet.m_AllocCountMin MojoSet.m_TableCountMin MojoSet.m_AutoGrow
         MojoSet.m_DynamicAlloc MojoSet.m_Alloc MojoSet.m_ShrinkThreshold
         MojoSet.m_ActiveCount].
    split; [exact Hinvs|]. split; [exact Hlen|]. split; [reflexivity|].
    split; [lia|]. split; [lia|]. split; [exact Hauto|].
    split; [rewrite Hdyn; reflexivity|]. split; [exists rest; auto|].
    split; [exact Hg|]. split; [exact Hg1|]. split; [exact Hg2|]. lia.
  - intros k. split.
    + intros Hm. exfalso. exact (Hnone k Hm).
    + intros [_ Hlive]. discriminate Hlive.
Qed.




End SetResizingCalls.

Lemma snug_set_self_resizing :
  self_resizing snug_set [0; 1; 2; 0; 0; 0; 0; 0].
Proof.
  unfold self_resizing. cbv zeta.
  split; [apply set_invariantb_sound; reflexivity|].
  split; [reflexivity|]. split; [reflexivity|]. split; [simpl; lia|].
  split; [simpl; lia|]. split; [reflexivity|]. split; [reflexivity|].
  split; [exists []; split; [reflexivity | intros []]|].
  simpl. lia.
Qed.




(* ------------------------------------------------------------------------- *)
(** ** Runs of calls on a multimap *)

Section MultiMapCounting.
Context {key value : Type} `{MojoKey key} `{MojoValue value}.

Lemma occupied_count_set (l : list (MojoKeyValue key value)) (T i : Z)
    (kv : MojoKeyValue key value) :
  0 <= i < T -> T <= Z.of_nat (length l) ->
  occupied_count (list_set l (Z.to_nat i) kv) T
  = occupied_count l T
    - (if IsHashNull (kv_key (slot_at l i)) then 0 else 1)
    + (if IsHashNull (kv_key kv) then 0 else 1).
Proof.
  intros Hi HT. unfold occupied_count, slot_at.
  pose proof (filter_length_list_set
                (fun kv : MojoKeyValue key value =>
                   negb (IsHashNull (kv_key kv))) l
                (Z.to_nat i) (Z.to_nat T) kv KeyValue_default) as Hc.
  cbv beta in Hc.
  destruct (IsHashNull (kv_key (nth (Z.to_nat i) l KeyValue_default))),
    (IsHashNull (kv_key kv)); cbn [negb] in Hc; lia.
Qed.

Lemma occupied_count_range (l : list (MojoKeyValue key value)) (T : Z) :
  0 <= occupied_count l T.
Proof. unfold occupied_count. lia. Qed.

(** A table with fewer occupied slots than slots has an empty slot. *)
Lemma occupied_count_has_empty (l : list (MojoKeyValue key value)) (T : Z) :
  0 < T <= Z.of_nat (length l) -> occupied_count l T < T -> has_empty l T.
Proof.
  intros HT Hc. unfold occupied_count in Hc.
  assert (Hfl : length (firstn (Z.to_nat T) l) = Z.to_nat T)
    by (apply firstn_length_le; lia).
  destruct (filter_short (fun kv : MojoKeyValue key value =>
                            negb (IsHashNull (kv_key kv)))
              (firstn (Z.to_nat T) l)) as [n [x [Hn Hx]]]; [lia|].
  assert (Hlt : (n < Z.to_nat T)%nat).
  { rewrite <- Hfl. apply nth_error_Some. congruence. }
  exists (Z.of_nat n). split; [lia|]. unfold vacant, slot_at.
  rewrite Nat2Z.id.
  rewrite nth_error_firstn in Hn.
  destruct (Nat.ltb_spec n (Z.to_nat T)) as [_|Hge]; [|lia].
  rewrite (nth_error_nth _ _ _ Hn).
  apply negb_false_iff. exact Hx.
Qed.

(** Moving a pair inside the table does not raise the number of occupied
    slots. *)
Lemma occupied_count_move (l : list (MojoKeyValue key value)) (T j p : Z)
    (kv : MojoKeyValue key value) :
  T <= Z.of_nat (length l) -> 0 <= j < T -> 0 <= p < T -> p <> j ->
  occupied l j ->
  occupied_count
    (list_set (list_set l (Z.to_nat p) kv) (Z.to_nat j) KeyValue_default) T
  <= occupied_count l T.
Proof.
  intros HT Hj Hp Hpj Hoj.
  rewrite occupied_count_set by (rewrite ?list_set_length; lia).
  rewrite slot_at_set_other by lia.
  rewrite occupied_count_set by lia.
  unfold occupied in Hoj. rewrite Hoj, default_is_vacant.
  destruct (IsHashNull (kv_key (slot_at l p))), (IsHashNull (kv_key kv)); lia.
Qed.

Section Counting.
Variable m : MojoMultiMap.t key value.
Let T := MojoMultiMap.m_TableCount m.

(** The clearing loop of [RemoveAll] and [RemoveOne] empties slots and
    lowers the count. *)
Lemma clear_run_count (doomed : MojoKeyValue key value -> bool) :
  forall (turns : nat) (l1 : list (MojoKeyValue key value)) (n1 cnt i : Z)
         (s2 : MojoMultiMap.t key value) (c : Z),
    0 < T <= Z.of_nat (length l1) -> 0 <= i < T ->
    MojoMultiMap.clear_run turns doomed (retable m l1 n1) cnt i
    = Some (s2, c) ->
    exists l2 n2, s2 = retable m l2 n2 /\ length l2 = length l1 /\
                  occupied_count l2 T <= occupied_count l1 T /\ n2 <= n1.
Proof.
  induction turns as [|turns IH]; intros l1 n1 cnt i s2 c HT Hi Hrun;
    cbn [MojoMultiMap.clear_run] in Hrun;
    rewrite kv_at_retable in Hrun by lia;
    destruct (MojoMultiMap.is_empty (slot_at l1 i)) eqn:He;
    try discriminate;
    try (injection Hrun as <- _; exists l1, n1;
         split; [reflexivity|]; split; [reflexivity|]; lia).
  change (MojoMultiMap.m_TableCount (retable m l1 n1)) with T in Hrun.
  assert (Hnext : 0 <= (i + 1) mod T < T) by (apply Z.mod_pos_bound; lia).
  destruct (doomed (slot_at l1 i)).
  - rewrite store_retable in Hrun by lia.
    change (MojoMultiMap.set_ActiveCount
              (retable m (list_set l1 (Z.to_nat i) KeyValue_default) n1)
              (MojoMultiMap.m_ActiveCount
                 (retable m (list_set l1 (Z.to_nat i) KeyValue_default) n1)
               - 1))
      with (retable m (list_set l1 (Z.to_nat i) KeyValue_default) (n1 - 1))
      in Hrun.
    change (MojoMultiMap.m_TableCount
              (retable m (list_set l1 (Z.to_nat i) KeyValue_default)
                 (n1 - 1))) with T in Hrun.
    destruct (IH _ _ _ _ _ _ ltac:(rewrite list_set_length; exact HT) Hnext
                Hrun) as [l2 [n2 [Hs [Hlen [Hc Hn]]]]].
    exists l2, n2. split; [exact Hs|].
    split; [rewrite Hlen; apply list_set_length|]. split; [|lia].
    rewrite occupied_count_set in Hc by lia.
    rewrite default_is_vacant in Hc.
    destruct (IsHashNull (kv_key (slot_at l1 i))); lia.
  - change (MojoMultiMap.m_TableCount (retable m l1 n1)) with T in Hrun.
    apply (IH _ _ _ _ _ _ HT Hnext Hrun).
Qed.

(** [FixUp] moves pairs inside the table. *)
Lemma FixUp_count (l1 : list (MojoKeyValue key value)) (n1 a c : Z)
    (s' : MojoMultiMap.t key value) :
  0 < T <= Z.of_nat (length l1) -> 0 <= a < T ->
  MojoMultiMap.FixUp (retable m l1 n1) a c = Some s' ->
  exists l2, s' = retable m l2 n1 /\ length l2 = length l1 /\
             occupied_count l2 T <= occupied_count l1 T.
Proof.
  intros HT Ha Hfix. unfold MojoMultiMap.FixUp in Hfix.
  change (MojoMultiMap.m_TableCount (retable m l1 n1)) with T in Hfix.
  set (P := fun sc : MojoMultiMap.t key value * Z =>
              exists l2, fst sc = retable m l2 n1 /\ length l2 = length l1 /\
                         occupied_count l2 T <= occupied_count l1 T).
  assert (Hbody : forall j sc r, 0 <= j < T -> P sc ->
            MojoMultiMap.FixUp_body j sc = Some r -> P (loop_end r)).
  { intros j [s cnt] r Hj [l2 [Hs [Hlen Hc]]] Hb. cbn [fst] in Hs. subst s.
    unfold MojoMultiMap.FixUp_body in Hb.
    destruct (cnt =? 0).
    { injection Hb as <-. exists l2. auto. }
    rewrite kv_at_retable in Hb by lia.
    destruct (MojoMultiMap.is_empty (slot_at l2 j)) eqn:He; cbn [negb] in Hb.
    { injection Hb as <-. exists l2. auto. }
    destruct (Reinsert_retable m l2 n1 j ltac:(fold T; lia) Hj)
      as [p [Hp [_ [_ [_ Hre]]]]].
    fold T in Hp. rewrite Hre in Hb. injection Hb as <-. cbn [loop_end].
    eexists. split; [reflexivity|].
    destruct (Z.eqb_spec p j) as [->|Hpj]; [auto|].
    split; [rewrite !list_set_length; exact Hlen|].
    pose proof (occupied_count_move l2 T j p (slot_at l2 j) ltac:(lia) Hj Hp
                  Hpj He). lia. }
  assert (Hstart : P (retable m l1 n1, c)).
  { exists l1. split; [reflexivity|]. split; [reflexivity | lia]. }
  unfold for_range in Hfix.
  destruct (for_up (Z.to_nat (T - (a + 1))) (a + 1) MojoMultiMap.FixUp_body
              (retable m l1 n1, c)) as [r1|] eqn:Hr1; [|discriminate].
  assert (H1 : P (loop_end r1)).
  { apply (for_up_keeps_in P MojoMultiMap.FixUp_body
             (Z.to_nat (T - (a + 1))) (a + 1) (retable m l1 n1, c) r1);
      [|exact Hstart | exact Hr1].
    intros j sc r Hj. apply Hbody. lia. }
  destruct r1 as [sc1|sc1]; cbn [loop_end] in H1.
  - destruct (for_up (Z.to_nat (a - 0)) 0 MojoMultiMap.FixUp_body sc1)
      as [r2|] eqn:Hr2; [|discriminate].
    injection Hfix as <-.
    apply (for_up_keeps_in P MojoMultiMap.FixUp_body
             (Z.to_nat (a - 0)) 0 sc1 r2); [|exact H1 | exact Hr2].
    intros j sc r Hj. apply Hbody. lia.
  - injection Hfix as <-. exact H1.
Qed.

(** What [RemoveAll] and [RemoveOne] do once they found the key. *)
Lemma clear_and_fix_count (doomed : MojoKeyValue key value -> bool)
    (l : list (MojoKeyValue key value)) (index : Z)
    (s' : MojoMultiMap.t key value) :
  table_ok m l -> 0 <= index < T ->
  ('(s1, count) <- MojoMultiMap.clear_run (MojoMultiMap.run_turns m) doomed
                     m 0 index ;;
   MojoMultiMap.FixUp s1 index count) = Some s' ->
  exists l' n', s' = retable m l' n' /\ length l' = length l /\
                occupied_count l' T <= occupied_count l T /\
                n' <= MojoMultiMap.m_ActiveCount m.
Proof.
  intros [Hl HT] Hi Hrun. fold T in HT.
  rewrite <- (retable_id m l Hl) in Hrun at 2.
  destruct (MojoMultiMap.clear_run (MojoMultiMap.run_turns m) doomed
              (retable m l (MojoMultiMap.m_ActiveCount m)) 0 index)
    as [[s1 count]|] eqn:Hclear; [|discriminate].
  destruct (clear_run_count doomed _ _ _ _ _ _ _ HT Hi Hclear)
    as [l1 [n1 [-> [Hlen1 [Hc1 Hn1]]]]].
  destruct (FixUp_count l1 n1 index count s' ltac:(lia) Hi Hrun)
    as [l2 [-> [Hlen2 Hc2]]].
  exists l2, n1. split; [reflexivity|]. split; [lia|]. split; lia.
Qed.

End Counting.

End MultiMapCounting.

Section MultiMapCalls.
Context {key value : Type} `{MojoKey key} `{MojoValue value}.

Lemma removal_count (m : MojoMultiMap.t key value)
    (l : list (MojoKeyValue key value)) (k : key)
    (doomed : MojoKeyValue key value -> bool) (guard : bool)
    (s' : MojoMultiMap.t key value) :
  let T := MojoMultiMap.m_TableCount m in
  table_ok m l ->
  (if guard then
     index <- MojoMultiMap.FindEmptyOrMatching m k ;;
     kv <- MojoMultiMap.kv_at m index ;;
     if negb (MojoMultiMap.is_empty kv) then
       '(s1, count) <- MojoMultiMap.clear_run (MojoMultiMap.run_turns m)
                         doomed m 0 index ;;
       MojoMultiMap.FixUp s1 index count
     else Some m
   else Some m) = Some s' ->
  exists l' n', s' = retable m l' n' /\ length l' = length l /\
                occupied_count l' T <= occupied_count l T /\
                n' <= MojoMultiMap.m_ActiveCount m.
Proof.
  intros T Hok Hrun. pose proof Hok as [Hl HT]. fold T in HT.
  assert (Hsame : Some m = Some s' ->
            exists l' n', s' = retable m l' n' /\ length l' = length l /\
                          occupied_count l' T <= occupied_count l T /\
                          n' <= MojoMultiMap.m_ActiveCount m).
  { intros E. injection E as <-. exists l, (MojoMultiMap.m_ActiveCount m).
    split; [symmetry; apply retable_id; exact Hl|].
    split; [reflexivity|]. lia. }
  destruct guard; [|auto].
  unfold MojoMultiMap.FindEmptyOrMatching in Hrun. rewrite Hl in Hrun.
  destruct (probe_spec (MojoMultiMap.hit_key k) l (GetHash k) T HT)
    as [index [Hp [Hi _]]].
  fold T in Hrun. rewrite Hp in Hrun.
  destruct (MojoMultiMap.kv_at m index) as [kv|]; [|discriminate].
  destruct (negb (MojoMultiMap.is_empty kv)); [|auto].
  apply (clear_and_fix_count m doomed l index s' Hok Hi Hrun).
Qed.

Lemma RemoveAll_count (m : MojoMultiMap.t key value)
    (l : list (MojoKeyValue key value)) (k : key)
    (s' : MojoMultiMap.t key value) (b : bool) :
  table_ok m l -> MojoMultiMap.RemoveAll m k = Some (s', b) ->
  exists l' n', s' = retable m l' n' /\ length l' = length l /\
                occupied_count l' (MojoMultiMap.m_TableCount m)
                <= occupied_count l (MojoMultiMap.m_TableCount m) /\
                n' <= MojoMultiMap.m_ActiveCount m.
Proof.
  intros Hok Hrun. unfold MojoMultiMap.RemoveAll in Hrun.
  match type of Hrun with
  | match ?e with _ => _ end = _ => destruct e as [s1|] eqn:E
  end; [|discriminate].
  injection Hrun as <- _.
  apply (removal_count m l k _ _ s1 Hok E).
Qed.

Lemma RemoveOne_count (m : MojoMultiMap.t key value)
    (l : list (MojoKeyValue key value)) (k : key) (v : value)
    (s' : MojoMultiMap.t key value) (b : bool) :
  table_ok m l -> MojoMultiMap.RemoveOne m k v = Some (s', b) ->
  exists l' n', s' = retable m l' n' /\ length l' = length l /\
                occupied_count l' (MojoMultiMap.m_TableCount m)
                <= occupied_count l (MojoMultiMap.m_TableCount m) /\
                n' <= MojoMultiMap.m_ActiveCount m.
Proof.
  intros Hok Hrun. unfold MojoMultiMap.RemoveOne in Hrun.
  match type of Hrun with
  | match ?e with _ => _ end = _ => destruct e as [s1|] eqn:E
  end; [|discriminate].
  injection Hrun as <- _.
  apply (removal_count m l k _ _ s1 Hok E).
Qed.

End MultiMapCalls.

Section MultiMapRuns.
Context {key value : Type} `{MojoKey key} `{MojoValue value}.

Lemma pair_eqb_eq (a b : MojoKeyValue key value) :
  pair_eqb a b = true <-> a = b.
Proof.
  unfold pair_eqb. rewrite andb_true_iff, key_eqb_eq, value_eqb_eq.
  destruct a, b. cbn. split.
  - intros [-> ->]. reflexivity.
  - intros E. injection E as -> ->. auto.
Qed.

Lemma multimap_steady_change (m : MojoMultiMap.t key value)
    (l l' : list (MojoKeyValue key value)) (n c : Z) :
  multimap_steady m l -> length l' = length l ->
  probe_invariant l' (MojoMultiMap.m_TableCount m) ->
  multimap_steady (MojoMultiMap.set_ChangeCount (retable m l' n) c) l'.
Proof.
  intros [[Hl HT] [Hst [_ [Hg Hs]]]] Hlen Hinv.
  split; [split; [reflexivity|]|].
  { cbn [MojoMultiMap.m_TableCount MojoMultiMap.set_ChangeCount retable
         MojoMultiMap.set_ActiveCount MojoMultiMap.set_KeyValues].
    rewrite Hlen. exact HT. }
  split; [exact Hst|]. split; [exact Hinv|]. split; [exact Hg | exact Hs].
Qed.

Lemma multimap_steady_retable (m : MojoMultiMap.t key value)
    (l l' : list (MojoKeyValue key value)) (n : Z) :
  multimap_steady m l -> length l' = length l ->
  probe_invariant l' (MojoMultiMap.m_TableCount m) ->
  multimap_steady (retable m l' n) l'.
Proof.
  intros [[Hl HT] [Hst [_ [Hg Hs]]]] Hlen Hinv.
  split; [split; [reflexivity|]|].
  { cbn [MojoMultiMap.m_TableCount retable
         MojoMultiMap.set_ActiveCount MojoMultiMap.set_KeyValues].
    rewrite Hlen. exact HT. }
  split; [exact Hst|]. split; [exact Hinv|]. split; [exact Hg | exact Hs].
Qed.

(** [Insert] of a non-null key on a steady multimap with room. *)
Lemma multimap_Insert_spec (depth : nat) (m : MojoMultiMap.t key value)
    (l : list (MojoKeyValue key value)) (k : key) (v : value) :
  let T := MojoMultiMap.m_TableCount m in
  multimap_steady m l -> IsHashNull k = false ->
  MojoMultiMap.m_ActiveCount m < T -> occupied_count l T < T ->
  exists m' l',
    MojoMultiMap.Insert (S depth) m k v = Some (m', kMojoStatus_Ok) /\
    multimap_steady m' l' /\ MojoMultiMap.m_TableCount m' = T /\
    (forall kv, holds l' T kv <-> (holds l T kv \/ kv = mkKeyValue k v)) /\
    MojoMultiMap.m_ActiveCount m' <= MojoMultiMap.m_ActiveCount m + 1 /\
    occupied_count l' T <= occupied_count l T + 1.
Proof.
  intros T Hsteady Hk Hroom Hocc.
  pose proof Hsteady as [Hok [Hst [Hinv [Hgrow Hshrink]]]].
  pose proof Hok as [Hl HT]. fold T in HT, Hinv.
  pose proof (occupied_count_has_empty l T HT Hocc) as Hempty.
  assert (Hidle : MojoMultiMap.m_AutoGrow m && MojoMultiMap.grow_due m
                  = false) by (rewrite Hgrow; reflexivity).
  destruct (pair_probe_spec m l Hok Hinv Hempty k v)
    as [i [Hp [Hi [Hslot [Hpath Hcase]]]]].
  fold T in Hi, Hpath, Hcase.
  assert (Hrun : MojoMultiMap.Insert (S depth) m k v
                 = if MojoMultiMap.is_empty (slot_at l i) then
                     s2 <- MojoMultiMap.store m i (mkKeyValue k v) ;;
                     let s3 := MojoMultiMap.set_ActiveCount s2
                                 (MojoMultiMap.m_ActiveCount s2 + 1) in
                     Some (MojoMultiMap.set_ChangeCount s3
                             (MojoMultiMap.m_ChangeCount s3 + 1),
                           kMojoStatus_Ok)
                   else Some (m, kMojoStatus_Ok)).
  { cbn [MojoMultiMap.Insert]. unfold MojoMultiMap.Insert_with.
    rewrite Hst, Hk. cbn [is_ok]. rewrite (AutoGrow_idle_mm _ m Hidle).
    fold T. destruct (Z.ltb_spec (MojoMultiMap.m_ActiveCount m) T); [|lia].
    rewrite Hp, Hslot. reflexivity. }
  unfold MojoMultiMap.is_empty in Hrun.
  destruct Hcase as [[Ho Hkv] | [Hv Hnot]].
  - unfold occupied in Ho. rewrite Ho in Hrun. exists m, l.
    split; [exact Hrun|]. split; [exact Hsteady|]. split; [reflexivity|].
    assert (Hheld : holds l T (mkKeyValue k v)) by (exists i; auto).
    split; [|lia].
    intros kv. split; [tauto|]. intros [Hh| ->]; assumption.
  - unfold vacant in Hv. rewrite Hv in Hrun.
    rewrite <- (retable_id m l Hl) in Hrun at 2.
    rewrite store_retable in Hrun by lia.
    set (l' := list_set l (Z.to_nat i) (mkKeyValue k v)) in *.
    set (m' := MojoMultiMap.set_ChangeCount _ _) in Hrun.
    destruct (Insert_keeps_probe_invariant (S depth) m m' l k v
                kMojoStatus_Ok (conj Hl HT) Hinv Hidle Hrun)
      as [l'' [[Hl'' _] [_ Hinv']]].
    assert (l'' = l') by (cbn in Hl''; congruence). subst l''.
    fold T in Hinv'.
    assert (Hslots : forall x, 0 <= x < T ->
              slot_at l' x = if x =? i then mkKeyValue k v else slot_at l x).
    { intros x Hx. unfold l'. destruct (Z.eqb_spec x i) as [->|Hne].
      - apply slot_at_set_same. lia.
      - apply slot_at_set_other; lia. }
    exists m', l'. split; [exact Hrun|]. split.
    { split; [split; [reflexivity|]|].
      { unfold l'. rewrite list_set_length. exact HT. }
      split; [exact Hst|]. split; [exact Hinv'|].
      split; [exact Hgrow | exact Hshrink]. }
    split; [reflexivity|]. split; [|split].
    + intros kv. split.
      * intros [x [Hx [Hox Hs]]]. unfold occupied in Hox.
        rewrite (Hslots x Hx) in Hox, Hs.
        destruct (Z.eqb_spec x i) as [->|Hne]; [right; auto|].
        left. exists x. auto.
      * intros [[x [Hx [Hox Hs]]] | ->].
        -- exists x. split; [exact Hx|]. unfold occupied.
           rewrite (Hslots x Hx).
           destruct (Z.eqb_spec x i) as [->|Hne]; [|auto].
           exfalso. exact (occupied_not_vacant l i Hox Hv).
        -- exists i. split; [exact Hi|]. unfold occupied.
           rewrite (Hslots i Hi), Z.eqb_refl. auto.
    + cbn. lia.
    + unfold l'. rewrite occupied_count_set by lia.
      cbn [kv_key]. rewrite Hv, Hk. lia.
Qed.

(** [Remove( key )] on a steady multimap with an empty slot. *)
Lemma multimap_Remove_spec (depth : nat) (m : MojoMultiMap.t key value)
    (l : list (MojoKeyValue key value)) (k : key) :
  let T := MojoMultiMap.m_TableCount m in
  multimap_steady m l -> occupied_count l T < T ->
  exists m' st l',
    MojoMultiMap.Remove depth m k = Some (m', st) /\
    multimap_steady m' l' /\ MojoMultiMap.m_TableCount m' = T /\
    (forall kv, holds l' T kv <-> (holds l T kv /\ kv_key kv <> k)) /\
    MojoMultiMap.m_ActiveCount m' <= MojoMultiMap.m_ActiveCount m /\
    occupied_count l' T <= occupied_count l T.
Proof.
  intros T Hsteady Hocc.
  pose proof Hsteady as [Hok [Hst [Hinv [Hgrow Hshrink]]]].
  pose proof Hok as [Hl HT]. fold T in HT, Hinv.
  pose proof (occupied_count_has_empty l T HT Hocc) as Hempty.
  unfold MojoMultiMap.Remove. rewrite Hst. cbn [is_ok negb].
  destruct (IsHashNull k) eqn:Hk; cbn [negb].
  { exists m, kMojoStatus_NotFound, l. split; [reflexivity|].
    split; [exact Hsteady|]. split; [reflexivity|]. split; [|lia].
    intros kv. split; [|tauto]. intros Hh. split; [exact Hh|].
    intros <-. apply holds_key_stored, stored_key_not_null in Hh.
    congruence. }
  destruct (RemoveAll_exact m l k Hok Hinv Hempty)
    as [removed [l2 [n2 [Hrm [Hlen [Hinv2 [Hem2 [Hrem [Hsame Hkv]]]]]]]]].
  fold T in Hinv2, Hem2, Hrem, Hsame, Hkv.
  destruct (RemoveAll_count m l k _ _ Hok Hrm)
    as [l3 [n3 [E [_ [Hc3 Hn3]]]]].
  apply retable_inj in E. destruct E as [<- <-]. fold T in Hc3.
  rewrite Hrm.
  destruct removed.
  - rewrite AutoShrink_off by exact Hshrink.
    eexists _, kMojoStatus_Ok, l2. split; [reflexivity|].
    split; [apply (multimap_steady_change m l l2 _ _ Hsteady Hlen Hinv2)|].
    split; [reflexivity|]. split; [exact Hkv|]. split; [cbn; lia | lia].
  - eexists _, kMojoStatus_NotFound, l2. split; [reflexivity|].
    split; [apply (multimap_steady_retable m l l2 _ Hsteady Hlen Hinv2)|].
    split; [reflexivity|]. split; [exact Hkv|]. split; [cbn; lia | lia].
Qed.

(** [Remove( key, value )] on a steady multimap with an empty slot. *)
Lemma multimap_Remove2_spec (depth : nat) (m : MojoMultiMap.t key value)
    (l : list (MojoKeyValue key value)) (k : key) (v : value) :
  let T := MojoMultiMap.m_TableCount m in
  multimap_steady m l -> occupied_count l T < T ->
  exists m' st l',
    MojoMultiMap.Remove2 depth m k v = Some (m', st) /\
    multimap_steady m' l' /\ MojoMultiMap.m_TableCount m' = T /\
    (forall kv, holds l' T kv
                <-> (holds l T kv /\
                     (value_IsHashNull v = true \/ kv <> mkKeyValue k v))) /\
    MojoMultiMap.m_ActiveCount m' <= MojoMultiMap.m_ActiveCount m /\
    occupied_count l' T <= occupied_count l T.
Proof.
  intros T Hsteady Hocc.
  pose proof Hsteady as [Hok [Hst [Hinv [Hgrow Hshrink]]]].
  pose proof Hok as [Hl HT]. fold T in HT, Hinv.
  pose proof (occupied_count_has_empty l T HT Hocc) as Hempty.
  unfold MojoMultiMap.Remove2. rewrite Hst. cbn [is_ok negb].
  destruct (IsHashNull k) eqn:Hk; cbn [negb].
  { exists m, kMojoStatus_NotFound, l. split; [reflexivity|].
    split; [exact Hsteady|]. split; [reflexivity|]. split; [|lia].
    intros kv. split; [|tauto]. intros Hh. split; [exact Hh|].
    right. intros ->. apply holds_key_stored, stored_key_not_null in Hh.
    cbn [kv_key] in Hh. congruence. }
  destruct (value_IsHashNull v) eqn:Hv.
  { unfold MojoMultiMap.RemoveOne. rewrite Hk, Hv. cbn [negb andb].
    rewrite Z.ltb_irrefl.
    exists m, kMojoStatus_NotFound, l. split; [reflexivity|].
    split; [exact Hsteady|]. split; [reflexivity|]. split; [|lia].
    intros kv. tauto. }
  destruct (RemoveOne_exact m l k v Hok Hinv Hempty Hv)
    as [removed [l2 [n2 [Hrm [Hlen [Hinv2 [Hem2 [Hrem Hkv]]]]]]]].
  fold T in Hinv2, Hem2, Hrem, Hkv.
  destruct (RemoveOne_count m l k v _ _ Hok Hrm)
    as [l3 [n3 [E [_ [Hc3 Hn3]]]]].
  apply retable_inj in E. destruct E as [<- <-]. fold T in Hc3.
  rewrite Hrm.
  assert (Hkv' : forall kv, holds l2 T kv
                            <-> (holds l T kv /\
                                 (false = true \/ kv <> mkKeyValue k v))).
  { intros kv. rewrite Hkv. split; [tauto|].
    intros [Hh [E | Hne]]; [discriminate | auto]. }
  destruct removed.
  - rewrite AutoShrink_off by exact Hshrink.
    eexists _, kMojoStatus_Ok, l2. split; [reflexivity|].
    split; [apply (multimap_steady_change m l l2 _ _ Hsteady Hlen Hinv2)|].
    split; [reflexivity|]. split; [exact Hkv'|]. split; [cbn; lia | lia].
  - eexists _, kMojoStatus_NotFound, l2. split; [reflexivity|].
    split; [apply (multimap_steady_retable m l l2 _ Hsteady Hlen Hinv2)|].
    split; [reflexivity|]. split; [exact Hkv'|]. split; [cbn; lia | lia].
Qed.

(** One call on a steady multimap with room. *)
Lemma multimap_run_op_spec (depth : nat) (m : MojoMultiMap.t key value)
    (l live : list (MojoKeyValue key value)) (op : MultiMapOp) :
  let T := MojoMultiMap.m_TableCount m in
  multimap_steady m l -> holds_book l T live ->
  MojoMultiMap.m_ActiveCount m < T -> occupied_count l T < T ->
  exists m' l',
    run_multimap_op (S depth) m op = Some m' /\
    multimap_steady m' l' /\ MojoMultiMap.m_TableCount m' = T /\
    holds_book l' T (book_op live op) /\
    MojoMultiMap.m_ActiveCount m' <= MojoMultiMap.m_ActiveCount m + 1 /\
    occupied_count l' T <= occupied_count l T + 1.
Proof.
  intros T Hsteady Hbook Hroom Hocc.
  pose proof Hsteady as [_ [Hst _]].
  destruct op as [k v|k|k v]; cbn [run_multimap_op book_op].
  - (* Insert *)
    destruct (IsHashNull k) eqn:Hk.
    + cbn [MojoMultiMap.Insert]. unfold MojoMultiMap.Insert_with.
      rewrite Hst, Hk. cbn [is_ok option_map fst].
      exists m, l. split; [reflexivity|]. split; [exact Hsteady|].
      split; [reflexivity|]. split; [|lia].
      intros kv. rewrite (Hbook kv). cbn [In]. split.
      * intros [Hn Hin]. auto.
      * intros [Hn [<- | Hin]]; [cbn [kv_key] in Hn; congruence | auto].
    + destruct (multimap_Insert_spec depth m l k v Hsteady Hk Hroom Hocc)
        as [m' [l' [Hrun [Hsteady' [HT' [Hkv [Hn Hc]]]]]]].
      fold T in HT', Hkv, Hc. rewrite Hrun. cbn [option_map fst].
      exists m', l'. split; [reflexivity|]. split; [exact Hsteady'|].
      split; [exact HT'|]. split; [|split; assumption].
      intros kv. rewrite Hkv, (Hbook kv). cbn [In]. split.
      * intros [[Hnull Hin] | ->]; auto.
      * intros [Hnull [<- | Hin]]; auto.
  - (* Remove( key ) *)
    destruct (multimap_Remove_spec (S depth) m l k Hsteady Hocc)
      as [m' [st [l' [Hrun [Hsteady' [HT' [Hkv [Hn Hc]]]]]]]].
    fold T in HT', Hkv, Hc. rewrite Hrun. cbn [option_map fst].
    exists m', l'. split; [reflexivity|]. split; [exact Hsteady'|].
    split; [exact HT'|]. split; [|split; lia].
    intros kv. rewrite Hkv, (Hbook kv), filter_In, negb_true_iff.
    split.
    + intros [[Hnull Hin] Hne]. split; [exact Hnull|]. split; [exact Hin|].
      destruct (key_eqb (kv_key kv) k) eqn:E; [|reflexivity].
      apply key_eqb_eq in E. contradiction.
    + intros [Hnull [Hin Hne]]. split; [auto|]. intros E.
      apply key_eqb_eq in E. congruence.
  - (* Remove( key, value ) *)
    destruct (multimap_Remove2_spec (S depth) m l k v Hsteady Hocc)
      as [m' [st [l' [Hrun [Hsteady' [HT' [Hkv [Hn Hc]]]]]]]].
    fold T in HT', Hkv, Hc. rewrite Hrun. cbn [option_map fst].
    exists m', l'. split; [reflexivity|]. split; [exact Hsteady'|].
    split; [exact HT'|]. split; [|split; lia].
    intros kv. rewrite Hkv, (Hbook kv).
    destruct (value_IsHashNull v) eqn:Hv.
    + tauto.
    + rewrite filter_In, negb_true_iff. split.
      * intros [[Hnull Hin] [E | Hne]]; [discriminate|].
        split; [exact Hnull|]. split; [exact Hin|].
        destruct (pair_eqb kv (mkKeyValue k v)) eqn:E; [|reflexivity].
        apply pair_eqb_eq in E. contradiction.
      * intros [Hnull [Hin Hne]]. split; [auto|]. right. intros E.
        apply pair_eqb_eq in E. congruence.
Qed.

Lemma multimap_run_ops_spec (depth : nat) (T : Z) (ops : list MultiMapOp) :
  forall (m : MojoMultiMap.t key value)
         (l live : list (MojoKeyValue key value)),
    MojoMultiMap.m_TableCount m = T ->
    multimap_steady m l -> holds_book l T live ->
    MojoMultiMap.m_ActiveCount m + Z.of_nat (length ops) < T ->
    occupied_count l T + Z.of_nat (length ops) < T ->
    exists m' l',
      run_multimap_ops (S depth) m ops = Some m' /\
      multimap_steady m' l' /\ MojoMultiMap.m_TableCount m' = T /\
      holds_book l' T (book live ops) /\ occupied_count l' T < T.
Proof.
  induction ops as [|op ops IH];
    intros m l live HT Hsteady Hbook Hroom Hocc.
  - exists m, l. split; [reflexivity|]. split; [exact Hsteady|].
    split; [exact HT|]. split; [exact Hbook|]. cbn [length] in Hocc. lia.
  - cbn [length] in Hroom, Hocc. cbn [run_multimap_ops]. unfold book.
    cbn [fold_left].
    destruct (multimap_run_op_spec depth m l live op Hsteady)
      as [m1 [l1 [Hrun [Hsteady1 [HT1 [Hbook1 [Hn1 Hc1]]]]]]];
      try (rewrite HT; (exact Hbook || lia)).
    rewrite HT in HT1, Hbook1, Hc1. rewrite Hrun.
    apply (IH m1 l1 (book_op live op) HT1 Hsteady1 Hbook1); lia.
Qed.

(** A run of [Insert], [Remove( key )] and [Remove( key, value )] calls
    on a multimap with status ok and automatic resizing off, whose table
    satisfies the probing invariant and has room for the whole run: the
    run has a result, the table keeps the probing invariant and holds the
    pairs that are live by the book, and both forms of [Contains] answer
    by the book. *)
Theorem MultiMap_operations_by_the_book (depth : nat)
    (m : MojoMultiMap.t key value) (l live : list (MojoKeyValue key value))
    (ops : list MultiMapOp) :
  let T := MojoMultiMap.m_TableCount m in
  multimap_steady m l -> holds_book l T live ->
  MojoMultiMap.GetCount m + Z.of_nat (length ops) < T ->
  occupied_count l T + Z.of_nat (length ops) < T ->
  exists m' l',
    run_multimap_ops (S depth) m ops = Some m' /\
    multimap_steady m' l' /\ MojoMultiMap.m_TableCount m' = T /\
    holds_book l' T (book live ops) /\
    (forall k v,
       MojoMultiMap.Contains2 m' k v
       = Some (negb (IsHashNull k)
               && existsb (pair_eqb (mkKeyValue k v)) (book live ops))) /\
    (forall k,
       MojoMultiMap.Contains m' k
       = Some (negb (IsHashNull k)
               && existsb (fun kv => key_eqb (kv_key kv) k)
                    (book live ops))).
Proof.
  intros T Hsteady Hbook Hroom Hocc. unfold MojoMultiMap.GetCount in Hroom.
  destruct (multimap_run_ops_spec depth T ops m l live eq_refl Hsteady Hbook
              Hroom Hocc)
    as [m' [l' [Hrun [Hsteady' [HT' [Hbook' Hocc']]]]]].
  exists m', l'. split; [exact Hrun|]. split; [exact Hsteady'|].
  split; [exact HT'|]. split; [exact Hbook'|].
  pose proof Hsteady' as [Hok' [Hst' [Hinv' _]]].
  pose proof Hok' as [_ HTl']. rewrite HT' in HTl', Hinv'.
  pose proof (occupied_count_has_empty l' T HTl' Hocc') as Hempty'.
  rewrite <- HT' in Hinv', Hempty'.
  split.
  - intros k v. destruct (IsHashNull k) eqn:Hk.
    { unfold MojoMultiMap.Contains2. rewrite Hst', Hk. reflexivity. }
    cbn [negb andb].
    destruct (Contains2_cases m' l' k v Hok' Hst' Hinv' Hempty' Hk)
      as [[-> Hh] | [-> Hh]]; rewrite HT' in Hh; f_equal.
    + symmetry. apply existsb_exists. exists (mkKeyValue k v).
      split; [apply Hbook'; exact Hh | apply pair_eqb_eq; reflexivity].
    + destruct (existsb (pair_eqb (mkKeyValue k v)) (book live ops)) eqn:E;
        [|reflexivity].
      exfalso. apply Hh. apply existsb_exists in E.
      destruct E as [kv [Hin E]]. apply pair_eqb_eq in E. subst kv.
      apply Hbook'. auto.
  - intros k. destruct (IsHashNull k) eqn:Hk.
    { unfold MojoMultiMap.Contains. rewrite Hst', Hk. reflexivity. }
    cbn [negb andb].
    destruct (Contains_cases m' l' k Hok' Hst' Hinv' Hempty' Hk)
      as [[-> Hs] | [-> Hs]]; rewrite HT' in Hs; f_equal.
    + symmetry. apply existsb_exists.
      apply stored_iff_holds in Hs. destruct Hs as [v Hh].
      exists (mkKeyValue k v). split; [apply Hbook'; exact Hh|].
      apply key_eqb_refl.
    + destruct (existsb (fun kv => key_eqb (kv_key kv) k) (book live ops))
        eqn:E; [|reflexivity].
      exfalso. apply Hs. apply existsb_exists in E.
      destruct E as [kv [Hin E]]. apply key_eqb_eq in E.
      apply stored_iff_holds. exists (kv_value kv). apply Hbook'.
      destruct kv as [k' v']. cbn [kv_key kv_value] in *. subst k'. auto.
Qed.

End MultiMapRuns.

Lemma steady_multimap_holds_book :
  holds_book interleaved_table 8
    [mkKeyValue 1 11; mkKeyValue 9 20; mkKeyValue 1 12].
Proof.
  intros kv. split.
  - intros [i [Hi [Ho Hk]]].
    assert (Hs : i = 0 \/ i = 1 \/ i = 2 \/ i = 3 \/ i = 4 \/ i = 5
                 \/ i = 6 \/ i = 7) by lia.
    destruct Hs as [-> | [-> | [-> | [-> | [-> | [-> | [-> | ->]]]]]]];
      try discriminate Ho; subst kv; split; try reflexivity; cbn; auto.
  - intros [Hn [<- | [<- | [<- | []]]]].
    + exists 1. split; [lia | split; reflexivity].
    + exists 2. split; [lia | split; reflexivity].
    + exists 3. split; [lia | split; reflexivity].
Qed.

(** Insert (2,7), remove key 1, remove (9,20) and insert (9,21) on the
    steady multimap that holds (1,11), (9,20) and (1,12). *)
Lemma MultiMap_operations_by_the_book_witness :
  exists m' l',
    run_multimap_ops 1 steady_multimap
      [MOpInsert 2 7; MOpRemove 1; MOpRemove2 9 20; MOpInsert 9 21]
    = Some m' /\
    multimap_steady m' l' /\ MojoMultiMap.m_TableCount m' = 8 /\
    holds_book l' 8
      (book [mkKeyValue 1 11; mkKeyValue 9 20; mkKeyValue 1 12]
         [MOpInsert 2 7; MOpRemove 1; MOpRemove2 9 20; MOpInsert 9 21]) /\
    (forall k v,
       MojoMultiMap.Contains2 m' k v
       = Some (negb (IsHashNull k)
               && existsb (pair_eqb (mkKeyValue k v))
                    (book [mkKeyValue 1 11; mkKeyValue 9 20; mkKeyValue 1 12]
                       [MOpInsert 2 7; MOpRemove 1; MOpRemove2 9 20;
                        MOpInsert 9 21]))) /\
    (forall k,
       MojoMultiMap.Contains m' k
       = Some (negb (IsHashNull k)
               && existsb (fun kv => key_eqb (kv_key kv) k)
                    (book [mkKeyValue 1 11; mkKeyValue 9 20; mkKeyValue 1 12]
                       [MOpInsert 2 7; MOpRemove 1; MOpRemove2 9 20;
                        MOpInsert 9 21]))).
Proof.
  apply (MultiMap_operations_by_the_book 0 steady_multimap interleaved_table
           [mkKeyValue 1 11; mkKeyValue 9 20; mkKeyValue 1 12]
           [MOpInsert 2 7; MOpRemove 1; MOpRemove2 9 20; MOpInsert 9 21]).
  - split; [split; [reflexivity | simpl; lia]|].
    split; [reflexivity|].
    split; [apply probe_invariantb_sound; vm_compute; reflexivity|].
    split; reflexivity.
  - exact steady_multimap_holds_book.
  - simpl. lia.
  - vm_compute. reflexivity.
Defined.

(* ------------------------------------------------------------------------- *)
(** ** Shrinking a set inside its buffer *)

Section SetShrinkBasics.
Context {key : Type} `{MojoKey key}.

(** The keys do not change over a run of empty slots. *)
Lemma table_keys_empty_run (l : list key) (a : Z) (n : nat) :
  0 <= a -> a + Z.of_nat n <= Z.of_nat (length l) ->
  (forall y, a <= y < a + Z.of_nat n -> IsHashNull (key_slot l y) = true) ->
  table_keys l (a + Z.of_nat n) = table_keys l a.
Proof.
  intros Ha. induction n as [|n IH]; intros Hlen Hrun.
  - replace (a + Z.of_nat 0) with a by lia. reflexivity.
  - replace (a + Z.of_nat (S n)) with (a + Z.of_nat n + 1) by lia.
    rewrite table_keys_succ by lia.
    rewrite (Hrun (a + Z.of_nat n)) by lia.
    rewrite app_nil_r. apply IH; [lia|].
    intros y Hy. apply Hrun. lia.
Qed.

(** A table with fewer keys than slots has an empty slot, and a first
    one. *)
Lemma first_empty_slot (l : list key) (T : Z) :
  0 < T <= Z.of_nat (length l) ->
  Z.of_nat (length (table_keys l T)) < T ->
  exists e, 0 <= e < T /\ IsHashNull (key_slot l e) = true /\
            forall y, 0 <= y < e -> IsHashNull (key_slot l y) = false.
Proof.
  intros HT Hcount.
  assert (Hgen : forall n : nat,
            (exists e, 0 <= e < Z.of_nat n
                       /\ IsHashNull (key_slot l e) = true
                       /\ forall y, 0 <= y < e ->
                                    IsHashNull (key_slot l y) = false)
            \/ all_occupied l 0 (Z.of_nat n - 1)).
  { induction n as [|n [[e [Hne Hrest]] | Hall]].
    - right. intros y Hy. lia.
    - left. exists e. split; [lia | exact Hrest].
    - destruct (IsHashNull (key_slot l (Z.of_nat n))) eqn:E.
      + left. exists (Z.of_nat n). split; [lia|]. split; [exact E|].
        intros y Hy. apply Hall. lia.
      + right. intros y Hy.
        destruct (Z.eq_dec y (Z.of_nat n)) as [->|Hne];
          [exact E | apply Hall; lia]. }
  destruct (Hgen (Z.to_nat T)) as [[e [Hne Hrest]] | Hall].
  - exists e. split; [lia | exact Hrest].
  - exfalso.
    pose proof (table_keys_run l 0 (Z.to_nat T)) as Hc.
    replace (0 + Z.of_nat (Z.to_nat T)) with T in Hc by lia.
    rewrite Hc in Hcount; [cbn in Hcount; lia | lia | lia |].
    intros y Hy. apply Hall. lia.
Qed.

End SetShrinkBasics.

Section SetShrinkStart.
Context {key : Type} `{MojoKey key}.
Variable T : Z.
Variable l0 : list key.
Variable e : Z.
Hypothesis HT : 0 < T.
Hypothesis Hlen0 : 2 * T <= Z.of_nat (length l0).
Hypothesis Hinv0 : set_probe_invariant l0 (2 * T).
Hypothesis Hcount0 : Z.of_nat (length (table_keys l0 (2 * T))) < T.
Hypothesis He : 0 <= e < T.
Hypothesis Hve : IsHashNull (key_slot l0 e) = true.
Hypothesis Hrun : forall y, 0 <= y < e -> IsHashNull (key_slot l0 y) = false.

(** Where the keys of the lower half start their probes in the halved
    table: with fewer than [T] keys, a key that sits below the slot where
    its probe starts came around the end of the table, and starts behind
    the first empty slot. *)
Lemma lower_key_homes (j : Z) :
  0 <= j < T -> IsHashNull (key_slot l0 j) = false ->
  (j < e -> GetHash (key_slot l0 j) mod T <= j
            \/ e < GetHash (key_slot l0 j) mod T) /\
  (e < j -> e < GetHash (key_slot l0 j) mod T <= j /\
            set_reachable l0 T j).
Proof.
  intros Hj Ho.
  assert (Hje : j <> e) by (intros ->; congruence).
  pose proof (Hinv0 j ltac:(lia) Ho) as Hreach.
  unfold set_reachable in Hreach.
  set (k := key_slot l0 j) in *.
  assert (Hh : 0 <= GetHash k mod T < T) by (apply Z.mod_pos_bound; lia).
  assert (HH : 0 <= GetHash k mod (2 * T) < 2 * T)
    by (apply Z.mod_pos_bound; lia).
  destruct (home_doubled_cases k T HT) as [EH | EH].
  - (* the probe started in the lower half *)
    rewrite EH in Hreach.
    destruct (Z_le_gt_dec (GetHash k mod T) j) as [Hle | Hgt].
    + assert (Hpath : forall y, GetHash k mod T <= y < j ->
                                IsHashNull (key_slot l0 y) = false).
      { intros y Hy. apply Hreach; [lia|]. cyc. }
      split; [intros _; left; exact Hle|].
      intros Hej. split.
      * split; [|exact Hle].
        destruct (Z_lt_ge_dec e (GetHash k mod T)) as [Hlt|Hge];
          [exact Hlt|].
        rewrite (Hpath e) in Hve by lia. discriminate.
      * intros y Hy Hd. fold k in Hd. apply Hpath. cyc.
    + exfalso.
      assert (Hfull : all_occupied l0 T (2 * T - 1)).
      { intros y Hy. apply Hreach; [lia|]. cyc. }
      pose proof (upper_full_count l0 T j HT Hlen0 Hfull Hj Ho). lia.
  - (* the probe started in the upper half and came around the end *)
    rewrite EH in Hreach.
    assert (Hlow : forall y, 0 <= y < j ->
                             IsHashNull (key_slot l0 y) = false).
    { intros y Hy. apply Hreach; [lia|]. cyc. }
    assert (Hup : all_occupied l0 (GetHash k mod T + T) (2 * T - 1)).
    { intros y Hy. apply Hreach; [lia|]. cyc. }
    assert (Hlt : j < e).
    { destruct (Z_lt_ge_dec j e) as [Hlt|Hge]; [exact Hlt|].
      rewrite (Hlow e) in Hve by lia. discriminate. }
    split; [|intros Hej; lia]. intros _. right.
    assert (Hc1 : Z.of_nat (length (table_keys l0 (2 * T)))
                  = Z.of_nat (length (table_keys l0 (GetHash k mod T + T)))
                    + (T - GetHash k mod T)).
    { pose proof (table_keys_run l0 (GetHash k mod T + T)
                    (Z.to_nat (T - GetHash k mod T))) as Hc.
      replace (GetHash k mod T + T
               + Z.of_nat (Z.to_nat (T - GetHash k mod T)))
        with (2 * T) in Hc by lia.
      rewrite Hc; [lia | lia | lia | exact Hup]. }
    assert (Hc2 : Z.of_nat (length (table_keys l0 e)) = e).
    { pose proof (table_keys_run l0 0 (Z.to_nat e)) as Hc.
      replace (0 + Z.of_nat (Z.to_nat e)) with e in Hc by lia.
      rewrite Hc; [cbn; lia | lia | lia |].
      intros y Hy. apply Hrun. lia. }
    assert (Hc3 : 0 <= e <= GetHash k mod T + T) by lia.
    apply (table_keys_mono l0) in Hc3. lia.
Qed.

Lemma halving_start : no_duplicates l0 (2 * T) -> halving l0 l0 T e 0.
Proof.
  intros Hnd.
  split; [apply same_keys_refl; exact Hnd|].
  split; [reflexivity|]. split; [intros j Hj; lia|].
  split.
  { intros j Hj Ho [Hlt | Hej]; [lia|].
    apply (lower_key_homes j Hj Ho). exact Hej. }
  split; [reflexivity|].
  intros _. split; [exact Hve|].
  intros j Hj Ho. destruct (lower_key_homes j Hj Ho) as [H1 H2].
  split; [exact H1|]. intros Hej. apply (H2 Hej).
Qed.

End SetShrinkStart.


Section SetShrinkLoop.
Context {key : Type} `{MojoKey key}.
Variable T : Z.
Variable l0 : list key.
Variable e : Z.
Hypothesis HT : 0 < T.
Hypothesis Hlen0 : 2 * T <= Z.of_nat (length l0).
Hypothesis He : 0 <= e < T.

Lemma no_duplicates_lower (l : list key) :
  no_duplicates l (2 * T) -> no_duplicates l T.
Proof. intros Hnd a b Ha Hb. apply Hnd; lia. Qed.

(** The loop passes an empty slot. *)
Lemma halving_skip (l : list key) (i : Z) :
  halving l0 l T e i -> IsHashNull (key_slot l i) = true ->
  halving l0 l T e (i + 1).
Proof.
  intros [Hsame [Hup [Hdone [Hreach [Hmid Hfront]]]]] Hv.
  split; [exact Hsame|].
  split; [intros j Hj Hij; apply Hup; lia|].
  split.
  { intros j Hj. destruct (Z.eq_dec j i) as [->|Hne]; [exact Hv|].
    apply Hdone. lia. }
  split.
  { intros j Hj Ho Hcase. apply Hreach; auto.
    destruct (Z.eq_dec j i) as [->|Hne]; [congruence|]. lia. }
  split; [intros j Hj; apply Hmid; lia|].
  intros Hie. apply Hfront. lia.
Qed.

(** The loop leaves a key of the lower half where it is. *)
Lemma halving_keep (l : list key) (i : Z) :
  halving l0 l T e i -> 0 <= i < T -> set_reachable l T i ->
  halving l0 l T e (i + 1).
Proof.
  intros [Hsame [Hup [Hdone [Hreach [Hmid Hfront]]]]] Hi Hri.
  split; [exact Hsame|].
  split; [intros j Hj Hij; apply Hup; lia|].
  split; [intros j Hj; apply Hdone; lia|].
  split.
  { intros j Hj Ho Hcase.
    destruct (Z.eq_dec j i) as [->|Hne]; [exact Hri|].
    apply Hreach; auto. lia. }
  split; [intros j Hj; apply Hmid; lia|].
  intros Hie. apply Hfront. lia.
Qed.

(** A key before the first empty slot moves to a slot that the loop has
    emptied, or behind the first empty slot. *)
Lemma halving_step_low (l : list key) (i p : Z) :
  halving l0 l T e i -> 0 <= i < e ->
  IsHashNull (key_slot l i) = false ->
  0 <= p < T ->
  MojoSet.hit (key_slot l i) (key_slot l p) = true ->
  (forall y, 0 <= y < T ->
             dist T (GetHash (key_slot l i) mod T) y
             < dist T (GetHash (key_slot l i) mod T) p ->
             IsHashNull (key_slot l y) = false
             /\ key_slot l y <> key_slot l i) ->
  dist T (GetHash (key_slot l i) mod T) p
  <= dist T (GetHash (key_slot l i) mod T) i ->
  halving l0
    (if p =? i then l
     else list_set (list_set l (Z.to_nat p) (key_slot l i)) (Z.to_nat i)
            key_default) T e (i + 1).
Proof.
  intros Hhalf Hi Hoi Hp Hhit Hpath Hle.
  destruct (Z.eqb_spec p i) as [->|Hpi].
  { apply halving_keep; [exact Hhalf | lia|].
    intros y Hy Hd. apply Hpath; assumption. }
  pose proof Hhalf as [Hsame [Hup [Hdone [Hreach [Hmid Hfront]]]]].
  pose proof Hsame as [Hlen [_ [Hnd2 _]]].
  pose proof (no_duplicates_lower l Hnd2) as Hnd.
  assert (HlenT : T <= Z.of_nat (length l)) by (rewrite Hlen; lia).
  assert (HiT : 0 <= i < T) by lia.
  destruct (Hfront ltac:(lia)) as [Hve Hhome].
  pose proof (reinsert_target_empty T l i p HiT Hp Hhit Hnd Hpi) as Hvp.
  pose proof (reinsert_target_before T l i p HiT Hp Hle Hpi) as Hlt.
  set (k := key_slot l i) in *.
  assert (Hk : 0 <= GetHash k mod T < T) by (apply Z.mod_pos_bound; lia).
  destruct (Hhome i HiT Hoi) as [Hhi _]. fold k in Hhi.
  specialize (Hhi ltac:(lia)).
  assert (Hwhere : (GetHash k mod T <= p /\ p < i)
                   \/ (e < GetHash k mod T /\ GetHash k mod T <= p)
                   \/ (e < GetHash k mod T /\ p < i)).
  { destruct Hhi; cyc. }
  assert (Hpe : p <> e) by lia.
  set (l' := list_set (list_set l (Z.to_nat p) k) (Z.to_nat i) key_default).
  assert (Hslot : forall x, 0 <= x < T ->
            key_slot l' x = if x =? i then key_default
                            else if x =? p then k else key_slot l x).
  { intros x Hx. apply (key_slot_move l T); auto. }
  assert (Hhigh : forall x, T <= x -> key_slot l' x = key_slot l x).
  { intros x Hx. unfold l'. rewrite !key_slot_set_other by lia.
    reflexivity. }
  assert (Hdn : IsHashNull (key_default : key) = true)
    by (apply IsHashNull_default; reflexivity).
  split.
  { apply same_keys_reinserted; auto; lia. }
  split.
  { intros j Hj Hij. rewrite Hhigh by lia. apply Hup; lia. }
  split; [intros j Hj; lia|].
  split.
  { intros j Hj Ho Hcase. rewrite Hslot in Ho by exact Hj.
    destruct (Z.eqb_spec j i) as [->|Hji]; [congruence|].
    destruct (Z.eqb_spec j p) as [->|Hjp].
    - pose proof (reinserted_reachable T l i p HlenT HiT Hp Hoi Hhit Hpath
                    Hle) as Hr.
      destruct (Z.eqb_spec p i) as [E|_]; [contradiction | exact Hr].
    - assert (Hje : j <> e) by (intros ->; congruence).
      assert (Hrj : set_reachable l T j) by (apply Hreach; auto; lia).
      pose proof (reinserted_keeps_reachable T l i p HlenT HiT Hp Hoi j Hj
                    Hji Hjp Hrj) as Hr.
      destruct (Z.eqb_spec p i) as [E|_]; [contradiction|].
      apply Hr. right.
      destruct (Hhome j Hj Ho) as [H1 H2].
      assert (Hkj : 0 <= GetHash (key_slot l j) mod T < T)
        by (apply Z.mod_pos_bound; lia).
      destruct (Z_lt_ge_dec j e) as [Hlt'|Hge].
      + specialize (H1 Hlt'). destruct H1; cyc.
      + specialize (H2 ltac:(lia)). cyc. }
  split.
  { intros j Hj. rewrite Hslot by lia.
    destruct (Z.eqb_spec j i) as [E|_]; [lia|].
    destruct (Z.eqb_spec j p) as [E|_]; [lia|]. apply Hmid. lia. }
  intros Hie. split.
  { rewrite Hslot by lia.
    destruct (Z.eqb_spec e i) as [E|_]; [lia|].
    destruct (Z.eqb_spec e p) as [E|_]; [lia | exact Hve]. }
  intros j Hj Ho. rewrite Hslot in Ho |- * by exact Hj.
  destruct (Z.eqb_spec j i) as [->|Hji]; [congruence|].
  destruct (Z.eqb_spec j p) as [->|Hjp]; [lia|].
  apply Hhome; assumption.
Qed.

(** A key behind the first empty slot stays where it is. *)
Lemma halving_step_mid (l : list key) (i p : Z) :
  halving l0 l T e i -> e <= i < T ->
  IsHashNull (key_slot l i) = false ->
  0 <= p < T ->
  MojoSet.hit (key_slot l i) (key_slot l p) = true ->
  dist T (GetHash (key_slot l i) mod T) p
  <= dist T (GetHash (key_slot l i) mod T) i ->
  p = i /\ halving l0 l T e (i + 1).
Proof.
  intros Hhalf Hi Hoi Hp Hhit Hle.
  pose proof Hhalf as [Hsame [Hup [Hdone [Hreach [Hmid Hfront]]]]].
  pose proof Hsame as [Hlen [_ [Hnd2 _]]].
  assert (Hie : i <> e).
  { intros ->. destruct (Hfront ltac:(lia)) as [Hve _]. congruence. }
  assert (Hri : set_reachable l T i) by (apply Hreach; auto; lia).
  split; [|apply halving_keep; [exact Hhalf | lia | exact Hri]].
  destruct (Z.eq_dec p i) as [E|Hpi]; [exact E|]. exfalso.
  assert (HiT : 0 <= i < T) by lia.
  pose proof (reinsert_target_before T l i p HiT Hp Hle Hpi) as Hlt.
  pose proof (Hri p Hp Hlt) as Hop.
  apply (set_hit_occupied _ _ Hop) in Hhit.
  apply Hpi. apply Hnd2; auto; lia.
Qed.

(** A key of the upper half moves to the first empty slot of its path in
    the lower half. *)
Lemma halving_step_up (l : list key) (i p : Z) :
  halving l0 l T e i -> T <= i < 2 * T ->
  IsHashNull (key_slot l i) = false ->
  0 <= p < T ->
  MojoSet.hit (key_slot l i) (key_slot l p) = true ->
  (forall y, 0 <= y < T ->
             dist T (GetHash (key_slot l i) mod T) y
             < dist T (GetHash (key_slot l i) mod T) p ->
             IsHashNull (key_slot l y) = false
             /\ key_slot l y <> key_slot l i) ->
  halving l0
    (list_set (list_set l (Z.to_nat p) (key_slot l i)) (Z.to_nat i)
       key_default) T e (i + 1).
Proof.
  intros Hhalf Hi Hoi Hp Hhit Hpath.
  pose proof Hhalf as [Hsame [Hup [Hdone [Hreach [Hmid Hfront]]]]].
  pose proof Hsame as [Hlen [_ [Hnd2 _]]].
  assert (Hlen2 : 2 * T <= Z.of_nat (length l)) by (rewrite Hlen; lia).
  assert (Hvp : IsHashNull (key_slot l p) = true).
  { destruct (IsHashNull (key_slot l p)) eqn:Hop; [reflexivity|]. exfalso.
    apply (set_hit_occupied _ _ Hop) in Hhit.
    assert (p = i) by (apply Hnd2; auto; lia). lia. }
  set (k := key_slot l i) in *.
  assert (Hk : 0 <= GetHash k mod T < T) by (apply Z.mod_pos_bound; lia).
  set (l' := list_set (list_set l (Z.to_nat p) k) (Z.to_nat i) key_default).
  assert (Hslot : forall x, 0 <= x < 2 * T ->
            key_slot l' x = if x =? i then key_default
                            else if x =? p then k else key_slot l x).
  { intros x Hx. apply (key_slot_move l (2 * T)); auto; lia. }
  assert (Hdn : IsHashNull (key_default : key) = true)
    by (apply IsHashNull_default; reflexivity).
  assert (Hocc : forall y, 0 <= y < T -> IsHashNull (key_slot l y) = false ->
                           IsHashNull (key_slot l' y) = false).
  { intros y Hy Ho. rewrite Hslot by lia.
    destruct (Z.eqb_spec y i) as [E|_]; [lia|].
    destruct (Z.eqb_spec y p) as [E|_]; [exact Hoi | exact Ho]. }
  split.
  { apply same_keys_reinserted; auto; lia. }
  split.
  { intros j Hj Hij. rewrite Hslot by lia.
    destruct (Z.eqb_spec j i) as [E|_]; [lia|].
    destruct (Z.eqb_spec j p) as [E|_]; [lia|]. apply Hup; lia. }
  split.
  { intros j Hj. rewrite Hslot by lia.
    destruct (Z.eqb_spec j i) as [E|Hji]; [exact Hdn|].
    destruct (Z.eqb_spec j p) as [E|_]; [lia|]. apply Hdone. lia. }
  split.
  { intros j Hj Ho _ y Hy Hd. rewrite Hslot in Ho, Hd by lia.
    destruct (Z.eqb_spec j i) as [E|_]; [lia|].
    destruct (Z.eqb_spec j p) as [->|Hjp].
    - apply Hocc; [exact Hy|]. apply Hpath; assumption.
    - apply Hocc; [exact Hy|].
      apply (Hreach j Hj Ho ltac:(lia) y Hy Hd). }
  split; [intros j Hj; lia|].
  intros Hie. lia.
Qed.

(** Once the loop is through, the lower half is a table of its own. *)
Lemma halving_done (l : list key) :
  halving l0 l T e (2 * T) ->
  set_probe_invariant l T /\ no_duplicates l T /\
  (forall k, member l T k <-> member l0 (2 * T) k) /\
  Z.of_nat (length (table_keys l T))
  = Z.of_nat (length (table_keys l0 (2 * T))) /\
  length l = length l0 /\
  (forall y, T <= y < 2 * T -> IsHashNull (key_slot l y) = true).
Proof.
  intros [Hsame [Hup [Hdone [Hreach [Hmid Hfront]]]]].
  destruct Hsame as [Hlen [Hmem [Hnd2 Hcnt]]].
  split.
  { intros j Hj Ho. apply Hreach; auto. lia. }
  split; [apply no_duplicates_lower; exact Hnd2|].
  split.
  { intros k. rewrite <- Hmem. split.
    - intros [x [Hx Hrest]]. exists x. split; [lia | exact Hrest].
    - intros [x [Hx [Ho Hk]]]. exists x. split; [|auto].
      destruct (Z_lt_ge_dec x T); [lia|].
      rewrite Hdone in Ho by lia. discriminate. }
  split.
  { rewrite <- Hcnt. f_equal. f_equal. symmetry.
    pose proof (table_keys_empty_run l T (Z.to_nat T)) as E.
    replace (T + Z.of_nat (Z.to_nat T)) with (2 * T) in E by lia.
    apply E; [lia | rewrite Hlen; lia|].
    intros y Hy. apply Hdone. lia. }
  split; [exact Hlen|].
  intros y Hy. apply Hdone. lia.
Qed.

End SetShrinkLoop.

Section SetShrinkInPlace.
Context {key : Type} `{MojoKey key}.

(** [Reinsert] of a slot of the buffer behind the table, with an empty
    slot in the table: the key moves to the first slot of its probe path
    that is empty or holds it. *)
Lemma set_Reinsert_outside (s : MojoSet.t key) (l : list key) (n j : Z) :
  let T := MojoSet.m_TableCount s in
  let k := key_slot l j in
  0 < T <= Z.of_nat (length l) -> T <= j < Z.of_nat (length l) ->
  set_has_empty l T ->
  exists p,
    0 <= p < T /\
    MojoSet.hit k (key_slot l p) = true /\
    (forall y, 0 <= y < T ->
               dist T (GetHash k mod T) y < dist T (GetHash k mod T) p ->
               IsHashNull (key_slot l y) = false /\ key_slot l y <> k) /\
    MojoSet.Reinsert (set_table s l n) j
    = Some (set_table s (list_set (list_set l (Z.to_nat p) k)
                           (Z.to_nat j) key_default) n).
Proof.
  intros T k HT Hj [h [Hh Hvh]].
  destruct (set_probe_first_hit l k T HT) as [p [Hp [Hrange [Hhit Hmiss]]]].
  { exists h. split; [exact Hh|]. apply set_hit_null. exact Hvh. }
  exists p. split; [exact Hrange|]. split; [exact Hhit|]. split.
  - intros y Hy Hd. specialize (Hmiss y Hy Hd).
    destruct (IsHashNull (key_slot l y)) eqn:E.
    + rewrite (set_hit_null k _ E) in Hmiss. discriminate.
    + split; [reflexivity|]. intros Hk.
      apply (set_hit_occupied k _ E) in Hk. congruence.
  - unfold MojoSet.Reinsert.
    rewrite key_at_set_table by lia. fold k.
    unfold MojoSet.FindEmptyOrMatching.
    cbn [MojoSet.m_Keys MojoSet.m_TableCount set_table
         MojoSet.set_ActiveCount MojoSet.set_Keys].
    fold T. rewrite Hp.
    destruct (Z.eqb_spec p j) as [E|_]; [lia|]. simpl.
    rewrite store_set_table by lia.
    rewrite store_set_table by (rewrite list_set_length; lia).
    reflexivity.
Qed.

(** [Resize] in place to half the table count, on a set in its invariant
    that holds fewer keys than the halved table has slots: every key is
    reachable in the halved table afterwards, the upper half is empty and
    the buffer behind the old table is as it was. *)
Lemma set_Resize_in_place_halves (s : MojoSet.t key) (l0 : list key)
    (T : Z) :
  set_invariant s l0 -> MojoSet.m_TableCount s = 2 * T -> 0 < T ->
  MojoSet.m_ActiveCount s < T ->
  exists l2,
    MojoSet.Resize_in_place s T
    = Some (set_table (MojoSet.set_TableCount s T) l2
              (MojoSet.m_ActiveCount s)) /\
    set_invariant
      (set_table (MojoSet.set_TableCount s T) l2
         (MojoSet.m_ActiveCount s)) l2 /\
    length l2 = length l0 /\
    (forall k, member l2 T k <-> member l0 (2 * T) k) /\
    (forall y, T <= y < 2 * T -> IsHashNull (key_slot l2 y) = true) /\
    (forall y, 2 * T <= y -> key_slot l2 y = key_slot l0 y).
Proof.
  intros Hinvs HT2 HT0 Hroom.
  pose proof Hinvs as [Hok [Hst [Hinv [Hnd Hpar]]]].
  pose proof Hok as [Hl HT]. rewrite HT2 in HT, Hinv, Hnd.
  assert (Hlen0 : 2 * T <= Z.of_nat (length l0)) by lia.
  assert (HN : MojoSet.m_ActiveCount s
               = Z.of_nat (length (table_keys l0 (2 * T)))).
  { rewrite Hpar. unfold occupied_slots. rewrite Hl, HT2. reflexivity. }
  assert (Hcount0 : Z.of_nat (length (table_keys l0 (2 * T))) < T) by lia.
  assert (Hlow0 : Z.of_nat (length (table_keys l0 T)) < T).
  { pose proof (table_keys_mono l0 T (2 * T) ltac:(lia)). lia. }
  destruct (first_empty_slot l0 T ltac:(lia) Hlow0) as [e [He [Hve Hrun]]].
  set (n := MojoSet.m_ActiveCount s) in *.
  set (s1 := MojoSet.set_TableCount s T).
  assert (Hs1 : s1 = set_table s1 l0 n).
  { symmetry. apply (set_table_id s1 l0). exact Hl. }
  unfold MojoSet.Resize_in_place. rewrite HT2.
  destruct (Z.ltb_spec T (2 * T)) as [_|Hc]; [|lia].
  fold s1.
  set (P := fun (i : Z) (st : MojoSet.t key) =>
              exists l, st = set_table s1 l n /\ halving l0 l T e i /\
                        forall y, 2 * T <= y ->
                                  key_slot l y = key_slot l0 y).
  destruct (for_up_total P (fun _ : MojoSet.t key => False)
              MojoSet.reinsert_occupied (Z.to_nat (2 * T - 0)) 0 s1)
    as [r [Hr Hres]].
  { exists l0. split; [exact Hs1|]. split; [|reflexivity].
    apply halving_start; assumption. }
  { intros i st Hi [l [-> [Hhalf Htail]]].
    pose proof Hhalf as [[Hlen [_ [Hnd2 Hcnt]]] _].
    unfold MojoSet.reinsert_occupied.
    rewrite key_at_set_table by (rewrite Hlen; lia).
    destruct (IsHashNull (key_slot l i)) eqn:Ho; cbn [negb].
    - eexists. split; [reflexivity|]. exists l. split; [reflexivity|].
      split; [|exact Htail]. apply halving_skip; assumption.
    - destruct (Z_lt_ge_dec i T) as [HiT|HiT].
      + pose proof (set_Reinsert_table s1 l n i) as Hre.
        cbn [s1 MojoSet.m_TableCount MojoSet.set_TableCount] in Hre.
        destruct Hre as [p [Hp [Hhit [Hpath [Hle Hre]]]]];
          [rewrite Hlen; lia | lia|].
        rewrite Hre. eexists. split; [reflexivity|]. eexists.
        split; [reflexivity|].
        destruct (Z_lt_ge_dec i e) as [Hie|Hie].
        * split.
          -- apply (halving_step_low T l0 e HT0 Hlen0 He l i p); auto. lia.
          -- intros y Hy. destruct (p =? i); [apply Htail; exact Hy|].
             rewrite !key_slot_set_other by lia. apply Htail. exact Hy.
        * destruct (halving_step_mid T l0 e He l i p Hhalf ltac:(lia) Ho Hp
                      Hhit Hle) as [-> Hnext].
          rewrite Z.eqb_refl. split; [exact Hnext | exact Htail].
      + assert (Hempty : set_has_empty l T).
        { destruct (first_empty_slot l T ltac:(rewrite Hlen; lia))
            as [h [Hh [Hvh _]]].
          - pose proof (table_keys_mono l T (2 * T) ltac:(lia)). lia.
          - exists h. auto. }
        pose proof (set_Reinsert_outside s1 l n i) as Hre.
        cbn [s1 MojoSet.m_TableCount MojoSet.set_TableCount] in Hre.
        destruct Hre as [p [Hp [Hhit [Hpath Hre]]]];
          [rewrite Hlen; lia | rewrite Hlen; lia | exact Hempty|].
        rewrite Hre. eexists. split; [reflexivity|]. eexists.
        split; [reflexivity|]. split.
        * apply (halving_step_up T l0 e HT0 Hlen0 He l i p); auto. lia.
        * intros y Hy. rewrite !key_slot_set_other by lia.
          apply Htail. exact Hy. }
  unfold for_range. rewrite Hr. destruct r as [st|x]; [|contradiction].
  replace (0 + Z.of_nat (Z.to_nat (2 * T - 0))) with (2 * T) in Hres by lia.
  destruct Hres as [l2 [-> [Hhalf Htail]]]. cbn [loop_end].
  destruct (halving_done T l0 e HT0 Hlen0 l2 Hhalf)
    as [Hinv2 [Hnd2 [Hmem2 [Hcnt2 [Hlen2 Hup2]]]]].
  exists l2. split; [reflexivity|].
  split; [|split; [exact Hlen2 | split; [exact Hmem2 | split; assumption]]].
  split; [split; [reflexivity|]|].
  { cbn [s1 set_table MojoSet.m_TableCount MojoSet.set_TableCount
         MojoSet.set_ActiveCount MojoSet.set_Keys].
    rewrite Hlen2. lia. }
  split; [exact Hst|]. split; [exact Hinv2|]. split; [exact Hnd2|].
  unfold count_parity.
  change (occupied_slots (set_table s1 l2 n))
    with (Z.of_nat (length (table_keys l2 T))).
  change (MojoSet.m_ActiveCount (set_table s1 l2 n)) with n.
  rewrite Hcnt2. exact HN.
Qed.

End SetShrinkInPlace.

Section SetShrinkCalls.
Context {key : Type} `{MojoKey key}.


End SetShrinkCalls.

